(** * MysteryGiftInjector2: save container, gift codec and ROM accessor

    A shallow embedding of the binary-format core of the injector
    (savefile.cpp, mysterygift.cpp, gbaromreader.cpp) together with the
    properties of its checksum, slot-selection, codec and decompression
    routines.

    Conventions.
    - A [QByteArray] is a [list Z]; reading an element through a
      [uint8_t] pointer yields the stored value reduced modulo 256.
    - A pointer into a buffer ([saveData + sectionOffset]) is the suffix
      of the buffer that starts there ([drop]); stores go through
      [poke] on the owning buffer at the absolute offset.
    - Fixed-width unsigned arithmetic is written out with explicit
      reductions ([u16], [u32]). *)

From Stdlib Require Import ZArith Lia Bool String.
From stdpp Require Import base tactics option list numbers.

Local Open Scope Z_scope.

(** ** Machine integers and byte access *)

Definition u8 (x : Z) : Z := x mod 256.
Definition u16 (x : Z) : Z := x mod 65536.
Definition u32 (x : Z) : Z := x mod 4294967296.

(** [data[i]] through a [const uint8_t*]. Callers stay inside the buffer;
    the default is never observed on the paths verified below. *)
Definition peek (data : list Z) (i : Z) : Z :=
  u8 (default 0 (data !! Z.to_nat i)).

(** [data[i] = v] through a [uint8_t*]. *)
Definition poke (data : list Z) (i : Z) (v : Z) : list Z :=
  <[Z.to_nat i := v]> data.

(** [p + n] for a pointer [p] into a byte buffer. *)
Definition advance (data : list Z) (n : Z) : list Z := drop (Z.to_nat n) data.

(** Little-endian composition as the sources write it. *)
Definition le16 (data : list Z) (off : Z) : Z :=
  Z.lor (peek data off) (Z.shiftl (peek data (off + 1)) 8).

Definition le32 (data : list Z) (off : Z) : Z :=
  Z.lor (Z.lor (Z.lor (peek data off)
                      (Z.shiftl (peek data (off + 1)) 8))
               (Z.shiftl (peek data (off + 2)) 16))
        (Z.shiftl (peek data (off + 3)) 24).

(** ** Plain buffer helper ([memset]) *)

Fixpoint memset (buf : list Z) (dst : Z) (v : Z) (n : nat) : list Z :=
  match n with
  | O => buf
  | S k => memset (poke buf dst v) (dst + 1) v k
  end.

(** * mysterygift.h / mysterygift.cpp *)

Module WonderCardOffsets.
Definition EVENT_ID : Z := 0x00.
Definition ICON : Z := 0x02.
Definition COUNT : Z := 0x04.
Definition TYPE_COLOR_RESEND : Z := 0x08.
Definition STAMP_MAX : Z := 0x09.
Definition TITLE : Z := 0x0A.
Definition SUBTITLE : Z := 0x32.
Definition CONTENT_LINE_1 : Z := 0x5A.
Definition CONTENT_LINE_2 : Z := 0x82.
Definition CONTENT_LINE_3 : Z := 0xAA.
Definition CONTENT_LINE_4 : Z := 0xD2.
Definition WARNING_LINE_1 : Z := 0xFA.
Definition WARNING_LINE_2 : Z := 0x122.
End WonderCardOffsets.

(** A [QString] is the list of its UTF-16 code units. *)
Definition QString := list Z.

Record WonderCardData := mkWonderCardData {
  eventId : Z;
  icon : Z;
  count : Z;
  typeColorResend : Z;
  stampMax : Z;
  title : QString;
  subtitle : QString;
  contentLine1 : QString;
  contentLine2 : QString;
  contentLine3 : QString;
  contentLine4 : QString;
  warningLine1 : QString;
  warningLine2 : QString
}.

Definition isEmpty (d : WonderCardData) : bool :=
  (eventId d =? 0) && (icon d =? 0).

Definition WONDERCARD_PAYLOAD_SIZE : Z := 332.
Definition WONDERCARD_HEADER_SIZE : Z := 4.
Definition WONDERCARD_TOTAL_SIZE : Z := 336.
Definition TEXT_FIELD_SIZE : Z := 40.

(** [QChar(0x0000)], the mark of a byte without a character. *)
Definition noChar : Z := 0x0000.

(** The 256-entry table [GEN3_TO_UNICODE]. *)
Definition GEN3_TO_UNICODE : list Z := [
  (* 0x00 *) 0x0020; 0x00C0; 0x00C1; 0x00C2; 0x00C7; 0x00C8; 0x00C9; 0x00CA; 0x00CB; 0x00CC; 0x0020; 0x00CE; 0x00CF; 0x00D2; 0x00D3; 0x00D4;
  (* 0x10 *) 0x0152; 0x00D9; 0x00DA; 0x00DB; 0x00D1; 0x00DF; 0x00E0; 0x00E1; noChar; 0x00E7; 0x00E8; 0x00E9; 0x00EA; 0x00EB; 0x00EC; noChar;
  (* 0x20 *) 0x00EE; 0x00EF; 0x00F2; 0x00F3; 0x00F4; 0x0153; 0x00F9; 0x00FA; 0x00FB; 0x00F1; 0x00BA; 0x00AA; 0x1D49; 0x0026; 0x002B; noChar;
  (* 0x30 *) noChar; 0x004C; 0x0076; 0x003D; 0x003B; noChar; noChar; noChar; noChar; noChar; noChar; noChar; noChar; noChar; noChar; noChar;
  (* 0x40 *) noChar; 0x00BF; 0x00A1; 0x0050; 0x004B; 0x004D; 0x004E; noChar; noChar; noChar; noChar; 0x00CD; 0x0025; 0x0028; 0x0029; noChar;
  (* 0x50 *) noChar; 0x00E2; noChar; 0x00ED; noChar; noChar; noChar; noChar; noChar; noChar; 0x2191; 0x2193; 0x2190; 0x2192; noChar; noChar;
  (* 0x60 *) 0x002A; 0x002A; 0x002A; 0x002A; 0x1D49; 0x003C; 0x003E; noChar; noChar; noChar; noChar; noChar; noChar; noChar; noChar; noChar;
  (* 0x70 *) noChar; noChar; noChar; noChar; noChar; noChar; noChar; noChar; noChar; 0x2191; 0x2193; 0x2190; 0x2192; 0x002A; 0x002A; 0x002A;
  (* 0x80 *) 0x002A; 0x002A; 0x002A; 0x002A; 0x1D49; 0x003C; 0x003E; noChar; noChar; noChar; noChar; noChar; noChar; noChar; noChar; noChar;
  (* 0x90 *) noChar; noChar; noChar; noChar; noChar; noChar; noChar; noChar; noChar; noChar; noChar; noChar; noChar; noChar; noChar; noChar;
  (* 0xA0 *) noChar; 0x0030; 0x0031; 0x0032; 0x0033; 0x0034; 0x0035; 0x0036; 0x0037; 0x0038; 0x0039; 0x0021; 0x003F; 0x002E; 0x002D; 0x30FB;
  (* 0xB0 *) 0x2025; 0x201C; 0x201D; 0x2018; 0x2019; 0x2642; 0x2640; 0x0020; 0x002C; 0x00D7; 0x002F; 0x0041; 0x0042; 0x0043; 0x0044; 0x0045;
  (* 0xC0 *) 0x0046; 0x0047; 0x0048; 0x0049; 0x004A; 0x004B; 0x004C; 0x004D; 0x004E; 0x004F; 0x0050; 0x0051; 0x0052; 0x0053; 0x0054; 0x0055;
  (* 0xD0 *) 0x0056; 0x0057; 0x0058; 0x0059; 0x005A; 0x0061; 0x0062; 0x0063; 0x0064; 0x0065; 0x0066; 0x0067; 0x0068; 0x0069; 0x006A; 0x006B;
  (* 0xE0 *) 0x006C; 0x006D; 0x006E; 0x006F; 0x0070; 0x0071; 0x0072; 0x0073; 0x0074; 0x0075; 0x0076; 0x0077; 0x0078; 0x0079; 0x007A; 0x25BA;
  (* 0xF0 *) 0x003A; 0x00C4; 0x00D6; 0x00DC; 0x00E4; 0x00F6; 0x00FC; noChar; noChar; noChar; noChar; noChar; noChar; noChar; noChar; noChar
].

(** [GEN3_TO_UNICODE[byte].unicode()] for a [uint8_t] index. *)
Definition gen3Char (byte : Z) : Z :=
  default 0 (GEN3_TO_UNICODE !! Z.to_nat byte).

(** ** MysteryGift::decodeText *)

(** The effect of one loop iteration on [result] for a byte that is not
    the terminator. *)
Definition decodeByte (result : QString) (byte : Z) : QString :=
  let ch := gen3Char byte in
  if negb (ch =? 0x0000) then result ++ [ch]
  else if (byte =? 0x00) || (byte =? 0xA0) then result ++ [0x20]
  else if byte =? 0xFE then result ++ [0x20]
  else if (byte =? 0xFA) || (byte =? 0xFB) || (byte =? 0xFC) || (byte =? 0xFD)
       then result ++ [0x20]
  else result.

(** [for (i = 0; i < maxLength; ++i)] with [n] iterations left. *)
Fixpoint decodeTextLoop (data : list Z) (i : Z) (n : nat) (result : QString)
    : QString :=
  match n with
  | O => result
  | S k =>
      let byte := peek data i in
      if byte =? 0xFF then result
      else decodeTextLoop data (i + 1) k (decodeByte result byte)
  end.

Definition decodeText (data : list Z) (maxLength : Z) : QString :=
  decodeTextLoop data 0 (Z.to_nat maxLength) [].

(** ** unicodeToGen3 and MysteryGift::encodeText *)

(** The fallback scan [for (i = 0; i < 256; ++i)] over the table suffix
    that starts at index [i]. *)
Fixpoint tableScan (table : list Z) (i : Z) (unicode : Z) : Z :=
  match table with
  | [] => 0x00
  | entry :: rest =>
      if entry =? unicode then u8 i else tableScan rest (i + 1) unicode
  end.

Definition unicodeToGen3 (unicode : Z) : Z :=
  if (0x30 <=? unicode) && (unicode <=? 0x39) then u8 (0xA1 + (unicode - 0x30))
  else if (0x41 <=? unicode) && (unicode <=? 0x5A) then u8 (0xBB + (unicode - 0x41))
  else if (0x61 <=? unicode) && (unicode <=? 0x7A) then u8 (0xD5 + (unicode - 0x61))
  else if unicode =? 0x21 then 0xAB
  else if unicode =? 0x3F then 0xAC
  else if unicode =? 0x2E then 0xAD
  else if unicode =? 0x2D then 0xAE
  else if unicode =? 0x2C then 0xB8
  else if unicode =? 0x2F then 0xBA
  else if unicode =? 0x3A then 0xF0
  else if unicode =? 0x20 then 0x00
  else tableScan GEN3_TO_UNICODE 0 unicode.

(** The write loop; the remaining characters of [text] stand for the
    index [i], and [writePos] advances with them. *)
Fixpoint encodeTextLoop (buf : list Z) (dest : Z) (text : QString)
    (writePos maxLength : Z) : list Z :=
  match text with
  | [] => buf
  | ch :: rest =>
      if writePos <? maxLength
      then encodeTextLoop (poke buf (dest + writePos) (unicodeToGen3 ch))
                          dest rest (writePos + 1) maxLength
      else buf
  end.

(** [dest] is the offset of the field inside the buffer [buf]. *)
Definition encodeText (buf : list Z) (dest : Z) (text : QString)
    (maxLength : Z) : list Z :=
  encodeTextLoop (memset buf dest 0x00 (Z.to_nat maxLength)) dest text 0 maxLength.

(** ** MysteryGift::parseWonderCard *)

Definition parseWonderCard (payload : list Z) : WonderCardData :=
  if Z.of_nat (length payload) <? WONDERCARD_PAYLOAD_SIZE then
    mkWonderCardData 0 0 0 0 0 [] [] [] [] [] [] [] []
  else
    let bytes :=
      if Z.of_nat (length payload) =? WONDERCARD_TOTAL_SIZE
      then advance payload WONDERCARD_HEADER_SIZE else payload in
    mkWonderCardData
      (u16 (le16 bytes WonderCardOffsets.EVENT_ID))
      (u16 (le16 bytes WonderCardOffsets.ICON))
      (u32 (le32 bytes WonderCardOffsets.COUNT))
      (peek bytes WonderCardOffsets.TYPE_COLOR_RESEND)
      (peek bytes WonderCardOffsets.STAMP_MAX)
      (decodeText (advance bytes WonderCardOffsets.TITLE) TEXT_FIELD_SIZE)
      (decodeText (advance bytes WonderCardOffsets.SUBTITLE) TEXT_FIELD_SIZE)
      (decodeText (advance bytes WonderCardOffsets.CONTENT_LINE_1) TEXT_FIELD_SIZE)
      (decodeText (advance bytes WonderCardOffsets.CONTENT_LINE_2) TEXT_FIELD_SIZE)
      (decodeText (advance bytes WonderCardOffsets.CONTENT_LINE_3) TEXT_FIELD_SIZE)
      (decodeText (advance bytes WonderCardOffsets.CONTENT_LINE_4) TEXT_FIELD_SIZE)
      (decodeText (advance bytes WonderCardOffsets.WARNING_LINE_1) TEXT_FIELD_SIZE)
      (decodeText (advance bytes WonderCardOffsets.WARNING_LINE_2) TEXT_FIELD_SIZE).

(** ** MysteryGift::encodeWonderCard *)

Definition encodeWonderCard (data : WonderCardData) : list Z :=
  let bytes := replicate (Z.to_nat WONDERCARD_PAYLOAD_SIZE) 0x00 in
  let bytes := poke bytes WonderCardOffsets.EVENT_ID (Z.land (eventId data) 0xFF) in
  let bytes := poke bytes (WonderCardOffsets.EVENT_ID + 1)
                 (Z.land (Z.shiftr (eventId data) 8) 0xFF) in
  let bytes := poke bytes WonderCardOffsets.ICON (Z.land (icon data) 0xFF) in
  let bytes := poke bytes (WonderCardOffsets.ICON + 1)
                 (Z.land (Z.shiftr (icon data) 8) 0xFF) in
  let bytes := poke bytes WonderCardOffsets.COUNT (Z.land (count data) 0xFF) in
  let bytes := poke bytes (WonderCardOffsets.COUNT + 1)
                 (Z.land (Z.shiftr (count data) 8) 0xFF) in
  let bytes := poke bytes (WonderCardOffsets.COUNT + 2)
                 (Z.land (Z.shiftr (count data) 16) 0xFF) in
  let bytes := poke bytes (WonderCardOffsets.COUNT + 3)
                 (Z.land (Z.shiftr (count data) 24) 0xFF) in
  let bytes := poke bytes WonderCardOffsets.TYPE_COLOR_RESEND (u8 (typeColorResend data)) in
  let bytes := poke bytes WonderCardOffsets.STAMP_MAX (u8 (stampMax data)) in
  let bytes := encodeText bytes WonderCardOffsets.TITLE (title data) TEXT_FIELD_SIZE in
  let bytes := encodeText bytes WonderCardOffsets.SUBTITLE (subtitle data) TEXT_FIELD_SIZE in
  let bytes := encodeText bytes WonderCardOffsets.CONTENT_LINE_1 (contentLine1 data) TEXT_FIELD_SIZE in
  let bytes := encodeText bytes WonderCardOffsets.CONTENT_LINE_2 (contentLine2 data) TEXT_FIELD_SIZE in
  let bytes := encodeText bytes WonderCardOffsets.CONTENT_LINE_3 (contentLine3 data) TEXT_FIELD_SIZE in
  let bytes := encodeText bytes WonderCardOffsets.CONTENT_LINE_4 (contentLine4 data) TEXT_FIELD_SIZE in
  let bytes := encodeText bytes WonderCardOffsets.WARNING_LINE_1 (warningLine1 data) TEXT_FIELD_SIZE in
  let bytes := encodeText bytes WonderCardOffsets.WARNING_LINE_2 (warningLine2 data) TEXT_FIELD_SIZE in
  bytes.

(** ** MysteryGift::calculateCRC16 *)

(** One iteration of the byte loop. *)
Definition crcStep (table : list Z) (crc : Z) (byte : Z) : Z :=
  let tableIndex := u8 (Z.land (Z.lxor crc byte) 0xFF) in
  let tableValue :=
    u16 (Z.lor (peek table (tableIndex * 2))
               (Z.shiftl (peek table (tableIndex * 2 + 1)) 8)) in
  u16 (Z.lxor tableValue (Z.shiftr crc 8)).

(** [for (i = 0; i < data.size(); ++i)], started at index [i] with [n]
    iterations to go. *)
Fixpoint crcLoop (data table : list Z) (i : Z) (n : nat) (crc : Z) : Z :=
  match n with
  | O => crc
  | S k => crcLoop data table (i + 1) k (crcStep table crc (peek data i))
  end.

Definition calculateCRC16 (data crcTable : list Z) : Z :=
  if negb (Z.of_nat (length crcTable) =? 512) then 0
  else
    let crc := crcLoop data crcTable 0 (length data) 0x1121 in
    u16 (Z.land (Z.lnot crc) 0xFFFF).

(** * savefile.h / savefile.cpp *)

(** ** savefile.h: types and constants *)

Inductive GameType := Unknown | FireRedLeafGreen | RubySapphire | Emerald.

#[global] Instance GameType_eq_dec : EqDecision GameType.
Proof. solve_decision. Defined.

Record SaveBlockInfo := mkSaveBlockInfo {
  blockIndex : Z;
  saveIndex : Z;
  valid : bool;
  gameCode : Z;
  hasSecurityKey : bool
}.

Definition EXPECTED_FILE_SIZE : Z := 131072.
Definition SECTION_SIZE : Z := 0x1000.
Definition SECTIONS_PER_SAVE : Z := 14.
Definition SECTION_ID_OFFSET : Z := 0xFF4.
Definition CHECKSUM_OFFSET : Z := 0xFF6.
Definition SIGNATURE_OFFSET : Z := 0xFF8.
Definition SAVE_INDEX_OFFSET : Z := 0xFFC.
Definition CHECKSUM_DATA_LENGTH_DEFAULT : Z := 0xF80.
Definition CHECKSUM_DATA_LENGTH_SECTION4_FRLG : Z := 0xEE8.
Definition CHECKSUM_DATA_LENGTH_SECTION4_EMERALD : Z := 0xF08.
Definition GAME_CODE_OFFSET : Z := 0xAC.
Definition WONDERCARD_BLOCK_MARKER : Z := 0x04.
Definition WONDERCARD_OFFSET_FRLG : Z := 0x460.
Definition WONDERCARD_OFFSET_EMERALD : Z := 0x56C.
Definition GMSCRIPT_OFFSET_FRLG : Z := 0x79C.
Definition GMSCRIPT_OFFSET_EMERALD : Z := 0x8A8.
Definition WCMETADATA_OFFSET_FRLG : Z := 0x5B4.
Definition WCMETADATA_OFFSET_EMERALD : Z := 0x6C0.
Definition WCMETADATA_ICON_OFFSET : Z := 6.
Definition WCMETADATA_SIZE : Z := 32.
Definition TRAINERIDS_OFFSET_FRLG : Z := 0x75C.
Definition TRAINERIDS_OFFSET_EMERALD : Z := 0x868.
Definition TRAINERIDS_SIZE : Z := 40.
Definition RAM_SCRIPT_MAGIC : Z := 51.
Definition RAMSCRIPT_MAGIC_OFFSET : Z := 0.
Definition RAMSCRIPT_SIZE : Z := 1000.
Definition MYSTERY_GIFT_OFFSET_FRLG : Z := 0x067.
Definition MYSTERY_GIFT_BIT_FRLG : Z := 0x02.
Definition MYSTERY_GIFT_OFFSET_EMERALD : Z := 0x40B.
Definition MYSTERY_GIFT_BIT_EMERALD : Z := 0x08.

(** ** SaveFile::computeSectionChecksum *)

(** The loop [for (i = 0; i < words; ++i) sum += word(i)] with a 32-bit
    accumulator; [sumWords data n] is [sum] after [n] iterations. *)
Fixpoint sumWords (data : list Z) (n : nat) : Z :=
  match n with
  | O => 0
  | S k => u32 (sumWords data k + le32 data (Z.of_nat k * 4))
  end.

Definition computeSectionChecksum (data : list Z) (length : Z) : Z :=
  let words := length / 4 in
  let sum := sumWords data (Z.to_nat words) in
  let sum := u32 (Z.land sum 0xFFFF + Z.shiftr sum 16) in
  u16 (Z.land sum 0xFFFF).

(** ** SaveFile::analyzeSaveSlot *)

(** One iteration of the section loop. *)
Definition analyzeSection (saveData : list Z) (baseOffset : Z)
    (info : SaveBlockInfo) (section : Z) : SaveBlockInfo :=
  let sectionOffset := baseOffset + section * SECTION_SIZE in
  let sectionData := advance saveData sectionOffset in
  let computed := computeSectionChecksum sectionData CHECKSUM_DATA_LENGTH_DEFAULT in
  let stored := le16 sectionData CHECKSUM_OFFSET in
  let valid1 := if decide (computed = stored) then valid info else false in
  let sectionId := le16 sectionData SECTION_ID_OFFSET in
  let saveIdx := le32 sectionData SAVE_INDEX_OFFSET in
  let saveIndex1 := if decide (section = 0) then saveIdx else saveIndex info in
  if decide (sectionId = 0) then
    mkSaveBlockInfo (blockIndex info) saveIndex1 valid1
      (le32 sectionData GAME_CODE_OFFSET)
      (negb (le32 sectionData (GAME_CODE_OFFSET + 4) =? 0))
  else
    mkSaveBlockInfo (blockIndex info) saveIndex1 valid1
      (gameCode info) (hasSecurityKey info).

Definition analyzeSaveSlot (m_bytes : list Z) (slotIndex : Z) : SaveBlockInfo :=
  let info := mkSaveBlockInfo slotIndex 0 true 0 false in
  let baseOffset := slotIndex * (SECTION_SIZE * SECTIONS_PER_SAVE) in
  foldl (analyzeSection m_bytes baseOffset) info (seqZ 0 SECTIONS_PER_SAVE).

(** ** SaveFile::findActiveSaveSlot *)

Definition isLoaded (m_bytes : list Z) : bool :=
  negb (bool_decide (m_bytes = [])).

Definition findActiveSaveSlot (m_bytes : list Z) : Z :=
  if negb (isLoaded m_bytes) then -1 else
  let slot0 := analyzeSaveSlot m_bytes 0 in
  let slot1 := analyzeSaveSlot m_bytes 1 in
  if valid slot0 && negb (valid slot1) then 0
  else if negb (valid slot0) && valid slot1 then 1
  else if saveIndex slot1 <? saveIndex slot0 then 0 else 1.

(** ** The SaveFile object *)

Record SaveFile := mkSaveFile {
  m_bytes : list Z;
  m_detectedGame : GameType;
  m_checksumValid : bool;
  m_activeSaveSlot : Z
}.

Definition setBytes (sf : SaveFile) (bytes : list Z) : SaveFile :=
  mkSaveFile bytes (m_detectedGame sf) (m_checksumValid sf) (m_activeSaveSlot sf).

Record InjectionOptions := mkInjectionOptions {
  clearMetadata : bool;
  clearTrainerIds : bool;
  clearMysteryGiftFlags : bool;
  clearMysteryGiftVars : bool
}.

Definition defaultInjectionOptions : InjectionOptions :=
  mkInjectionOptions true false false false.

(** The [bool] result of an operation together with its [errorMessage]. *)
Inductive Outcome := Success | Failure (errorMessage : string).

(** ** SaveFile::detectGameType, validateChecksums, loadFromFile *)

(** Returns the detected game and the updated [m_activeSaveSlot]. *)
Definition detectGameType (sf : SaveFile) : GameType * SaveFile :=
  if negb (isLoaded (m_bytes sf)) then (Unknown, sf) else
  let slot := findActiveSaveSlot (m_bytes sf) in
  let sf := mkSaveFile (m_bytes sf) (m_detectedGame sf) (m_checksumValid sf) slot in
  if slot <? 0 then (Unknown, sf) else
  let activeSlot := analyzeSaveSlot (m_bytes sf) slot in
  if gameCode activeSlot =? 0x00000001 then (FireRedLeafGreen, sf)
  else if hasSecurityKey activeSlot && negb (gameCode activeSlot =? 0x00000001)
       then (Emerald, sf)
  else if gameCode activeSlot =? 0x00000000 then (RubySapphire, sf)
  else (Unknown, sf).

Definition validateChecksums (sf : SaveFile) : bool * SaveFile :=
  if negb (isLoaded (m_bytes sf)) then (false, sf) else
  let sf :=
    if m_activeSaveSlot sf <? 0
    then mkSaveFile (m_bytes sf) (m_detectedGame sf) (m_checksumValid sf)
                    (findActiveSaveSlot (m_bytes sf))
    else sf in
  if m_activeSaveSlot sf <? 0 then (false, sf)
  else (valid (analyzeSaveSlot (m_bytes sf) (m_activeSaveSlot sf)), sf).

(** [loadFromFile] on the bytes that [file.readAll()] returned; the file
    system calls in front of it are not modelled. *)
Definition loadFromFile (contents : list Z) : Outcome * SaveFile :=
  if negb (Z.of_nat (length contents) =? EXPECTED_FILE_SIZE)
  then (Failure "Invalid file size", mkSaveFile [] Unknown false (-1))
  else
    let sf := mkSaveFile contents Unknown false (-1) in
    let '(game, sf) := detectGameType sf in
    let sf := mkSaveFile (m_bytes sf) game (m_checksumValid sf) (m_activeSaveSlot sf) in
    let '(ok, sf) := validateChecksums sf in
    (Success, mkSaveFile (m_bytes sf) (m_detectedGame sf) ok (m_activeSaveSlot sf)).

(** ** Section lookup *)

(** A [for] loop over physical positions that returns the first position
    passing [test], or [-1]. *)
Fixpoint firstPosition (test : Z -> bool) (positions : list Z) : Z :=
  match positions with
  | [] => -1
  | pos :: rest => if test pos then pos else firstPosition test rest
  end.

Definition findWonderCardBlock (sf : SaveFile) : Z :=
  if negb (isLoaded (m_bytes sf)) || (m_activeSaveSlot sf <? 0) then -1 else
  let slotOffset := m_activeSaveSlot sf * (SECTION_SIZE * SECTIONS_PER_SAVE) in
  firstPosition
    (fun section =>
       let sectionOffset := slotOffset + section * SECTION_SIZE in
       peek (m_bytes sf) (sectionOffset + SECTION_ID_OFFSET) =? WONDERCARD_BLOCK_MARKER)
    (seqZ 0 SECTIONS_PER_SAVE).

Definition findSection (sf : SaveFile) (sectionId : Z) : Z :=
  if negb (isLoaded (m_bytes sf)) || (m_activeSaveSlot sf <? 0) then -1 else
  let slotOffset := m_activeSaveSlot sf * (SECTION_SIZE * SECTIONS_PER_SAVE) in
  firstPosition
    (fun pos =>
       let sectionOffset := slotOffset + pos * SECTION_SIZE in
       le16 (m_bytes sf) (sectionOffset + SECTION_ID_OFFSET) =? sectionId)
    (seqZ 0 SECTIONS_PER_SAVE).

(** ** Per-section checksum lengths *)

Definition getSection4ChecksumLength (sf : SaveFile) : Z :=
  if decide (m_detectedGame sf = Emerald)
  then CHECKSUM_DATA_LENGTH_SECTION4_EMERALD
  else CHECKSUM_DATA_LENGTH_SECTION4_FRLG.

Definition getSectionChecksumLength (sf : SaveFile) (sectionId : Z) : Z :=
  if sectionId =? 4 then getSection4ChecksumLength sf
  else if sectionId =? 0 then
    if decide (m_detectedGame sf = Emerald) then 0xF2C
    else if decide (m_detectedGame sf = FireRedLeafGreen) then 0xF24
    else 0x890
  else if sectionId =? 13 then 0x7D0
  else CHECKSUM_DATA_LENGTH_DEFAULT.

(** ** Instrumented stores

    The mutating operations work on the save buffer together with the
    list of byte stores they have issued, in program order. *)

Record Mem := mkMem {
  mem_bytes : list Z;
  mem_stores : list (Z * Z)
}.

Definition store (m : Mem) (i v : Z) : Mem :=
  mkMem (poke (mem_bytes m) i v) (mem_stores m ++ [(i, v)]).

(** [memset(dst, v, n)] *)
Fixpoint storeFill (m : Mem) (dst v : Z) (n : nat) : Mem :=
  match n with
  | O => m
  | S k => storeFill (store m dst v) (dst + 1) v k
  end.

(** [memcpy(dst, src + srcOff, n)] *)
Fixpoint storeCopy (m : Mem) (dst : Z) (src : list Z) (srcOff : Z) (n : nat) : Mem :=
  match n with
  | O => m
  | S k => storeCopy (store m dst (peek src srcOff)) (dst + 1) src (srcOff + 1) k
  end.

(** [QByteArray::mid(pos, len)] for [0 <= pos] and [0 <= len]. *)
Definition mid (a : list Z) (pos len : Z) : list Z :=
  take (Z.to_nat len) (drop (Z.to_nat pos) a).

(** ** SaveFile::injectWonderCard *)

Definition injectWonderCard (sf : SaveFile) (wonderCard : WonderCardData)
    (scriptData crcTable rawWonderCardData : list Z) (options : InjectionOptions)
    : Outcome * SaveFile * list (Z * Z) :=
  if negb (isLoaded (m_bytes sf)) then (Failure "No save file loaded", sf, [])
  else if decide (m_detectedGame sf = Unknown)
  then (Failure "Unknown game type - cannot inject Wonder Card", sf, [])
  else if decide (m_detectedGame sf = RubySapphire)
  then (Failure "Ruby/Sapphire do not support Wonder Cards", sf, [])
  else
  let wonderCardBlock := findWonderCardBlock sf in
  if wonderCardBlock <? 0
  then (Failure "Wonder Card block not found in save file", sf, [])
  else
  let emerald := bool_decide (m_detectedGame sf = Emerald) in
  let wonderCardOffset :=
    if emerald then WONDERCARD_OFFSET_EMERALD else WONDERCARD_OFFSET_FRLG in
  let scriptOffset :=
    if emerald then GMSCRIPT_OFFSET_EMERALD else GMSCRIPT_OFFSET_FRLG in
  let metadataOffset :=
    if emerald then WCMETADATA_OFFSET_EMERALD else WCMETADATA_OFFSET_FRLG in
  let trainerIdsOffset :=
    if emerald then TRAINERIDS_OFFSET_EMERALD else TRAINERIDS_OFFSET_FRLG in
  let slotOffset := m_activeSaveSlot sf * (SECTION_SIZE * SECTIONS_PER_SAVE) in
  let blockOffset := slotOffset + wonderCardBlock * SECTION_SIZE in
  let m := mkMem (m_bytes sf) [] in
  let m :=
    if clearMetadata options then
      let m := storeFill m (blockOffset + metadataOffset) 0x00
                 (Z.to_nat WCMETADATA_SIZE) in
      storeFill m (blockOffset + metadataOffset - 4) 0x00 4
    else m in
  let m :=
    if clearTrainerIds options
    then storeFill m (blockOffset + trainerIdsOffset) 0x00 (Z.to_nat TRAINERIDS_SIZE)
    else m in
  let wonderCardPayload :=
    if negb (bool_decide (rawWonderCardData = [])) then
      if Z.of_nat (length rawWonderCardData) =? 336 then mid rawWonderCardData 4 332
      else if Z.of_nat (length rawWonderCardData) =? 332 then rawWonderCardData
      else encodeWonderCard wonderCard
    else encodeWonderCard wonderCard in
  let wonderCardCRC := calculateCRC16 wonderCardPayload crcTable in
  let wcOffset := wonderCardOffset in
  let m := store m (blockOffset + wcOffset) (Z.land wonderCardCRC 0xFF) in
  let m := store m (blockOffset + wcOffset + 1)
             (Z.land (Z.shiftr wonderCardCRC 8) 0xFF) in
  let m := store m (blockOffset + wcOffset + 2) 0x00 in
  let m := store m (blockOffset + wcOffset + 3) 0x00 in
  let m := storeCopy m (blockOffset + wcOffset + 4) wonderCardPayload 0 332 in
  let scriptPayload :=
    if Z.of_nat (length scriptData) =? 1004 then mid scriptData 4 1000
    else if Z.of_nat (length scriptData) =? 1000 then scriptData
    else [] in
  let m :=
    if Z.of_nat (length scriptPayload) =? 1000 then
      let scriptToWrite :=
        if negb (peek scriptPayload RAMSCRIPT_MAGIC_OFFSET =? RAM_SCRIPT_MAGIC)
        then poke scriptPayload RAMSCRIPT_MAGIC_OFFSET RAM_SCRIPT_MAGIC
        else scriptPayload in
      let scriptCRC := calculateCRC16 scriptToWrite crcTable in
      let m := store m (blockOffset + scriptOffset) (Z.land scriptCRC 0xFF) in
      let m := store m (blockOffset + scriptOffset + 1)
                 (Z.land (Z.shiftr scriptCRC 8) 0xFF) in
      let m := store m (blockOffset + scriptOffset + 2) 0x00 in
      let m := store m (blockOffset + scriptOffset + 3) 0x00 in
      storeCopy m (blockOffset + scriptOffset + 4) scriptToWrite 0
                (Z.to_nat RAMSCRIPT_SIZE)
    else m in
  let iconSpecies :=
    u16 (Z.lor (peek wonderCardPayload 2) (Z.shiftl (peek wonderCardPayload 3) 8)) in
  let iconOffset := metadataOffset + WCMETADATA_ICON_OFFSET in
  let m := store m (blockOffset + iconOffset) (Z.land iconSpecies 0xFF) in
  let m := store m (blockOffset + iconOffset + 1)
             (Z.land (Z.shiftr iconSpecies 8) 0xFF) in
  let checksumDataLength := getSection4ChecksumLength sf in
  let blockChecksum :=
    computeSectionChecksum (advance (mem_bytes m) blockOffset) checksumDataLength in
  let m := store m (blockOffset + CHECKSUM_OFFSET) (Z.land blockChecksum 0xFF) in
  let m := store m (blockOffset + CHECKSUM_OFFSET + 1)
             (Z.land (Z.shiftr blockChecksum 8) 0xFF) in
  (Success, setBytes sf (mem_bytes m), mem_stores m).

(** ** SaveFile::isMysteryGiftEnabled and enableMysteryGift *)

Definition isMysteryGiftEnabled (sf : SaveFile) : bool :=
  if negb (isLoaded (m_bytes sf)) || (m_activeSaveSlot sf <? 0) then false
  else if bool_decide (m_detectedGame sf = Unknown)
          || bool_decide (m_detectedGame sf = RubySapphire) then false
  else
  let section2Pos := findSection sf 2 in
  if section2Pos <? 0 then false else
  let slotOffset := m_activeSaveSlot sf * (SECTION_SIZE * SECTIONS_PER_SAVE) in
  let section2Offset := slotOffset + section2Pos * SECTION_SIZE in
  let section2Data := advance (m_bytes sf) section2Offset in
  let emerald := bool_decide (m_detectedGame sf = Emerald) in
  let flagOffset :=
    if emerald then MYSTERY_GIFT_OFFSET_EMERALD else MYSTERY_GIFT_OFFSET_FRLG in
  let flagBit :=
    if emerald then MYSTERY_GIFT_BIT_EMERALD else MYSTERY_GIFT_BIT_FRLG in
  let currentValue := peek section2Data flagOffset in
  negb (Z.land currentValue flagBit =? 0).

Definition enableMysteryGift (sf : SaveFile)
    : Outcome * SaveFile * list (Z * Z) :=
  if negb (isLoaded (m_bytes sf)) then (Failure "No save file loaded", sf, [])
  else if decide (m_detectedGame sf = Unknown)
  then (Failure "Unknown game type - cannot enable Mystery Gift", sf, [])
  else if decide (m_detectedGame sf = RubySapphire)
  then (Failure "Ruby/Sapphire use Mystery Event, not Mystery Gift", sf, [])
  else
  let section2Pos := findSection sf 2 in
  if section2Pos <? 0
  then (Failure "Section 2 not found in save file", sf, [])
  else
  let slotOffset := m_activeSaveSlot sf * (SECTION_SIZE * SECTIONS_PER_SAVE) in
  let section2Offset := slotOffset + section2Pos * SECTION_SIZE in
  let m := mkMem (m_bytes sf) [] in
  let emerald := bool_decide (m_detectedGame sf = Emerald) in
  let flagOffset :=
    if emerald then MYSTERY_GIFT_OFFSET_EMERALD else MYSTERY_GIFT_OFFSET_FRLG in
  let flagBit :=
    if emerald then MYSTERY_GIFT_BIT_EMERALD else MYSTERY_GIFT_BIT_FRLG in
  let currentValue := peek (advance (mem_bytes m) section2Offset) flagOffset in
  if negb (Z.land currentValue flagBit =? 0) then (Success, sf, [])
  else
  let m := store m (section2Offset + flagOffset) (u8 (Z.lor currentValue flagBit)) in
  let checksumLength := getSectionChecksumLength sf 2 in
  let newChecksum :=
    computeSectionChecksum (advance (mem_bytes m) section2Offset) checksumLength in
  let m := store m (section2Offset + CHECKSUM_OFFSET) (Z.land newChecksum 0xFF) in
  let m := store m (section2Offset + CHECKSUM_OFFSET + 1)
             (Z.land (Z.shiftr newChecksum 8) 0xFF) in
  (Success, setBytes sf (mem_bytes m), mem_stores m).

(** ** SaveFile::hasWonderCard and the extractors *)

(** [QByteArray(p, n)]: a copy of the [n] bytes at the pointer [p]. *)
Definition copyOf (p : list Z) (n : Z) : list Z := take (Z.to_nat n) p.

Definition hasWonderCard (sf : SaveFile) : bool :=
  if negb (isLoaded (m_bytes sf)) then false else
  let wonderCardBlock := findWonderCardBlock sf in
  if wonderCardBlock <? 0 then false else
  let wonderCardOffset :=
    if bool_decide (m_detectedGame sf = Emerald)
    then WONDERCARD_OFFSET_EMERALD else WONDERCARD_OFFSET_FRLG in
  let slotOffset := m_activeSaveSlot sf * (SECTION_SIZE * SECTIONS_PER_SAVE) in
  let blockOffset := slotOffset + wonderCardBlock * SECTION_SIZE in
  let dataOffset := blockOffset + wonderCardOffset in
  let crc := u16 (Z.lor (peek (m_bytes sf) dataOffset)
                        (Z.shiftl (peek (m_bytes sf) (dataOffset + 1)) 8)) in
  negb (crc =? 0).

(** The extractors hand back their value together with the
    [errorMessage] they set, if any. [extractWonderCard] returns a card
    whose numeric members are not initialised when it fails, so only
    the message is kept of that path. *)
Definition extractWonderCard (sf : SaveFile) : string + WonderCardData :=
  if negb (isLoaded (m_bytes sf)) then inl "No save file loaded"%string
  else if decide (m_detectedGame sf = Unknown)
  then inl "Unknown game type - cannot extract Wonder Card"%string
  else if decide (m_detectedGame sf = RubySapphire)
  then inl "Ruby/Sapphire do not support Wonder Cards"%string
  else
  let wonderCardBlock := findWonderCardBlock sf in
  if wonderCardBlock <? 0
  then inl "Wonder Card block not found in save file"%string
  else
  let wonderCardOffset :=
    if bool_decide (m_detectedGame sf = Emerald)
    then WONDERCARD_OFFSET_EMERALD else WONDERCARD_OFFSET_FRLG in
  let slotOffset := m_activeSaveSlot sf * (SECTION_SIZE * SECTIONS_PER_SAVE) in
  let blockOffset := slotOffset + wonderCardBlock * SECTION_SIZE in
  let dataOffset := blockOffset + wonderCardOffset + 4 in
  let payload := copyOf (advance (m_bytes sf) dataOffset) 332 in
  inr (parseWonderCard payload).

Definition extractWonderCardRaw (sf : SaveFile) : list Z * option string :=
  if negb (isLoaded (m_bytes sf)) then ([], Some "No save file loaded"%string)
  else if decide (m_detectedGame sf = Unknown)
  then ([], Some "Unknown game type - cannot extract Wonder Card"%string)
  else if decide (m_detectedGame sf = RubySapphire)
  then ([], Some "Ruby/Sapphire do not support Wonder Cards"%string)
  else
  let wonderCardBlock := findWonderCardBlock sf in
  if wonderCardBlock <? 0
  then ([], Some "Wonder Card block not found in save file"%string)
  else
  let wonderCardOffset :=
    if bool_decide (m_detectedGame sf = Emerald)
    then WONDERCARD_OFFSET_EMERALD else WONDERCARD_OFFSET_FRLG in
  let slotOffset := m_activeSaveSlot sf * (SECTION_SIZE * SECTIONS_PER_SAVE) in
  let blockOffset := slotOffset + wonderCardBlock * SECTION_SIZE in
  let dataOffset := blockOffset + wonderCardOffset in
  (copyOf (advance (m_bytes sf) dataOffset) 336, None).

Definition extractScript (sf : SaveFile) : list Z * option string :=
  if negb (isLoaded (m_bytes sf)) then ([], Some "No save file loaded"%string)
  else if decide (m_detectedGame sf = Unknown)
  then ([], Some "Unknown game type - cannot extract script"%string)
  else if decide (m_detectedGame sf = RubySapphire)
  then ([], Some "Ruby/Sapphire scripts are different format"%string)
  else
  let wonderCardBlock := findWonderCardBlock sf in
  if wonderCardBlock <? 0
  then ([], Some "Wonder Card block not found in save file"%string)
  else
  let scriptOffset :=
    if bool_decide (m_detectedGame sf = Emerald)
    then GMSCRIPT_OFFSET_EMERALD else GMSCRIPT_OFFSET_FRLG in
  let slotOffset := m_activeSaveSlot sf * (SECTION_SIZE * SECTIONS_PER_SAVE) in
  let blockOffset := slotOffset + wonderCardBlock * SECTION_SIZE in
  let dataOffset := blockOffset + scriptOffset + 4 in
  (copyOf (advance (m_bytes sf) dataOffset) 1000, None).

(** * gbaromreader.cpp *)

(** [static_cast<uint32_t>(m_romData.size())] *)
Definition romSize (rom : list Z) : Z := u32 (Z.of_nat (length rom)).

(** [QByteArray::operator[]] and reads through [constData()]: defined
    inside the array only; [None] stands for an access outside of it. *)
Definition byteAt (a : list Z) (i : Z) : option Z :=
  if decide (0 <= i < Z.of_nat (length a)) then u8 <$> a !! Z.to_nat i else None.

(** ** Primitive reads; offsets are [uint32_t] *)

Definition readByte (rom : list Z) (offset : Z) : option Z :=
  if romSize rom <=? offset then Some 0 else byteAt rom offset.

Definition readHalfWord (rom : list Z) (offset : Z) : option Z :=
  if romSize rom <=? u32 (offset + 1) then Some 0
  else
    lo ← byteAt rom offset;
    hi ← byteAt rom (u32 (offset + 1));
    Some (u16 (Z.lor lo (Z.shiftl hi 8))).

Definition readWord (rom : list Z) (offset : Z) : option Z :=
  if romSize rom <=? u32 (offset + 3) then Some 0
  else
    b0 ← byteAt rom offset;
    b1 ← byteAt rom (u32 (offset + 1));
    b2 ← byteAt rom (u32 (offset + 2));
    b3 ← byteAt rom (u32 (offset + 3));
    Some (u32 (Z.lor (Z.lor (Z.lor b0 (Z.shiftl b1 8)) (Z.shiftl b2 16))
                     (Z.shiftl b3 24))).

(** [length] is an [int]; the sum is formed in [uint32_t]. *)
Definition readBytes (rom : list Z) (offset len : Z) : list Z :=
  if romSize rom <? u32 (offset + len) then [] else mid rom offset len.

(** ** GBAROReader::decompressLZ77 *)

Inductive LZResult :=
  | LZError (errorMessage : string)
  | LZData (decompressed : list Z).

Definition lzLength (byte1 : Z) : Z := Z.land (Z.shiftr byte1 4) 0x0F + 3.

Definition lzDisplacement (byte1 byte2 : Z) : Z :=
  Z.lor (Z.shiftl (Z.land byte1 0x0F) 8) byte2 + 1.

(** [for (j = 0; j < length; ++j)] with [n] iterations left. *)
Fixpoint copyLoop (decompressed : list Z) (copyPos j : Z) (n : nat)
    (decompressedSize : Z) : option (list Z) :=
  match n with
  | O => Some decompressed
  | S k =>
      if decompressedSize <=? Z.of_nat (length decompressed) then Some decompressed
      else
        b ← byteAt decompressed (copyPos + j);
        copyLoop (decompressed ++ [b]) copyPos (j + 1) k decompressedSize
  end.

(** [for (i = 0; i < 8; ++i)] with [n] blocks left; yields the error
    message, or the source position and output after the group. *)
Fixpoint processBlocks (rom : list Z) (decompressedSize : Z) (n : nat)
    (flags srcPos : Z) (decompressed : list Z)
    : option (string + Z * list Z) :=
  match n with
  | O => Some (inr (srcPos, decompressed))
  | S k =>
      if decompressedSize <=? Z.of_nat (length decompressed)
      then Some (inr (srcPos, decompressed))
      else if romSize rom <=? srcPos
      then Some (inl "Unexpected end of compressed data"%string)
      else if negb (Z.land flags 0x80 =? 0) then
        if romSize rom <=? u32 (srcPos + 1)
        then Some (inl "Unexpected end of compressed data"%string)
        else
          byte1 ← byteAt rom srcPos;
          byte2 ← byteAt rom (u32 (srcPos + 1));
          let len := lzLength byte1 in
          let displacement := lzDisplacement byte1 byte2 in
          let copyPos := Z.of_nat (length decompressed) - displacement in
          if copyPos <? 0 then Some (inl "Invalid LZ77 displacement"%string)
          else
            decompressed' ← copyLoop decompressed copyPos 0 (Z.to_nat len)
                                     decompressedSize;
            processBlocks rom decompressedSize k (u8 (Z.shiftl flags 1))
                          (u32 (srcPos + 2)) decompressed'
      else
        b ← byteAt rom srcPos;
        processBlocks rom decompressedSize k (u8 (Z.shiftl flags 1))
                      (u32 (srcPos + 1)) (decompressed ++ [b])
  end.

(** The [while] loop; [None] when [fuel] iterations do not finish it. *)
Fixpoint decompressLoop (fuel : nat) (rom : list Z) (decompressedSize srcPos : Z)
    (decompressed : list Z) : option LZResult :=
  if Z.of_nat (length decompressed) <? decompressedSize then
    match fuel with
    | O => None
    | S fuel' =>
        if romSize rom <=? srcPos
        then Some (LZError "Unexpected end of compressed data")
        else
          flags ← byteAt rom srcPos;
          r ← processBlocks rom decompressedSize 8 flags (u32 (srcPos + 1))
                            decompressed;
          match r with
          | inl e => Some (LZError e)
          | inr (srcPos', decompressed') =>
              decompressLoop fuel' rom decompressedSize srcPos' decompressed'
          end
    end
  else Some (LZData decompressed).

(** The declared size read from the 3 bytes behind the header byte. *)
Definition lzDeclaredSize (rom : list Z) (offset : Z) : option Z :=
  b1 ← readByte rom (u32 (offset + 1));
  b2 ← readByte rom (u32 (offset + 2));
  b3 ← readByte rom (u32 (offset + 3));
  Some (u32 (Z.lor (Z.lor b1 (Z.shiftl b2 8)) (Z.shiftl b3 16))).

(** Every outer iteration appends at least one byte, so
    [decompressedSize] iterations are enough. *)
Definition decompressLZ77 (rom : list Z) (offset : Z) : option LZResult :=
  if romSize rom <? u32 (offset + 4) then Some (LZError "Offset out of bounds")
  else
    compressionType ← readByte rom offset;
    if negb (compressionType =? 0x10)
    then Some (LZError "Not LZ77 compressed data")
    else
      decompressedSize ← lzDeclaredSize rom offset;
      if (decompressedSize =? 0) || (0x100000 <? decompressedSize)
      then Some (LZError "Invalid decompressed size")
      else decompressLoop (Z.to_nat decompressedSize) rom decompressedSize
                          (u32 (offset + 4)) [].

(** ** The reader object

    The members of [GBAROReader] that the functions below consult. A
    [QMap<int, uint32_t>] is the list of its entries. *)

Record GBAROReader := mkGBAROReader {
  m_romData : list Z;
  m_versionIdentified : bool;
  m_wondercardTable : Z;
  m_wondercardCount : Z;
  m_glyphWidthsOffset : Z;
  m_glyphWidthOffsets : list (Z * Z)
}.

(** [GBAROReader::isLoaded] *)
Definition romIsLoaded (reader : GBAROReader) : bool :=
  negb (bool_decide (m_romData reader = [])) && m_versionIdentified reader.

(** [QMap::contains] and [QMap::operator[]] on a key that is present. *)
Fixpoint qmapFind (m : list (Z * Z)) (key : Z) : option Z :=
  match m with
  | [] => None
  | (k, v) :: rest => if k =? key then Some v else qmapFind rest key
  end.

Definition GLYPH_WIDTHS_SIZE : Z := 0x200.
Definition TILE_SIZE_4BPP : Z := 32.
Definition TILE_SIZE_2BPP : Z := 16.

(** ** GBAROReader::gbaColorToQRgb and extractPalette *)

(** [qRgb(r, g, b)] of QtGui: an opaque colour, [0xFFrrggbb]. *)
Definition qRgb (r g b : Z) : Z :=
  Z.lor (Z.lor (Z.lor (Z.shiftl 0xFF 24) (Z.shiftl (Z.land r 0xFF) 16))
               (Z.shiftl (Z.land g 0xFF) 8))
        (Z.land b 0xFF).

Definition gbaColorToQRgb (gbaColor : Z) : Z :=
  let r := Z.shiftl (Z.land gbaColor 0x001F) 3 in
  let g := Z.shiftl (Z.shiftr (Z.land gbaColor 0x03E0) 5) 3 in
  let b := Z.shiftl (Z.shiftr (Z.land gbaColor 0x7C00) 10) 3 in
  let r := Z.lor r (Z.shiftr r 5) in
  let g := Z.lor g (Z.shiftr g 5) in
  let b := Z.lor b (Z.shiftr b 5) in
  qRgb r g b.

(** [for (i = 0; i < colorCount; ++i)], at index [i] with [n] iterations
    to go. *)
Fixpoint extractPaletteLoop (rom : list Z) (offset i : Z) (n : nat)
    (palette : list Z) : option (list Z) :=
  match n with
  | O => Some palette
  | S k =>
      gbaColor ← readHalfWord rom (u32 (offset + i * 2));
      extractPaletteLoop rom offset (i + 1) k (palette ++ [gbaColorToQRgb gbaColor])
  end.

Definition extractPalette (rom : list Z) (offset colorCount : Z)
    : option (list Z) :=
  extractPaletteLoop rom offset 0 (Z.to_nat colorCount) [].

(** ** Glyph widths *)

Fixpoint extractGlyphWidthsLoop (rom : list Z) (offset i : Z) (n : nat)
    (widths : list Z) : option (list Z) :=
  match n with
  | O => Some widths
  | S k =>
      w ← readByte rom (u32 (offset + i));
      extractGlyphWidthsLoop rom offset (i + 1) k (widths ++ [w])
  end.

Definition extractGlyphWidths (rom : list Z) (offset count : Z)
    : option (list Z) :=
  extractGlyphWidthsLoop rom offset 0 (Z.to_nat count) [].

Definition getDefaultGlyphWidths (reader : GBAROReader) : option (list Z) :=
  if negb (romIsLoaded reader) || (m_glyphWidthsOffset reader =? 0)
  then Some (replicate 512 6)
  else extractGlyphWidths (m_romData reader) (m_glyphWidthsOffset reader)
                          GLYPH_WIDTHS_SIZE.

Definition getGlyphWidthsByIndex (reader : GBAROReader) (fontIndex : Z)
    : option (list Z) :=
  if negb (romIsLoaded reader) then Some (replicate 512 6)
  else
    match qmapFind (m_glyphWidthOffsets reader) fontIndex with
    | None => Some (replicate 512 6)
    | Some offset =>
        if offset =? 0 then Some (replicate 512 6)
        else extractGlyphWidths (m_romData reader) offset GLYPH_WIDTHS_SIZE
    end.

(** ** readPointer and GBAROReader::loadWonderCardEntry *)

Definition readPointer (data : list Z) (offset : Z) : option Z :=
  if romSize data <? u32 (offset + 4) then Some 0
  else
    b0 ← byteAt data offset;
    b1 ← byteAt data (u32 (offset + 1));
    b2 ← byteAt data (u32 (offset + 2));
    b3 ← byteAt data (u32 (offset + 3));
    let ptr := u32 (Z.lor (Z.lor (Z.lor b0 (Z.shiftl b1 8)) (Z.shiftl b2 16))
                          (Z.shiftl b3 24)) in
    if (0x08000000 <=? ptr) && (ptr <=? 0x09FFFFFF)
    then Some (u32 (ptr - 0x08000000))
    else Some 0.

Record WonderCardGraphicsEntry := mkWonderCardGraphicsEntry {
  tilesetPtr : Z;
  tilemapPtr : Z;
  palettePtr : Z;
  padding : Z
}.

Definition loadWonderCardEntry (reader : GBAROReader) (index : Z)
    : option WonderCardGraphicsEntry :=
  if negb (romIsLoaded reader) || (index <? 0) || (m_wondercardCount reader <=? index)
  then Some (mkWonderCardGraphicsEntry 0 0 0 0)
  else
    let entryOffset := u32 (m_wondercardTable reader + index * 16) in
    tileset ← readPointer (m_romData reader) entryOffset;
    tilemap ← readPointer (m_romData reader) (u32 (entryOffset + 4));
    palette ← readPointer (m_romData reader) (u32 (entryOffset + 8));
    Some (mkWonderCardGraphicsEntry tileset tilemap palette 0).

(** ** GBAROReader::loadTilemap *)

Record TilemapEntry := mkTilemapEntry {
  tileIndex : Z;
  paletteIndex : Z;
  hFlip : bool;
  vFlip : bool
}.

Definition tilemapEntryOf (value : Z) : TilemapEntry :=
  mkTilemapEntry (Z.land value 0x3FF)
                 (u8 (Z.land (Z.shiftr value 12) 0xF))
                 (negb (Z.land value 0x400 =? 0))
                 (negb (Z.land value 0x800 =? 0)).

(** [for (i = 0; i + 1 < data.size(); i += 2)]; [None] when [fuel]
    iterations do not finish the loop or an index leaves the array. *)
Fixpoint loadTilemapLoop (fuel : nat) (data : list Z) (i : Z)
    (tilemap : list TilemapEntry) : option (list TilemapEntry) :=
  if i + 1 <? Z.of_nat (length data) then
    match fuel with
    | O => None
    | S fuel' =>
        lo ← byteAt data i;
        hi ← byteAt data (i + 1);
        let value := u16 (Z.lor lo (Z.shiftl hi 8)) in
        loadTilemapLoop fuel' data (i + 2) (tilemap ++ [tilemapEntryOf value])
    end
  else Some tilemap.

(** Every iteration advances [i] by two, so [data.size()] iterations
    are enough. *)
Definition loadTilemap (data : list Z) : option (list TilemapEntry) :=
  loadTilemapLoop (length data) data 0 [].

(** ** getGen3Charset and GBAROReader::decodeGen3String *)

(** The [QHash<uint8_t, QString>] of the name alphabet, as the list of
    its entries. *)
Definition getGen3Charset : list (Z * QString) := [
  (0x00, [0x20]);
  (* numbers *)
  (0xA1, [0x30]); (0xA2, [0x31]); (0xA3, [0x32]); (0xA4, [0x33]); (0xA5, [0x34]);
  (0xA6, [0x35]); (0xA7, [0x36]); (0xA8, [0x37]); (0xA9, [0x38]); (0xAA, [0x39]);
  (* punctuation *)
  (0xAB, [0x21]); (0xAC, [0x3F]); (0xAD, [0x2E]); (0xAE, [0x2D]);
  (* uppercase letters *)
  (0xBB, [0x41]); (0xBC, [0x42]); (0xBD, [0x43]); (0xBE, [0x44]); (0xBF, [0x45]);
  (0xC0, [0x46]); (0xC1, [0x47]); (0xC2, [0x48]); (0xC3, [0x49]); (0xC4, [0x4A]);
  (0xC5, [0x4B]); (0xC6, [0x4C]); (0xC7, [0x4D]); (0xC8, [0x4E]); (0xC9, [0x4F]);
  (0xCA, [0x50]); (0xCB, [0x51]); (0xCC, [0x52]); (0xCD, [0x53]); (0xCE, [0x54]);
  (0xCF, [0x55]); (0xD0, [0x56]); (0xD1, [0x57]); (0xD2, [0x58]); (0xD3, [0x59]);
  (0xD4, [0x5A]);
  (* lowercase letters *)
  (0xD5, [0x61]); (0xD6, [0x62]); (0xD7, [0x63]); (0xD8, [0x64]); (0xD9, [0x65]);
  (0xDA, [0x66]); (0xDB, [0x67]); (0xDC, [0x68]); (0xDD, [0x69]); (0xDE, [0x6A]);
  (0xDF, [0x6B]); (0xE0, [0x6C]); (0xE1, [0x6D]); (0xE2, [0x6E]); (0xE3, [0x6F]);
  (0xE4, [0x70]); (0xE5, [0x71]); (0xE6, [0x72]); (0xE7, [0x73]); (0xE8, [0x74]);
  (0xE9, [0x75]); (0xEA, [0x76]); (0xEB, [0x77]); (0xEC, [0x78]); (0xED, [0x79]);
  (0xEE, [0x7A]);
  (* special *)
  (0xB4, [0x27]); (0xB8, [0x2C]); (0xBA, [0x2F]); (0xF0, [0x3A])
].

(** [QHash::value(key, defaultValue)] *)
Fixpoint hashValue (h : list (Z * QString)) (key : Z) (defaultValue : QString)
    : QString :=
  match h with
  | [] => defaultValue
  | (k, v) :: rest => if k =? key then v else hashValue rest key defaultValue
  end.

(** [QChar::isSpace]: the separator categories and U+0009..U+000D,
    U+0085. *)
Definition isSpace (c : Z) : bool :=
  (c =? 0x20) || ((0x09 <=? c) && (c <=? 0x0D)) || (c =? 0x85) || (c =? 0xA0)
  || (c =? 0x1680) || ((0x2000 <=? c) && (c <=? 0x200A))
  || (c =? 0x2028) || (c =? 0x2029) || (c =? 0x202F) || (c =? 0x205F)
  || (c =? 0x3000).

Fixpoint trimmedStart (s : QString) : QString :=
  match s with
  | [] => []
  | c :: rest => if isSpace c then trimmedStart rest else s
  end.

(** [QString::trimmed] *)
Definition trimmed (s : QString) : QString :=
  reverse (trimmedStart (reverse (trimmedStart s))).

(** [for (i = 0; i < data.size(); i++)], at index [i] with [n]
    iterations to go. *)
Fixpoint decodeGen3Loop (data : list Z) (i : Z) (n : nat) (result : QString)
    : option QString :=
  match n with
  | O => Some result
  | S k =>
      byte ← byteAt data i;
      if byte =? 0xFF then Some result
      else
        let ch := hashValue getGen3Charset byte [] in
        decodeGen3Loop data (i + 1) k
          (if negb (bool_decide (ch = [])) then result ++ ch else result)
  end.

Definition decodeGen3String (data : list Z) : option QString :=
  trimmed <$> decodeGen3Loop data 0 (length data) [].

(** * Specification-side definitions *)

(** ** Slot validation *)

(** The pointer [sectionData] of physical section [section] in a slot. *)
Definition sectionDataOf (m_bytes : list Z) (slotIndex section : Z) : list Z :=
  advance m_bytes (slotIndex * (SECTION_SIZE * SECTIONS_PER_SAVE) + section * SECTION_SIZE).

(** A section's stored checksum matches the checksum of its first
    [len] bytes. *)
Definition sectionChecksumMatches (len : Z) (sectionData : list Z) : Prop :=
  computeSectionChecksum sectionData len = le16 sectionData CHECKSUM_OFFSET.

(** Slot validity as the specification words it: every section is checked
    against the length that [getSectionChecksumLength] assigns to its
    logical id under game variant [game]. *)
Definition slotValidPerSection (game : GameType) (m_bytes : list Z)
    (slotIndex : Z) : bool :=
  forallb
    (fun section =>
       let sectionData := sectionDataOf m_bytes slotIndex section in
       let sectionId := le16 sectionData SECTION_ID_OFFSET in
       let len :=
         getSectionChecksumLength (mkSaveFile m_bytes game false slotIndex) sectionId in
       bool_decide
         (computeSectionChecksum sectionData len = le16 sectionData CHECKSUM_OFFSET))
    (seqZ 0 SECTIONS_PER_SAVE).

(** A save object as [loadFromFile] leaves it. *)
Definition loadedSave (sf : SaveFile) : Prop :=
  Z.of_nat (length (m_bytes sf)) = EXPECTED_FILE_SIZE /\
  (m_activeSaveSlot sf = 0 \/ m_activeSaveSlot sf = 1).

(** The stores of a trace that hit the address [i], applied in order. *)
Definition replay (stores : list (Z * Z)) (bytes : list Z) : list Z :=
  foldl (fun b s => poke b (fst s) (snd s)) bytes stores.

(** ** CRC16 as the specification words it *)

Definition tableEntryLE (table : list Z) (index : Z) : Z :=
  peek table (2 * index) + 256 * peek table (2 * index + 1).

Definition crc16_spec_step (table : list Z) (crc byte : Z) : Z :=
  Z.lxor (tableEntryLE table (Z.land (Z.lxor crc byte) 0xFF)) (Z.shiftr crc 8).

Definition crc16_spec (bytes table : list Z) : Z :=
  Z.land (Z.lnot (fold_left (crc16_spec_step table) bytes 0x1121)) 0xFFFF.

(** ** Text fields *)

Definition isByte (b : Z) : Prop := 0 <= b < 256.

(** The byte [b] has a text-table entry. *)
Definition hasTableEntry (b : Z) : Prop := 0 <= b < 256 /\ gen3Char b <> 0.

(** The character [c] occurs in the text table. *)
Definition tableChar (c : Z) : Prop := c <> 0 /\ c ∈ GEN3_TO_UNICODE.

(** The byte [b] is the canonical code of a table character: it has a
    table entry, and the encoder answers the character it decodes to
    with [b] itself. *)
Definition canonicalCode (b : Z) : Prop :=
  hasTableEntry b /\ unicodeToGen3 (gen3Char b) = b.

(** What one byte other than the terminator contributes to a decoded
    string: one character, or nothing. *)
Definition decodeChar (byte : Z) : QString := decodeByte [] byte.

(** Decoding as a function of the byte sequence read. *)
Fixpoint decodeList (bytes : list Z) : QString :=
  match bytes with
  | [] => []
  | byte :: rest =>
      if byte =? 0xFF then [] else decodeChar byte ++ decodeList rest
  end.

(** The [n] bytes [encodeText] leaves in a field: the codes of the first
    [n] characters, then zero padding. *)
Definition fieldBytes (text : QString) (n : nat) : list Z :=
  (unicodeToGen3 <$> take n text) ++ replicate (n - length text) 0.

(** [encode_text(text, max_len)] into a fresh destination. *)
Definition encodeTextField (text : QString) (maxLength : Z) : list Z :=
  encodeText (replicate (Z.to_nat maxLength) 0xFF) 0 text maxLength.

(** One encode/decode round trip at field width [maxLength]. *)
Definition roundTrip (maxLength : Z) (text : QString) : QString :=
  decodeText (encodeTextField text maxLength) maxLength.

(** The bytes of [text] followed by zero padding up to the field size. *)
Definition paddedField (text : QString) : list Z :=
  (unicodeToGen3 <$> text) ++
  replicate (Z.to_nat TEXT_FIELD_SIZE - length text)%nat 0.

(** Two buffers agree on the indices in [P]. *)
Definition agreeOn (P : nat -> Prop) (buf payload : list Z) : Prop :=
  forall i, P i -> buf !! i = payload !! i.

Definition textFieldOffsets : list Z :=
  [ WonderCardOffsets.TITLE; WonderCardOffsets.SUBTITLE;
    WonderCardOffsets.CONTENT_LINE_1; WonderCardOffsets.CONTENT_LINE_2;
    WonderCardOffsets.CONTENT_LINE_3; WonderCardOffsets.CONTENT_LINE_4;
    WonderCardOffsets.WARNING_LINE_1; WonderCardOffsets.WARNING_LINE_2 ].

(** The 40-byte field at [off] holds the codes [unicodeToGen3] assigns to
    a text of table characters, followed by zero padding. *)
Definition zeroPaddedFieldAt (payload : list Z) (off : Z) : Prop :=
  exists text : QString,
    Forall tableChar text /\
    (length text <= Z.to_nat TEXT_FIELD_SIZE)%nat /\
    mid payload off TEXT_FIELD_SIZE = paddedField text.

Definition zeroPaddedFields (payload : list Z) : Prop :=
  Forall (zeroPaddedFieldAt payload) textFieldOffsets.

(** ** Well-formed LZ77 streams

    [lzBlocks rom declared n flags srcPos produced srcPos' produced']:
    starting at [srcPos] with [produced] bytes of output, at most [n]
    blocks under the flag byte [flags] are in bounds, refer only to
    output that exists, and end at [srcPos'] with [produced'] bytes. *)

Inductive lzBlocks (rom : list Z) (declared : Z)
    : nat -> Z -> Z -> Z -> Z -> Z -> Prop :=
  | lzBlocks_full n flags srcPos produced :
      declared <= produced ->
      lzBlocks rom declared n flags srcPos produced srcPos produced
  | lzBlocks_none flags srcPos produced :
      lzBlocks rom declared 0 flags srcPos produced srcPos produced
  | lzBlocks_literal n flags srcPos produced srcPos' produced' b :
      produced < declared ->
      Z.land flags 0x80 = 0 ->
      byteAt rom srcPos = Some b ->
      lzBlocks rom declared n (u8 (Z.shiftl flags 1)) (srcPos + 1)
               (produced + 1) srcPos' produced' ->
      lzBlocks rom declared (S n) flags srcPos produced srcPos' produced'
  | lzBlocks_backref n flags srcPos produced srcPos' produced' byte1 byte2 :
      produced < declared ->
      Z.land flags 0x80 <> 0 ->
      byteAt rom srcPos = Some byte1 ->
      byteAt rom (srcPos + 1) = Some byte2 ->
      lzDisplacement byte1 byte2 <= produced ->
      lzBlocks rom declared n (u8 (Z.shiftl flags 1)) (srcPos + 2)
               (Z.min (produced + lzLength byte1) declared) srcPos' produced' ->
      lzBlocks rom declared (S n) flags srcPos produced srcPos' produced'.

Inductive lzStream (rom : list Z) (declared : Z) : Z -> Z -> Prop :=
  | lzStream_done srcPos produced :
      declared <= produced ->
      lzStream rom declared srcPos produced
  | lzStream_group srcPos produced flags srcPos' produced' :
      produced < declared ->
      byteAt rom srcPos = Some flags ->
      lzBlocks rom declared 8 flags (srcPos + 1) produced srcPos' produced' ->
      lzStream rom declared srcPos' produced' ->
      lzStream rom declared srcPos produced.

(** ** Sample inputs *)

Definition zeroSave : list Z := replicate (Z.to_nat EXPECTED_FILE_SIZE) 0.

(** A save whose first section carries one non-zero byte at [0xF40]:
    past the data length of a section with logical id 0, but inside the
    default validation length. *)
Definition staleTailSave : list Z := poke zeroSave 0xF40 1.

(** A save whose slot 0 has one corrupted data byte in its first section
    and the higher save counter (9 against 0); slot 1 is intact. *)
Definition corruptSlot0Save : list Z := poke (poke zeroSave 0 1) 0xFFC 9.

(** A save whose slot 0 has the byte 1 at [0xF40] of its first section,
    past the data length of logical id 0 but inside the default
    validation length, and the higher save counter (9 against 0). *)
Definition staleCounterSave : list Z := poke (poke zeroSave 0xF40 1) 0xFFC 9.

(** A save with logical ids 4 (gift card) and 2 (flags) on the first two
    physical sections of slot 1, and the save object an Emerald load
    with slot 1 active makes of it. *)
Definition sampleSave : list Z := poke (poke zeroSave 0xEFF4 4) 0xFFF4 2.

Definition sampleSaveFile : SaveFile := mkSaveFile sampleSave Emerald true 1.

(** Where [enableMysteryGift] finds the flag, once its guards pass. *)
Definition flagOffsetOf (sf : SaveFile) : Z :=
  if bool_decide (m_detectedGame sf = Emerald)
  then MYSTERY_GIFT_OFFSET_EMERALD else MYSTERY_GIFT_OFFSET_FRLG.

Definition flagBitOf (sf : SaveFile) : Z :=
  if bool_decide (m_detectedGame sf = Emerald)
  then MYSTERY_GIFT_BIT_EMERALD else MYSTERY_GIFT_BIT_FRLG.

Definition section2OffsetOf (sf : SaveFile) : Z :=
  m_activeSaveSlot sf * (SECTION_SIZE * SECTIONS_PER_SAVE)
  + findSection sf 2 * SECTION_SIZE.

(** The buffer of [m] is the initial buffer [b0] with the recorded stores
    applied in order; stores never resize it. *)
Definition tracked (b0 : list Z) (m : Mem) : Prop :=
  length (mem_bytes m) = length b0 /\
  mem_bytes m = replay (mem_stores m) b0.

(** Text "TEST". *)
Definition textTEST : QString := [0x54; 0x45; 0x53; 0x54].

(** A gift-card payload with title "TEST", every text field zero padded. *)
Definition testCard : list Z :=
  replicate 10 0 ++ paddedField textTEST ++ replicate 280 0 ++ [0; 0].

(** The same payload with a non-zero byte in the two-byte tail behind
    the last text field. *)
Definition testCardTail : list Z :=
  replicate 10 0 ++ paddedField textTEST ++ replicate 280 0 ++ [1; 0].

(** The payload of [testCard] with the title byte [0x43] instead of
    "TEST": [0x43] has the table entry "P", whose canonical code is
    [0xCA]. *)
Definition testCardCode : list Z :=
  replicate 10 0 ++ [0x43] ++ replicate 39 0 ++ replicate 280 0 ++ [0; 0].

(** Header [0x10], declared size 6, one flag byte [0x40]: a literal
    [0x41] and a back reference of length 5 at displacement 1, which
    overlaps the write cursor. *)
Definition overlapStream : list Z := [0x10; 6; 0; 0; 0x40; 0x41; 0x20; 0x00].

(** ** Where injection writes *)

(** The offset of the gift-card section inside the save buffer. *)
Definition giftBlockOffsetOf (sf : SaveFile) : Z :=
  m_activeSaveSlot sf * (SECTION_SIZE * SECTIONS_PER_SAVE)
  + findWonderCardBlock sf * SECTION_SIZE.

Definition wonderCardOffsetOf (sf : SaveFile) : Z :=
  if bool_decide (m_detectedGame sf = Emerald)
  then WONDERCARD_OFFSET_EMERALD else WONDERCARD_OFFSET_FRLG.

Definition scriptOffsetOf (sf : SaveFile) : Z :=
  if bool_decide (m_detectedGame sf = Emerald)
  then GMSCRIPT_OFFSET_EMERALD else GMSCRIPT_OFFSET_FRLG.

Definition metadataOffsetOf (sf : SaveFile) : Z :=
  if bool_decide (m_detectedGame sf = Emerald)
  then WCMETADATA_OFFSET_EMERALD else WCMETADATA_OFFSET_FRLG.

Definition trainerIdsOffsetOf (sf : SaveFile) : Z :=
  if bool_decide (m_detectedGame sf = Emerald)
  then TRAINERIDS_OFFSET_EMERALD else TRAINERIDS_OFFSET_FRLG.

(** The payload [injectWonderCard] writes: the raw card without its
    header when one of a known size is given, else the encoded struct. *)
Definition injectedPayload (wonderCard : WonderCardData)
    (rawWonderCardData : list Z) : list Z :=
  if negb (bool_decide (rawWonderCardData = [])) then
    if Z.of_nat (length rawWonderCardData) =? 336 then mid rawWonderCardData 4 332
    else if Z.of_nat (length rawWonderCardData) =? 332 then rawWonderCardData
    else encodeWonderCard wonderCard
  else encodeWonderCard wonderCard.

(** The script payload [injectWonderCard] selects, and the copy of it
    that carries the magic number. *)
Definition scriptPayloadOf (scriptData : list Z) : list Z :=
  if Z.of_nat (length scriptData) =? 1004 then mid scriptData 4 1000
  else if Z.of_nat (length scriptData) =? 1000 then scriptData
  else [].

Definition scriptToWriteOf (scriptData : list Z) : list Z :=
  if negb (peek (scriptPayloadOf scriptData) RAMSCRIPT_MAGIC_OFFSET =? RAM_SCRIPT_MAGIC)
  then poke (scriptPayloadOf scriptData) RAMSCRIPT_MAGIC_OFFSET RAM_SCRIPT_MAGIC
  else scriptPayloadOf scriptData.

(** The offsets, relative to the section, that injection may write. *)
Definition injectionWrites (sf : SaveFile) (o : Z) : Prop :=
  metadataOffsetOf sf - 4 <= o < metadataOffsetOf sf + WCMETADATA_SIZE \/
  trainerIdsOffsetOf sf <= o < trainerIdsOffsetOf sf + TRAINERIDS_SIZE \/
  wonderCardOffsetOf sf <= o < wonderCardOffsetOf sf + WONDERCARD_TOTAL_SIZE \/
  scriptOffsetOf sf <= o < scriptOffsetOf sf + 4 + RAMSCRIPT_SIZE \/
  CHECKSUM_OFFSET <= o < CHECKSUM_OFFSET + 2.

(** ** Text fields, any text *)

(** What a character becomes on its way through a text field: a
    character of the table is kept, NUL is dropped, and any other
    character turns into a space. *)
Definition fieldChar (c : Z) : QString :=
  if c =? 0 then []
  else if bool_decide (c ∈ GEN3_TO_UNICODE) then [c]
  else [0x20].

(** The characters [unicodeToGen3] answers before it scans the table. *)
Definition priorityChars : list Z :=
  seqZ 0x30 10 ++ seqZ 0x41 26 ++ seqZ 0x61 26
  ++ [0x21; 0x3F; 0x2E; 0x2D; 0x2C; 0x2F; 0x3A; 0x20].

(** The half-word [extractPalette] converts at [offset]: the two bytes
    there, or zero when they do not both lie inside the ROM. *)
Definition halfWordAt (rom : list Z) (offset : Z) : Z :=
  if offset + 1 <? Z.of_nat (length rom) then le16 rom offset else 0.

(** The byte a bounds-checked read yields at [offset]. *)
Definition byteOrZero (rom : list Z) (offset : Z) : Z :=
  if offset <? Z.of_nat (length rom) then peek rom offset else 0.

(** The ROM offset behind the GBA address stored at [offset]: zero unless
    the four bytes lie inside the data and hold an address of the
    cartridge window [0x08000000 .. 0x09FFFFFF]. *)
Definition romOffsetAt (data : list Z) (offset : Z) : Z :=
  if (offset + 4 <=? Z.of_nat (length data))
     && (0x08000000 <=? le32 data offset) && (le32 data offset <=? 0x09FFFFFF)
  then le32 data offset - 0x08000000 else 0.

(** Name decoding as a function of the byte sequence read: the alphabet
    entries of the bytes in front of the first terminator. *)
Fixpoint nameChars (bytes : list Z) : QString :=
  match bytes with
  | [] => []
  | byte :: rest =>
      if byte =? 0xFF then [] else hashValue getGen3Charset byte [] ++ nameChars rest
  end.

(** The byte is the terminator, or a key of the name alphabet other than
    the apostrophe [0xB4]. *)
Definition plainNameByte (byte : Z) : bool :=
  (byte =? 0xFF) ||
  (bool_decide (byte ∈ getGen3Charset.*1) && negb (byte =? 0xB4)).

(** ** Further sample inputs *)

(** The save object a failed load leaves behind. *)
Definition unloadedSaveFile : SaveFile := mkSaveFile [] Unknown false (-1).

(** A 19-byte ROM: one 16-byte Wonder Card table entry (a pointer to ROM
    offset 4, an address outside the cartridge window, a pointer to ROM
    offset [0x7FFF] and the padding), then the colour red and one
    dangling byte. *)
Definition sampleRom : list Z :=
  [0x04; 0x00; 0x00; 0x08; 0x00; 0x00; 0x00; 0x0A;
   0xFF; 0x7F; 0x00; 0x08; 0x00; 0x00; 0x00; 0x00;
   0x1F; 0x00; 0xE0].

(** A reader of that ROM with a one-entry table at offset 0 and glyph
    widths at offset 16. *)
Definition sampleReader : GBAROReader :=
  mkGBAROReader sampleRom true 0 1 16 [(1, 17)].

(** * Properties *)

(** ** Machine integers, [peek] and [poke] *)

Lemma u8_range x : 0 <= u8 x < 256.
Proof. unfold u8. apply Z.mod_pos_bound. lia. Qed.

Lemma u16_range x : 0 <= u16 x < 65536.
Proof. unfold u16. apply Z.mod_pos_bound. lia. Qed.

Lemma u32_range x : 0 <= u32 x < 4294967296.
Proof. unfold u32. apply Z.mod_pos_bound. lia. Qed.

Lemma u8_small x : 0 <= x < 256 -> u8 x = x.
Proof. intros. unfold u8. apply Z.mod_small. lia. Qed.

Lemma u16_small x : 0 <= x < 65536 -> u16 x = x.
Proof. intros. unfold u16. apply Z.mod_small. lia. Qed.

Lemma u32_small x : 0 <= x < 4294967296 -> u32 x = x.
Proof. intros. unfold u32. apply Z.mod_small. lia. Qed.

Lemma peek_range data i : 0 <= peek data i < 256.
Proof. apply u8_range. Qed.

Lemma peek_advance data n i :
  0 <= n -> 0 <= i -> peek (advance data n) i = peek data (n + i).
Proof.
  intros Hn Hi. unfold peek, advance.
  rewrite lookup_drop. do 3 f_equal. lia.
Qed.

Lemma length_poke data i v : length (poke data i v) = length data.
Proof. apply length_insert. Qed.

Lemma peek_poke_ne data i j v :
  0 <= i -> 0 <= j -> i <> j -> peek (poke data i v) j = peek data j.
Proof.
  intros Hi Hj Hne. unfold peek, poke.
  rewrite list_lookup_insert_ne; [done | lia].
Qed.

Lemma peek_poke_eq data i v :
  0 <= i < Z.of_nat (length data) -> peek (poke data i v) i = u8 v.
Proof.
  intros Hi. unfold peek, poke.
  rewrite list_lookup_insert_eq; [done | lia].
Qed.

Lemma peek_lookup data i x :
  data !! Z.to_nat i = Some x -> peek data i = u8 x.
Proof. intros H. unfold peek. by rewrite H. Qed.

(** ** Bit-level facts about little-endian composition *)

Lemma land_shiftl_disjoint a b k :
  0 <= k -> 0 <= a < 2 ^ k -> Z.land a (Z.shiftl b k) = 0.
Proof.
  intros Hk Ha. apply Z.bits_inj'. intros n Hn.
  rewrite Z.land_spec, Z.bits_0.
  destruct (Z.lt_ge_cases n k) as [Hlt | Hge].
  - rewrite Z.shiftl_spec_low by lia. apply andb_false_r.
  - destruct (Z.eq_dec a 0) as [-> | Hnz].
    + rewrite Z.bits_0. reflexivity.
    + rewrite (Z.bits_above_log2 a n); [reflexivity | lia |].
      apply Z.lt_le_trans with k; [apply Z.log2_lt_pow2; lia | lia].
Qed.

Lemma lor_shiftl_add a b k :
  0 <= k -> 0 <= a < 2 ^ k -> Z.lor a (Z.shiftl b k) = a + b * 2 ^ k.
Proof.
  intros Hk Ha.
  pose proof (land_shiftl_disjoint a b k Hk Ha) as Hdis.
  rewrite <- Z.lxor_lor by exact Hdis.
  rewrite <- Z.add_nocarry_lxor by exact Hdis.
  rewrite Z.shiftl_mul_pow2 by lia. reflexivity.
Qed.

Lemma land_255 x : Z.land x 255 = x mod 256.
Proof. change 255 with (Z.ones 8). rewrite Z.land_ones by lia. reflexivity. Qed.

Lemma land_65535 x : Z.land x 65535 = x mod 65536.
Proof. change 65535 with (Z.ones 16). rewrite Z.land_ones by lia. reflexivity. Qed.

Lemma shiftr_div x k : 0 <= k -> Z.shiftr x k = x / 2 ^ k.
Proof. intros. apply Z.shiftr_div_pow2. lia. Qed.

Lemma le16_value data off :
  le16 data off = peek data off + 256 * peek data (off + 1).
Proof.
  unfold le16. pose proof (peek_range data off).
  rewrite (lor_shiftl_add _ _ 8) by lia. lia.
Qed.

Lemma le16_range data off : 0 <= le16 data off < 65536.
Proof.
  rewrite le16_value.
  pose proof (peek_range data off). pose proof (peek_range data (off + 1)). lia.
Qed.

Lemma le32_value data off :
  le32 data off =
  peek data off + 256 * peek data (off + 1) + 65536 * peek data (off + 2)
  + 16777216 * peek data (off + 3).
Proof.
  unfold le32.
  pose proof (peek_range data off). pose proof (peek_range data (off + 1)).
  pose proof (peek_range data (off + 2)). pose proof (peek_range data (off + 3)).
  rewrite (lor_shiftl_add (peek data off) _ 8) by lia.
  rewrite (lor_shiftl_add _ _ 16) by lia.
  rewrite (lor_shiftl_add _ _ 24) by lia. lia.
Qed.

Lemma le32_range data off : 0 <= le32 data off < 4294967296.
Proof.
  rewrite le32_value.
  pose proof (peek_range data off). pose proof (peek_range data (off + 1)).
  pose proof (peek_range data (off + 2)). pose proof (peek_range data (off + 3)).
  lia.
Qed.

(** Splitting a 16-bit value into its two bytes and back. *)
Lemma split16 c :
  0 <= c < 65536 ->
  u8 (Z.land c 0xFF) + 256 * u8 (Z.land (Z.shiftr c 8) 0xFF) = c.
Proof.
  intros Hc. rewrite !land_255, shiftr_div by lia. unfold u8.
  change (2 ^ 8) with 256.
  rewrite !Z.mod_mod by lia.
  rewrite (Z.mod_small (c / 256)) by (split; [apply Z.div_pos; lia | apply Z.div_lt_upper_bound; lia]).
  pose proof (Z.div_mod c 256). lia.
Qed.

(** ** Checksums depend only on the bytes they cover *)

Lemma le32_ext d1 d2 off :
  (forall k, 0 <= k < 4 -> peek d1 (off + k) = peek d2 (off + k)) ->
  le32 d1 off = le32 d2 off.
Proof.
  intros H. unfold le32.
  pose proof (H 0) as H0. rewrite Z.add_0_r in H0.
  rewrite H0, (H 1), (H 2), (H 3) by lia. reflexivity.
Qed.

Lemma sumWords_ext d1 d2 n :
  (forall i, 0 <= i < 4 * Z.of_nat n -> peek d1 i = peek d2 i) ->
  sumWords d1 n = sumWords d2 n.
Proof.
  induction n as [| n IH]; intros H; [reflexivity |].
  cbn [sumWords]. rewrite IH by (intros; apply H; lia).
  rewrite (le32_ext d1 d2) by (intros; apply H; lia). reflexivity.
Qed.

Lemma computeSectionChecksum_ext d1 d2 len :
  0 <= len ->
  (forall i, 0 <= i < len -> peek d1 i = peek d2 i) ->
  computeSectionChecksum d1 len = computeSectionChecksum d2 len.
Proof.
  intros Hlen H. unfold computeSectionChecksum.
  rewrite (sumWords_ext d1 d2); [reflexivity |].
  intros i Hi. apply H.
  rewrite Z2Nat.id in Hi by (apply Z.div_pos; lia).
  pose proof (Z.mul_div_le len 4). lia.
Qed.

Lemma computeSectionChecksum_range data len :
  0 <= computeSectionChecksum data len < 65536.
Proof. unfold computeSectionChecksum. apply u16_range. Qed.

Lemma sumWords_zero data n :
  (forall i, 0 <= i < 4 * Z.of_nat n -> peek data i = 0) ->
  sumWords data n = 0.
Proof.
  induction n as [| n IH]; intros H; [reflexivity |].
  cbn [sumWords]. rewrite IH by (intros; apply H; lia).
  rewrite le32_value. rewrite !H by lia. reflexivity.
Qed.

Lemma computeSectionChecksum_zero data len :
  0 <= len ->
  (forall i, 0 <= i < len -> peek data i = 0) ->
  computeSectionChecksum data len = 0.
Proof.
  intros Hlen H. unfold computeSectionChecksum.
  rewrite sumWords_zero; [reflexivity |].
  intros i Hi. apply H.
  rewrite Z2Nat.id in Hi by (apply Z.div_pos; lia).
  pose proof (Z.mul_div_le len 4). lia.
Qed.

(** ** analyzeSaveSlot *)

Lemma analyzeSection_valid saveData baseOffset info section :
  valid (analyzeSection saveData baseOffset info section) =
  valid info &&
  bool_decide (computeSectionChecksum
                 (advance saveData (baseOffset + section * SECTION_SIZE))
                 CHECKSUM_DATA_LENGTH_DEFAULT =
               le16 (advance saveData (baseOffset + section * SECTION_SIZE))
                    CHECKSUM_OFFSET).
Proof.
  unfold analyzeSection. cbv zeta.
  set (c := computeSectionChecksum _ _). set (s := le16 _ CHECKSUM_OFFSET).
  destruct (decide (c = s)) as [e | ne];
    [rewrite (bool_decide_eq_true_2 _ e) | rewrite (bool_decide_eq_false_2 _ ne)];
    destruct (decide (le16 _ SECTION_ID_OFFSET = 0)); cbn [valid];
    rewrite ?andb_true_r, ?andb_false_r; reflexivity.
Qed.

Lemma analyzeSection_saveIndex saveData baseOffset info section :
  section <> 0 ->
  saveIndex (analyzeSection saveData baseOffset info section) = saveIndex info.
Proof.
  intros Hs. unfold analyzeSection. cbv zeta.
  repeat case_decide; cbn [saveIndex]; congruence.
Qed.

Lemma analyzeSections_valid saveData baseOffset sections : forall info,
  valid (foldl (analyzeSection saveData baseOffset) info sections) =
  valid info &&
  forallb
    (fun section =>
       bool_decide (computeSectionChecksum
                      (advance saveData (baseOffset + section * SECTION_SIZE))
                      CHECKSUM_DATA_LENGTH_DEFAULT =
                    le16 (advance saveData (baseOffset + section * SECTION_SIZE))
                         CHECKSUM_OFFSET))
    sections.
Proof.
  induction sections as [| s rest IH]; intros info; cbn [foldl forallb].
  - by rewrite andb_true_r.
  - rewrite IH, analyzeSection_valid. by rewrite andb_assoc.
Qed.

Lemma analyzeSections_saveIndex saveData baseOffset sections : forall info,
  Forall (fun s => s <> 0) sections ->
  saveIndex (foldl (analyzeSection saveData baseOffset) info sections) =
  saveIndex info.
Proof.
  induction sections as [| s rest IH]; intros info Hne; cbn [foldl]; [done |].
  inversion Hne; subst.
  rewrite IH by assumption. by apply analyzeSection_saveIndex.
Qed.

(** A slot is valid exactly when each of its 14 sections matches over
    the default length. *)
Lemma analyzeSaveSlot_valid m_bytes slotIndex :
  valid (analyzeSaveSlot m_bytes slotIndex) = true <->
  forall section, 0 <= section < SECTIONS_PER_SAVE ->
    sectionChecksumMatches CHECKSUM_DATA_LENGTH_DEFAULT
      (sectionDataOf m_bytes slotIndex section).
Proof.
  unfold analyzeSaveSlot. cbv zeta. rewrite analyzeSections_valid.
  cbn [valid]. rewrite andb_true_l, forallb_forall.
  unfold sectionChecksumMatches, sectionDataOf. split.
  - intros H section Hs.
    specialize (H section). rewrite bool_decide_eq_true in H. apply H.
    apply list_elem_of_In, elem_of_seqZ. lia.
  - intros H section Hs. rewrite bool_decide_eq_true. apply H.
    apply list_elem_of_In, elem_of_seqZ in Hs. lia.
Qed.

Lemma saveIndex_mk a b c d e : saveIndex (mkSaveBlockInfo a b c d e) = b.
Proof. reflexivity. Qed.

Lemma foldl_cons_eq {A B} (f : A -> B -> A) a x l :
  foldl f a (x :: l) = foldl f (f a x) l.
Proof. reflexivity. Qed.

(** The save counter of a slot is the one in its first physical section. *)
Lemma analyzeSaveSlot_saveIndex m_bytes slotIndex :
  saveIndex (analyzeSaveSlot m_bytes slotIndex) =
  le32 (sectionDataOf m_bytes slotIndex 0) SAVE_INDEX_OFFSET.
Proof.
  unfold analyzeSaveSlot. cbv zeta.
  rewrite seqZ_cons by (unfold SECTIONS_PER_SAVE; lia).
  rewrite foldl_cons_eq.
  rewrite analyzeSections_saveIndex.
  - unfold analyzeSection, sectionDataOf. cbv zeta.
    destruct (decide (0 = 0)) as [_ | Hne]; [| contradiction].
    destruct (decide (le16 _ SECTION_ID_OFFSET = 0)); apply saveIndex_mk.
  - apply Forall_forall. intros s Hs.
    apply list_elem_of_In, elem_of_seqZ in Hs. lia.
Qed.

Lemma findActiveSaveSlot_loaded m_bytes :
  isLoaded m_bytes = true ->
  findActiveSaveSlot m_bytes = 0 \/ findActiveSaveSlot m_bytes = 1.
Proof.
  intros Hl. unfold findActiveSaveSlot. rewrite Hl. cbn [negb].
  repeat case_match; auto.
Qed.

Lemma isLoaded_length m_bytes :
  Z.of_nat (length m_bytes) = EXPECTED_FILE_SIZE -> isLoaded m_bytes = true.
Proof.
  intros H. unfold isLoaded. destruct m_bytes; [discriminate H | reflexivity].
Qed.

(** C1 (amended). For a loaded 131072-byte save, slot detection prefers
    a slot all of whose 14 sections match their stored checksum over the
    default data length [0xF80], the check detection itself makes
    whatever the logical id of a section and the game variant, over a
    slot with a mismatch under that check, whatever the save counters
    are; when both slots pass or both fail that check it selects the
    slot with the strictly higher save counter. *)
Theorem findActiveSaveSlot_selection (m_bytes : list Z) :
  Z.of_nat (length m_bytes) = EXPECTED_FILE_SIZE ->
  let allMatch slot :=
    forall section, 0 <= section < SECTIONS_PER_SAVE ->
      sectionChecksumMatches CHECKSUM_DATA_LENGTH_DEFAULT
        (sectionDataOf m_bytes slot section) in
  let counter slot := le32 (sectionDataOf m_bytes slot 0) SAVE_INDEX_OFFSET in
  (allMatch 0 -> ~ allMatch 1 -> findActiveSaveSlot m_bytes = 0) /\
  (~ allMatch 0 -> allMatch 1 -> findActiveSaveSlot m_bytes = 1) /\
  ((allMatch 0 <-> allMatch 1) -> counter 1 < counter 0 ->
     findActiveSaveSlot m_bytes = 0) /\
  ((allMatch 0 <-> allMatch 1) -> counter 0 < counter 1 ->
     findActiveSaveSlot m_bytes = 1).
Proof.
  intros Hlen allMatch counter.
  pose proof (analyzeSaveSlot_valid m_bytes 0) as V0.
  pose proof (analyzeSaveSlot_valid m_bytes 1) as V1.
  pose proof (analyzeSaveSlot_saveIndex m_bytes 0) as S0.
  pose proof (analyzeSaveSlot_saveIndex m_bytes 1) as S1.
  fold (allMatch 0) in V0. fold (allMatch 1) in V1.
  fold (counter 0) in S0. fold (counter 1) in S1.
  unfold findActiveSaveSlot.
  rewrite (isLoaded_length _ Hlen). cbn [negb]. cbv zeta.
  rewrite S0, S1.
  destruct (valid (analyzeSaveSlot m_bytes 0)) eqn:E0,
           (valid (analyzeSaveSlot m_bytes 1)) eqn:E1; cbn [andb negb].
  all: repeat split; intros.
  all: try (exfalso; intuition congruence).
  all: try reflexivity.
  all: try (destruct (Z.ltb_spec (counter 1) (counter 0)); [reflexivity | lia]).
  all: try (destruct (Z.ltb_spec (counter 1) (counter 0)); [lia | reflexivity]).
Qed.

(** ** Sample saves *)

Lemma length_zeroSave : Z.of_nat (length zeroSave) = EXPECTED_FILE_SIZE.
Proof. unfold zeroSave. rewrite length_replicate. apply Z2Nat.id. done. Qed.

Lemma peek_zeroSave i : peek zeroSave i = 0.
Proof.
  unfold peek, zeroSave.
  destruct (replicate _ 0 !! Z.to_nat i) as [x |] eqn:E; [| reflexivity].
  apply lookup_replicate in E as [-> _]. reflexivity.
Qed.

Lemma peek_staleTailSave i : 0 <= i -> i <> 0xF40 -> peek staleTailSave i = 0.
Proof.
  intros Hi Hne. unfold staleTailSave.
  rewrite peek_poke_ne by lia. apply peek_zeroSave.
Qed.

Lemma peek_staleTailSave_tail : peek staleTailSave 0xF40 = 1.
Proof.
  unfold staleTailSave. rewrite peek_poke_eq; [reflexivity |].
  rewrite length_zeroSave. unfold EXPECTED_FILE_SIZE. lia.
Qed.

(** A section whose only non-zero byte in the summed range is the low
    byte of word [k] sums to that byte. *)
Lemma sumWords_single data n k v :
  (k < n)%nat ->
  peek data (4 * Z.of_nat k) = v ->
  (forall i, 0 <= i < 4 * Z.of_nat n -> i <> 4 * Z.of_nat k -> peek data i = 0) ->
  sumWords data n = v.
Proof.
  intros Hk Hv. induction n as [| n IH]; intros Hz; [lia |].
  cbn [sumWords]. rewrite le32_value.
  destruct (decide (k = n)) as [-> | Hne].
  - rewrite sumWords_zero by (intros; apply Hz; lia).
    replace (Z.of_nat n * 4) with (4 * Z.of_nat n) by lia.
    rewrite Hv, !Hz by lia.
    pose proof (peek_range data (4 * Z.of_nat n)). rewrite Hv in *.
    rewrite u32_small; lia.
  - rewrite IH by (try lia; intros; apply Hz; lia).
    rewrite !Hz by lia.
    pose proof (peek_range data (4 * Z.of_nat k)). rewrite Hv in *.
    rewrite u32_small; lia.
Qed.

Lemma getSectionChecksumLength_id0 sf :
  0 <= getSectionChecksumLength sf 0 <= 0xF2C.
Proof.
  unfold getSectionChecksumLength.
  change (0 =? 4) with false. change (0 =? 0) with true. cbv iota.
  repeat case_decide; lia.
Qed.

Lemma computeSectionChecksum_unfold data len :
  computeSectionChecksum data len =
  u16 (Z.land (u32 (Z.land (sumWords data (Z.to_nat (len / 4))) 0xFFFF
                    + Z.shiftr (sumWords data (Z.to_nat (len / 4))) 16))
              0xFFFF).
Proof. reflexivity. Qed.

(** Any save that is zero except for the byte [1] at [0xF40] passes the
    per-section check in slot 0 and fails the check slot detection makes. *)
Lemma stale_tail_splits_validity (m_bytes : list Z) :
  (forall i, 0 <= i -> i <> 0xF40 -> peek m_bytes i = 0) ->
  peek m_bytes 0xF40 = 1 ->
  (forall game, slotValidPerSection game m_bytes 0 = true) /\
  valid (analyzeSaveSlot m_bytes 0) = false.
Proof.
  intros Hzero Hone. split.
  - intros game. unfold slotValidPerSection. apply forallb_forall.
    intros section Hs. apply list_elem_of_In, elem_of_seqZ in Hs.
    unfold SECTIONS_PER_SAVE in Hs. cbv zeta.
    apply bool_decide_eq_true. unfold sectionDataOf.
    unfold SECTION_SIZE, SECTIONS_PER_SAVE.
    rewrite !le16_value, !peek_advance by (unfold SECTION_ID_OFFSET, CHECKSUM_OFFSET; lia).
    rewrite !Hzero by (unfold SECTION_ID_OFFSET, CHECKSUM_OFFSET; lia).
    change (0 + 256 * 0) with 0.
    apply computeSectionChecksum_zero.
    + apply getSectionChecksumLength_id0.
    + intros i Hi. rewrite peek_advance by lia.
      apply Hzero; [lia |].
      pose proof (getSectionChecksumLength_id0
                    {| m_bytes := m_bytes; m_detectedGame := game;
                       m_checksumValid := false; m_activeSaveSlot := 0 |}).
      lia.
  - apply not_true_is_false. intros Hv.
    pose proof (proj1 (analyzeSaveSlot_valid _ _) Hv 0) as Hm. clear Hv.
    assert (0 <= 0 < SECTIONS_PER_SAVE) as Hr by (unfold SECTIONS_PER_SAVE; lia).
    specialize (Hm Hr). rename Hm into Hv.
    unfold sectionChecksumMatches, sectionDataOf in Hv.
    unfold SECTION_SIZE, SECTIONS_PER_SAVE in Hv.
    rewrite le16_value, !peek_advance in Hv by (unfold CHECKSUM_OFFSET; lia).
    rewrite !Hzero in Hv by (unfold CHECKSUM_OFFSET; lia).
    rewrite computeSectionChecksum_unfold in Hv.
    unfold CHECKSUM_DATA_LENGTH_DEFAULT in Hv.
    change (3968 / 4) with 992 in Hv.
    rewrite (sumWords_single _ _ (Z.to_nat 976) 1) in Hv.
    + vm_compute in Hv. discriminate Hv.
    + lia.
    + rewrite Z2Nat.id by lia. rewrite peek_advance by lia.
      rewrite <- Hone. f_equal.
    + rewrite !Z2Nat.id by lia.
      intros i Hi Hne. rewrite peek_advance by lia.
      apply Hzero; lia.
Qed.

(** C2 (as stated) fails. In [staleTailSave] every section of slot 0
    matches its stored checksum over the length of its own logical id,
    for each game variant, yet slot detection counts the slot invalid. *)
Lemma slot_valid_per_section_counterexample :
  (forall game, slotValidPerSection game staleTailSave 0 = true) /\
  valid (analyzeSaveSlot staleTailSave 0) = false.
Proof.
  apply stale_tail_splits_validity.
  - apply peek_staleTailSave.
  - apply peek_staleTailSave_tail.
Qed.

Lemma length_corruptSlot0Save :
  Z.of_nat (length corruptSlot0Save) = EXPECTED_FILE_SIZE.
Proof. unfold corruptSlot0Save. rewrite !length_poke. apply length_zeroSave. Qed.

Lemma peek_corruptSlot0Save i :
  0 <= i -> i <> 0 -> i <> 0xFFC -> peek corruptSlot0Save i = 0.
Proof.
  intros Hi H0 H1. unfold corruptSlot0Save.
  rewrite !peek_poke_ne by lia. apply peek_zeroSave.
Qed.

Lemma peek_corruptSlot0Save_first : peek corruptSlot0Save 0 = 1.
Proof.
  unfold corruptSlot0Save. rewrite peek_poke_ne by lia.
  rewrite peek_poke_eq; [reflexivity |].
  rewrite length_zeroSave. unfold EXPECTED_FILE_SIZE. lia.
Qed.

(** A slot whose bytes are all zero passes validation. *)
Lemma zero_slot_matches (m_bytes : list Z) (slotIndex : Z) :
  0 <= slotIndex ->
  (forall i, slotIndex * 57344 <= i < (slotIndex + 1) * 57344 -> peek m_bytes i = 0) ->
  forall section, 0 <= section < SECTIONS_PER_SAVE ->
    sectionChecksumMatches CHECKSUM_DATA_LENGTH_DEFAULT
      (sectionDataOf m_bytes slotIndex section).
Proof.
  intros Hslot Hzero section Hs. unfold SECTIONS_PER_SAVE in Hs.
  unfold sectionChecksumMatches, sectionDataOf.
  unfold SECTION_SIZE, SECTIONS_PER_SAVE, CHECKSUM_DATA_LENGTH_DEFAULT.
  rewrite le16_value, !peek_advance by (unfold CHECKSUM_OFFSET; lia).
  rewrite !Hzero by (unfold CHECKSUM_OFFSET; lia).
  change (0 + 256 * 0) with 0.
  apply computeSectionChecksum_zero; [lia |].
  intros i Hi. rewrite peek_advance by lia. apply Hzero. lia.
Qed.

(** A first section whose only non-zero data byte is byte 0, with a zero
    stored checksum, fails validation. *)
Lemma corrupt_first_section_mismatch (m_bytes : list Z) :
  peek m_bytes 0 = 1 ->
  (forall i, 0 < i < 0xFFC -> peek m_bytes i = 0) ->
  ~ sectionChecksumMatches CHECKSUM_DATA_LENGTH_DEFAULT
      (sectionDataOf m_bytes 0 0).
Proof.
  intros Hone Hzero Hv.
  unfold sectionChecksumMatches, sectionDataOf in Hv.
  unfold SECTION_SIZE, SECTIONS_PER_SAVE in Hv.
  rewrite le16_value, !peek_advance in Hv by (unfold CHECKSUM_OFFSET; lia).
  rewrite !Hzero in Hv by (unfold CHECKSUM_OFFSET; lia).
  rewrite computeSectionChecksum_unfold in Hv.
  unfold CHECKSUM_DATA_LENGTH_DEFAULT in Hv.
  change (3968 / 4) with 992 in Hv.
  rewrite (sumWords_single _ _ (Z.to_nat 0) 1) in Hv.
  - vm_compute in Hv. discriminate Hv.
  - lia.
  - rewrite Z2Nat.id by lia. rewrite peek_advance by lia.
    rewrite <- Hone. f_equal.
  - rewrite !Z2Nat.id by lia.
    intros i Hi Hne. rewrite peek_advance by lia.
    apply Hzero; lia.
Qed.

(** Witness for C1: in [corruptSlot0Save] slot 0 is corrupted and has the
    higher save counter, and detection selects slot 1. *)
Lemma findActiveSaveSlot_selection_witness :
  findActiveSaveSlot corruptSlot0Save = 1.
Proof.
  apply (proj1 (proj2 (findActiveSaveSlot_selection corruptSlot0Save
                         length_corruptSlot0Save))).
  - intros Hall. apply (corrupt_first_section_mismatch corruptSlot0Save).
    + apply peek_corruptSlot0Save_first.
    + intros i Hi. apply peek_corruptSlot0Save; lia.
    + apply Hall. unfold SECTIONS_PER_SAVE. lia.
  - apply zero_slot_matches; [lia |].
    intros i Hi. apply peek_corruptSlot0Save; lia.
Defined.

Lemma length_staleCounterSave :
  Z.of_nat (length staleCounterSave) = EXPECTED_FILE_SIZE.
Proof. unfold staleCounterSave. rewrite !length_poke. apply length_zeroSave. Qed.

Lemma peek_staleCounterSave i :
  0 <= i -> i <> 0xF40 -> i <> 0xFFC -> peek staleCounterSave i = 0.
Proof.
  intros Hi H0 H1. unfold staleCounterSave.
  rewrite !peek_poke_ne by lia. apply peek_zeroSave.
Qed.

Lemma peek_staleCounterSave_tail : peek staleCounterSave 0xF40 = 1.
Proof.
  unfold staleCounterSave. rewrite peek_poke_ne by lia.
  rewrite peek_poke_eq; [reflexivity |].
  rewrite length_zeroSave. unfold EXPECTED_FILE_SIZE. lia.
Qed.

Lemma peek_staleCounterSave_counter : peek staleCounterSave 0xFFC = 9.
Proof.
  unfold staleCounterSave. rewrite peek_poke_eq; [reflexivity |].
  rewrite length_poke, length_zeroSave. unfold EXPECTED_FILE_SIZE. lia.
Qed.

(** A slot whose section ids, stored checksums and first [0xF2C] data
    bytes are zero in every section passes the per-section check: every
    section has logical id 0, of data length at most [0xF2C]. *)
Lemma zero_ids_valid_per_section (m_bytes : list Z) (slotIndex : Z) game :
  0 <= slotIndex ->
  (forall section o, 0 <= section < 14 ->
     0 <= o < 0xF2C \/ 0xFF4 <= o < 0xFF8 ->
     peek m_bytes (slotIndex * 57344 + section * 4096 + o) = 0) ->
  slotValidPerSection game m_bytes slotIndex = true.
Proof.
  intros Hslot Hzero. unfold slotValidPerSection. apply forallb_forall.
  intros section Hs. apply list_elem_of_In, elem_of_seqZ in Hs.
  unfold SECTIONS_PER_SAVE in Hs. cbv zeta.
  apply bool_decide_eq_true. unfold sectionDataOf.
  unfold SECTION_SIZE, SECTIONS_PER_SAVE.
  assert (Hz : forall o, 0 <= o < 0xF2C \/ 0xFF4 <= o < 0xFF8 ->
            peek m_bytes (slotIndex * (4096 * 14) + section * 4096 + o) = 0).
  { intros o Ho. replace (slotIndex * (4096 * 14)) with (slotIndex * 57344) by lia.
    apply Hzero; lia. }
  rewrite !le16_value, !peek_advance by (unfold SECTION_ID_OFFSET, CHECKSUM_OFFSET; lia).
  unfold SECTION_ID_OFFSET, CHECKSUM_OFFSET.
  rewrite !Hz by lia.
  change (0 + 256 * 0) with 0.
  apply computeSectionChecksum_zero.
  - apply getSectionChecksumLength_id0.
  - intros i Hi. rewrite peek_advance by lia.
    apply Hz.
    pose proof (getSectionChecksumLength_id0
                  {| m_bytes := m_bytes; m_detectedGame := game;
                     m_checksumValid := false; m_activeSaveSlot := slotIndex |}).
    lia.
Qed.

(** A first section whose only non-zero byte in front of the signature
    is the byte 1 at [0xF40], with a zero stored checksum, fails the
    check slot detection makes. *)
Lemma stale_tail_mismatch (m_bytes : list Z) :
  peek m_bytes 0xF40 = 1 ->
  (forall i, 0 <= i < 0xFF8 -> i <> 0xF40 -> peek m_bytes i = 0) ->
  ~ sectionChecksumMatches CHECKSUM_DATA_LENGTH_DEFAULT
      (sectionDataOf m_bytes 0 0).
Proof.
  intros Hone Hzero Hv.
  unfold sectionChecksumMatches, sectionDataOf in Hv.
  unfold SECTION_SIZE, SECTIONS_PER_SAVE in Hv.
  rewrite le16_value, !peek_advance in Hv by (unfold CHECKSUM_OFFSET; lia).
  rewrite !Hzero in Hv by (unfold CHECKSUM_OFFSET; lia).
  rewrite computeSectionChecksum_unfold in Hv.
  unfold CHECKSUM_DATA_LENGTH_DEFAULT in Hv.
  change (3968 / 4) with 992 in Hv.
  rewrite (sumWords_single _ _ (Z.to_nat 976) 1) in Hv.
  - vm_compute in Hv. discriminate Hv.
  - lia.
  - rewrite Z2Nat.id by lia. rewrite peek_advance by lia.
    rewrite <- Hone. f_equal.
  - rewrite !Z2Nat.id by lia.
    intros i Hi Hne. rewrite peek_advance by lia.
    apply Hzero; lia.
Qed.

(** Any save that is zero except for the byte 1 at [0xF40] and the save
    counter 9 of slot 0: both slots pass the per-section check for every
    game, slot 0 has the higher counter, and detection selects slot 1. *)
Lemma stale_tail_loses_selection (m_bytes : list Z) :
  Z.of_nat (length m_bytes) = EXPECTED_FILE_SIZE ->
  (forall i, 0 <= i -> i <> 0xF40 -> i <> 0xFFC -> peek m_bytes i = 0) ->
  peek m_bytes 0xF40 = 1 ->
  peek m_bytes 0xFFC = 9 ->
  (forall game,
     slotValidPerSection game m_bytes 0 = true /\
     slotValidPerSection game m_bytes 1 = true) /\
  saveIndex (analyzeSaveSlot m_bytes 0) = 9 /\
  saveIndex (analyzeSaveSlot m_bytes 1) = 0 /\
  findActiveSaveSlot m_bytes = 1.
Proof.
  intros Hlen Hzero Htail Hcounter.
  split; [| split; [| split]].
  - intros game. split; apply zero_ids_valid_per_section; try lia;
      intros section o Hs Ho; apply Hzero; lia.
  - rewrite analyzeSaveSlot_saveIndex, le32_value.
    unfold sectionDataOf, SECTION_SIZE, SECTIONS_PER_SAVE, SAVE_INDEX_OFFSET.
    rewrite !peek_advance by lia.
    change (0 * (4096 * 14) + 0 * 4096 + 4092) with 0xFFC.
    rewrite Hcounter, !Hzero by lia. reflexivity.
  - rewrite analyzeSaveSlot_saveIndex, le32_value.
    unfold sectionDataOf, SECTION_SIZE, SECTIONS_PER_SAVE, SAVE_INDEX_OFFSET.
    rewrite !peek_advance by lia.
    rewrite !Hzero by lia. reflexivity.
  - assert (H0 : valid (analyzeSaveSlot m_bytes 0) = false).
    { apply not_true_is_false. intros Hv.
      apply (stale_tail_mismatch m_bytes Htail).
      - intros i Hi Hne. apply Hzero; lia.
      - apply (proj1 (analyzeSaveSlot_valid m_bytes 0) Hv).
        unfold SECTIONS_PER_SAVE. lia. }
    assert (H1 : valid (analyzeSaveSlot m_bytes 1) = true).
    { apply analyzeSaveSlot_valid. apply zero_slot_matches; [lia |].
      intros i Hi. apply Hzero; lia. }
    unfold findActiveSaveSlot.
    rewrite (isLoaded_length _ Hlen). cbn [negb]. cbv zeta.
    rewrite H0, H1. reflexivity.
Qed.

(** C1 (as stated) fails. In [staleCounterSave], a 131072-byte save, all
    14 sections of both slots match their stored checksum over the length
    of their own logical id, for every game variant, and slot 0 has the
    strictly higher save counter (9 against 0); yet detection selects
    slot 1, because it validates every section over [0xF80] bytes and so
    counts slot 0 as invalid. *)
Lemma findActiveSaveSlot_per_section_counterexample :
  Z.of_nat (length staleCounterSave) = EXPECTED_FILE_SIZE /\
  (forall game,
     slotValidPerSection game staleCounterSave 0 = true /\
     slotValidPerSection game staleCounterSave 1 = true) /\
  saveIndex (analyzeSaveSlot staleCounterSave 0) = 9 /\
  saveIndex (analyzeSaveSlot staleCounterSave 1) = 0 /\
  findActiveSaveSlot staleCounterSave = 1.
Proof.
  split; [apply length_staleCounterSave |].
  apply stale_tail_loses_selection.
  - apply length_staleCounterSave.
  - apply peek_staleCounterSave.
  - apply peek_staleCounterSave_tail.
  - apply peek_staleCounterSave_counter.
Qed.

(** With equal validity and equal counters detection falls to slot 1. *)
Lemma findActiveSaveSlot_tie (m_bytes : list Z) :
  Z.of_nat (length m_bytes) = EXPECTED_FILE_SIZE ->
  valid (analyzeSaveSlot m_bytes 0) = valid (analyzeSaveSlot m_bytes 1) ->
  saveIndex (analyzeSaveSlot m_bytes 0) = saveIndex (analyzeSaveSlot m_bytes 1) ->
  findActiveSaveSlot m_bytes = 1.
Proof.
  intros Hlen Hv Hs. unfold findActiveSaveSlot.
  rewrite (isLoaded_length _ Hlen). cbn [negb]. cbv zeta.
  rewrite Hv, Hs, Z.ltb_irrefl.
  destruct (valid (analyzeSaveSlot m_bytes 1)); reflexivity.
Qed.

(** [loadFromFile] leaves a 131072-byte buffer and an active slot 0 or 1. *)
Lemma loadFromFile_loadedSave (contents : list Z) (sf : SaveFile) :
  loadFromFile contents = (Success, sf) -> loadedSave sf.
Proof.
  unfold loadFromFile.
  destruct (Z.eqb_spec (Z.of_nat (length contents)) EXPECTED_FILE_SIZE)
    as [Hlen | Hne]; cbn [negb]; [| discriminate].
  pose proof (isLoaded_length contents Hlen) as Hl.
  pose proof (findActiveSaveSlot_loaded contents Hl) as Hslot.
  unfold detectGameType. cbn [m_bytes m_detectedGame m_checksumValid m_activeSaveSlot].
  rewrite Hl. cbn [negb]. cbv zeta.
  cbn [m_bytes m_detectedGame m_checksumValid m_activeSaveSlot].
  set (slot := findActiveSaveSlot contents) in *.
  assert (Hnn : (slot <? 0) = false) by (apply Z.ltb_ge; lia).
  rewrite Hnn.
  set (game := if gameCode (analyzeSaveSlot contents slot) =? 1 then _ else _).
  assert (Hpair :
    (if gameCode (analyzeSaveSlot contents slot) =? 1
     then (FireRedLeafGreen, mkSaveFile contents Unknown false slot)
     else if hasSecurityKey (analyzeSaveSlot contents slot)
             && negb (gameCode (analyzeSaveSlot contents slot) =? 1)
          then (Emerald, mkSaveFile contents Unknown false slot)
          else if gameCode (analyzeSaveSlot contents slot) =? 0
               then (RubySapphire, mkSaveFile contents Unknown false slot)
               else (Unknown, mkSaveFile contents Unknown false slot))
    = (fst game, mkSaveFile contents Unknown false slot)).
  { subst game. repeat case_match; reflexivity. }
  subst game. rewrite Hpair.
  cbn [m_bytes m_detectedGame m_checksumValid m_activeSaveSlot].
  unfold validateChecksums.
  cbn [m_bytes m_detectedGame m_checksumValid m_activeSaveSlot].
  rewrite Hl, Hnn. cbn [negb].
  cbn [m_bytes m_detectedGame m_checksumValid m_activeSaveSlot].
  rewrite Hnn.
  cbn [m_bytes m_detectedGame m_checksumValid m_activeSaveSlot].
  intros [= <-]. split; [exact Hlen | exact Hslot].
Qed.

(** ** Bounds of bitwise operations *)

Lemma fits_land_ones x n : 0 <= n -> (0 <= x < 2 ^ n <-> Z.land x (Z.ones n) = x).
Proof.
  intros Hn. rewrite Z.land_ones by lia. split.
  - intros H. apply Z.mod_small. lia.
  - intros H. rewrite <- H. apply Z.mod_pos_bound. lia.
Qed.

Lemma lor_range a b n :
  0 <= n -> 0 <= a < 2 ^ n -> 0 <= b < 2 ^ n -> 0 <= Z.lor a b < 2 ^ n.
Proof.
  intros Hn Ha Hb. apply fits_land_ones; [lia |].
  rewrite Z.land_lor_distr_l.
  f_equal; apply fits_land_ones; lia.
Qed.

Lemma lxor_range a b n :
  0 <= n -> 0 <= a < 2 ^ n -> 0 <= b < 2 ^ n -> 0 <= Z.lxor a b < 2 ^ n.
Proof.
  intros Hn Ha Hb. apply fits_land_ones; [lia |].
  apply (proj1 (fits_land_ones a n Hn)) in Ha.
  apply (proj1 (fits_land_ones b n Hn)) in Hb.
  apply Z.bits_inj'. intros k Hk.
  rewrite Z.land_spec, Z.lxor_spec.
  rewrite <- Ha, <- Hb at 2. rewrite !Z.land_spec.
  destruct (Z.testbit a k), (Z.testbit b k), (Z.testbit (Z.ones n) k);
    reflexivity.
Qed.

Lemma land_lor_same c b : Z.land (Z.lor c b) b = b.
Proof.
  apply Z.bits_inj'. intros n Hn.
  rewrite Z.land_spec, Z.lor_spec.
  destruct (Z.testbit c n), (Z.testbit b n); reflexivity.
Qed.

(** ** Instrumented stores *)

Lemma replay_snoc stores i v b :
  replay (stores ++ [(i, v)]) b = poke (replay stores b) i v.
Proof. unfold replay. rewrite foldl_app. reflexivity. Qed.

Lemma tracked_init b0 : tracked b0 (mkMem b0 []).
Proof. split; reflexivity. Qed.

Lemma tracked_store b0 m i v : tracked b0 m -> tracked b0 (store m i v).
Proof.
  intros [Hlen Hrep]. split; cbn [store mem_bytes mem_stores].
  - by rewrite length_poke.
  - by rewrite replay_snoc, <- Hrep.
Qed.

Lemma tracked_storeFill b0 n : forall m dst v,
  tracked b0 m -> tracked b0 (storeFill m dst v n).
Proof.
  induction n as [| n IH]; intros m dst v Hm; cbn [storeFill]; [done |].
  apply IH. by apply tracked_store.
Qed.

Lemma tracked_storeCopy b0 src n : forall m dst srcOff,
  tracked b0 m -> tracked b0 (storeCopy m dst src srcOff n).
Proof.
  induction n as [| n IH]; intros m dst srcOff Hm; cbn [storeCopy]; [done |].
  apply IH. by apply tracked_store.
Qed.

Lemma tracked_if b0 (c : bool) m1 m2 :
  tracked b0 m1 -> tracked b0 m2 -> tracked b0 (if c then m1 else m2).
Proof. by destruct c. Qed.

(** Recomputing a section checksum and storing its two bytes leaves the
    summed range alone, so the stored value matches the section. *)
Lemma store_checksum_tail (m : Mem) (base len : Z) :
  0 <= base ->
  base + SECTION_SIZE <= Z.of_nat (length (mem_bytes m)) ->
  0 <= len <= CHECKSUM_OFFSET ->
  let c := computeSectionChecksum (advance (mem_bytes m) base) len in
  let m' := store (store m (base + CHECKSUM_OFFSET) (Z.land c 0xFF))
                  (base + CHECKSUM_OFFSET + 1) (Z.land (Z.shiftr c 8) 0xFF) in
  computeSectionChecksum (advance (mem_bytes m') base) len = c /\
  le16 (advance (mem_bytes m') base) CHECKSUM_OFFSET = c /\
  mem_stores m' =
    mem_stores m ++ [(base + CHECKSUM_OFFSET, Z.land c 0xFF);
                     (base + CHECKSUM_OFFSET + 1, Z.land (Z.shiftr c 8) 0xFF)].
Proof.
  intros Hbase Hfit Hlen c m'. unfold SECTION_SIZE, CHECKSUM_OFFSET in *.
  assert (Hc : 0 <= c < 65536) by apply computeSectionChecksum_range.
  repeat split.
  - subst m'. cbn [store mem_bytes].
    apply computeSectionChecksum_ext; [lia |].
    intros i Hi. rewrite !peek_advance by lia.
    rewrite !peek_poke_ne by lia. reflexivity.
  - subst m'. cbn [store mem_bytes].
    rewrite le16_value, !peek_advance by lia.
    rewrite peek_poke_ne by lia.
    rewrite peek_poke_eq by lia.
    replace (base + (4086 + 1)) with (base + 4086 + 1) by lia.
    rewrite peek_poke_eq by (rewrite length_poke; lia).
    apply split16. exact Hc.
  - subst m'. cbn [store mem_stores]. rewrite <- app_assoc. reflexivity.
Qed.

(** ** Section lookup *)

Lemma firstPosition_spec test positions :
  firstPosition test positions = -1 \/
  (firstPosition test positions ∈ positions /\
   test (firstPosition test positions) = true).
Proof.
  induction positions as [| pos rest IH]; cbn [firstPosition]; [by left |].
  destruct (test pos) eqn:E.
  - right. split; [apply list_elem_of_here | exact E].
  - destruct IH as [IH | [IH1 IH2]]; [by left | right].
    split; [by apply list_elem_of_further | exact IH2].
Qed.

Lemma firstPosition_ext test1 test2 positions :
  (forall pos, pos ∈ positions -> test1 pos = test2 pos) ->
  firstPosition test1 positions = firstPosition test2 positions.
Proof.
  induction positions as [| pos rest IH]; intros H; cbn [firstPosition]; [done |].
  rewrite (H pos) by apply list_elem_of_here.
  rewrite IH; [done |]. intros p Hp. apply H. by apply list_elem_of_further.
Qed.

Lemma findWonderCardBlock_range sf :
  0 <= findWonderCardBlock sf ->
  0 <= findWonderCardBlock sf < SECTIONS_PER_SAVE.
Proof.
  unfold findWonderCardBlock.
  destruct (negb (isLoaded (m_bytes sf)) || (m_activeSaveSlot sf <? 0)); [lia |].
  cbv zeta.
  match goal with |- context [firstPosition ?t ?l] =>
    destruct (firstPosition_spec t l) as [-> | [Hin _]] end; [lia |].
  apply elem_of_seqZ in Hin. lia.
Qed.

Lemma findSection_found sf sectionId :
  0 <= findSection sf sectionId ->
  0 <= findSection sf sectionId < SECTIONS_PER_SAVE /\
  le16 (m_bytes sf)
       (m_activeSaveSlot sf * (SECTION_SIZE * SECTIONS_PER_SAVE)
        + findSection sf sectionId * SECTION_SIZE + SECTION_ID_OFFSET) = sectionId.
Proof.
  unfold findSection.
  destruct (negb (isLoaded (m_bytes sf)) || (m_activeSaveSlot sf <? 0)); [lia |].
  cbv zeta.
  match goal with |- context [firstPosition ?t ?l] =>
    destruct (firstPosition_spec t l) as [-> | [Hin Ht]] end; [lia |].
  intros _. apply elem_of_seqZ in Hin. split; [lia |].
  apply Z.eqb_eq in Ht. exact Ht.
Qed.

Lemma loadedSave_isLoaded sf : loadedSave sf -> isLoaded (m_bytes sf) = true.
Proof. intros [Hlen _]. by apply isLoaded_length. Qed.

(** ** The sample save object *)

Lemma peek_sampleSave_gift : peek sampleSave 0xEFF4 = 4.
Proof.
  unfold sampleSave. rewrite peek_poke_ne by lia.
  rewrite peek_poke_eq; [reflexivity |].
  rewrite length_zeroSave. unfold EXPECTED_FILE_SIZE. lia.
Qed.

Lemma peek_sampleSave_section2 : peek sampleSave 0xFFF4 = 2.
Proof.
  unfold sampleSave. rewrite peek_poke_eq; [reflexivity |].
  rewrite length_poke, length_zeroSave. unfold EXPECTED_FILE_SIZE. lia.
Qed.

Lemma peek_sampleSave i :
  0 <= i -> i <> 0xEFF4 -> i <> 0xFFF4 -> peek sampleSave i = 0.
Proof.
  intros. unfold sampleSave. rewrite !peek_poke_ne by lia. apply peek_zeroSave.
Qed.

Lemma length_sampleSave : Z.of_nat (length sampleSave) = EXPECTED_FILE_SIZE.
Proof. unfold sampleSave. rewrite !length_poke. apply length_zeroSave. Qed.

Lemma loadedSave_mk bytes game ok slot :
  Z.of_nat (length bytes) = EXPECTED_FILE_SIZE ->
  slot = 0 \/ slot = 1 ->
  loadedSave (mkSaveFile bytes game ok slot).
Proof. intros Hlen Hslot. split; assumption. Qed.

Lemma sampleSaveFile_loaded : loadedSave sampleSaveFile.
Proof. apply loadedSave_mk; [apply length_sampleSave | by right]. Qed.

(** In a loaded save whose active slot 1 has logical id 2 in its second
    physical section and another id in its first, [findSection 2] is 1. *)
Lemma findSection2_second (bytes : list Z) game ok :
  bytes <> [] ->
  le16 bytes 0xEFF4 <> 2 -> le16 bytes 0xFFF4 = 2 ->
  findSection (mkSaveFile bytes game ok 1) 2 = 1.
Proof.
  intros Hne H0 H1. unfold findSection. cbn [m_bytes m_activeSaveSlot].
  unfold isLoaded. rewrite bool_decide_eq_false_2 by exact Hne.
  change (negb (negb false) || (1 <? 0)) with false. cbv iota zeta.
  rewrite seqZ_cons by (unfold SECTIONS_PER_SAVE; lia).
  rewrite seqZ_cons by (unfold SECTIONS_PER_SAVE; lia).
  cbn [firstPosition].
  change (1 * (SECTION_SIZE * SECTIONS_PER_SAVE) + 0 * SECTION_SIZE + SECTION_ID_OFFSET)
    with 0xEFF4.
  change (1 * (SECTION_SIZE * SECTIONS_PER_SAVE) + Z.succ 0 * SECTION_SIZE + SECTION_ID_OFFSET)
    with 0xFFF4.
  rewrite H1. destruct (Z.eqb_spec (le16 bytes 0xEFF4) 2); [contradiction |].
  reflexivity.
Qed.

(** With logical id 4 on the first physical section of the active slot
    1, the gift-card block is physical section 0. *)
Lemma findWonderCardBlock_first (bytes : list Z) game ok :
  bytes <> [] ->
  peek bytes 0xEFF4 = 4 ->
  findWonderCardBlock (mkSaveFile bytes game ok 1) = 0.
Proof.
  intros Hne H0. unfold findWonderCardBlock. cbn [m_bytes m_activeSaveSlot].
  unfold isLoaded. rewrite bool_decide_eq_false_2 by exact Hne.
  change (negb (negb false) || (1 <? 0)) with false. cbv iota zeta.
  rewrite seqZ_cons by (unfold SECTIONS_PER_SAVE; lia).
  cbn [firstPosition].
  change (1 * (SECTION_SIZE * SECTIONS_PER_SAVE) + 0 * SECTION_SIZE + SECTION_ID_OFFSET)
    with 0xEFF4.
  rewrite H0. reflexivity.
Qed.

Lemma nonempty_of_length (bytes : list Z) :
  Z.of_nat (length bytes) = EXPECTED_FILE_SIZE -> bytes <> [].
Proof. intros H ->. discriminate H. Qed.

Lemma sampleSaveFile_section2 : 0 <= findSection sampleSaveFile 2.
Proof.
  unfold sampleSaveFile. rewrite findSection2_second; [lia | | |].
  - apply nonempty_of_length, length_sampleSave.
  - rewrite le16_value, peek_sampleSave_gift. rewrite peek_sampleSave by lia. lia.
  - rewrite le16_value, peek_sampleSave_section2. rewrite peek_sampleSave by lia. lia.
Qed.

Lemma sampleSaveFile_giftBlock : 0 <= findWonderCardBlock sampleSaveFile.
Proof.
  unfold sampleSaveFile. rewrite findWonderCardBlock_first; [lia | |].
  - apply nonempty_of_length, length_sampleSave.
  - apply peek_sampleSave_gift.
Qed.

(** ** Slot validity and the default length *)

Lemma le16_ext d1 d2 off :
  peek d1 off = peek d2 off -> peek d1 (off + 1) = peek d2 (off + 1) ->
  le16 d1 off = le16 d2 off.
Proof. intros H0 H1. unfold le16. by rewrite H0, H1. Qed.

(** C2 (amended). During slot detection every one of the 14 sections is
    validated against the default data length [0xF80], whatever its
    logical id and the game variant: a slot counts as valid exactly when
    each section's stored checksum equals the word-sum-and-fold checksum
    of the first [0xF80] bytes of that section.  Hence two saves that
    agree, section by section, on those [0xF80] bytes and on the two
    checksum bytes are valid together, wherever else they differ. *)
Theorem slot_valid_default_length (m_bytes : list Z) (slotIndex : Z) :
  (valid (analyzeSaveSlot m_bytes slotIndex) = true <->
   forall section, 0 <= section < SECTIONS_PER_SAVE ->
     computeSectionChecksum (sectionDataOf m_bytes slotIndex section) 0xF80 =
     le16 (sectionDataOf m_bytes slotIndex section) CHECKSUM_OFFSET) /\
  (forall other : list Z,
     (forall section i,
        0 <= section < SECTIONS_PER_SAVE ->
        0 <= i < 0xF80 \/ i = CHECKSUM_OFFSET \/ i = CHECKSUM_OFFSET + 1 ->
        peek (sectionDataOf other slotIndex section) i =
        peek (sectionDataOf m_bytes slotIndex section) i) ->
     valid (analyzeSaveSlot other slotIndex) =
     valid (analyzeSaveSlot m_bytes slotIndex)).
Proof.
  split; [apply analyzeSaveSlot_valid |].
  intros other Hsame.
  assert (Hiff : valid (analyzeSaveSlot other slotIndex) = true <->
                 valid (analyzeSaveSlot m_bytes slotIndex) = true).
  { rewrite !analyzeSaveSlot_valid. unfold sectionChecksumMatches.
    assert (Heq : forall section, 0 <= section < SECTIONS_PER_SAVE ->
      computeSectionChecksum (sectionDataOf other slotIndex section)
                             CHECKSUM_DATA_LENGTH_DEFAULT =
      computeSectionChecksum (sectionDataOf m_bytes slotIndex section)
                             CHECKSUM_DATA_LENGTH_DEFAULT /\
      le16 (sectionDataOf other slotIndex section) CHECKSUM_OFFSET =
      le16 (sectionDataOf m_bytes slotIndex section) CHECKSUM_OFFSET).
    { intros section Hs. split.
      - apply computeSectionChecksum_ext;
          [unfold CHECKSUM_DATA_LENGTH_DEFAULT; lia |].
        intros i Hi. apply Hsame; [exact Hs | left; exact Hi].
      - apply le16_ext; apply Hsame; auto. }
    split; intros H section Hs; specialize (H section Hs);
      destruct (Heq section Hs) as [Hc Hl]; congruence. }
  destruct (valid (analyzeSaveSlot other slotIndex)),
           (valid (analyzeSaveSlot m_bytes slotIndex)); try reflexivity.
  - symmetry. by apply Hiff.
  - by apply Hiff.
Qed.

Lemma peek_sectionDataOf (m_bytes : list Z) (slotIndex section i : Z) :
  0 <= slotIndex -> 0 <= section -> 0 <= i ->
  peek (sectionDataOf m_bytes slotIndex section) i =
  peek m_bytes (slotIndex * 57344 + section * 4096 + i).
Proof.
  intros Hs Hc Hi. unfold sectionDataOf, SECTION_SIZE, SECTIONS_PER_SAVE.
  rewrite peek_advance by lia. reflexivity.
Qed.

(** Witness for C2: [sampleSave] differs from the all-zero save in two
    section-id fields only, so its slot 1 is exactly as valid. *)
Lemma slot_valid_default_length_witness :
  valid (analyzeSaveSlot sampleSave 1) = valid (analyzeSaveSlot zeroSave 1).
Proof.
  apply (proj2 (slot_valid_default_length zeroSave 1)).
  intros section i Hs Hi.
  unfold SECTIONS_PER_SAVE, CHECKSUM_OFFSET in *.
  rewrite !peek_sectionDataOf by lia.
  rewrite peek_sampleSave by lia. symmetry. apply peek_zeroSave.
Defined.

(** ** Mutating operations end with the checksum *)

Ltac tracked_step :=
  lazymatch goal with
  | |- tracked _ (store _ _ _) => apply tracked_store
  | |- tracked _ (storeFill _ _ _ _) => apply tracked_storeFill
  | |- tracked _ (storeCopy _ _ _ _ _) => apply tracked_storeCopy
  | |- tracked _ (if _ then _ else _) => apply tracked_if
  | |- tracked _ (mkMem _ []) => apply tracked_init
  end.

Lemma replay_three i1 v1 i2 v2 i3 v3 b :
  replay [(i1, v1); (i2, v2); (i3, v3)] b = poke (poke (poke b i1 v1) i2 v2) i3 v3.
Proof. reflexivity. Qed.

(** The two ways [enableMysteryGift] returns once its guards pass. *)
Lemma enableMysteryGift_cases (sf : SaveFile) :
  loadedSave sf ->
  m_detectedGame sf = Emerald \/ m_detectedGame sf = FireRedLeafGreen ->
  0 <= findSection sf 2 ->
  let base := section2OffsetOf sf in
  let current := peek (m_bytes sf) (base + flagOffsetOf sf) in
  (Z.land current (flagBitOf sf) <> 0 /\
   enableMysteryGift sf = (Success, sf, [])) \/
  (Z.land current (flagBitOf sf) = 0 /\
   let flagged :=
     poke (m_bytes sf) (base + flagOffsetOf sf) (u8 (Z.lor current (flagBitOf sf))) in
   let c := computeSectionChecksum (advance flagged base)
                                   (getSectionChecksumLength sf 2) in
   enableMysteryGift sf =
   (Success,
    setBytes sf (poke (poke flagged (base + CHECKSUM_OFFSET) (Z.land c 0xFF))
                      (base + CHECKSUM_OFFSET + 1) (Z.land (Z.shiftr c 8) 0xFF)),
    [(base + flagOffsetOf sf, u8 (Z.lor current (flagBitOf sf)));
     (base + CHECKSUM_OFFSET, Z.land c 0xFF);
     (base + CHECKSUM_OFFSET + 1, Z.land (Z.shiftr c 8) 0xFF)])).
Proof.
  intros Hloaded Hgame Hfound.
  pose proof (loadedSave_isLoaded sf Hloaded) as Hl.
  pose proof (findSection_found sf 2 Hfound) as [Hrange _].
  destruct Hloaded as [Hlen Hslot].
  assert (Hu : m_detectedGame sf <> Unknown) by (destruct Hgame; congruence).
  assert (Hr : m_detectedGame sf <> RubySapphire) by (destruct Hgame; congruence).
  cbv zeta. unfold enableMysteryGift. rewrite Hl. cbn [negb].
  destruct (decide (m_detectedGame sf = Unknown)); [contradiction |].
  destruct (decide (m_detectedGame sf = RubySapphire)); [contradiction |].
  cbv zeta.
  destruct (Z.ltb_spec (findSection sf 2) 0) as [Hneg | _]; [lia |].
  fold (section2OffsetOf sf). fold (flagOffsetOf sf). fold (flagBitOf sf).
  cbn [mem_bytes].
  assert (Hoff : 0 <= section2OffsetOf sf /\ 0 <= flagOffsetOf sf).
  { unfold section2OffsetOf, flagOffsetOf, SECTION_SIZE, SECTIONS_PER_SAVE,
      MYSTERY_GIFT_OFFSET_EMERALD, MYSTERY_GIFT_OFFSET_FRLG in *.
    case_bool_decide; lia. }
  rewrite peek_advance by lia.
  destruct (Z.eqb_spec
              (Z.land (peek (m_bytes sf) (section2OffsetOf sf + flagOffsetOf sf))
                      (flagBitOf sf)) 0) as [Hz | Hnz]; cbn [negb].
  - right. split; [exact Hz | reflexivity].
  - left. split; [exact Hnz | reflexivity].
Qed.

(** The checksum lengths of the two sections the operations change. *)
Lemma getSection4ChecksumLength_value (sf : SaveFile) :
  getSection4ChecksumLength sf =
  if bool_decide (m_detectedGame sf = Emerald) then 0xF08 else 0xEE8.
Proof.
  unfold getSection4ChecksumLength.
  case_decide; case_bool_decide; try contradiction; reflexivity.
Qed.

Lemma getSectionChecksumLength_section2 (sf : SaveFile) :
  getSectionChecksumLength sf 2 = 0xF80.
Proof. reflexivity. Qed.

(** C3. Gift-card injection, and the Mystery Gift flag enable on a save
    whose flag is clear, finish by storing the recomputed checksum of the
    section they changed, so that the checksum is their last write.  The
    checksum is taken over that section's own length: [0xF08] (Emerald)
    or [0xEE8] (FireRed/LeafGreen) for the gift-card section, as
    [getSection4ChecksumLength] gives it, and [0xF80] for the flag
    section, as [getSectionChecksumLength 2] gives it.  After the
    successful return the stored checksum equals the checksum of the
    section's data over that length.  The flag enable on a save whose
    flag is already set changes no section: it stores nothing and
    returns the object as it was. *)
Theorem mutations_end_with_checksum (sf : SaveFile) :
  loadedSave sf ->
  m_detectedGame sf = Emerald \/ m_detectedGame sf = FireRedLeafGreen ->
  (forall wonderCard scriptData crcTable rawWonderCardData options,
     0 <= findWonderCardBlock sf ->
     exists sf' before,
       let base := m_activeSaveSlot sf * (SECTION_SIZE * SECTIONS_PER_SAVE)
                   + findWonderCardBlock sf * SECTION_SIZE in
       let len := if bool_decide (m_detectedGame sf = Emerald) then 0xF08 else 0xEE8 in
       let checksum :=
         computeSectionChecksum (advance (m_bytes sf') base) len in
       let trace :=
         before ++ [(base + CHECKSUM_OFFSET, Z.land checksum 0xFF);
                    (base + CHECKSUM_OFFSET + 1, Z.land (Z.shiftr checksum 8) 0xFF)] in
       injectWonderCard sf wonderCard scriptData crcTable rawWonderCardData options
         = (Success, sf', trace) /\
       m_bytes sf' = replay trace (m_bytes sf) /\
       getSection4ChecksumLength sf = len /\
       le16 (advance (m_bytes sf') base) CHECKSUM_OFFSET = checksum) /\
  (0 <= findSection sf 2 ->
     let base := m_activeSaveSlot sf * (SECTION_SIZE * SECTIONS_PER_SAVE)
                 + findSection sf 2 * SECTION_SIZE in
     let current := peek (m_bytes sf) (base + flagOffsetOf sf) in
     exists sf' trace,
       enableMysteryGift sf = (Success, sf', trace) /\
       m_bytes sf' = replay trace (m_bytes sf) /\
       getSectionChecksumLength sf 2 = 0xF80 /\
       (Z.land current (flagBitOf sf) <> 0 -> sf' = sf /\ trace = []) /\
       (Z.land current (flagBitOf sf) = 0 ->
        let checksum :=
          computeSectionChecksum (advance (m_bytes sf') base) 0xF80 in
        trace =
          [(base + flagOffsetOf sf, u8 (Z.lor current (flagBitOf sf)));
           (base + CHECKSUM_OFFSET, Z.land checksum 0xFF);
           (base + CHECKSUM_OFFSET + 1, Z.land (Z.shiftr checksum 8) 0xFF)] /\
        le16 (advance (m_bytes sf') base) CHECKSUM_OFFSET = checksum)).
Proof.
  intros Hloaded Hgame.
  pose proof (loadedSave_isLoaded sf Hloaded) as Hl.
  destruct Hloaded as [Hlen Hslot].
  assert (Hu : m_detectedGame sf <> Unknown) by (destruct Hgame; congruence).
  assert (Hr : m_detectedGame sf <> RubySapphire) by (destruct Hgame; congruence).
  split.
  - intros wonderCard scriptData crcTable rawWonderCardData options Hblock.
    pose proof (findWonderCardBlock_range sf Hblock) as Hrange.
    rewrite <- (getSection4ChecksumLength_value sf).
    unfold injectWonderCard. rewrite Hl. cbn [negb].
    destruct (decide (m_detectedGame sf = Unknown)); [contradiction |].
    destruct (decide (m_detectedGame sf = RubySapphire)); [contradiction |].
    cbv zeta.
    destruct (Z.ltb_spec (findWonderCardBlock sf) 0) as [Hneg | _]; [lia |].
    match goal with
    | |- context [store (store ?m (?b + CHECKSUM_OFFSET) _) _ _] =>
        set (m5 := m); set (base := b)
    end.
    assert (Ht : tracked (m_bytes sf) m5).
    { subst m5.
      repeat tracked_step. }
    destruct Ht as [Htl Htr].
    assert (Hbase : 0 <= base /\ base + SECTION_SIZE <= Z.of_nat (length (mem_bytes m5))).
    { rewrite Htl. subst base.
      unfold SECTION_SIZE, SECTIONS_PER_SAVE, EXPECTED_FILE_SIZE in *. lia. }
    assert (Hlen4 : 0 <= getSection4ChecksumLength sf <= CHECKSUM_OFFSET).
    { unfold getSection4ChecksumLength. case_decide; vm_compute; split; discriminate. }
    destruct (store_checksum_tail m5 base (getSection4ChecksumLength sf)
                (proj1 Hbase) (proj2 Hbase) Hlen4) as (Hsame & Hstored & Hstores).
    cbv zeta in Hsame, Hstored, Hstores.
    match goal with
    | |- context [(Success, setBytes sf (mem_bytes ?m), _)] => set (m7 := m) in *
    end.
    assert (Ht7 : tracked (m_bytes sf) m7).
    { subst m7. do 2 apply tracked_store. by split. }
    exists (setBytes sf (mem_bytes m7)), (mem_stores m5).
    cbv zeta. cbn [setBytes m_bytes]. rewrite Hsame, <- Hstores.
    split; [reflexivity | split; [| split]].
    + apply Ht7.
    + reflexivity.
    + exact Hstored.
  - intros Hfound.
    pose proof (findSection_found sf 2 Hfound) as [Hrange _].
    rewrite <- (getSectionChecksumLength_section2 sf).
    fold (section2OffsetOf sf).
    destruct (enableMysteryGift_cases sf (conj Hlen Hslot) Hgame Hfound)
      as [[Hset Heq] | [Hclear Heq]]; cbv zeta in *; rewrite Heq.
    + exists sf, [].
      split; [reflexivity |]. split; [reflexivity |]. split; [reflexivity |].
      split; [intros _; by split | intros Hc; contradiction].
    + set (base := section2OffsetOf sf) in *.
      set (flagged := poke (m_bytes sf) _ _) in *.
      assert (Hbase : 0 <= base /\
                      base + SECTION_SIZE <= Z.of_nat (length (mem_bytes (mkMem flagged [])))).
      { cbn [mem_bytes]. subst flagged base. rewrite length_poke.
        unfold section2OffsetOf, SECTION_SIZE, SECTIONS_PER_SAVE,
          EXPECTED_FILE_SIZE in *. lia. }
      assert (Hlen2 : 0 <= getSectionChecksumLength sf 2 <= CHECKSUM_OFFSET).
      { unfold getSectionChecksumLength. vm_compute. split; discriminate. }
      destruct (store_checksum_tail (mkMem flagged []) base
                  (getSectionChecksumLength sf 2)
                  (proj1 Hbase) (proj2 Hbase) Hlen2) as (Hsame & Hstored & _).
      cbv zeta in Hsame, Hstored. cbn [store mem_bytes] in Hsame, Hstored.
      eexists _, _. split; [reflexivity |].
      cbn [setBytes m_bytes].
      split; [symmetry; apply replay_three |].
      split; [reflexivity |].
      split; [intros Hc; contradiction |].
      intros _. rewrite Hsame. split; [reflexivity | exact Hstored].
Qed.

(** The flag byte of the sample save is zero. *)
Lemma flag_clear_second (bytes : list Z) ok :
  bytes <> [] ->
  le16 bytes 0xEFF4 <> 2 -> le16 bytes 0xFFF4 = 2 ->
  peek bytes 0xF40B = 0 ->
  Z.land
    (peek (m_bytes (mkSaveFile bytes Emerald ok 1))
          (m_activeSaveSlot (mkSaveFile bytes Emerald ok 1)
             * (SECTION_SIZE * SECTIONS_PER_SAVE)
           + findSection (mkSaveFile bytes Emerald ok 1) 2 * SECTION_SIZE
           + flagOffsetOf (mkSaveFile bytes Emerald ok 1)))
    (flagBitOf (mkSaveFile bytes Emerald ok 1)) = 0.
Proof.
  intros Hne H0 H1 Hflag.
  rewrite findSection2_second by assumption.
  cbn [m_bytes m_activeSaveSlot].
  change (1 * (SECTION_SIZE * SECTIONS_PER_SAVE) + 1 * SECTION_SIZE
          + flagOffsetOf (mkSaveFile bytes Emerald ok 1)) with 0xF40B.
  rewrite Hflag. reflexivity.
Qed.

Lemma sampleSaveFile_flag_clear :
  Z.land
    (peek (m_bytes sampleSaveFile)
          (m_activeSaveSlot sampleSaveFile * (SECTION_SIZE * SECTIONS_PER_SAVE)
           + findSection sampleSaveFile 2 * SECTION_SIZE
           + flagOffsetOf sampleSaveFile))
    (flagBitOf sampleSaveFile) = 0.
Proof.
  unfold sampleSaveFile. apply flag_clear_second.
  - apply nonempty_of_length, length_sampleSave.
  - rewrite le16_value, peek_sampleSave_gift. rewrite peek_sampleSave by lia. lia.
  - rewrite le16_value, peek_sampleSave_section2. rewrite peek_sampleSave by lia. lia.
  - apply peek_sampleSave; lia.
Qed.

(** Witness for C3: a loaded Emerald save whose active slot holds the
    gift-card section and section 2, with the flag clear; both operations
    succeed on it, leave the buffer their store trace describes, and
    store the checksum last: the flag enable makes three stores, the
    checksum bytes of section 2 being the last two. *)
Lemma mutations_end_with_checksum_witness :
  (exists sf' trace,
     injectWonderCard sampleSaveFile (parseWonderCard testCard) [] [] testCard
                      defaultInjectionOptions = (Success, sf', trace) /\
     m_bytes sf' = replay trace (m_bytes sampleSaveFile)) /\
  (exists sf' trace,
     enableMysteryGift sampleSaveFile = (Success, sf', trace) /\
     m_bytes sf' = replay trace (m_bytes sampleSaveFile) /\
     length trace = 3%nat).
Proof.
  assert (Hg : m_detectedGame sampleSaveFile = Emerald \/
               m_detectedGame sampleSaveFile = FireRedLeafGreen)
    by (left; reflexivity).
  pose proof (mutations_end_with_checksum sampleSaveFile
                sampleSaveFile_loaded Hg) as [Hinject Henable].
  split.
  - destruct (Hinject (parseWonderCard testCard) [] [] testCard
                defaultInjectionOptions sampleSaveFile_giftBlock)
      as (sf' & before & Heq & Hrep & _).
    eexists sf', _. split; [exact Heq | exact Hrep].
  - destruct (Henable sampleSaveFile_section2)
      as (sf' & trace & Heq & Hrep & _ & _ & Hclear).
    exists sf', trace. split; [exact Heq | split; [exact Hrep |]].
    destruct (Hclear sampleSaveFile_flag_clear) as [-> _]. reflexivity.
Defined.

(** ** enableMysteryGift: frame and idempotence *)

Lemma flagBitOf_cases sf : flagBitOf sf = 0x08 \/ flagBitOf sf = 0x02.
Proof. unfold flagBitOf. case_bool_decide; [by left | by right]. Qed.

Lemma flagOffsetOf_cases sf : flagOffsetOf sf = 0x40B \/ flagOffsetOf sf = 0x067.
Proof. unfold flagOffsetOf. case_bool_decide; [by left | by right]. Qed.

(** Rewriting the buffer without touching any section-id field keeps
    [findSection] where it was. *)
Lemma findSection_setBytes sf bytes sectionId :
  loadedSave sf ->
  length bytes = length (m_bytes sf) ->
  (forall pos k, 0 <= pos < SECTIONS_PER_SAVE -> 0 <= k < 2 ->
     peek bytes (m_activeSaveSlot sf * (SECTION_SIZE * SECTIONS_PER_SAVE)
                 + pos * SECTION_SIZE + SECTION_ID_OFFSET + k) =
     peek (m_bytes sf) (m_activeSaveSlot sf * (SECTION_SIZE * SECTIONS_PER_SAVE)
                        + pos * SECTION_SIZE + SECTION_ID_OFFSET + k)) ->
  findSection (setBytes sf bytes) sectionId = findSection sf sectionId.
Proof.
  intros Hloaded Hlen Hsame.
  pose proof (loadedSave_isLoaded sf Hloaded) as Hl.
  assert (Hl' : isLoaded bytes = true).
  { apply isLoaded_length. rewrite Hlen. apply Hloaded. }
  unfold findSection. cbn [setBytes m_bytes m_activeSaveSlot].
  rewrite Hl, Hl'. cbn [negb orb].
  destruct (m_activeSaveSlot sf <? 0); [reflexivity |]. cbv zeta.
  apply firstPosition_ext. intros pos Hpos. apply elem_of_seqZ in Hpos.
  unfold le16.
  pose proof (Hsame pos 0 ltac:(lia) ltac:(lia)) as H0.
  pose proof (Hsame pos 1 ltac:(lia) ltac:(lia)) as H1.
  rewrite Z.add_0_r in H0. rewrite H0, H1. reflexivity.
Qed.

(** C10. With the flag bit already set, [enableMysteryGift] succeeds and
    changes nothing (it issues no store at all); otherwise it stores to
    exactly the flag byte, which gets the flag bit OR-ed in, and the two
    checksum bytes of section 2, and every other byte of the buffer
    keeps its value.  A second call never changes anything. *)
Theorem enableMysteryGift_frame (sf : SaveFile) :
  loadedSave sf ->
  m_detectedGame sf = Emerald \/ m_detectedGame sf = FireRedLeafGreen ->
  0 <= findSection sf 2 ->
  let base := section2OffsetOf sf in
  let flagAt := base + flagOffsetOf sf in
  let current := peek (m_bytes sf) flagAt in
  exists sf' trace,
    enableMysteryGift sf = (Success, sf', trace) /\
    (Z.land current (flagBitOf sf) <> 0 -> sf' = sf /\ trace = []) /\
    (Z.land current (flagBitOf sf) = 0 ->
       fst <$> trace = [flagAt; base + CHECKSUM_OFFSET; base + CHECKSUM_OFFSET + 1] /\
       length (m_bytes sf') = length (m_bytes sf) /\
       peek (m_bytes sf') flagAt = Z.lor current (flagBitOf sf) /\
       (forall i : nat,
          Z.of_nat i <> flagAt ->
          Z.of_nat i <> base + CHECKSUM_OFFSET ->
          Z.of_nat i <> base + CHECKSUM_OFFSET + 1 ->
          m_bytes sf' !! i = m_bytes sf !! i)) /\
    enableMysteryGift sf' = (Success, sf', []).
Proof.
  intros Hloaded Hgame Hfound base flagAt current.
  pose proof (findSection_found sf 2 Hfound) as [Hrange _].
  pose proof Hloaded as [Hlen Hslot].
  assert (Hbase : 0 <= base /\ base + 4096 <= Z.of_nat (length (m_bytes sf))).
  { subst base. unfold section2OffsetOf, SECTION_SIZE, SECTIONS_PER_SAVE,
      EXPECTED_FILE_SIZE in *. lia. }
  pose proof (flagOffsetOf_cases sf) as Hfo.
  pose proof (flagBitOf_cases sf) as Hfb.
  destruct (enableMysteryGift_cases sf Hloaded Hgame Hfound)
    as [[Hset Heq] | [Hclear Heq]]; cbv zeta in Heq;
    fold base in Heq; fold flagAt in Heq; fold current in Heq.
  - exists sf, []. split; [exact Heq |]. split; [by intros _ |].
    split; [intros Hz; contradiction | exact Heq].
  - set (flagged := poke (m_bytes sf) flagAt (u8 (Z.lor current (flagBitOf sf)))) in *.
    set (c := computeSectionChecksum (advance flagged base)
                                     (getSectionChecksumLength sf 2)) in *.
    set (final := poke (poke flagged (base + CHECKSUM_OFFSET) (Z.land c 255))
                       (base + CHECKSUM_OFFSET + 1) (Z.land (Z.shiftr c 8) 255)) in *.
    assert (Hlf : length final = length (m_bytes sf)).
    { subst final flagged. by rewrite !length_poke. }
    assert (Hcur : 0 <= Z.lor current (flagBitOf sf) < 256).
    { apply (lor_range _ _ 8); [lia | apply peek_range |].
      destruct Hfb as [-> | ->]; lia. }
    assert (Hflag : peek final flagAt = Z.lor current (flagBitOf sf)).
    { subst final flagged. unfold CHECKSUM_OFFSET.
      rewrite !peek_poke_ne by (subst flagAt; lia).
      rewrite peek_poke_eq by (subst flagAt; lia).
      rewrite !u8_small; [reflexivity | exact Hcur | ].
      rewrite u8_small; exact Hcur. }
    eexists (setBytes sf final), _. split; [exact Heq |].
    split; [intros Hnz; contradiction |]. split.
    + intros _. cbn [setBytes m_bytes]. split; [reflexivity |].
      split; [exact Hlf |]. split; [exact Hflag |].
      intros i H1 H2 H3. subst final flagged. unfold poke.
      rewrite !list_lookup_insert_ne by (unfold CHECKSUM_OFFSET in *; subst flagAt; lia).
      reflexivity.
    + assert (Hloaded' : loadedSave (setBytes sf final)).
      { split; cbn [setBytes m_bytes m_activeSaveSlot]; [| exact Hslot].
        rewrite Hlf. exact Hlen. }
      assert (Hfind : findSection (setBytes sf final) 2 = findSection sf 2).
      { apply findSection_setBytes; [exact Hloaded | exact Hlf |].
        intros pos k Hpos Hk. subst final flagged.
        rewrite !peek_poke_ne; [reflexivity | | | | | | | | | ];
          subst flagAt base;
          unfold section2OffsetOf, SECTION_SIZE, SECTIONS_PER_SAVE,
            SECTION_ID_OFFSET, CHECKSUM_OFFSET in *; lia. }
      assert (Hfound' : 0 <= findSection (setBytes sf final) 2)
        by (rewrite Hfind; exact Hfound).
      destruct (enableMysteryGift_cases (setBytes sf final) Hloaded' Hgame Hfound')
        as [[_ Heq'] | [Hclear' _]]; [exact Heq' | exfalso].
      cbv zeta in Hclear'.
      unfold section2OffsetOf, flagOffsetOf, flagBitOf in Hclear'.
      cbn [setBytes m_bytes m_activeSaveSlot m_detectedGame] in Hclear'.
      rewrite Hfind in Hclear'.
      fold (section2OffsetOf sf) in Hclear'. fold (flagOffsetOf sf) in Hclear'.
      fold (flagBitOf sf) in Hclear'. fold base in Hclear'. fold flagAt in Hclear'.
      rewrite Hflag, land_lor_same in Hclear'.
      destruct Hfb as [Hb | Hb]; rewrite Hb in Hclear'; discriminate Hclear'.
Qed.

(** Witness for C10: the sample Emerald save, whose flag bit is clear. *)
Lemma enableMysteryGift_frame_witness :
  exists sf' trace,
    enableMysteryGift sampleSaveFile = (Success, sf', trace) /\
    enableMysteryGift sf' = (Success, sf', []).
Proof.
  assert (Hg : m_detectedGame sampleSaveFile = Emerald \/
               m_detectedGame sampleSaveFile = FireRedLeafGreen)
    by (left; reflexivity).
  destruct (enableMysteryGift_frame sampleSaveFile sampleSaveFile_loaded Hg
              sampleSaveFile_section2)
    as (sf' & trace & Heq & _ & _ & Hagain).
  exists sf', trace. split; assumption.
Defined.

(** ** calculateCRC16 *)

Lemma crc16_spec_step_range table crc byte :
  0 <= crc < 65536 -> 0 <= crc16_spec_step table crc byte < 65536.
Proof.
  intros Hcrc. unfold crc16_spec_step, tableEntryLE.
  apply (lxor_range _ _ 16); [lia | |].
  - pose proof (peek_range table (2 * Z.land (Z.lxor crc byte) 255)).
    pose proof (peek_range table (2 * Z.land (Z.lxor crc byte) 255 + 1)). lia.
  - rewrite shiftr_div by lia. change (2 ^ 8) with 256. change (2 ^ 16) with 65536.
    split; [apply Z.div_pos; lia | apply Z.div_lt_upper_bound; lia].
Qed.

(** One iteration of the source loop is one step of the specification. *)
Lemma crcStep_spec table crc byte :
  0 <= crc < 65536 -> crcStep table crc byte = crc16_spec_step table crc byte.
Proof.
  intros Hcrc.
  pose proof (crc16_spec_step_range table crc byte Hcrc) as Hr.
  unfold crcStep. cbv zeta.
  rewrite (u8_small (Z.land _ 255))
    by (rewrite land_255; apply Z.mod_pos_bound; lia).
  replace (Z.land (Z.lxor crc byte) 255 * 2) with (2 * Z.land (Z.lxor crc byte) 255) by lia.
  pose proof (peek_range table (2 * Z.land (Z.lxor crc byte) 255)) as Hlo.
  pose proof (peek_range table (2 * Z.land (Z.lxor crc byte) 255 + 1)) as Hhi.
  rewrite (lor_shiftl_add _ _ 8) by lia.
  rewrite (u16_small (_ + _ * 2 ^ 8)) by lia.
  unfold crc16_spec_step, tableEntryLE in *.
  replace (peek table (2 * Z.land (Z.lxor crc byte) 255)
           + peek table (2 * Z.land (Z.lxor crc byte) 255 + 1) * 2 ^ 8)
    with (peek table (2 * Z.land (Z.lxor crc byte) 255)
          + 256 * peek table (2 * Z.land (Z.lxor crc byte) 255 + 1)) by lia.
  apply u16_small. exact Hr.
Qed.

Lemma crcLoop_spec table data : forall n i crc,
  0 <= i -> 0 <= crc < 65536 ->
  crcLoop data table i n crc =
  fold_left (crc16_spec_step table) (u8 <$> take n (drop (Z.to_nat i) data)) crc
  \/ (Z.to_nat i + n > length data)%nat.
Proof.
  induction n as [| n IH]; intros i crc Hi Hcrc.
  - left. rewrite take_0. reflexivity.
  - destruct (decide (Z.to_nat i + S n <= length data)%nat) as [Hfit | Hover];
      [left | right; lia].
    cbn [crcLoop].
    destruct (data !! Z.to_nat i) as [x |] eqn:Hx;
      [| apply lookup_ge_None in Hx; lia].
    rewrite (drop_S _ _ _ Hx). rewrite firstn_cons. cbn [fmap list_fmap fold_left].
    rewrite (peek_lookup _ _ _ Hx).
    rewrite crcStep_spec by exact Hcrc.
    destruct (IH (i + 1) (crc16_spec_step table crc (u8 x)) ltac:(lia)
                 (crc16_spec_step_range _ _ _ Hcrc)) as [-> | Hbad].
    + replace (Z.to_nat (i + 1)) with (S (Z.to_nat i)) by lia. reflexivity.
    + lia.
Qed.

(** C5. With a 512-byte table [calculateCRC16] is the specified fold:
    seed [0x1121], per byte the little-endian table entry at index
    [(crc XOR byte) AND 0xFF] XOR-ed with [crc >> 8], and the bitwise NOT
    of the result in 16 bits; on the empty buffer that is
    [~0x1121 & 0xFFFF = 0xEEDE], whatever the table holds. *)
Theorem calculateCRC16_spec (data crcTable : list Z) :
  length crcTable = 512%nat ->
  calculateCRC16 data crcTable = crc16_spec (u8 <$> data) crcTable /\
  0 <= calculateCRC16 data crcTable < 65536 /\
  calculateCRC16 [] crcTable = Z.land (Z.lnot 0x1121) 0xFFFF /\
  calculateCRC16 [] crcTable = 0xEEDE.
Proof.
  intros Htable.
  assert (Hsize : (Z.of_nat (length crcTable) =? 512) = true)
    by (rewrite Htable; reflexivity).
  unfold calculateCRC16. rewrite Hsize. cbn [negb]. cbv zeta.
  assert (Hloop : crcLoop data crcTable 0 (length data) 4385 =
                  fold_left (crc16_spec_step crcTable) (u8 <$> data) 4385).
  { destruct (crcLoop_spec crcTable data (length data) 0 4385) as [-> | Hbad];
      [lia | lia | | cbn in Hbad; lia].
    change (Z.to_nat 0) with 0%nat. rewrite drop_0, firstn_all. reflexivity. }
  assert (Hfit : forall x, 0 <= Z.land x 65535 < 65536).
  { intros x. rewrite land_65535. apply Z.mod_pos_bound. lia. }
  repeat split.
  - rewrite Hloop. unfold crc16_spec. apply u16_small, Hfit.
  - apply u16_range.
  - apply u16_range.
Qed.

(** Witness for C5: an all-zero table and the bytes of [textTEST]. *)
Lemma calculateCRC16_spec_witness :
  calculateCRC16 textTEST (replicate 512 0) =
  crc16_spec (u8 <$> textTEST) (replicate 512 0) /\
  calculateCRC16 [] (replicate 512 0) = 0xEEDE.
Proof.
  pose proof (calculateCRC16_spec textTEST (replicate 512 0)
                (length_replicate 512 0)) as (H1 & _ & _ & _).
  pose proof (calculateCRC16_spec [] (replicate 512 0)
                (length_replicate 512 0)) as (_ & _ & _ & H2).
  split; assumption.
Defined.

(** ** parseWonderCard: input shapes *)

(** C9. A 336-byte input is parsed from byte 4 on, which gives the
    record of the 332-byte payload behind the header; an input shorter
    than 332 bytes gives, without error, the record whose numeric fields
    are all zero, and that record is empty. *)
Theorem parseWonderCard_shapes (payload : list Z) :
  (length payload = 336%nat ->
     parseWonderCard payload = parseWonderCard (mid payload 4 332)) /\
  ((length payload < 332)%nat ->
     eventId (parseWonderCard payload) = 0 /\
     icon (parseWonderCard payload) = 0 /\
     count (parseWonderCard payload) = 0 /\
     typeColorResend (parseWonderCard payload) = 0 /\
     stampMax (parseWonderCard payload) = 0 /\
     isEmpty (parseWonderCard payload) = true).
Proof.
  split.
  - intros Hlen.
    assert (Hmid : mid payload 4 332 = advance payload WONDERCARD_HEADER_SIZE).
    { unfold mid, advance. apply take_ge. rewrite length_drop, Hlen.
      change (Z.to_nat WONDERCARD_HEADER_SIZE) with 4%nat.
      change (Z.to_nat 4) with 4%nat. change (Z.to_nat 332) with 332%nat. lia. }
    assert (Hlen' : length (advance payload WONDERCARD_HEADER_SIZE) = 332%nat).
    { unfold advance. rewrite length_drop, Hlen. reflexivity. }
    rewrite Hmid. unfold parseWonderCard at 2. rewrite Hlen'.
    unfold parseWonderCard. rewrite Hlen. reflexivity.
  - intros Hlen. unfold parseWonderCard.
    destruct (Z.ltb_spec (Z.of_nat (length payload)) WONDERCARD_PAYLOAD_SIZE)
      as [_ | Hge]; [| unfold WONDERCARD_PAYLOAD_SIZE in Hge; lia].
    repeat split.
Qed.

(** Witness for C9: the sample card behind a 4-byte header, and the
    3-byte input that is too short. *)
Lemma parseWonderCard_shapes_witness :
  parseWonderCard ([0xDE; 0xEE; 0; 0] ++ testCard) =
  parseWonderCard (mid ([0xDE; 0xEE; 0; 0] ++ testCard) 4 332) /\
  isEmpty (parseWonderCard [1; 2; 3]) = true.
Proof.
  split.
  - apply (proj1 (parseWonderCard_shapes ([0xDE; 0xEE; 0; 0] ++ testCard))).
    vm_compute. reflexivity.
  - apply (proj2 (parseWonderCard_shapes [1; 2; 3])). vm_compute. lia.
Defined.

(** ** Primitive ROM reads *)

Lemma romSize_small rom :
  Z.of_nat (length rom) < 4294967296 -> romSize rom = Z.of_nat (length rom).
Proof. intros H. unfold romSize. apply u32_small. lia. Qed.

(** Where the offset arithmetic does not wrap, reads at or past the end
    of the buffer give zero, and [readBytes] gives the empty array. *)
Lemma reads_past_end (rom : list Z) (offset : Z) :
  Z.of_nat (length rom) < 4294967296 ->
  0 <= offset ->
  (Z.of_nat (length rom) <= offset -> readByte rom offset = Some 0) /\
  (offset + 1 < 4294967296 -> Z.of_nat (length rom) <= offset + 1 ->
     readHalfWord rom offset = Some 0) /\
  (offset + 3 < 4294967296 -> Z.of_nat (length rom) <= offset + 3 ->
     readWord rom offset = Some 0) /\
  (forall len, 0 <= len -> offset + len < 4294967296 ->
     Z.of_nat (length rom) < offset + len -> readBytes rom offset len = []).
Proof.
  intros Hsize Hoff. rewrite <- (romSize_small rom Hsize).
  repeat split.
  - intros H. unfold readByte.
    destruct (Z.leb_spec (romSize rom) offset); [reflexivity | lia].
  - intros Hw H. unfold readHalfWord. rewrite u32_small by lia.
    destruct (Z.leb_spec (romSize rom) (offset + 1)); [reflexivity | lia].
  - intros Hw H. unfold readWord. rewrite (u32_small (offset + 3)) by lia.
    destruct (Z.leb_spec (romSize rom) (offset + 3)); [reflexivity | lia].
  - intros len Hlen Hw H. unfold readBytes. rewrite u32_small by lia.
    destruct (Z.ltb_spec (romSize rom) (offset + len)); [reflexivity | lia].
Qed.

(** C8 fails where the offset arithmetic wraps. At offset [0xFFFFFFFF]
    the guard of [readHalfWord] compares [offset + 1 = 0] with the size
    and lets the read through: the two-byte ROM is indexed at
    [0xFFFFFFFF], outside the array, instead of zero being returned;
    [readWord] does the same from [0xFFFFFFFD] on.  [readByte], whose
    guard has no addition, returns zero there. *)
Theorem readHalfWord_offset_wrap :
  readByte [0x12; 0x34] 0xFFFFFFFF = Some 0 /\
  readHalfWord [0x12; 0x34] 0xFFFFFFFF = None /\
  readWord [0x12; 0x34] 0xFFFFFFFD = None.
Proof. repeat split. Qed.
(** ** Text codec *)

Lemma decodeByte_app result byte :
  decodeByte result byte = result ++ decodeChar byte.
Proof.
  unfold decodeChar, decodeByte. cbv zeta.
  repeat (case_match; [by rewrite ?app_nil_l |]). by rewrite app_nil_r.
Qed.

Lemma decodeTextLoop_spec data : forall n i result,
  0 <= i -> (Z.to_nat i + n <= length data)%nat ->
  decodeTextLoop data i n result =
  result ++ decodeList (u8 <$> take n (drop (Z.to_nat i) data)).
Proof.
  induction n as [| n IH]; intros i result Hi Hfit.
  - rewrite take_0. cbn. by rewrite app_nil_r.
  - cbn [decodeTextLoop].
    destruct (data !! Z.to_nat i) as [x |] eqn:Hx;
      [| apply lookup_ge_None in Hx; lia].
    rewrite (drop_S _ _ _ Hx). rewrite firstn_cons.
    cbn [fmap list_fmap decodeList].
    rewrite (peek_lookup _ _ _ Hx).
    destruct (u8 x =? 255); [by rewrite app_nil_r |].
    rewrite IH by lia. rewrite decodeByte_app, <- app_assoc.
    replace (Z.to_nat (i + 1)) with (S (Z.to_nat i)) by lia. reflexivity.
Qed.

Lemma decodeText_spec data (n : nat) :
  (n <= length data)%nat ->
  decodeText data (Z.of_nat n) = decodeList (u8 <$> take n data).
Proof.
  intros H. unfold decodeText. rewrite Nat2Z.id.
  rewrite decodeTextLoop_spec by (change (Z.to_nat 0) with 0%nat; lia).
  reflexivity.
Qed.

(** [memset] and the write loop as block updates. *)
Lemma memset_inserts v : forall n buf dst,
  0 <= dst ->
  memset buf dst v n = list_inserts (Z.to_nat dst) (replicate n v) buf.
Proof.
  induction n as [| n IH]; intros buf dst Hdst; [reflexivity |].
  cbn [memset replicate list_inserts]. rewrite IH by lia.
  replace (Z.to_nat (dst + 1)) with (S (Z.to_nat dst)) by lia.
  unfold poke. rewrite list_insert_inserts_lt by lia. reflexivity.
Qed.

Lemma encodeTextLoop_inserts dest maxLength : forall text buf writePos,
  0 <= dest -> 0 <= writePos ->
  encodeTextLoop buf dest text writePos maxLength =
  list_inserts (Z.to_nat (dest + writePos))
    (unicodeToGen3 <$> take (Z.to_nat (maxLength - writePos)) text) buf.
Proof.
  induction text as [| ch rest IH]; intros buf writePos Hd Hw.
  - rewrite take_nil. reflexivity.
  - cbn [encodeTextLoop].
    destruct (Z.ltb_spec writePos maxLength) as [Hlt | Hge].
    + rewrite IH by lia.
      replace (Z.to_nat (maxLength - writePos))
        with (S (Z.to_nat (maxLength - (writePos + 1)))) by lia.
      rewrite firstn_cons. cbn [fmap list_fmap list_inserts].
      replace (Z.to_nat (dest + (writePos + 1)))
        with (S (Z.to_nat (dest + writePos))) by lia.
      unfold poke. rewrite list_insert_inserts_lt by lia. reflexivity.
    + replace (Z.to_nat (maxLength - writePos)) with 0%nat by lia.
      reflexivity.
Qed.

Lemma length_fieldBytes text n : length (fieldBytes text n) = n.
Proof.
  unfold fieldBytes.
  rewrite length_app, length_fmap, length_take, length_replicate. lia.
Qed.

(** [encodeText] overwrites the [n] bytes at [dest] with [fieldBytes]. *)
Lemma encodeText_inserts buf dest text (n : nat) :
  0 <= dest -> (Z.to_nat dest + n <= length buf)%nat ->
  encodeText buf dest text (Z.of_nat n) =
  list_inserts (Z.to_nat dest) (fieldBytes text n) buf.
Proof.
  intros Hd Hfit. unfold encodeText.
  rewrite encodeTextLoop_inserts by lia. rewrite memset_inserts by lia.
  rewrite Z.add_0_r, Z.sub_0_r, !Nat2Z.id.
  apply list_eq. intros j.
  pose proof (length_fieldBytes text n) as Hfb.
  destruct (decide (Z.to_nat dest <= j < Z.to_nat dest + n)%nat) as [Hin | Hout].
  - rewrite (list_lookup_inserts _ _ (fieldBytes text n))
      by (rewrite ?Hfb; lia).
    unfold fieldBytes.
    destruct (decide (j - Z.to_nat dest < length (take n text))%nat) as [Ht | Ht].
    + rewrite list_lookup_inserts
        by (rewrite ?length_fmap, ?length_inserts; lia).
      rewrite lookup_app_l by (rewrite length_fmap; lia). reflexivity.
    + rewrite list_lookup_inserts_ge by (rewrite length_fmap; lia).
      rewrite list_lookup_inserts by (rewrite ?length_replicate; lia).
      rewrite lookup_app_r by (rewrite length_fmap; lia).
      rewrite length_fmap.
      rewrite length_take in *.
      destruct (replicate n 0 !! (j - Z.to_nat dest)%nat) as [z |] eqn:E1;
        [| apply lookup_ge_None in E1; rewrite length_replicate in E1; lia].
      apply lookup_replicate in E1 as [-> _].
      symmetry. apply lookup_replicate. split; [reflexivity | lia].
  - destruct (decide (j < Z.to_nat dest)%nat).
    + rewrite !list_lookup_inserts_lt by lia. reflexivity.
    + rewrite !list_lookup_inserts_ge
        by (rewrite ?length_fmap, ?length_take, ?length_replicate, ?Hfb; lia).
      reflexivity.
Qed.

Lemma encodeTextField_fieldBytes text (n : nat) :
  encodeTextField text (Z.of_nat n) = fieldBytes text n.
Proof.
  unfold encodeTextField. rewrite Nat2Z.id.
  rewrite encodeText_inserts
    by (rewrite ?length_replicate; change (Z.to_nat 0) with 0%nat; lia).
  change (Z.to_nat 0) with 0%nat.
  apply list_eq. intros j.
  pose proof (length_fieldBytes text n) as Hfb.
  destruct (decide (j < n)%nat).
  - rewrite list_lookup_inserts by (rewrite ?Hfb, ?length_replicate; lia).
    f_equal. lia.
  - rewrite list_lookup_inserts_ge by (rewrite Hfb; lia).
    rewrite !lookup_ge_None_2; rewrite ?length_replicate, ?Hfb; [done | lia | lia].
Qed.

(** ** The text table *)

Lemma tableScan_range table : forall i unicode,
  0 <= tableScan table i unicode < 256.
Proof.
  induction table as [| entry rest IH]; intros i unicode; cbn [tableScan];
    [lia |].
  destruct (entry =? unicode); [apply u8_range | apply IH].
Qed.

Lemma unicodeToGen3_range unicode : 0 <= unicodeToGen3 unicode < 256.
Proof.
  unfold unicodeToGen3.
  repeat (case_match; [first [apply u8_range | lia] |]).
  apply tableScan_range.
Qed.

Lemma table_chars_checked :
  forallb
    (fun c => (c =? 0)
              || ((gen3Char (unicodeToGen3 c) =? c)
                  && negb (unicodeToGen3 c =? 0xFF)))
    GEN3_TO_UNICODE = true.
Proof. vm_compute. reflexivity. Qed.

(** Every character of the table is decoded back from its own code, and
    no code is the terminator. *)
Lemma tableChar_code c :
  tableChar c ->
  gen3Char (unicodeToGen3 c) = c /\ unicodeToGen3 c <> 0xFF.
Proof.
  intros [Hnz Hin].
  pose proof (proj1 (forallb_forall _ _) table_chars_checked c
                (proj1 (list_elem_of_In _ _) Hin)) as H.
  cbv beta in H.
  destruct (Z.eqb_spec c 0) as [-> | _]; [contradiction |].
  cbn [orb] in H. apply andb_true_iff in H as [H1 H2].
  apply Z.eqb_eq in H1. apply negb_true_iff, Z.eqb_neq in H2. by split.
Qed.

Lemma decodeChar_entry byte :
  gen3Char byte <> 0 -> decodeChar byte = [gen3Char byte].
Proof.
  intros H. unfold decodeChar, decodeByte. cbv zeta.
  destruct (Z.eqb_spec (gen3Char byte) 0) as [E | _]; [contradiction | reflexivity].
Qed.

Lemma tableChar_space : tableChar 0x20.
Proof. split; [discriminate | apply list_elem_of_here]. Qed.

Lemma hasTableEntry_char b : hasTableEntry b -> tableChar (gen3Char b).
Proof.
  intros [Hb Hnz]. split; [exact Hnz |].
  unfold gen3Char in *.
  destruct (GEN3_TO_UNICODE !! Z.to_nat b) as [c |] eqn:E; [| contradiction].
  cbn [default]. by apply list_elem_of_lookup_2 in E.
Qed.

Lemma decodeList_codes (text : QString) (rest : list Z) :
  Forall tableChar text ->
  decodeList ((unicodeToGen3 <$> text) ++ rest) = text ++ decodeList rest.
Proof.
  induction 1 as [| c text Hc _ IH]; [reflexivity |].
  cbn [fmap list_fmap app decodeList].
  destruct (tableChar_code c Hc) as [Hback Hterm].
  destruct (Z.eqb_spec (unicodeToGen3 c) 255) as [E | _]; [contradiction |].
  rewrite decodeChar_entry by (rewrite Hback; apply Hc).
  rewrite Hback, IH. reflexivity.
Qed.

Lemma decodeList_zeros k : decodeList (replicate k 0) = replicate k 0x20.
Proof.
  induction k as [| k IH]; [reflexivity |].
  cbn [replicate decodeList]. rewrite IH. reflexivity.
Qed.

Lemma decodeList_fieldBytes text n :
  Forall tableChar text ->
  decodeList (fieldBytes text n) =
  take n text ++ replicate (n - length text) 0x20.
Proof.
  intros H. unfold fieldBytes.
  rewrite decodeList_codes by (by apply Forall_take).
  rewrite decodeList_zeros. reflexivity.
Qed.

Lemma fieldBytes_bytes text n : Forall isByte (fieldBytes text n).
Proof.
  unfold fieldBytes. apply Forall_app. split.
  - apply Forall_fmap, Forall_forall. intros c _. apply unicodeToGen3_range.
  - apply Forall_replicate. unfold isByte. lia.
Qed.

Lemma fmap_u8_bytes bytes : Forall isByte bytes -> u8 <$> bytes = bytes.
Proof.
  induction 1 as [| b bytes Hb _ IH]; [reflexivity |].
  cbn [fmap list_fmap]. rewrite u8_small by exact Hb. f_equal. exact IH.
Qed.

(** One round trip keeps the first [n] characters of a table text and
    pads with spaces. *)
Lemma roundTrip_tableText text (n : nat) :
  Forall tableChar text ->
  roundTrip (Z.of_nat n) text = take n text ++ replicate (n - length text) 0x20.
Proof.
  intros H. unfold roundTrip.
  rewrite encodeTextField_fieldBytes.
  rewrite decodeText_spec by (rewrite length_fieldBytes; lia).
  rewrite take_ge by (rewrite length_fieldBytes; lia).
  rewrite fmap_u8_bytes by apply fieldBytes_bytes.
  by apply decodeList_fieldBytes.
Qed.

Lemma decodeText_single b :
  hasTableEntry b -> decodeText [b] 1 = [gen3Char b].
Proof.
  intros Hb. pose proof Hb as [Hr Hnz].
  change (decodeText [b] 1) with (decodeText [b] (Z.of_nat 1)).
  rewrite decodeText_spec by (cbn; lia).
  cbn [take fmap list_fmap decodeList]. rewrite u8_small by exact Hr.
  destruct (Z.eqb_spec b 255) as [-> | _]; [by vm_compute in Hnz |].
  rewrite decodeChar_entry by exact Hnz. reflexivity.
Qed.

(** The encoder is not injective on bytes: the "PKMN" glyph [0x43] and
    the letter [0xCA] both decode to [P], which is encoded as [0xCA]. *)
Lemma encoding_prefers_alphabet :
  decodeText [0x43] 1 = decodeText [0xCA] 1 /\
  encodeTextField (decodeText [0x43] 1) 1 = [0xCA].
Proof. split; reflexivity. Qed.

(** C7. For a byte with a text-table entry, the string obtained by one
    encode/decode round trip of its decoding is a fixed point of the
    round trip, at every field width. *)
Theorem decode_stable_after_round_trip (b : Z) (n : nat) :
  hasTableEntry b ->
  let once := roundTrip (Z.of_nat n) (decodeText [b] 1) in
  roundTrip (Z.of_nat n) once = once.
Proof.
  intros Hb once.
  assert (Hc : Forall tableChar [gen3Char b]).
  { constructor; [by apply hasTableEntry_char | constructor]. }
  assert (Honce : once = take n [gen3Char b] ++ replicate (n - 1) 0x20).
  { subst once. rewrite decodeText_single by exact Hb.
    by rewrite roundTrip_tableText. }
  assert (Hall : Forall tableChar once).
  { rewrite Honce. apply Forall_app. split.
    - by apply Forall_take.
    - apply Forall_replicate, tableChar_space. }
  assert (Hlen : length once = n).
  { rewrite Honce, length_app, length_take, length_replicate. cbn [length]. lia. }
  rewrite roundTrip_tableText by exact Hall.
  rewrite take_ge by lia. rewrite Hlen, Nat.sub_diag. apply app_nil_r.
Qed.

(** Witness for C7: the byte [0x43], whose decoding [P] is re-encoded as
    another byte. *)
Lemma decode_stable_after_round_trip_witness :
  roundTrip 40 (roundTrip 40 (decodeText [0x43] 1)) =
  roundTrip 40 (decodeText [0x43] 1).
Proof.
  apply (decode_stable_after_round_trip 0x43 40).
  split; [lia | vm_compute; discriminate].
Defined.

(** ** Gift-card payload round trip *)

Lemma lookup_peek (payload : list Z) (i : nat) :
  Forall isByte payload -> (i < length payload)%nat ->
  payload !! i = Some (peek payload (Z.of_nat i)).
Proof.
  intros Hbytes Hi. unfold peek. rewrite Nat2Z.id.
  destruct (payload !! i) as [x |] eqn:E; [| apply lookup_ge_None in E; lia].
  cbn [default]. rewrite u8_small; [reflexivity |].
  exact (proj1 (Forall_lookup _ _) Hbytes i x E).
Qed.

(** The bytes of a little-endian value, taken apart as the encoder does. *)
Lemma byte0_of b0 rest : 0 <= b0 < 256 -> Z.land (b0 + 256 * rest) 0xFF = b0.
Proof. intros H. rewrite land_255. Z.div_mod_to_equations. lia. Qed.

Lemma byte1_of b0 b1 rest :
  0 <= b0 < 256 -> 0 <= b1 < 256 ->
  Z.land (Z.shiftr (b0 + 256 * b1 + 65536 * rest) 8) 0xFF = b1.
Proof.
  intros H0 H1. rewrite land_255, shiftr_div by lia. change (2 ^ 8) with 256.
  Z.div_mod_to_equations. lia.
Qed.

Lemma high_byte_of b0 b1 :
  0 <= b0 < 256 -> 0 <= b1 < 256 ->
  Z.land (Z.shiftr (b0 + 256 * b1) 8) 0xFF = b1.
Proof.
  intros H0 H1. rewrite land_255, shiftr_div by lia. change (2 ^ 8) with 256.
  Z.div_mod_to_equations. lia.
Qed.

Lemma byte2_of b0 b1 b2 rest :
  0 <= b0 < 256 -> 0 <= b1 < 256 -> 0 <= b2 < 256 ->
  Z.land (Z.shiftr (b0 + 256 * b1 + 65536 * b2 + 16777216 * rest) 16) 0xFF = b2.
Proof.
  intros H0 H1 H2. rewrite land_255, shiftr_div by lia. change (2 ^ 16) with 65536.
  Z.div_mod_to_equations. lia.
Qed.

Lemma byte3_of b0 b1 b2 b3 :
  0 <= b0 < 256 -> 0 <= b1 < 256 -> 0 <= b2 < 256 -> 0 <= b3 < 256 ->
  Z.land (Z.shiftr (b0 + 256 * b1 + 65536 * b2 + 16777216 * b3) 24) 0xFF = b3.
Proof.
  intros H0 H1 H2 H3. rewrite land_255, shiftr_div by lia.
  change (2 ^ 24) with 16777216. Z.div_mod_to_equations. lia.
Qed.

Lemma agreeOn_inserts P buf payload off field :
  length buf = length payload ->
  (off + length field <= length payload)%nat ->
  field = take (length field) (drop off payload) ->
  agreeOn P buf payload ->
  agreeOn (fun i => P i \/ (off <= i < off + length field)%nat)
          (list_inserts off field buf) payload.
Proof.
  intros Hlen Hfit Hfield Hagree i Hi.
  destruct (decide (off <= i < off + length field)%nat) as [Hin | Hout].
  - rewrite list_lookup_inserts by lia.
    rewrite Hfield, lookup_take_lt by lia. rewrite lookup_drop.
    f_equal. lia.
  - destruct Hi as [Hp | Hin]; [| contradiction].
    destruct (decide (i < off)%nat).
    + rewrite list_lookup_inserts_lt by lia. by apply Hagree.
    + rewrite list_lookup_inserts_ge by lia. by apply Hagree.
Qed.

(** A zero-padded field of table text survives decode and encode. *)
Lemma field_round_trip (payload : list Z) (off : Z) :
  0 <= off -> (Z.to_nat off + 40 <= length payload)%nat ->
  zeroPaddedFieldAt payload off ->
  fieldBytes (decodeText (advance payload off) TEXT_FIELD_SIZE) 40 =
  take 40 (drop (Z.to_nat off) payload).
Proof.
  intros Hoff Hfit (text & Htable & Hlen & Hmid).
  unfold mid in Hmid. change (Z.to_nat TEXT_FIELD_SIZE) with 40%nat in *.
  assert (Hpad : paddedField text = fieldBytes text 40).
  { unfold paddedField, fieldBytes.
    change (Z.to_nat TEXT_FIELD_SIZE) with 40%nat.
    rewrite take_ge by lia. reflexivity. }
  change TEXT_FIELD_SIZE with (Z.of_nat 40).
  rewrite decodeText_spec by (unfold advance; rewrite length_drop; lia).
  unfold advance. rewrite Hmid, Hpad.
  rewrite fmap_u8_bytes by apply fieldBytes_bytes.
  rewrite decodeList_fieldBytes by exact Htable.
  rewrite take_ge by lia.
  unfold fieldBytes at 1.
  rewrite take_ge by (rewrite length_app, length_replicate; lia).
  rewrite length_app, length_replicate.
  replace (40 - (length text + (40 - length text)))%nat with 0%nat by lia.
  rewrite fmap_app, fmap_replicate, app_nil_r.
  unfold fieldBytes. rewrite take_ge by lia. reflexivity.
Qed.

Lemma agreeOn_weaken (P Q : nat -> Prop) buf payload :
  (forall i, Q i -> P i) -> agreeOn P buf payload -> agreeOn Q buf payload.
Proof. intros HPQ H i Hi. apply H, HPQ, Hi. Qed.

(** The ten header bytes the encoder stores are the ten header bytes
    of the payload the record was parsed from. *)
Lemma header_round_trip (payload : list Z) :
  length payload = 332%nat ->
  Forall isByte payload ->
  payload !! 330%nat = Some 0 -> payload !! 331%nat = Some 0 ->
  let d := parseWonderCard payload in
  let bytes := replicate (Z.to_nat WONDERCARD_PAYLOAD_SIZE) 0x00 in
  let bytes := poke bytes WonderCardOffsets.EVENT_ID (Z.land (eventId d) 0xFF) in
  let bytes := poke bytes (WonderCardOffsets.EVENT_ID + 1)
                 (Z.land (Z.shiftr (eventId d) 8) 0xFF) in
  let bytes := poke bytes WonderCardOffsets.ICON (Z.land (icon d) 0xFF) in
  let bytes := poke bytes (WonderCardOffsets.ICON + 1)
                 (Z.land (Z.shiftr (icon d) 8) 0xFF) in
  let bytes := poke bytes WonderCardOffsets.COUNT (Z.land (count d) 0xFF) in
  let bytes := poke bytes (WonderCardOffsets.COUNT + 1)
                 (Z.land (Z.shiftr (count d) 8) 0xFF) in
  let bytes := poke bytes (WonderCardOffsets.COUNT + 2)
                 (Z.land (Z.shiftr (count d) 16) 0xFF) in
  let bytes := poke bytes (WonderCardOffsets.COUNT + 3)
                 (Z.land (Z.shiftr (count d) 24) 0xFF) in
  let bytes := poke bytes WonderCardOffsets.TYPE_COLOR_RESEND (u8 (typeColorResend d)) in
  let bytes := poke bytes WonderCardOffsets.STAMP_MAX (u8 (stampMax d)) in
  length bytes = 332%nat /\
  agreeOn (fun i => (i < 10)%nat \/ (330 <= i)%nat) bytes payload.
Proof.
  intros Hlen Hbytes H330 H331. cbv zeta.
  split; [rewrite !length_poke; apply length_replicate |].
  assert (Hp : forall k, 0 <= k < 332 -> 0 <= peek payload k < 256)
    by (intros; apply peek_range).
  assert (Hparse : parseWonderCard payload =
    mkWonderCardData
      (u16 (le16 payload 0)) (u16 (le16 payload 2)) (u32 (le32 payload 4))
      (peek payload 8) (peek payload 9)
      (title (parseWonderCard payload)) (subtitle (parseWonderCard payload))
      (contentLine1 (parseWonderCard payload)) (contentLine2 (parseWonderCard payload))
      (contentLine3 (parseWonderCard payload)) (contentLine4 (parseWonderCard payload))
      (warningLine1 (parseWonderCard payload)) (warningLine2 (parseWonderCard payload))).
  { unfold parseWonderCard. rewrite Hlen. reflexivity. }
  rewrite Hparse. cbn [eventId icon count typeColorResend stampMax].
  rewrite !le16_value, !le32_value.
  rewrite (u16_small (peek payload 0 + _))
    by (pose proof (Hp 0); pose proof (Hp (0 + 1)); lia).
  rewrite (u16_small (peek payload 2 + _))
    by (pose proof (Hp 2); pose proof (Hp (2 + 1)); lia).
  rewrite (u32_small (peek payload 4 + _ + _ + _))
    by (pose proof (Hp 4); pose proof (Hp (4 + 1)); pose proof (Hp (4 + 2));
        pose proof (Hp (4 + 3)); lia).
  rewrite byte0_of by (apply Hp; lia).
  rewrite high_byte_of by (apply Hp; lia).
  rewrite byte0_of by (apply Hp; lia).
  rewrite high_byte_of by (apply Hp; lia).
  replace (peek payload 4 + 256 * peek payload (4 + 1) + 65536 * peek payload (4 + 2)
           + 16777216 * peek payload (4 + 3))
    with (peek payload 4 + 256 * (peek payload (4 + 1) + 256 * peek payload (4 + 2)
                                   + 65536 * peek payload (4 + 3))) at 1 by lia.
  rewrite byte0_of by (apply Hp; lia).
  replace (peek payload 4 + 256 * peek payload (4 + 1) + 65536 * peek payload (4 + 2)
           + 16777216 * peek payload (4 + 3))
    with (peek payload 4 + 256 * peek payload (4 + 1)
          + 65536 * (peek payload (4 + 2) + 256 * peek payload (4 + 3))) at 1 by lia.
  rewrite byte1_of by (apply Hp; lia).
  rewrite byte2_of by (apply Hp; lia).
  rewrite byte3_of by (apply Hp; lia).
  rewrite !(u8_small (peek payload _)) by apply peek_range.
  unfold poke, WonderCardOffsets.EVENT_ID, WonderCardOffsets.ICON,
    WonderCardOffsets.COUNT, WonderCardOffsets.TYPE_COLOR_RESEND,
    WonderCardOffsets.STAMP_MAX, WONDERCARD_PAYLOAD_SIZE.
  intros i [Hi | Hi].
  - assert (Hcases : (i = 0 \/ i = 1 \/ i = 2 \/ i = 3 \/ i = 4 \/ i = 5 \/ i = 6
                      \/ i = 7 \/ i = 8 \/ i = 9)%nat) by lia.
    rewrite (lookup_peek payload i Hbytes) by lia.
    repeat destruct Hcases as [-> | Hcases]; try subst i;
      repeat (rewrite list_lookup_insert_ne by lia);
      (rewrite list_lookup_insert_eq
         by (rewrite ?length_insert, length_replicate; lia));
      reflexivity.
  - repeat (rewrite list_lookup_insert_ne by lia).
    destruct (decide (i = 330%nat)) as [-> | ?];
      [rewrite H330; apply lookup_replicate_2; lia |].
    destruct (decide (i = 331%nat)) as [-> | ?];
      [rewrite H331; apply lookup_replicate_2; lia |].
    rewrite !lookup_ge_None_2; rewrite ?length_replicate; [done | lia | lia].
Qed.

Lemma length_memset v : forall n buf dst, length (memset buf dst v n) = length buf.
Proof.
  induction n as [| n IH]; intros buf dst; cbn [memset]; [reflexivity |].
  by rewrite IH, length_poke.
Qed.

Lemma length_encodeTextLoop dest maxLength : forall text buf writePos,
  length (encodeTextLoop buf dest text writePos maxLength) = length buf.
Proof.
  induction text as [| ch rest IH]; intros buf writePos; cbn [encodeTextLoop];
    [reflexivity |].
  destruct (writePos <? maxLength); [| reflexivity].
  by rewrite IH, length_poke.
Qed.

Lemma length_encodeText buf dest text maxLength :
  length (encodeText buf dest text maxLength) = length buf.
Proof. unfold encodeText. by rewrite length_encodeTextLoop, length_memset. Qed.

Lemma encodeText_field buf dest text :
  0 <= dest -> (Z.to_nat dest + 40 <= length buf)%nat ->
  encodeText buf dest text TEXT_FIELD_SIZE =
  list_inserts (Z.to_nat dest) (fieldBytes text 40) buf.
Proof.
  intros Hd Hfit. change TEXT_FIELD_SIZE with (Z.of_nat 40).
  by apply encodeText_inserts.
Qed.

Lemma agreeOn_field P buf payload off n :
  length buf = length payload ->
  (off + n <= length payload)%nat ->
  agreeOn P buf payload ->
  agreeOn (fun i => P i \/ (off <= i < off + n)%nat)
          (list_inserts off (take n (drop off payload)) buf) payload.
Proof.
  intros Hlen Hfit Hagree.
  assert (Hl : length (take n (drop off payload)) = n)
    by (rewrite length_take, length_drop; lia).
  pose proof (agreeOn_inserts P buf payload off (take n (drop off payload))
                Hlen) as H.
  rewrite Hl in H. apply H; [lia | reflexivity | exact Hagree].
Qed.

(** C6 (amended). A 332-byte payload whose eight text fields each hold
    canonical codes, the codes [unicodeToGen3] assigns to a text of table
    characters, followed by zero padding, and whose two bytes behind the
    last field are zero, is reproduced exactly by parsing and
    re-encoding. *)
Theorem parse_encode_round_trip (payload : list Z) :
  length payload = 332%nat ->
  Forall isByte payload ->
  zeroPaddedFields payload ->
  payload !! 330%nat = Some 0 ->
  payload !! 331%nat = Some 0 ->
  encodeWonderCard (parseWonderCard payload) = payload.
Proof.
  intros Hlen Hbytes Hfields H330 H331.
  destruct (header_round_trip payload Hlen Hbytes H330 H331) as [Hlen0 Hag0].
  cbv zeta in Hlen0, Hag0.
  unfold encodeWonderCard. cbv zeta.
  match type of Hlen0 with length ?b = _ => set (header := b) in * end.
  assert (Hd : parseWonderCard payload =
    mkWonderCardData
      (eventId (parseWonderCard payload)) (icon (parseWonderCard payload))
      (count (parseWonderCard payload)) (typeColorResend (parseWonderCard payload))
      (stampMax (parseWonderCard payload))
      (decodeText (advance payload WonderCardOffsets.TITLE) TEXT_FIELD_SIZE)
      (decodeText (advance payload WonderCardOffsets.SUBTITLE) TEXT_FIELD_SIZE)
      (decodeText (advance payload WonderCardOffsets.CONTENT_LINE_1) TEXT_FIELD_SIZE)
      (decodeText (advance payload WonderCardOffsets.CONTENT_LINE_2) TEXT_FIELD_SIZE)
      (decodeText (advance payload WonderCardOffsets.CONTENT_LINE_3) TEXT_FIELD_SIZE)
      (decodeText (advance payload WonderCardOffsets.CONTENT_LINE_4) TEXT_FIELD_SIZE)
      (decodeText (advance payload WonderCardOffsets.WARNING_LINE_1) TEXT_FIELD_SIZE)
      (decodeText (advance payload WonderCardOffsets.WARNING_LINE_2) TEXT_FIELD_SIZE)).
  { unfold parseWonderCard. rewrite Hlen. reflexivity. }
  rewrite Hd.
  cbn [title subtitle contentLine1 contentLine2 contentLine3 contentLine4
       warningLine1 warningLine2].
  clear Hd.
  unfold zeroPaddedFields, textFieldOffsets in Hfields.
  repeat match goal with
         | H : Forall _ (_ :: _) |- _ =>
             apply Forall_cons_1 in H; destruct H
         end.
  unfold WonderCardOffsets.TITLE, WonderCardOffsets.SUBTITLE,
    WonderCardOffsets.CONTENT_LINE_1, WonderCardOffsets.CONTENT_LINE_2,
    WonderCardOffsets.CONTENT_LINE_3, WonderCardOffsets.CONTENT_LINE_4,
    WonderCardOffsets.WARNING_LINE_1, WonderCardOffsets.WARNING_LINE_2 in *.
  rewrite !encodeText_field
    by (rewrite ?length_inserts, ?length_encodeText, ?Hlen0; lia).
  rewrite !field_round_trip by (rewrite ?Hlen; first [lia | assumption]).
  apply list_eq. intros i.
  eapply agreeOn_weaken;
    [| repeat (apply agreeOn_field;
               [rewrite ?length_inserts, Hlen0, Hlen; reflexivity
               | rewrite Hlen; lia | ]);
       exact Hag0
     | exact I].
  cbv beta. intros j _. lia.
Qed.

(** ** The sample cards *)

Lemma tableChar_check c :
  negb (c =? 0) && existsb (Z.eqb c) GEN3_TO_UNICODE = true -> tableChar c.
Proof.
  intros H. apply andb_true_iff in H as [Hnz Hin].
  apply negb_true_iff, Z.eqb_neq in Hnz.
  apply existsb_exists in Hin as (x & Hx & Heq).
  apply Z.eqb_eq in Heq. subst x.
  split; [exact Hnz | by apply list_elem_of_In].
Qed.

Lemma isByte_check bytes :
  forallb (fun b => (0 <=? b) && (b <? 256)) bytes = true -> Forall isByte bytes.
Proof.
  intros H. apply Forall_forall. intros b Hb.
  pose proof (proj1 (forallb_forall _ _) H b Hb) as Hc. cbv beta in Hc.
  apply andb_true_iff in Hc as [H0 H1].
  apply Z.leb_le in H0. apply Z.ltb_lt in H1. by split.
Qed.

Lemma textTEST_table : Forall tableChar textTEST.
Proof. repeat constructor; apply tableChar_check; vm_compute; reflexivity. Qed.

(** Both sample cards have table text with zero padding in all eight
    text fields. *)
Lemma sample_fields (tail : list Z) :
  zeroPaddedFields
    (replicate 10 0 ++ paddedField textTEST ++ replicate 280 0 ++ tail).
Proof.
  unfold zeroPaddedFields, textFieldOffsets.
  constructor.
  - exists textTEST. split; [apply textTEST_table |].
    split; [vm_compute; lia | reflexivity].
  - repeat constructor;
      (exists []; split; [constructor | split; [vm_compute; lia | reflexivity]]).
Qed.

(** C6 (as stated) fails: [testCardTail] has zero-padded table text in
    every text field, but its byte 330, which belongs to no field, is 1
    and comes back as 0. *)
Lemma parse_encode_tail_counterexample :
  ~ (forall payload : list Z,
       length payload = 332%nat ->
       Forall isByte payload ->
       zeroPaddedFields payload ->
       encodeWonderCard (parseWonderCard payload) = payload).
Proof.
  intros Hclaim.
  assert (H : encodeWonderCard (parseWonderCard testCardTail) = testCardTail).
  { apply Hclaim.
    - reflexivity.
    - apply isByte_check. vm_compute. reflexivity.
    - apply sample_fields. }
  apply (f_equal (fun l => l !! 330%nat)) in H.
  vm_compute in H. discriminate H.
Qed.

(** A field is table text under [unicodeToGen3] followed by zero padding
    exactly when it is a run of canonical codes followed by zero
    padding. *)
Lemma zeroPaddedFieldAt_canonical (payload : list Z) (off : Z) :
  zeroPaddedFieldAt payload off <->
  exists codes : list Z,
    Forall canonicalCode codes /\
    (length codes <= Z.to_nat TEXT_FIELD_SIZE)%nat /\
    mid payload off TEXT_FIELD_SIZE =
      codes ++ replicate (Z.to_nat TEXT_FIELD_SIZE - length codes)%nat 0.
Proof.
  unfold zeroPaddedFieldAt, paddedField. split.
  - intros (text & Htext & Hlen & Hmid).
    exists (unicodeToGen3 <$> text). rewrite length_fmap.
    split; [| split; assumption].
    apply Forall_fmap. eapply Forall_impl; [| exact Htext].
    intros c Hc. unfold compose.
    destruct (tableChar_code c Hc) as [Hback _].
    split; [| by rewrite Hback].
    split; [apply unicodeToGen3_range |].
    rewrite Hback. apply Hc.
  - intros (codes & Hcodes & Hlen & Hmid).
    exists (gen3Char <$> codes). rewrite length_fmap.
    split; [| split; [exact Hlen |]].
    + apply Forall_fmap. eapply Forall_impl; [| exact Hcodes].
      intros b [Hb _]. unfold compose. by apply hasTableEntry_char.
    + rewrite Hmid. f_equal.
      rewrite <- list_fmap_compose.
      clear Hmid Hlen. induction Hcodes as [| b codes [_ Hb] _ IH]; [done |].
      cbn [fmap list_fmap compose]. cbn [fmap] in IH. by rewrite Hb, <- IH.
Qed.

(** A table byte need not be canonical.  The text table maps both [0x43]
    and [0xCA] to "P" and the encoder answers "P" with [0xCA]: the
    payload [testCardCode], whose text fields are table bytes followed by
    zero padding and whose tail is zero, comes back with [0xCA] in the
    place of [0x43]. *)
Lemma parse_encode_code_mismatch :
  hasTableEntry 0x43 /\ ~ canonicalCode 0x43 /\
  length testCardCode = 332%nat /\
  testCardCode !! 10%nat = Some 0x43 /\
  encodeWonderCard (parseWonderCard testCardCode) !! 10%nat = Some 0xCA.
Proof.
  split; [| split; [| split; [| split]]].
  - split; [lia | vm_compute; discriminate].
  - intros [_ H]. vm_compute in H. discriminate H.
  - reflexivity.
  - reflexivity.
  - vm_compute. reflexivity.
Qed.

(** Witness for C6: the card with title "TEST" and a zero tail. *)
Lemma parse_encode_round_trip_witness :
  encodeWonderCard (parseWonderCard testCard) = testCard.
Proof.
  apply parse_encode_round_trip.
  - reflexivity.
  - apply isByte_check. vm_compute. reflexivity.
  - apply sample_fields.
  - reflexivity.
  - reflexivity.
Defined.

(** ** LZ77 decompression *)

Lemma byteAt_Some (a : list Z) (i b : Z) :
  byteAt a i = Some b ->
  0 <= i < Z.of_nat (length a) /\ isByte b /\
  exists x, a !! Z.to_nat i = Some x /\ b = u8 x.
Proof.
  unfold byteAt. case_decide as Hi; [| discriminate].
  destruct (a !! Z.to_nat i) as [x |] eqn:E; [| discriminate].
  cbn. intros [= <-]. repeat split; try lia; try apply u8_range.
  by exists x.
Qed.

Lemma byteAt_in_range (a : list Z) (i : Z) :
  0 <= i < Z.of_nat (length a) -> exists b, byteAt a i = Some b.
Proof.
  intros Hi. unfold byteAt. case_decide; [| lia].
  destruct (a !! Z.to_nat i) as [x |] eqn:E;
    [by eexists | apply lookup_ge_None in E; lia].
Qed.

Lemma byteAt_bytes (a : list Z) (i : Z) (x : Z) :
  Forall isByte a -> a !! Z.to_nat i = Some x -> 0 <= i ->
  byteAt a i = Some x.
Proof.
  intros Ha Hx Hi. unfold byteAt.
  pose proof (lookup_lt_Some _ _ _ Hx).
  case_decide; [| lia]. rewrite Hx. cbn.
  rewrite u8_small; [reflexivity |].
  exact (proj1 (Forall_lookup _ _) Ha _ _ Hx).
Qed.

Lemma lzLength_range byte1 : isByte byte1 -> 3 <= lzLength byte1 <= 18.
Proof.
  intros H. unfold lzLength, isByte in *.
  change 15 with (Z.ones 4). rewrite Z.land_ones by lia.
  pose proof (Z.mod_pos_bound (Z.shiftr byte1 4) (2 ^ 4) ltac:(lia)).
  change (2 ^ 4) with 16 in *. lia.
Qed.

Lemma lzDisplacement_range byte1 byte2 :
  isByte byte1 -> isByte byte2 -> 1 <= lzDisplacement byte1 byte2 <= 4096.
Proof.
  intros H1 H2. unfold lzDisplacement, isByte in *.
  assert (H : 0 <= Z.land byte1 15 < 16).
  { change 15 with (Z.ones 4). rewrite Z.land_ones by lia.
    apply Z.mod_pos_bound. lia. }
  pose proof (lor_range (Z.shiftl (Z.land byte1 15) 8) byte2 12 ltac:(lia)) as Hl.
  rewrite Z.shiftl_mul_pow2 in * by lia.
  change (2 ^ 8) with 256 in *. change (2 ^ 12) with 4096 in *.
  specialize (Hl ltac:(lia) ltac:(lia)). lia.
Qed.

(** The copy loop appends byte by byte from [displacement] positions
    back, reading bytes it has itself just written when the ranges
    overlap, and stops at the declared size. *)
Lemma copyLoop_spec (declared copyPos : Z) : forall (n : nat) d j,
  Forall isByte d ->
  0 <= copyPos -> 0 <= j ->
  copyPos + j < Z.of_nat (length d) ->
  Z.of_nat (length d) <= declared ->
  exists d',
    copyLoop d copyPos j n declared = Some d' /\
    Forall isByte d' /\
    Z.of_nat (length d') = Z.min (Z.of_nat (length d) + Z.of_nat n) declared /\
    take (length d) d' = d /\
    forall k : nat,
      (length d <= k < length d')%nat ->
      d' !! k = d' !! (k - (length d - Z.to_nat (copyPos + j)))%nat.
Proof.
  induction n as [| n IH]; intros d j Hd Hc Hj Hsrc Hle.
  - exists d. cbn [copyLoop]. repeat split; try done.
    + lia.
    + by rewrite take_ge.
    + intros k Hk. lia.
  - cbn [copyLoop].
    destruct (Z.leb_spec declared (Z.of_nat (length d))) as [Hfull | Hroom].
    + exists d. repeat split; try done.
      * lia.
      * by rewrite take_ge.
      * intros k Hk. lia.
    + destruct (d !! Z.to_nat (copyPos + j)) as [x |] eqn:Hx;
        [| apply lookup_ge_None in Hx; lia].
      rewrite (byteAt_bytes d _ x Hd Hx) by lia. cbn [mbind option_bind].
      assert (Hd1 : Forall isByte (d ++ [x])).
      { apply Forall_app. split; [exact Hd |].
        constructor; [| constructor].
        exact (proj1 (Forall_lookup _ _) Hd _ _ Hx). }
      destruct (IH (d ++ [x]) (j + 1) Hd1 Hc ltac:(lia)
                   ltac:(rewrite length_app; cbn [length]; lia)
                   ltac:(rewrite length_app; cbn [length]; lia))
        as (d' & Hrun & Hd' & Hlen & Hpre & Hcopy).
      rewrite length_app in Hlen, Hpre, Hcopy. cbn [length] in Hlen, Hpre, Hcopy.
      exists d'. split; [exact Hrun |]. split; [exact Hd' |].
      assert (Hpre0 : take (length d) d' = d).
      { rewrite <- (take_app_length d [x]) at 2. rewrite <- Hpre.
        rewrite take_take. f_equal. lia. }
      repeat split.
      * lia.
      * exact Hpre0.
      * intros k Hk.
        destruct (decide (k = length d)) as [-> | Hne].
        -- assert (Hk1 : d' !! length d = Some x).
           { rewrite <- (lookup_take_lt d' (length d + 1)) by lia.
             rewrite Hpre. rewrite lookup_app_r by lia.
             rewrite Nat.sub_diag. reflexivity. }
           rewrite Hk1.
           replace (length d - (length d - Z.to_nat (copyPos + j)))%nat
             with (Z.to_nat (copyPos + j)) by lia.
           rewrite <- (lookup_take_lt d' (length d)) by lia.
           rewrite Hpre0. by rewrite Hx.
        -- rewrite Hcopy by lia. f_equal. lia.
Qed.

(** A well-formed group is decoded without error, at the positions and
    output sizes the stream grammar gives. *)
Lemma processBlocks_wf (rom : list Z) (declared : Z) :
  Z.of_nat (length rom) < 4294967296 ->
  forall n flags srcPos produced srcPos' produced',
    lzBlocks rom declared n flags srcPos produced srcPos' produced' ->
    forall d,
      Forall isByte d ->
      Z.of_nat (length d) = produced -> produced <= declared ->
      exists d',
        processBlocks rom declared n flags srcPos d = Some (inr (srcPos', d')) /\
        Forall isByte d' /\
        Z.of_nat (length d') = produced' /\
        produced <= produced' <= declared /\
        ((0 < n)%nat -> produced < declared -> produced < produced').
Proof.
  intros Hsize n flags srcPos produced srcPos' produced' Hwf.
  pose proof (romSize_small rom Hsize) as Hrs.
  induction Hwf as
    [ n flags srcPos produced Hfull
    | flags srcPos produced
    | n flags srcPos produced srcPos' produced' b Hroom Hbit Hb Hrest IH
    | n flags srcPos produced srcPos' produced' byte1 byte2
        Hroom Hbit Hb1 Hb2 Hdisp Hrest IH ];
    intros d Hd Hlen Hle.
  - exists d. split.
    + destruct n; cbn [processBlocks]; [reflexivity |].
      destruct (Z.leb_spec declared (Z.of_nat (length d))); [reflexivity | lia].
    + repeat split; try done; lia.
  - exists d. repeat split; try done; lia.
  - destruct (byteAt_Some _ _ _ Hb) as (Hsrc & Hbyte & _).
    assert (Hd1 : Forall isByte (d ++ [b])).
    { apply Forall_app. split; [exact Hd |].
      constructor; [exact Hbyte | constructor]. }
    destruct (IH (d ++ [b]) Hd1
                ltac:(rewrite length_app; cbn [length]; lia) ltac:(lia))
      as (d' & Hrun & Hd' & Hlen' & Hmono & _).
    exists d'. split.
    + cbn [processBlocks].
      destruct (Z.leb_spec declared (Z.of_nat (length d))); [lia |].
      rewrite Hrs.
      destruct (Z.leb_spec (Z.of_nat (length rom)) srcPos); [lia |].
      rewrite Hbit. cbn [Z.eqb negb]. rewrite Hb. cbn [mbind option_bind].
      rewrite (u32_small (srcPos + 1)) by lia. exact Hrun.
    + repeat split; try done; lia.
  - destruct (byteAt_Some _ _ _ Hb1) as (Hsrc1 & Hbyte1 & _).
    destruct (byteAt_Some _ _ _ Hb2) as (Hsrc2 & Hbyte2 & _).
    pose proof (lzLength_range byte1 Hbyte1) as Hl.
    pose proof (lzDisplacement_range byte1 byte2 Hbyte1 Hbyte2) as Hdr.
    destruct (copyLoop_spec declared
                (Z.of_nat (length d) - lzDisplacement byte1 byte2)
                (Z.to_nat (lzLength byte1)) d 0 Hd
                ltac:(lia) ltac:(lia) ltac:(lia) ltac:(lia))
      as (d1 & Hcopy & Hd1 & Hlen1 & _).
    rewrite Z2Nat.id in Hlen1 by lia.
    destruct (IH d1 Hd1 ltac:(lia) ltac:(lia))
      as (d' & Hrun & Hd' & Hlen' & Hmono & _).
    exists d'. split.
    + cbn [processBlocks].
      destruct (Z.leb_spec declared (Z.of_nat (length d))); [lia |].
      rewrite Hrs.
      destruct (Z.leb_spec (Z.of_nat (length rom)) srcPos); [lia |].
      destruct (Z.eqb_spec (Z.land flags 128) 0) as [E | _]; [contradiction |].
      cbn [negb]. rewrite (u32_small (srcPos + 1)) by lia.
      destruct (Z.leb_spec (Z.of_nat (length rom)) (srcPos + 1)); [lia |].
      rewrite Hb1, Hb2. cbn [mbind option_bind]. cbv zeta.
      destruct (Z.ltb_spec (Z.of_nat (length d) - lzDisplacement byte1 byte2) 0);
        [lia |].
      rewrite Hcopy. cbn [mbind option_bind].
      rewrite (u32_small (srcPos + 2)) by lia. exact Hrun.
    + repeat split; try done; lia.
Qed.

(** A well-formed stream is decompressed to exactly the declared size,
    within the fuel the declared size provides. *)
Lemma decompressLoop_wf (rom : list Z) (declared : Z) :
  Z.of_nat (length rom) < 4294967296 ->
  forall srcPos produced,
    lzStream rom declared srcPos produced ->
    forall d fuel,
      Forall isByte d ->
      Z.of_nat (length d) = produced -> produced <= declared ->
      (Z.to_nat (declared - produced) <= fuel)%nat ->
      exists out,
        decompressLoop fuel rom declared srcPos d = Some (LZData out) /\
        Z.of_nat (length out) = declared.
Proof.
  intros Hsize srcPos produced Hwf.
  pose proof (romSize_small rom Hsize) as Hrs.
  induction Hwf as
    [ srcPos produced Hfull
    | srcPos produced flags srcPos' produced' Hroom Hflags Hblocks Hrest IH ];
    intros d fuel Hd Hlen Hle Hfuel.
  - exists d. split; [| lia].
    destruct fuel; cbn [decompressLoop];
      (destruct (Z.ltb_spec (Z.of_nat (length d)) declared); [lia | reflexivity]).
  - destruct (byteAt_Some _ _ _ Hflags) as (Hsrc & _ & _).
    destruct (processBlocks_wf rom declared Hsize _ _ _ _ _ _ Hblocks d Hd Hlen Hle)
      as (d' & Hrun & Hd' & Hlen' & Hmono & Hprogress).
    specialize (Hprogress ltac:(lia) Hroom).
    destruct fuel as [| fuel]; [lia |].
    destruct (IH d' fuel Hd' Hlen' ltac:(lia) ltac:(lia)) as (out & Hout & Hsz).
    exists out. split; [| exact Hsz].
    cbn [decompressLoop].
    destruct (Z.ltb_spec (Z.of_nat (length d)) declared); [| lia].
    rewrite Hrs.
    destruct (Z.leb_spec (Z.of_nat (length rom)) srcPos); [lia |].
    rewrite Hflags. cbn [mbind option_bind].
    rewrite (u32_small (srcPos + 1)) by lia.
    rewrite Hrun. cbn [mbind option_bind]. exact Hout.
Qed.

Lemma readByte_total (rom : list Z) (offset : Z) :
  Z.of_nat (length rom) < 4294967296 -> 0 <= offset ->
  exists b, readByte rom offset = Some b.
Proof.
  intros Hsize Hoff. unfold readByte. rewrite (romSize_small rom Hsize).
  destruct (Z.leb_spec (Z.of_nat (length rom)) offset); [by eexists |].
  apply byteAt_in_range. lia.
Qed.

Lemma lzDeclaredSize_total (rom : list Z) (offset : Z) :
  Z.of_nat (length rom) < 4294967296 ->
  exists declared, lzDeclaredSize rom offset = Some declared.
Proof.
  intros Hsize. unfold lzDeclaredSize.
  destruct (readByte_total rom (u32 (offset + 1)) Hsize) as [b1 ->];
    [apply u32_range |].
  destruct (readByte_total rom (u32 (offset + 2)) Hsize) as [b2 ->];
    [apply u32_range |].
  destruct (readByte_total rom (u32 (offset + 3)) Hsize) as [b3 ->];
    [apply u32_range |].
  cbn [mbind option_bind]. by eexists.
Qed.

(** C4. [decompressLZ77] reports an error unless the header byte is
    [0x10] and the declared size is between 1 and 1 MiB; on every
    well-formed stream it returns exactly as many bytes as the header
    declares; and a back reference is expanded byte by byte from the
    output produced so far, so that it may overlap the bytes it writes. *)
Theorem decompressLZ77_spec (rom : list Z) (offset : Z) :
  Z.of_nat (length rom) < 4294967296 ->
  0 <= offset < 4294967296 ->
  (readByte rom offset <> Some 0x10 \/
   lzDeclaredSize rom offset = Some 0 \/
   (exists declared,
      lzDeclaredSize rom offset = Some declared /\ 0x100000 < declared) ->
   exists msg, decompressLZ77 rom offset = Some (LZError msg)) /\
  (forall declared,
     offset + 4 <= Z.of_nat (length rom) ->
     readByte rom offset = Some 0x10 ->
     lzDeclaredSize rom offset = Some declared ->
     0 < declared <= 0x100000 ->
     lzStream rom declared (offset + 4) 0 ->
     exists out,
       decompressLZ77 rom offset = Some (LZData out) /\
       Z.of_nat (length out) = declared) /\
  (forall (d : list Z) (displacement declared : Z) (len : nat),
     Forall isByte d ->
     1 <= displacement <= Z.of_nat (length d) ->
     Z.of_nat (length d) <= declared ->
     exists d',
       copyLoop d (Z.of_nat (length d) - displacement) 0 len declared = Some d' /\
       Z.of_nat (length d') = Z.min (Z.of_nat (length d) + Z.of_nat len) declared /\
       take (length d) d' = d /\
       forall k : nat,
         (length d <= k < length d')%nat ->
         d' !! k = d' !! (k - Z.to_nat displacement)%nat).
Proof.
  intros Hsize Hoff.
  pose proof (romSize_small rom Hsize) as Hrs.
  destruct (readByte_total rom offset Hsize ltac:(lia)) as [hdr Hhdr].
  destruct (lzDeclaredSize_total rom offset Hsize) as [size Hdecl].
  split; [| split].
  - intros Hbad. unfold decompressLZ77.
    destruct (romSize rom <? u32 (offset + 4)); [by eexists |].
    rewrite Hhdr. cbn [mbind option_bind].
    destruct (Z.eqb_spec hdr 16) as [-> | Hne]; cbn [negb]; [| by eexists].
    rewrite Hdecl. cbn [mbind option_bind].
    destruct Hbad as [Hbad | [Hbad | (declared & Hbad & Hbig)]].
    + contradiction.
    + rewrite Hdecl in Hbad. injection Hbad as ->. by eexists.
    + rewrite Hdecl in Hbad. injection Hbad as ->.
      destruct (Z.ltb_spec 1048576 declared); [| lia].
      rewrite orb_true_r. by eexists.
  - intros declared Hfit Hmagic Hdeclared Hrange Hwf.
    unfold decompressLZ77. rewrite Hrs.
    rewrite (u32_small (offset + 4)) by lia.
    destruct (Z.ltb_spec (Z.of_nat (length rom)) (offset + 4)); [lia |].
    rewrite Hmagic, Hdeclared. cbn [mbind option_bind Z.eqb Pos.eqb negb].
    destruct (Z.eqb_spec declared 0); [lia |].
    destruct (Z.ltb_spec 1048576 declared); [lia |]. cbn [orb].
    apply (decompressLoop_wf rom declared Hsize (offset + 4) 0 Hwf);
      [constructor | reflexivity | lia | lia].
  - intros d displacement declared len Hd Hdisp Hle.
    destruct (copyLoop_spec declared (Z.of_nat (length d) - displacement) len d 0
                Hd ltac:(lia) ltac:(lia) ltac:(lia) Hle)
      as (d' & Hrun & _ & Hlen & Hpre & Hcopy).
    exists d'. repeat split; try done.
    intros k Hk. rewrite Hcopy by exact Hk. f_equal. lia.
Qed.

(** The sample stream is well formed: one literal, then a back reference
    of length 5 at displacement 1. *)
Lemma overlapStream_wf : lzStream overlapStream 6 (0 + 4) 0.
Proof.
  eapply (lzStream_group _ _ _ _ 0x40); [lia | reflexivity | | ].
  - eapply (lzBlocks_literal _ _ _ _ _ _ _ _ 0x41); [lia | reflexivity | reflexivity |].
    eapply (lzBlocks_backref _ _ _ _ _ _ _ _ 0x20 0x00);
      [lia | discriminate | reflexivity | reflexivity | vm_compute; discriminate |].
    apply lzBlocks_full. vm_compute. discriminate.
  - apply lzStream_done. vm_compute. discriminate.
Qed.

(** Witness for C4: [overlapStream], whose back reference overlaps the
    write cursor, decompresses to its six declared bytes. *)
Lemma decompressLZ77_spec_witness :
  exists out,
    decompressLZ77 overlapStream 0 = Some (LZData out) /\
    Z.of_nat (length out) = 6.
Proof.
  apply (proj1 (proj2 (decompressLZ77_spec overlapStream 0
                         ltac:(vm_compute; reflexivity)
                         ltac:(lia)))).
  - vm_compute. discriminate.
  - reflexivity.
  - reflexivity.
  - lia.
  - apply overlapStream_wf.
Defined.

(** The bytes the sample stream expands to. *)
Lemma overlapStream_output :
  decompressLZ77 overlapStream 0 = Some (LZData [0x41; 0x41; 0x41; 0x41; 0x41; 0x41]).
Proof. reflexivity. Qed.

(** ** decompressLZ77 always returns *)

Lemma processBlocks_total (rom : list Z) (declared : Z) :
  Z.of_nat (length rom) < 4294967296 ->
  forall n flags srcPos d,
    0 <= srcPos -> Forall isByte d ->
    exists r,
      processBlocks rom declared n flags srcPos d = Some r /\
      match r with
      | inl _ => True
      | inr (srcPos', d') =>
          0 <= srcPos' /\ Forall isByte d' /\
          (length d <= length d')%nat /\
          ((0 < n)%nat -> Z.of_nat (length d) < declared ->
           (length d < length d')%nat)
      end.
Proof.
  intros Hsize. pose proof (romSize_small rom Hsize) as Hrs.
  induction n as [| n IH]; intros flags srcPos d Hsrc Hd.
  - eexists. split; [reflexivity |]. cbn. repeat split; try done; lia.
  - cbn [processBlocks].
    destruct (Z.leb_spec declared (Z.of_nat (length d))) as [Hfull | Hroom].
    { eexists. split; [reflexivity |]. cbn. repeat split; try done; lia. }
    rewrite Hrs.
    destruct (Z.leb_spec (Z.of_nat (length rom)) srcPos) as [Hend | Hin].
    { eexists. split; [reflexivity | exact I]. }
    destruct (byteAt_in_range rom srcPos ltac:(lia)) as [byte1 Hb1].
    destruct (byteAt_Some _ _ _ Hb1) as (_ & Hbyte1 & _).
    destruct (Z.eqb_spec (Z.land flags 128) 0) as [Hlit | Href]; cbn [negb].
    + rewrite Hb1. cbn [mbind option_bind].
      assert (Hd1 : Forall isByte (d ++ [byte1])).
      { apply Forall_app. split; [exact Hd |].
        constructor; [exact Hbyte1 | constructor]. }
      destruct (IH (u8 (Z.shiftl flags 1)) (u32 (srcPos + 1)) (d ++ [byte1])
                  ltac:(apply u32_range) Hd1) as (r & Hrun & Hr).
      exists r. split; [exact Hrun |].
      destruct r as [msg | [srcPos' d']]; [exact I |].
      rewrite length_app in Hr. cbn [length] in Hr.
      destruct Hr as (H1 & H2 & H3 & _). repeat split; try done; lia.
    + rewrite (u32_small (srcPos + 1)) by lia.
      destruct (Z.leb_spec (Z.of_nat (length rom)) (srcPos + 1)) as [Hend | Hin2].
      { eexists. split; [reflexivity | exact I]. }
      destruct (byteAt_in_range rom (srcPos + 1) ltac:(lia)) as [byte2 Hb2].
      destruct (byteAt_Some _ _ _ Hb2) as (_ & Hbyte2 & _).
      rewrite Hb1, Hb2. cbn [mbind option_bind]. cbv zeta.
      pose proof (lzLength_range byte1 Hbyte1) as Hl.
      pose proof (lzDisplacement_range byte1 byte2 Hbyte1 Hbyte2) as Hdr.
      destruct (Z.ltb_spec (Z.of_nat (length d) - lzDisplacement byte1 byte2) 0)
        as [Hneg | Hpos].
      { eexists. split; [reflexivity | exact I]. }
      destruct (copyLoop_spec declared
                  (Z.of_nat (length d) - lzDisplacement byte1 byte2)
                  (Z.to_nat (lzLength byte1)) d 0 Hd
                  ltac:(lia) ltac:(lia) ltac:(lia) ltac:(lia))
        as (d1 & Hcopy & Hd1 & Hlen1 & _).
      rewrite Z2Nat.id in Hlen1 by lia.
      rewrite Hcopy. cbn [mbind option_bind].
      destruct (IH (u8 (Z.shiftl flags 1)) (u32 (srcPos + 2)) d1
                  ltac:(apply u32_range) Hd1) as (r & Hrun & Hr).
      exists r. split; [exact Hrun |].
      destruct r as [msg | [srcPos' d']]; [exact I |].
      destruct Hr as (H1 & H2 & H3 & _). repeat split; try done; lia.
Qed.

Lemma decompressLoop_total (rom : list Z) (declared : Z) :
  Z.of_nat (length rom) < 4294967296 ->
  forall fuel srcPos d,
    0 <= srcPos -> Forall isByte d ->
    (Z.to_nat (declared - Z.of_nat (length d)) <= fuel)%nat ->
    exists r, decompressLoop fuel rom declared srcPos d = Some r.
Proof.
  intros Hsize. pose proof (romSize_small rom Hsize) as Hrs.
  induction fuel as [| fuel IH]; intros srcPos d Hsrc Hd Hfuel.
  - cbn [decompressLoop].
    destruct (Z.ltb_spec (Z.of_nat (length d)) declared); [lia | by eexists].
  - cbn [decompressLoop].
    destruct (Z.ltb_spec (Z.of_nat (length d)) declared) as [Hroom | Hfull];
      [| by eexists].
    rewrite Hrs.
    destruct (Z.leb_spec (Z.of_nat (length rom)) srcPos) as [Hend | Hin];
      [by eexists |].
    destruct (byteAt_in_range rom srcPos ltac:(lia)) as [flags ->].
    cbn [mbind option_bind].
    destruct (processBlocks_total rom declared Hsize 8 flags (u32 (srcPos + 1)) d
                ltac:(apply u32_range) Hd) as (r & -> & Hr).
    cbn [mbind option_bind].
    destruct r as [msg | [srcPos' d']]; [by eexists |].
    destruct Hr as (H1 & H2 & _ & Hprogress).
    specialize (Hprogress ltac:(lia) Hroom).
    apply IH; [exact H1 | exact H2 | lia].
Qed.

(** For every ROM under 4 GiB and every offset the model yields a
    result: the fuel never runs out and no read leaves the buffers. *)
Lemma decompressLZ77_total (rom : list Z) (offset : Z) :
  Z.of_nat (length rom) < 4294967296 ->
  0 <= offset < 4294967296 ->
  exists r, decompressLZ77 rom offset = Some r.
Proof.
  intros Hsize Hoff. unfold decompressLZ77.
  destruct (romSize rom <? u32 (offset + 4)); [by eexists |].
  destruct (readByte_total rom offset Hsize ltac:(lia)) as [hdr ->].
  cbn [mbind option_bind].
  destruct (negb (hdr =? 16)); [by eexists |].
  destruct (lzDeclaredSize_total rom offset Hsize) as [declared ->].
  cbn [mbind option_bind].
  destruct ((declared =? 0) || (1048576 <? declared)); [by eexists |].
  apply decompressLoop_total;
    [exact Hsize | apply u32_range | constructor | cbn [length]; lia].
Qed.

(** * Further properties *)

(** ** Stores seen through lookups *)

Lemma length_store m i v : length (mem_bytes (store m i v)) = length (mem_bytes m).
Proof. apply length_poke. Qed.

Lemma length_storeFill n : forall m dst v,
  length (mem_bytes (storeFill m dst v n)) = length (mem_bytes m).
Proof.
  induction n as [| n IH]; intros m dst v; [reflexivity |].
  cbn [storeFill]. rewrite IH. apply length_store.
Qed.

Lemma length_storeCopy src n : forall m dst srcOff,
  length (mem_bytes (storeCopy m dst src srcOff n)) = length (mem_bytes m).
Proof.
  induction n as [| n IH]; intros m dst srcOff; [reflexivity |].
  cbn [storeCopy]. rewrite IH. apply length_store.
Qed.

Lemma lookup_store_ne m i v (j : nat) :
  Z.to_nat i <> j -> mem_bytes (store m i v) !! j = mem_bytes m !! j.
Proof. intros Hne. cbn [store mem_bytes]. unfold poke. by apply list_lookup_insert_ne. Qed.

Lemma lookup_store_eq m i v (j : nat) :
  Z.to_nat i = j -> (j < length (mem_bytes m))%nat ->
  mem_bytes (store m i v) !! j = Some v.
Proof.
  intros <- Hi. cbn [store mem_bytes]. unfold poke.
  by apply list_lookup_insert_eq.
Qed.

Lemma lookup_storeFill_outside n : forall m dst v (j : nat),
  0 <= dst ->
  ~ (dst <= Z.of_nat j < dst + Z.of_nat n) ->
  mem_bytes (storeFill m dst v n) !! j = mem_bytes m !! j.
Proof.
  induction n as [| n IH]; intros m dst v j Hdst Hout; [reflexivity |].
  cbn [storeFill]. rewrite IH by lia. apply lookup_store_ne. lia.
Qed.

Lemma lookup_storeFill_inside n : forall m dst v (j : nat),
  0 <= dst ->
  dst <= Z.of_nat j < dst + Z.of_nat n ->
  (j < length (mem_bytes m))%nat ->
  mem_bytes (storeFill m dst v n) !! j = Some v.
Proof.
  induction n as [| n IH]; intros m dst v j Hdst Hin Hlen; [lia |].
  cbn [storeFill].
  destruct (decide (dst = Z.of_nat j)) as [-> | Hne].
  - rewrite lookup_storeFill_outside by lia.
    apply lookup_store_eq; [lia | done].
  - apply IH; [lia | lia | by rewrite length_store].
Qed.

Lemma lookup_storeCopy_outside src n : forall m dst srcOff (j : nat),
  0 <= dst ->
  ~ (dst <= Z.of_nat j < dst + Z.of_nat n) ->
  mem_bytes (storeCopy m dst src srcOff n) !! j = mem_bytes m !! j.
Proof.
  induction n as [| n IH]; intros m dst srcOff j Hdst Hout; [reflexivity |].
  cbn [storeCopy]. rewrite IH by lia. apply lookup_store_ne. lia.
Qed.

Lemma lookup_storeCopy_inside src n : forall m dst srcOff (j : nat),
  0 <= dst ->
  dst <= Z.of_nat j < dst + Z.of_nat n ->
  (j < length (mem_bytes m))%nat ->
  mem_bytes (storeCopy m dst src srcOff n) !! j =
  Some (peek src (srcOff + (Z.of_nat j - dst))).
Proof.
  induction n as [| n IH]; intros m dst srcOff j Hdst Hin Hlen; [lia |].
  cbn [storeCopy].
  destruct (decide (dst = Z.of_nat j)) as [-> | Hne].
  - rewrite lookup_storeCopy_outside by lia.
    rewrite (lookup_store_eq _ _ _ j) by (done || lia). do 2 f_equal. lia.
  - rewrite IH; [| lia | lia | by rewrite length_store].
    do 2 f_equal. lia.
Qed.

(** ** The buffer after an injection *)

Lemma skip_if (c : bool) (m m' : Mem) (j : nat) :
  mem_bytes m' !! j = mem_bytes m !! j ->
  mem_bytes (if c then m' else m) !! j = mem_bytes m !! j.
Proof. by destruct c. Qed.

Lemma length_if (c : bool) (m m' : Mem) :
  length (mem_bytes m') = length (mem_bytes m) ->
  length (mem_bytes (if c then m' else m)) = length (mem_bytes m).
Proof. by destruct c. Qed.

Ltac skip_stores :=
  repeat first
    [ rewrite lookup_store_ne by lia
    | rewrite lookup_storeCopy_outside by lia
    | rewrite lookup_storeFill_outside by lia ].

Ltac store_lengths :=
  repeat first
    [ rewrite length_store
    | rewrite length_storeCopy
    | rewrite length_storeFill ].

Lemma icon_low p2 p3 :
  0 <= p2 < 256 -> 0 <= p3 < 256 ->
  Z.land (u16 (Z.lor p2 (Z.shiftl p3 8))) 255 = p2.
Proof.
  intros H2 H3. rewrite lor_shiftl_add by lia.
  change (2 ^ 8) with 256. rewrite u16_small by lia.
  replace (p2 + p3 * 256) with (p2 + 256 * p3) by lia.
  apply byte0_of. lia.
Qed.

Lemma icon_high p2 p3 :
  0 <= p2 < 256 -> 0 <= p3 < 256 ->
  Z.land (Z.shiftr (u16 (Z.lor p2 (Z.shiftl p3 8))) 8) 255 = p3.
Proof.
  intros H2 H3. rewrite lor_shiftl_add by lia.
  change (2 ^ 8) with 256. rewrite u16_small by lia.
  replace (p2 + p3 * 256) with (p2 + 256 * p3) by lia.
  apply high_byte_of; lia.
Qed.

Lemma injectWonderCard_buffer sf wonderCard scriptData crcTable rawWonderCardData options :
  loadedSave sf ->
  m_detectedGame sf = Emerald \/ m_detectedGame sf = FireRedLeafGreen ->
  0 <= findWonderCardBlock sf ->
  let B := giftBlockOffsetOf sf in
  let payload := injectedPayload wonderCard rawWonderCardData in
  let crc := calculateCRC16 payload crcTable in
  let script := scriptToWriteOf scriptData in
  let scriptCRC := calculateCRC16 script crcTable in
  exists bytes' trace,
    injectWonderCard sf wonderCard scriptData crcTable rawWonderCardData options
      = (Success, setBytes sf bytes', trace) /\
    length bytes' = length (m_bytes sf) /\
    (forall j : nat, ~ injectionWrites sf (Z.of_nat j - B) ->
       bytes' !! j = m_bytes sf !! j) /\
    (bytes' !! Z.to_nat (B + wonderCardOffsetOf sf) = Some (Z.land crc 0xFF) /\
     bytes' !! Z.to_nat (B + wonderCardOffsetOf sf + 1)
       = Some (Z.land (Z.shiftr crc 8) 0xFF) /\
     bytes' !! Z.to_nat (B + wonderCardOffsetOf sf + 2) = Some 0 /\
     bytes' !! Z.to_nat (B + wonderCardOffsetOf sf + 3) = Some 0 /\
     forall k, 0 <= k < 332 ->
       bytes' !! Z.to_nat (B + wonderCardOffsetOf sf + 4 + k) = Some (peek payload k)) /\
    (length (scriptPayloadOf scriptData) = 1000%nat ->
       bytes' !! Z.to_nat (B + scriptOffsetOf sf) = Some (Z.land scriptCRC 0xFF) /\
       bytes' !! Z.to_nat (B + scriptOffsetOf sf + 1)
         = Some (Z.land (Z.shiftr scriptCRC 8) 0xFF) /\
       bytes' !! Z.to_nat (B + scriptOffsetOf sf + 2) = Some 0 /\
       bytes' !! Z.to_nat (B + scriptOffsetOf sf + 3) = Some 0 /\
       forall k, 0 <= k < 1000 ->
         bytes' !! Z.to_nat (B + scriptOffsetOf sf + 4 + k) = Some (peek script k)) /\
    (length (scriptPayloadOf scriptData) <> 1000%nat ->
       forall j : nat,
         scriptOffsetOf sf <= Z.of_nat j - B < scriptOffsetOf sf + 4 + RAMSCRIPT_SIZE ->
         bytes' !! j = m_bytes sf !! j) /\
    (bytes' !! Z.to_nat (B + metadataOffsetOf sf + WCMETADATA_ICON_OFFSET)
       = Some (peek payload 2) /\
     bytes' !! Z.to_nat (B + metadataOffsetOf sf + WCMETADATA_ICON_OFFSET + 1)
       = Some (peek payload 3)) /\
    (forall j : nat,
       metadataOffsetOf sf - 4 <= Z.of_nat j - B < metadataOffsetOf sf + WCMETADATA_SIZE ->
       Z.of_nat j - B <> metadataOffsetOf sf + WCMETADATA_ICON_OFFSET ->
       Z.of_nat j - B <> metadataOffsetOf sf + WCMETADATA_ICON_OFFSET + 1 ->
       bytes' !! j = if clearMetadata options then Some 0 else m_bytes sf !! j) /\
    (forall j : nat,
       trainerIdsOffsetOf sf <= Z.of_nat j - B < trainerIdsOffsetOf sf + TRAINERIDS_SIZE ->
       bytes' !! j = if clearTrainerIds options then Some 0 else m_bytes sf !! j) /\
    le16 (advance bytes' B) CHECKSUM_OFFSET =
      computeSectionChecksum (advance bytes' B) (getSection4ChecksumLength sf).
Proof.
  intros Hloaded Hgame Hblock B payload crc script scriptCRC.
  pose proof (loadedSave_isLoaded sf Hloaded) as Hl.
  destruct Hloaded as [Hlen Hslot].
  assert (Hu : m_detectedGame sf <> Unknown) by (destruct Hgame; congruence).
  assert (Hr : m_detectedGame sf <> RubySapphire) by (destruct Hgame; congruence).
  pose proof (findWonderCardBlock_range sf Hblock) as Hrange.
  unfold injectWonderCard. rewrite Hl. cbn [negb].
  destruct (decide (m_detectedGame sf = Unknown)); [contradiction |].
  destruct (decide (m_detectedGame sf = RubySapphire)); [contradiction |].
  cbv zeta.
  destruct (Z.ltb_spec (findWonderCardBlock sf) 0) as [Hneg | _]; [lia |].
  fold (giftBlockOffsetOf sf). fold B.
  fold (injectedPayload wonderCard rawWonderCardData). fold payload. fold crc.
  fold (scriptPayloadOf scriptData). fold (scriptToWriteOf scriptData).
  fold script. fold scriptCRC.
  fold (wonderCardOffsetOf sf) (scriptOffsetOf sf) (metadataOffsetOf sf)
       (trainerIdsOffsetOf sf).
  set (m0 := mkMem (m_bytes sf) []).
  set (m1a := if clearMetadata options then _ else m0).
  set (m1 := if clearTrainerIds options then _ else m1a).
  set (m2 := storeCopy _ _ payload 0 332).
  set (m3 := if Z.of_nat (length (scriptPayloadOf scriptData)) =? 1000 then _ else m2).
  set (m4 := store (store m3 _ _) _ _).
  assert (HB : 0 <= B /\ B + 4096 <= Z.of_nat (length (m_bytes sf))).
  { subst B. unfold giftBlockOffsetOf, SECTION_SIZE, SECTIONS_PER_SAVE,
      EXPECTED_FILE_SIZE in *. lia. }
  assert (Hoff :
    (wonderCardOffsetOf sf = 0x56C /\ scriptOffsetOf sf = 0x8A8 /\
     metadataOffsetOf sf = 0x6C0 /\ trainerIdsOffsetOf sf = 0x868) \/
    (wonderCardOffsetOf sf = 0x460 /\ scriptOffsetOf sf = 0x79C /\
     metadataOffsetOf sf = 0x5B4 /\ trainerIdsOffsetOf sf = 0x75C)).
  { unfold wonderCardOffsetOf, scriptOffsetOf, metadataOffsetOf, trainerIdsOffsetOf.
    destruct Hgame as [-> | ->]; [left | right]; repeat split; reflexivity. }
  assert (Hoffs :
    0 <= wonderCardOffsetOf sf /\ wonderCardOffsetOf sf + 336 <= 4084 /\
    0 <= scriptOffsetOf sf /\ scriptOffsetOf sf + 1004 <= 4084 /\
    4 <= metadataOffsetOf sf /\ metadataOffsetOf sf + 32 <= 4084 /\
    0 <= trainerIdsOffsetOf sf /\ trainerIdsOffsetOf sf + 40 <= 4084)
    by (destruct Hoff as [(? & ? & ? & ?) | (? & ? & ? & ?)]; lia).
  assert (Hlen4 : 0 <= getSection4ChecksumLength sf <= CHECKSUM_OFFSET).
  { unfold getSection4ChecksumLength. case_decide; vm_compute; split; discriminate. }
  assert (Hl0 : length (mem_bytes m0) = length (m_bytes sf)) by reflexivity.
  assert (Hl1a : length (mem_bytes m1a) = length (m_bytes sf)).
  { subst m1a. apply length_if. by store_lengths. }
  assert (Hl1 : length (mem_bytes m1) = length (m_bytes sf)).
  { subst m1. rewrite length_if; [done |]. by store_lengths. }
  assert (Hl2 : length (mem_bytes m2) = length (m_bytes sf)).
  { subst m2. by store_lengths. }
  assert (Hl3 : length (mem_bytes m3) = length (m_bytes sf)).
  { subst m3. rewrite length_if; [done |]. by store_lengths. }
  assert (Hl4 : length (mem_bytes m4) = length (m_bytes sf)).
  { subst m4. by store_lengths. }
  assert (Hbase : 0 <= B /\ B + SECTION_SIZE <= Z.of_nat (length (mem_bytes m4))).
  { rewrite Hl4. unfold SECTION_SIZE. lia. }
  destruct (store_checksum_tail m4 B (getSection4ChecksumLength sf)
              (proj1 Hbase) (proj2 Hbase) Hlen4) as (Hsame & Hstored & _).
  cbv zeta in Hsame, Hstored.
  set (m5 := store (store m4 _ _) _ _) in *.
  exists (mem_bytes m5), (mem_stores m5).
  split; [reflexivity |].
  assert (Hl5 : length (mem_bytes m5) = length (m_bytes sf)).
  { subst m5. by store_lengths. }
  split; [exact Hl5 |].
  clear Hbase Hlen4.
  unfold injectionWrites.
  unfold WCMETADATA_SIZE, TRAINERIDS_SIZE, RAMSCRIPT_SIZE, WCMETADATA_ICON_OFFSET,
    WONDERCARD_TOTAL_SIZE in *.
  assert (Hck : CHECKSUM_OFFSET = 0xFF6) by reflexivity.
  pose proof (peek_range payload 2) as Hp2.
  pose proof (peek_range payload 3) as Hp3.
  (* what the last two stages leave of an index outside their stores *)
  assert (H54 : forall j : nat,
            Z.of_nat j - B <> CHECKSUM_OFFSET -> Z.of_nat j - B <> CHECKSUM_OFFSET + 1 ->
            mem_bytes m5 !! j = mem_bytes m4 !! j).
  { intros j H1 H2. subst m5. by skip_stores. }
  assert (H43 : forall j : nat,
            Z.of_nat j - B <> metadataOffsetOf sf + 6 ->
            Z.of_nat j - B <> metadataOffsetOf sf + 6 + 1 ->
            mem_bytes m4 !! j = mem_bytes m3 !! j).
  { intros j H1 H2. subst m4. by skip_stores. }
  assert (H32 : forall j : nat,
            ~ (scriptOffsetOf sf <= Z.of_nat j - B < scriptOffsetOf sf + 4 + 1000) ->
            mem_bytes m3 !! j = mem_bytes m2 !! j).
  { intros j H1. subst m3. apply skip_if. by skip_stores. }
  assert (H21 : forall j : nat,
            ~ (wonderCardOffsetOf sf <= Z.of_nat j - B < wonderCardOffsetOf sf + 336) ->
            mem_bytes m2 !! j = mem_bytes m1 !! j).
  { intros j H1. subst m2. by skip_stores. }
  assert (H1a : forall j : nat,
            ~ (trainerIdsOffsetOf sf <= Z.of_nat j - B < trainerIdsOffsetOf sf + 40) ->
            mem_bytes m1 !! j = mem_bytes m1a !! j).
  { intros j H1. subst m1. apply skip_if. by skip_stores. }
  assert (Ha0 : forall j : nat,
            ~ (metadataOffsetOf sf - 4 <= Z.of_nat j - B < metadataOffsetOf sf + 32) ->
            mem_bytes m1a !! j = m_bytes sf !! j).
  { intros j H1. subst m1a. rewrite skip_if; [done |]. by skip_stores. }
  split.
  { intros j Hout. rewrite H54, H43, H32, H21, H1a, Ha0; [done | ..];
      destruct Hoff as [(? & ? & ? & ?) | (? & ? & ? & ?)]; lia. }
  split.
  { (* the card *)
    assert (Hcard : forall j : nat,
              wonderCardOffsetOf sf <= Z.of_nat j - B < wonderCardOffsetOf sf + 336 ->
              mem_bytes m5 !! j = mem_bytes m2 !! j).
    { intros j Hj. rewrite H54, H43, H32; [done | ..];
        destruct Hoff as [(? & ? & ? & ?) | (? & ? & ? & ?)]; lia. }
    assert (Hw : 0 <= wonderCardOffsetOf sf /\ wonderCardOffsetOf sf + 336 <= 4096)
      by (destruct Hoff as [(? & ? & ? & ?) | (? & ? & ? & ?)]; lia).
    repeat split.
    - rewrite Hcard by lia. subst m2. skip_stores.
      apply lookup_store_eq; [done | lia].
    - rewrite Hcard by lia. subst m2. skip_stores.
      apply lookup_store_eq; [done | store_lengths; lia].
    - rewrite Hcard by lia. subst m2. skip_stores.
      apply lookup_store_eq; [done | store_lengths; lia].
    - rewrite Hcard by lia. subst m2. skip_stores.
      apply lookup_store_eq; [done | store_lengths; lia].
    - intros k Hk. rewrite Hcard by lia. subst m2.
      rewrite lookup_storeCopy_inside; [| lia | lia | store_lengths; lia].
      do 2 f_equal. lia. }
  split.
  { (* the script, when one is written *)
    intros Hscript.
    assert (Hs : 0 <= scriptOffsetOf sf /\ scriptOffsetOf sf + 1004 <= 4084)
      by (destruct Hoff as [(? & ? & ? & ?) | (? & ? & ? & ?)]; lia).
    assert (Hsc : forall j : nat,
              scriptOffsetOf sf <= Z.of_nat j - B < scriptOffsetOf sf + 1004 ->
              mem_bytes m5 !! j = mem_bytes m3 !! j).
    { intros j Hj. rewrite H54, H43; [done | ..];
        destruct Hoff as [(? & ? & ? & ?) | (? & ? & ? & ?)]; lia. }
    assert (Htest : (Z.of_nat (length (scriptPayloadOf scriptData)) =? 1000) = true)
      by (apply Z.eqb_eq; lia).
    subst m3. rewrite Htest in Hsc.
    repeat split.
    - rewrite Hsc by lia. skip_stores.
      apply lookup_store_eq; [done | lia].
    - rewrite Hsc by lia. skip_stores.
      apply lookup_store_eq; [done | store_lengths; lia].
    - rewrite Hsc by lia. skip_stores.
      apply lookup_store_eq; [done | store_lengths; lia].
    - rewrite Hsc by lia. skip_stores.
      apply lookup_store_eq; [done | store_lengths; lia].
    - intros k Hk. rewrite Hsc by lia.
      rewrite lookup_storeCopy_inside; [| lia | lia | store_lengths; lia].
      do 2 f_equal. lia. }
  split.
  { (* no script *)
    intros Hscript j Hj.
    assert (Htest : (Z.of_nat (length (scriptPayloadOf scriptData)) =? 1000) = false)
      by (apply Z.eqb_neq; lia).
    rewrite H54, H43; [| destruct Hoff as [(? & ? & ? & ?) | (? & ? & ? & ?)]; lia ..].
    subst m3. rewrite Htest.
    rewrite H21, H1a, Ha0; [done | ..];
      destruct Hoff as [(? & ? & ? & ?) | (? & ? & ? & ?)]; lia. }
  split.
  { (* the icon species *)
    assert (Hmo : 4 <= metadataOffsetOf sf /\ metadataOffsetOf sf + 32 <= 4084)
      by (destruct Hoff as [(? & ? & ? & ?) | (? & ? & ? & ?)]; lia).
    split.
    - rewrite H54 by lia. subst m4. skip_stores.
      rewrite (lookup_store_eq _ _ _ _) ; [| lia | lia].
      f_equal. by apply icon_low.
    - rewrite H54 by lia. subst m4.
      rewrite (lookup_store_eq _ _ _ _) ; [| lia | store_lengths; lia].
      f_equal. by apply icon_high. }
  split.
  { (* the metadata *)
    intros j Hj Hne1 Hne2.
    rewrite H54, H43, H32, H21, H1a;
      [| destruct Hoff as [(? & ? & ? & ?) | (? & ? & ? & ?)]; lia ..].
    subst m1a. destruct (clearMetadata options); [| done].
    destruct (decide (Z.of_nat j - B < metadataOffsetOf sf)).
    + apply lookup_storeFill_inside; [lia | lia | store_lengths; lia].
    + rewrite lookup_storeFill_outside by lia.
      apply lookup_storeFill_inside; [lia | lia | lia]. }
  split.
  { (* the trainer ids *)
    intros j Hj.
    rewrite H54, H43, H32, H21;
      [| destruct Hoff as [(? & ? & ? & ?) | (? & ? & ? & ?)]; lia ..].
    subst m1. destruct (clearTrainerIds options).
    + apply lookup_storeFill_inside; [lia | lia | lia].
    + apply Ha0. destruct Hoff as [(? & ? & ? & ?) | (? & ? & ? & ?)]; lia. }
  rewrite Hsame. exact Hstored.
Qed.

(** ** Reading back what was written *)

Lemma peek_of_lookup (d1 d2 : list Z) (i : Z) :
  d1 !! Z.to_nat i = d2 !! Z.to_nat i -> peek d1 i = peek d2 i.
Proof. unfold peek. by intros ->. Qed.

Lemma peek_of_lookup_Some (d : list Z) (i v : Z) :
  d !! Z.to_nat i = Some v -> peek d i = u8 v.
Proof. unfold peek. by intros ->. Qed.

Lemma peek_fmap_u8 (d : list Z) (i : Z) : peek (u8 <$> d) i = peek d i.
Proof.
  unfold peek. rewrite list_lookup_fmap.
  destruct (d !! Z.to_nat i) as [x |]; cbn; [| reflexivity].
  unfold u8. apply Z.mod_mod. lia.
Qed.

Lemma copyOf_eq (bytes : list Z) (off n : Z) (l : list Z) :
  0 <= off -> length l = Z.to_nat n ->
  (forall k : nat, (k < length l)%nat -> bytes !! (Z.to_nat off + k)%nat = l !! k) ->
  copyOf (advance bytes off) n = l.
Proof.
  intros Hoff Hlen Hsame. unfold copyOf, advance.
  apply list_eq. intros k.
  destruct (decide (k < length l)%nat) as [Hk | Hk].
  - rewrite lookup_take_lt by lia. rewrite lookup_drop. by apply Hsame.
  - rewrite lookup_take_ge by lia. symmetry. apply lookup_ge_None. lia.
Qed.

Lemma length_copyOf (bytes : list Z) (off n : Z) :
  0 <= off -> 0 <= n -> off + n <= Z.of_nat (length bytes) ->
  length (copyOf (advance bytes off) n) = Z.to_nat n.
Proof.
  intros Hoff Hn Hfit. unfold copyOf, advance.
  rewrite length_take, length_drop. lia.
Qed.

Lemma calculateCRC16_range data crcTable : 0 <= calculateCRC16 data crcTable < 65536.
Proof.
  unfold calculateCRC16.
  destruct (negb (Z.of_nat (length crcTable) =? 512)); [lia | apply u16_range].
Qed.

(** ** Section lookup after a change of the buffer *)

Lemma findWonderCardBlock_setBytes sf bytes :
  loadedSave sf ->
  length bytes = length (m_bytes sf) ->
  (forall pos, 0 <= pos < SECTIONS_PER_SAVE ->
     peek bytes (m_activeSaveSlot sf * (SECTION_SIZE * SECTIONS_PER_SAVE)
                 + pos * SECTION_SIZE + SECTION_ID_OFFSET) =
     peek (m_bytes sf) (m_activeSaveSlot sf * (SECTION_SIZE * SECTIONS_PER_SAVE)
                        + pos * SECTION_SIZE + SECTION_ID_OFFSET)) ->
  findWonderCardBlock (setBytes sf bytes) = findWonderCardBlock sf.
Proof.
  intros Hloaded Hlen Hsame.
  pose proof (loadedSave_isLoaded sf Hloaded) as Hl.
  assert (Hl' : isLoaded bytes = true).
  { apply isLoaded_length. rewrite Hlen. apply Hloaded. }
  unfold findWonderCardBlock. cbn [setBytes m_bytes m_activeSaveSlot].
  rewrite Hl, Hl'. cbn [negb orb].
  destruct (m_activeSaveSlot sf <? 0); [reflexivity |]. cbv zeta.
  apply firstPosition_ext. intros pos Hpos. apply elem_of_seqZ in Hpos.
  rewrite Hsame by lia. reflexivity.
Qed.

Lemma loadedSave_setBytes sf bytes :
  loadedSave sf -> length bytes = length (m_bytes sf) -> loadedSave (setBytes sf bytes).
Proof.
  intros [Hlen Hslot] Hl. split; cbn [setBytes m_bytes m_activeSaveSlot]; [| done].
  by rewrite Hl.
Qed.

(** Injection leaves the section ids alone. *)
Lemma injectionWrites_inside sf o :
  m_detectedGame sf = Emerald \/ m_detectedGame sf = FireRedLeafGreen ->
  injectionWrites sf o ->
  0x460 <= o < 0xFF8 /\ ~ (0xC94 <= o < CHECKSUM_OFFSET).
Proof.
  intros Hgame. unfold injectionWrites, metadataOffsetOf, trainerIdsOffsetOf,
    wonderCardOffsetOf, scriptOffsetOf.
  unfold WCMETADATA_SIZE, TRAINERIDS_SIZE, WONDERCARD_TOTAL_SIZE, RAMSCRIPT_SIZE,
    CHECKSUM_OFFSET.
  destruct Hgame as [-> | ->].
  - change (bool_decide (Emerald = Emerald)) with true. cbv iota.
    unfold WCMETADATA_OFFSET_EMERALD, TRAINERIDS_OFFSET_EMERALD,
      WONDERCARD_OFFSET_EMERALD, GMSCRIPT_OFFSET_EMERALD. lia.
  - change (bool_decide (FireRedLeafGreen = Emerald)) with false. cbv iota.
    unfold WCMETADATA_OFFSET_FRLG, TRAINERIDS_OFFSET_FRLG,
      WONDERCARD_OFFSET_FRLG, GMSCRIPT_OFFSET_FRLG. lia.
Qed.

Lemma injectionWrites_offsets sf o :
  m_detectedGame sf = Emerald \/ m_detectedGame sf = FireRedLeafGreen ->
  injectionWrites sf o ->
  0x460 <= o < 0xC94 \/ o = CHECKSUM_OFFSET \/ o = CHECKSUM_OFFSET + 1.
Proof.
  intros Hgame Hw. apply (injectionWrites_inside sf o Hgame) in Hw.
  unfold CHECKSUM_OFFSET in *. lia.
Qed.

Lemma length_encodeWonderCard d : length (encodeWonderCard d) = 332%nat.
Proof.
  unfold encodeWonderCard. cbv zeta.
  repeat rewrite length_encodeText. repeat rewrite length_poke.
  by rewrite length_replicate.
Qed.

Lemma length_injectedPayload wonderCard raw :
  length (injectedPayload wonderCard raw) = 332%nat.
Proof.
  unfold injectedPayload.
  destruct (negb (bool_decide (raw = []))); [| apply length_encodeWonderCard].
  destruct (Z.eqb_spec (Z.of_nat (length raw)) 336) as [H336 | _].
  - unfold mid. rewrite length_take, length_drop. lia.
  - destruct (Z.eqb_spec (Z.of_nat (length raw)) 332) as [H332 | _]; [lia |].
    apply length_encodeWonderCard.
Qed.

Lemma decodeTextLoop_ext d1 d2 : forall n i result,
  0 <= i ->
  (forall k, 0 <= k -> peek d1 k = peek d2 k) ->
  decodeTextLoop d1 i n result = decodeTextLoop d2 i n result.
Proof.
  induction n as [| n IH]; intros i result Hi Hsame; [reflexivity |].
  cbn [decodeTextLoop]. rewrite Hsame by lia.
  destruct (peek d2 i =? 255); [reflexivity |].
  apply IH; [lia | done].
Qed.

Lemma decodeText_ext d1 d2 n :
  (forall k, 0 <= k -> peek d1 k = peek d2 k) ->
  decodeText d1 n = decodeText d2 n.
Proof. intros H. unfold decodeText. by apply decodeTextLoop_ext. Qed.

Lemma parseWonderCard_ext (p q : list Z) :
  length p = length q ->
  (forall k, 0 <= k -> peek p k = peek q k) ->
  parseWonderCard p = parseWonderCard q.
Proof.
  intros Hlen Hsame. unfold parseWonderCard. rewrite Hlen.
  destruct (Z.of_nat (length q) <? WONDERCARD_PAYLOAD_SIZE); [reflexivity |].
  cbv zeta.
  assert (Hgen : forall bp bq : list Z,
            (forall k, 0 <= k -> peek bp k = peek bq k) ->
            forall off, 0 <= off ->
              decodeText (advance bp off) TEXT_FIELD_SIZE =
              decodeText (advance bq off) TEXT_FIELD_SIZE).
  { intros bp bq Hb off Hoff. apply decodeText_ext. intros k Hk.
    rewrite !peek_advance by lia. apply Hb. lia. }
  destruct (Z.of_nat (length q) =? WONDERCARD_TOTAL_SIZE).
  - assert (Hb : forall k, 0 <= k ->
              peek (advance p WONDERCARD_HEADER_SIZE) k =
              peek (advance q WONDERCARD_HEADER_SIZE) k).
    { intros k Hk. rewrite !peek_advance by (unfold WONDERCARD_HEADER_SIZE; lia).
      apply Hsame. unfold WONDERCARD_HEADER_SIZE. lia. }
    unfold le16, le32.
    rewrite !Hb by (vm_compute; discriminate).
    rewrite !(Hgen _ _ Hb) by (vm_compute; discriminate).
    reflexivity.
  - unfold le16, le32.
    rewrite !Hsame by (vm_compute; discriminate).
    rewrite !(Hgen _ _ Hsame) by (vm_compute; discriminate).
    reflexivity.
Qed.

Lemma parseWonderCard_u8 (p : list Z) :
  parseWonderCard (u8 <$> p) = parseWonderCard p.
Proof.
  apply parseWonderCard_ext; [apply length_fmap |].
  intros k _. apply peek_fmap_u8.
Qed.

Lemma lookup_u8_payload (payload : list Z) (k : nat) :
  (k < length payload)%nat ->
  (u8 <$> payload) !! k = Some (peek payload (Z.of_nat k)).
Proof.
  intros Hk. rewrite list_lookup_fmap. unfold peek. rewrite Nat2Z.id.
  destruct (lookup_lt_is_Some_2 payload k Hk) as [x ->]. reflexivity.
Qed.

Lemma setBytes_slot sf b : m_activeSaveSlot (setBytes sf b) = m_activeSaveSlot sf.
Proof. reflexivity. Qed.

Lemma setBytes_game sf b : m_detectedGame (setBytes sf b) = m_detectedGame sf.
Proof. reflexivity. Qed.

Lemma setBytes_bytes sf b : m_bytes (setBytes sf b) = b.
Proof. reflexivity. Qed.

Lemma injected_card_readback (sf : SaveFile) (wonderCard : WonderCardData)
    (scriptData crcTable rawWonderCardData : list Z) (options : InjectionOptions) :
  loadedSave sf ->
  m_detectedGame sf = Emerald \/ m_detectedGame sf = FireRedLeafGreen ->
  0 <= findWonderCardBlock sf ->
  let payload := injectedPayload wonderCard rawWonderCardData in
  let crc := calculateCRC16 payload crcTable in
  exists sf' trace,
    injectWonderCard sf wonderCard scriptData crcTable rawWonderCardData options
      = (Success, sf', trace) /\
    extractWonderCardRaw sf' =
      ([Z.land crc 0xFF; Z.land (Z.shiftr crc 8) 0xFF; 0; 0] ++ (u8 <$> payload),
       None) /\
    extractWonderCard sf' = inr (parseWonderCard payload) /\
    hasWonderCard sf' = negb (crc =? 0).
Proof.
  intros Hloaded Hgame Hblock payload crc.
  destruct (injectWonderCard_buffer sf wonderCard scriptData crcTable
              rawWonderCardData options Hloaded Hgame Hblock)
    as (bytes' & trace & Heq & Hlen & Hframe & Hcard & _).
  cbv zeta in Hcard. fold payload crc in Hcard.
  destruct Hcard as (Hc0 & Hc1 & Hc2 & Hc3 & Hpay).
  exists (setBytes sf bytes'), trace. split; [exact Heq |].
  pose proof (loadedSave_setBytes sf bytes' Hloaded Hlen) as Hloaded'.
  pose proof (loadedSave_isLoaded _ Hloaded') as Hl'.
  pose proof (findWonderCardBlock_range sf Hblock) as Hrange.
  pose proof (length_injectedPayload wonderCard rawWonderCardData) as Hlp.
  fold payload in Hlp.
  assert (Hu : m_detectedGame sf <> Unknown) by (destruct Hgame; congruence).
  assert (Hr : m_detectedGame sf <> RubySapphire) by (destruct Hgame; congruence).
  assert (Hfind : findWonderCardBlock (setBytes sf bytes') = findWonderCardBlock sf).
  { apply findWonderCardBlock_setBytes; [done | done |].
    intros pos Hpos. apply peek_of_lookup. apply Hframe.
    intros Hw. apply (injectionWrites_inside sf _ Hgame) in Hw.
    destruct Hloaded as [_ Hslot].
    unfold giftBlockOffsetOf, SECTION_SIZE, SECTIONS_PER_SAVE, SECTION_ID_OFFSET,
      CHECKSUM_OFFSET in *. lia. }
  assert (HB : 0 <= giftBlockOffsetOf sf /\
               giftBlockOffsetOf sf + 4096 <= Z.of_nat (length bytes')).
  { rewrite Hlen. destruct Hloaded as [Hl Hslot].
    unfold giftBlockOffsetOf, SECTION_SIZE, SECTIONS_PER_SAVE,
      EXPECTED_FILE_SIZE in *. lia. }
  assert (Hw : 0 <= wonderCardOffsetOf sf /\ wonderCardOffsetOf sf + 336 <= 4096).
  { unfold wonderCardOffsetOf. destruct (bool_decide _); vm_compute; split; discriminate. }
  split; [| split].
  - unfold extractWonderCardRaw.
    rewrite Hl'. cbn [negb]. rewrite !setBytes_game.
    destruct (decide (m_detectedGame sf = Unknown)); [contradiction |].
    destruct (decide (m_detectedGame sf = RubySapphire)); [contradiction |].
    cbv zeta. rewrite Hfind.
    destruct (Z.ltb_spec (findWonderCardBlock sf) 0) as [Hneg | _]; [lia |].
    rewrite !setBytes_slot, !setBytes_bytes.
    fold (giftBlockOffsetOf sf) (wonderCardOffsetOf sf).
    f_equal. apply copyOf_eq.
    + lia.
    + cbn [length app]. rewrite length_fmap, Hlp. reflexivity.
    + intros k Hk. cbn [length app] in Hk. rewrite length_fmap, Hlp in Hk.
      destruct k as [| [| [| [| k]]]].
      * rewrite Nat.add_0_r. exact Hc0.
      * replace (Z.to_nat (giftBlockOffsetOf sf + wonderCardOffsetOf sf) + 1)%nat
          with (Z.to_nat (giftBlockOffsetOf sf + wonderCardOffsetOf sf + 1)) by lia.
        exact Hc1.
      * replace (Z.to_nat (giftBlockOffsetOf sf + wonderCardOffsetOf sf) + 2)%nat
          with (Z.to_nat (giftBlockOffsetOf sf + wonderCardOffsetOf sf + 2)) by lia.
        exact Hc2.
      * replace (Z.to_nat (giftBlockOffsetOf sf + wonderCardOffsetOf sf) + 3)%nat
          with (Z.to_nat (giftBlockOffsetOf sf + wonderCardOffsetOf sf + 3)) by lia.
        exact Hc3.
      * replace (Z.to_nat (giftBlockOffsetOf sf + wonderCardOffsetOf sf)
                 + S (S (S (S k))))%nat
          with (Z.to_nat (giftBlockOffsetOf sf + wonderCardOffsetOf sf + 4
                          + Z.of_nat k)) by lia.
        rewrite Hpay by lia. cbn [app lookup list_lookup].
        symmetry. apply lookup_u8_payload. lia.
  - unfold extractWonderCard.
    rewrite Hl'. cbn [negb]. rewrite !setBytes_game.
    destruct (decide (m_detectedGame sf = Unknown)); [contradiction |].
    destruct (decide (m_detectedGame sf = RubySapphire)); [contradiction |].
    cbv zeta. rewrite Hfind.
    destruct (Z.ltb_spec (findWonderCardBlock sf) 0) as [Hneg | _]; [lia |].
    rewrite !setBytes_slot, !setBytes_bytes.
    fold (giftBlockOffsetOf sf) (wonderCardOffsetOf sf).
    f_equal. rewrite <- (parseWonderCard_u8 payload). f_equal.
    apply copyOf_eq.
    + lia.
    + rewrite length_fmap, Hlp. reflexivity.
    + intros k Hk. rewrite length_fmap, Hlp in Hk.
      replace (Z.to_nat (giftBlockOffsetOf sf + wonderCardOffsetOf sf + 4) + k)%nat
        with (Z.to_nat (giftBlockOffsetOf sf + wonderCardOffsetOf sf + 4
                        + Z.of_nat k)) by lia.
      rewrite Hpay by lia. symmetry. apply lookup_u8_payload. lia.
  - unfold hasWonderCard.
    rewrite Hl'. cbn [negb]. cbv zeta.
    rewrite Hfind.
    destruct (Z.ltb_spec (findWonderCardBlock sf) 0) as [Hneg | _]; [lia |].
    rewrite !setBytes_slot, !setBytes_bytes, !setBytes_game.
    fold (giftBlockOffsetOf sf) (wonderCardOffsetOf sf).
    rewrite (peek_of_lookup_Some _ _ _ Hc0), (peek_of_lookup_Some _ _ _ Hc1).
    pose proof (calculateCRC16_range payload crcTable) as Hcrc. fold crc in Hcrc.
    pose proof (split16 crc Hcrc) as Hsplit.
    rewrite lor_shiftl_add by (first [lia | apply u8_range]).
    change (2 ^ 8) with 256.
    replace (u8 (Z.land crc 255) + u8 (Z.land (Z.shiftr crc 8) 255) * 256) with crc by lia.
    rewrite u16_small by lia. reflexivity.
Qed.

(** ** The sample objects *)

Lemma sampleSaveFile_game :
  m_detectedGame sampleSaveFile = Emerald \/
  m_detectedGame sampleSaveFile = FireRedLeafGreen.
Proof. left. reflexivity. Qed.

(** A slot whose data bytes and stored checksums are all zero is valid. *)
Lemma zero_data_slot_valid (bytes : list Z) (slotIndex : Z) :
  0 <= slotIndex ->
  (forall section o, 0 <= section < 14 ->
     0 <= o < 0xF80 \/ o = 0xFF6 \/ o = 0xFF7 ->
     peek bytes (slotIndex * 57344 + section * 4096 + o) = 0) ->
  valid (analyzeSaveSlot bytes slotIndex) = true.
Proof.
  intros Hslot Hzero. apply analyzeSaveSlot_valid.
  intros section Hs. unfold SECTIONS_PER_SAVE in Hs.
  unfold sectionChecksumMatches, sectionDataOf.
  unfold SECTION_SIZE, SECTIONS_PER_SAVE, CHECKSUM_DATA_LENGTH_DEFAULT.
  assert (Hz : forall o, 0 <= o < 0xF80 \/ o = 0xFF6 \/ o = 0xFF7 ->
            peek bytes (slotIndex * (4096 * 14) + section * 4096 + o) = 0).
  { intros o Ho. replace (slotIndex * (4096 * 14)) with (slotIndex * 57344) by lia.
    by apply Hzero. }
  rewrite le16_value, !peek_advance by (unfold CHECKSUM_OFFSET; lia).
  unfold CHECKSUM_OFFSET. rewrite !Hz by lia.
  change (0 + 256 * 0) with 0.
  apply computeSectionChecksum_zero; [lia |].
  intros i Hi. rewrite peek_advance by lia. apply Hz. lia.
Qed.

Lemma valid_mk (bytes : list Z) game ok slot :
  valid (analyzeSaveSlot bytes slot) = true ->
  valid (analyzeSaveSlot (m_bytes (mkSaveFile bytes game ok slot))
                         (m_activeSaveSlot (mkSaveFile bytes game ok slot))) = true.
Proof. intros H. exact H. Qed.

Lemma sampleSaveFile_valid :
  valid (analyzeSaveSlot (m_bytes sampleSaveFile)
                         (m_activeSaveSlot sampleSaveFile)) = true.
Proof.
  unfold sampleSaveFile. apply valid_mk.
  apply zero_data_slot_valid; [lia |].
  intros section o Hs Ho. apply peek_sampleSave; lia.
Qed.

Lemma giftBlockOffsetOf_first (bytes : list Z) game ok :
  bytes <> [] -> peek bytes 0xEFF4 = 4 ->
  giftBlockOffsetOf (mkSaveFile bytes game ok 1) = 0xE000.
Proof.
  intros Hne H4. unfold giftBlockOffsetOf.
  rewrite findWonderCardBlock_first by assumption. reflexivity.
Qed.

Lemma m_bytes_mk bytes game ok slot : m_bytes (mkSaveFile bytes game ok slot) = bytes.
Proof. reflexivity. Qed.

Lemma sampleSaveFile_zero_tail (o : Z) :
  getSection4ChecksumLength sampleSaveFile <= o < CHECKSUM_DATA_LENGTH_DEFAULT ->
  peek (m_bytes sampleSaveFile) (giftBlockOffsetOf sampleSaveFile + o) = 0.
Proof.
  unfold sampleSaveFile. rewrite giftBlockOffsetOf_first;
    [| apply nonempty_of_length, length_sampleSave | apply peek_sampleSave_gift].
  rewrite m_bytes_mk.
  change (getSection4ChecksumLength (mkSaveFile sampleSave Emerald true 1))
    with 0xF08.
  unfold CHECKSUM_DATA_LENGTH_DEFAULT. intros Ho.
  apply peek_sampleSave; lia.
Qed.

Lemma sampleRom_size : Z.of_nat (length sampleRom) < 4294967296.
Proof. reflexivity. Qed.

Lemma overlapStream_data :
  decompressLZ77 overlapStream 0 = Some (LZData (replicate 6 0x41)).
Proof. reflexivity. Qed.

(** ** Injection followed by extraction *)

(** X1. After a successful injection the extractors return what was
    injected: the raw card is the little-endian CRC-16 of the payload,
    two zero bytes and the payload; the parsed card is the parse of the
    payload; and a card is reported present exactly when that CRC is
    not zero. *)
Theorem inject_then_extract_card (sf : SaveFile) (wonderCard : WonderCardData)
    (scriptData crcTable rawWonderCardData : list Z) (options : InjectionOptions) :
  loadedSave sf ->
  m_detectedGame sf = Emerald \/ m_detectedGame sf = FireRedLeafGreen ->
  0 <= findWonderCardBlock sf ->
  let payload := injectedPayload wonderCard rawWonderCardData in
  let crc := calculateCRC16 payload crcTable in
  exists sf' trace,
    injectWonderCard sf wonderCard scriptData crcTable rawWonderCardData options
      = (Success, sf', trace) /\
    extractWonderCardRaw sf' =
      ([Z.land crc 0xFF; Z.land (Z.shiftr crc 8) 0xFF; 0; 0] ++ (u8 <$> payload),
       None) /\
    extractWonderCard sf' = inr (parseWonderCard payload) /\
    hasWonderCard sf' = negb (crc =? 0).
Proof. apply injected_card_readback. Qed.

(** Witness for X1: the sample card injected into the sample save. *)
Lemma inject_then_extract_card_witness :
  exists sf' trace,
    injectWonderCard sampleSaveFile (parseWonderCard testCard) [] [] testCard
                     defaultInjectionOptions = (Success, sf', trace) /\
    extractWonderCard sf' =
      inr (parseWonderCard (injectedPayload (parseWonderCard testCard) testCard)).
Proof.
  destruct (inject_then_extract_card sampleSaveFile (parseWonderCard testCard)
              [] [] testCard defaultInjectionOptions
              sampleSaveFile_loaded sampleSaveFile_game sampleSaveFile_giftBlock)
    as (sf' & trace & Heq & _ & Hcard & _).
  exists sf', trace. split; assumption.
Defined.

(** X2. The CRC table is not validated by injection: with a table that
    is not 512 bytes long the injection still succeeds, the card is
    stored under a zero CRC header, and [hasWonderCard] then reports
    that the save holds no card. *)
Theorem inject_with_bad_table (sf : SaveFile) (wonderCard : WonderCardData)
    (scriptData crcTable rawWonderCardData : list Z) (options : InjectionOptions) :
  loadedSave sf ->
  m_detectedGame sf = Emerald \/ m_detectedGame sf = FireRedLeafGreen ->
  0 <= findWonderCardBlock sf ->
  length crcTable <> 512%nat ->
  exists sf' trace,
    injectWonderCard sf wonderCard scriptData crcTable rawWonderCardData options
      = (Success, sf', trace) /\
    extractWonderCardRaw sf' =
      ([0; 0; 0; 0] ++ (u8 <$> injectedPayload wonderCard rawWonderCardData), None) /\
    hasWonderCard sf' = false.
Proof.
  intros Hloaded Hgame Hblock Htable.
  destruct (injected_card_readback sf wonderCard scriptData crcTable
              rawWonderCardData options Hloaded Hgame Hblock)
    as (sf' & trace & Heq & Hraw & _ & Hhas).
  assert (Hcrc : calculateCRC16 (injectedPayload wonderCard rawWonderCardData)
                                crcTable = 0).
  { unfold calculateCRC16.
    destruct (Z.eqb_spec (Z.of_nat (length crcTable)) 512) as [H512 | _]; [lia |].
    reflexivity. }
  cbv zeta in Hraw, Hhas. rewrite Hcrc in Hraw, Hhas.
  exists sf', trace. split; [exact Heq |]. split; [exact Hraw | exact Hhas].
Qed.

(** Witness for X2: an empty CRC table. *)
Lemma inject_with_bad_table_witness :
  exists sf' trace,
    injectWonderCard sampleSaveFile (parseWonderCard testCard) [] [] testCard
                     defaultInjectionOptions = (Success, sf', trace) /\
    hasWonderCard sf' = false.
Proof.
  assert (Htable : length (@nil Z) <> 512%nat) by discriminate.
  destruct (inject_with_bad_table sampleSaveFile (parseWonderCard testCard)
              [] [] testCard defaultInjectionOptions
              sampleSaveFile_loaded sampleSaveFile_game sampleSaveFile_giftBlock
              Htable)
    as (sf' & trace & Heq & _ & Hcard).
  exists sf', trace. split; assumption.
Defined.

(** ** The script *)

Lemma length_scriptPayloadOf scriptData :
  length (scriptPayloadOf scriptData) = 1000%nat <->
  (length scriptData = 1000%nat \/ length scriptData = 1004%nat).
Proof.
  unfold scriptPayloadOf.
  destruct (Z.eqb_spec (Z.of_nat (length scriptData)) 1004) as [H4 | H4].
  - unfold mid. rewrite length_take, length_drop. lia.
  - destruct (Z.eqb_spec (Z.of_nat (length scriptData)) 1000) as [H0 | H0].
    + lia.
    + cbn [length]. lia.
Qed.

Lemma length_scriptToWriteOf scriptData :
  length (scriptToWriteOf scriptData) = length (scriptPayloadOf scriptData).
Proof.
  unfold scriptToWriteOf. destruct (negb _); [apply length_poke | reflexivity].
Qed.

(** The bytes of the script to write: the magic number, then the
    payload from its second byte on. *)
Lemma scriptToWriteOf_bytes scriptData :
  length (scriptPayloadOf scriptData) = 1000%nat ->
  u8 <$> scriptToWriteOf scriptData =
  RAM_SCRIPT_MAGIC :: (u8 <$> drop 1 (scriptPayloadOf scriptData)).
Proof.
  intros Hlen. unfold scriptToWriteOf.
  destruct (scriptPayloadOf scriptData) as [| b rest] eqn:Hp; [discriminate |].
  unfold RAMSCRIPT_MAGIC_OFFSET.
  destruct (Z.eqb_spec (peek (b :: rest) 0) RAM_SCRIPT_MAGIC) as [Hm | Hm]; cbn [negb].
  - cbn [fmap list_fmap drop]. f_equal. exact Hm.
  - unfold poke. cbn. reflexivity.
Qed.

(** X3. A script of 1000 bytes, or of 1004 bytes with its header, is
    stored with its first byte forced to the magic number 51 and is
    read back so by [extractScript]; a script of any other size is not
    written, and the stored script stays as it was. *)
Theorem inject_then_extract_script (sf : SaveFile) (wonderCard : WonderCardData)
    (scriptData crcTable rawWonderCardData : list Z) (options : InjectionOptions) :
  loadedSave sf ->
  m_detectedGame sf = Emerald \/ m_detectedGame sf = FireRedLeafGreen ->
  0 <= findWonderCardBlock sf ->
  exists sf' trace,
    injectWonderCard sf wonderCard scriptData crcTable rawWonderCardData options
      = (Success, sf', trace) /\
    (length scriptData = 1000%nat \/ length scriptData = 1004%nat ->
       extractScript sf' =
         (RAM_SCRIPT_MAGIC :: (u8 <$> drop 1 (scriptPayloadOf scriptData)), None)) /\
    (length scriptData <> 1000%nat -> length scriptData <> 1004%nat ->
       extractScript sf' = extractScript sf).
Proof.
  intros Hloaded Hgame Hblock.
  destruct (injectWonderCard_buffer sf wonderCard scriptData crcTable
              rawWonderCardData options Hloaded Hgame Hblock)
    as (bytes' & trace & Heq & Hlen & Hframe & _ & Hscript & Hnone & _).
  cbv zeta in Hscript, Hnone.
  exists (setBytes sf bytes'), trace. split; [exact Heq |].
  pose proof (loadedSave_setBytes sf bytes' Hloaded Hlen) as Hloaded'.
  pose proof (loadedSave_isLoaded _ Hloaded') as Hl'.
  pose proof (loadedSave_isLoaded _ Hloaded) as Hl.
  pose proof (findWonderCardBlock_range sf Hblock) as Hrange.
  assert (Hu : m_detectedGame sf <> Unknown) by (destruct Hgame; congruence).
  assert (Hr : m_detectedGame sf <> RubySapphire) by (destruct Hgame; congruence).
  assert (Hfind : findWonderCardBlock (setBytes sf bytes') = findWonderCardBlock sf).
  { apply findWonderCardBlock_setBytes; [done | done |].
    intros pos Hpos. apply peek_of_lookup. apply Hframe.
    intros Hw. apply (injectionWrites_inside sf _ Hgame) in Hw.
    destruct Hloaded as [_ Hslot].
    unfold giftBlockOffsetOf, SECTION_SIZE, SECTIONS_PER_SAVE, SECTION_ID_OFFSET,
      CHECKSUM_OFFSET in *. lia. }
  assert (HB : 0 <= giftBlockOffsetOf sf /\
               giftBlockOffsetOf sf + 4096 <= Z.of_nat (length bytes')).
  { rewrite Hlen. destruct Hloaded as [Hl0 Hslot].
    unfold giftBlockOffsetOf, SECTION_SIZE, SECTIONS_PER_SAVE,
      EXPECTED_FILE_SIZE in *. lia. }
  assert (Hs : 0 <= scriptOffsetOf sf /\ scriptOffsetOf sf + 1004 <= 4096).
  { unfold scriptOffsetOf. destruct (bool_decide _); vm_compute; split; discriminate. }
  assert (Hunfold : forall b : list Z,
            length b = length (m_bytes sf) ->
            findWonderCardBlock (setBytes sf b) = findWonderCardBlock sf ->
            extractScript (setBytes sf b) =
            (copyOf (advance b (giftBlockOffsetOf sf + scriptOffsetOf sf + 4)) 1000,
             None)).
  { intros b Hb Hfb. unfold extractScript.
    rewrite (loadedSave_isLoaded _ (loadedSave_setBytes sf b Hloaded Hb)).
    cbn [negb]. rewrite !setBytes_game.
    destruct (decide (m_detectedGame sf = Unknown)); [contradiction |].
    destruct (decide (m_detectedGame sf = RubySapphire)); [contradiction |].
    cbv zeta. rewrite Hfb.
    destruct (Z.ltb_spec (findWonderCardBlock sf) 0) as [Hneg | _]; [lia |].
    rewrite !setBytes_slot, !setBytes_bytes. reflexivity. }
  split.
  - intros Hsize. apply length_scriptPayloadOf in Hsize.
    destruct (Hscript Hsize) as (_ & _ & _ & _ & Hbody).
    rewrite (Hunfold bytes' Hlen Hfind). f_equal.
    rewrite <- scriptToWriteOf_bytes by done.
    apply copyOf_eq.
    + lia.
    + rewrite length_fmap, length_scriptToWriteOf, Hsize. reflexivity.
    + intros k Hk. rewrite length_fmap, length_scriptToWriteOf, Hsize in Hk.
      replace (Z.to_nat (giftBlockOffsetOf sf + scriptOffsetOf sf + 4) + k)%nat
        with (Z.to_nat (giftBlockOffsetOf sf + scriptOffsetOf sf + 4 + Z.of_nat k))
        by lia.
      rewrite Hbody by lia. symmetry. apply lookup_u8_payload.
      rewrite length_scriptToWriteOf, Hsize. lia.
  - intros H0 H4.
    assert (Hsize : length (scriptPayloadOf scriptData) <> 1000%nat).
    { intros Hc. apply length_scriptPayloadOf in Hc. lia. }
    rewrite (Hunfold bytes' Hlen Hfind).
    replace sf with (setBytes sf (m_bytes sf)) at 3 by (by destruct sf).
    rewrite (Hunfold (m_bytes sf) eq_refl) by (by destruct sf).
    f_equal. unfold copyOf, advance.
    apply list_eq. intros k.
    destruct (decide (k < 1000)%nat) as [Hk | Hk].
    + rewrite !lookup_take_lt by lia. rewrite !lookup_drop.
      apply (Hnone Hsize). unfold RAMSCRIPT_SIZE. lia.
    + rewrite !lookup_take_ge by lia. reflexivity.
Qed.

(** Witness for X3: no script is given, so the stored script stays. *)
Lemma inject_then_extract_script_witness :
  exists sf' trace,
    injectWonderCard sampleSaveFile (parseWonderCard testCard) [] [] testCard
                     defaultInjectionOptions = (Success, sf', trace) /\
    extractScript sf' = extractScript sampleSaveFile.
Proof.
  destruct (inject_then_extract_script sampleSaveFile (parseWonderCard testCard)
              [] [] testCard defaultInjectionOptions
              sampleSaveFile_loaded sampleSaveFile_game sampleSaveFile_giftBlock)
    as (sf' & trace & Heq & _ & Hkeep).
  exists sf', trace. split; [exact Heq |].
  apply Hkeep; discriminate.
Defined.

(** ** What an injection leaves alone *)

(** X4. A successful injection changes the buffer only: the detected
    game, the active slot and the cached validity flag keep their
    values.  Every byte it changes lies in the gift-card section, at an
    offset below [0xC94] or in the two checksum bytes; so all section
    ids, signatures and save counters, and every other section of both
    slots, are as before, and section lookup gives the same answers. *)
Theorem injectWonderCard_frame (sf : SaveFile) (wonderCard : WonderCardData)
    (scriptData crcTable rawWonderCardData : list Z) (options : InjectionOptions) :
  loadedSave sf ->
  m_detectedGame sf = Emerald \/ m_detectedGame sf = FireRedLeafGreen ->
  0 <= findWonderCardBlock sf ->
  exists sf' trace,
    injectWonderCard sf wonderCard scriptData crcTable rawWonderCardData options
      = (Success, sf', trace) /\
    m_detectedGame sf' = m_detectedGame sf /\
    m_activeSaveSlot sf' = m_activeSaveSlot sf /\
    m_checksumValid sf' = m_checksumValid sf /\
    length (m_bytes sf') = length (m_bytes sf) /\
    (forall (j : nat) (o : Z),
       Z.of_nat j = giftBlockOffsetOf sf + o ->
       ~ (0x460 <= o < 0xC94) -> o <> CHECKSUM_OFFSET -> o <> CHECKSUM_OFFSET + 1 ->
       m_bytes sf' !! j = m_bytes sf !! j) /\
    findWonderCardBlock sf' = findWonderCardBlock sf /\
    (forall sectionId, findSection sf' sectionId = findSection sf sectionId) /\
    (forall slotIndex, slotIndex = 0 \/ slotIndex = 1 ->
       saveIndex (analyzeSaveSlot (m_bytes sf') slotIndex) =
       saveIndex (analyzeSaveSlot (m_bytes sf) slotIndex)).
Proof.
  intros Hloaded Hgame Hblock.
  destruct (injectWonderCard_buffer sf wonderCard scriptData crcTable
              rawWonderCardData options Hloaded Hgame Hblock)
    as (bytes' & trace & Heq & Hlen & Hframe & _).
  exists (setBytes sf bytes'), trace. split; [exact Heq |].
  pose proof (findWonderCardBlock_range sf Hblock) as Hrange.
  assert (Hout : forall (j : nat) (o : Z),
            Z.of_nat j = giftBlockOffsetOf sf + o ->
            ~ (0x460 <= o < 0xC94) -> o <> CHECKSUM_OFFSET -> o <> CHECKSUM_OFFSET + 1 ->
            bytes' !! j = m_bytes sf !! j).
  { intros j o Hj H1 H2 H3. apply Hframe. intros Hw.
    apply (injectionWrites_offsets sf _ Hgame) in Hw. lia. }
  assert (Hslot : m_activeSaveSlot sf = 0 \/ m_activeSaveSlot sf = 1) by apply Hloaded.
  repeat split; try reflexivity; try exact Hlen.
  - exact Hout.
  - apply findWonderCardBlock_setBytes; [done | done |].
    intros pos Hpos. apply peek_of_lookup.
    apply (Hout _ (m_activeSaveSlot sf * (SECTION_SIZE * SECTIONS_PER_SAVE)
                   + pos * SECTION_SIZE + SECTION_ID_OFFSET - giftBlockOffsetOf sf));
      unfold giftBlockOffsetOf, SECTION_SIZE, SECTIONS_PER_SAVE, SECTION_ID_OFFSET,
        CHECKSUM_OFFSET in *; lia.
  - intros sectionId. apply findSection_setBytes; [done | done |].
    intros pos k Hpos Hk. apply peek_of_lookup.
    apply (Hout _ (m_activeSaveSlot sf * (SECTION_SIZE * SECTIONS_PER_SAVE)
                   + pos * SECTION_SIZE + SECTION_ID_OFFSET + k - giftBlockOffsetOf sf));
      unfold giftBlockOffsetOf, SECTION_SIZE, SECTIONS_PER_SAVE, SECTION_ID_OFFSET,
        CHECKSUM_OFFSET in *; lia.
  - intros slotIndex Hs. rewrite !analyzeSaveSlot_saveIndex.
    rewrite setBytes_bytes. apply le32_ext. intros k Hk.
    rewrite !peek_sectionDataOf by (unfold SAVE_INDEX_OFFSET; lia).
    apply peek_of_lookup.
    apply (Hout _ (slotIndex * 57344 + 0 * 4096 + (SAVE_INDEX_OFFSET + k)
                   - giftBlockOffsetOf sf));
      unfold giftBlockOffsetOf, SECTION_SIZE, SECTIONS_PER_SAVE, SAVE_INDEX_OFFSET,
        CHECKSUM_OFFSET in *; lia.
Qed.

(** Witness for X4. *)
Lemma injectWonderCard_frame_witness :
  exists sf' trace,
    injectWonderCard sampleSaveFile (parseWonderCard testCard) [] [] testCard
                     defaultInjectionOptions = (Success, sf', trace) /\
    findWonderCardBlock sf' = findWonderCardBlock sampleSaveFile.
Proof.
  destruct (injectWonderCard_frame sampleSaveFile (parseWonderCard testCard)
              [] [] testCard defaultInjectionOptions
              sampleSaveFile_loaded sampleSaveFile_game sampleSaveFile_giftBlock)
    as (sf' & trace & Heq & _ & _ & _ & _ & _ & Hblock & _).
  exists sf', trace. split; assumption.
Defined.

(** ** Slot validity after an injection *)

(** Words that are zero add nothing to the sum. *)
Lemma sumWords_zero_tail data (k : nat) : forall n : nat,
  (k <= n)%nat ->
  (forall i, 4 * Z.of_nat k <= i < 4 * Z.of_nat n -> peek data i = 0) ->
  sumWords data n = sumWords data k.
Proof.
  induction n as [| n IH]; intros Hkn Hzero.
  - by replace k with 0%nat by lia.
  - destruct (decide (k = S n)) as [-> | Hne]; [reflexivity |].
    cbn [sumWords]. rewrite IH by (lia || (intros; apply Hzero; lia)).
    rewrite le32_value.
    rewrite !Hzero by lia.
    assert (Hr : 0 <= sumWords data k < 4294967296).
    { destruct k; cbn [sumWords]; [lia | apply u32_range]. }
    rewrite u32_small by lia. lia.
Qed.

Lemma computeSectionChecksum_zero_tail data len1 len2 :
  0 <= len1 <= len2 ->
  (forall i, 4 * (len1 / 4) <= i < len2 -> peek data i = 0) ->
  computeSectionChecksum data len2 = computeSectionChecksum data len1.
Proof.
  intros Hlen Hzero. rewrite !computeSectionChecksum_unfold.
  assert (H12 : len1 / 4 <= len2 / 4) by (apply Z.div_le_mono; lia).
  rewrite (sumWords_zero_tail data (Z.to_nat (len1 / 4)) (Z.to_nat (len2 / 4)));
    [reflexivity | lia |].
  intros i Hi. apply Hzero.
  pose proof (Z.mul_div_le len2 4 ltac:(lia)).
  assert (0 <= len1 / 4) by (apply Z.div_pos; lia).
  assert (0 <= len2 / 4) by (apply Z.div_pos; lia).
  lia.
Qed.

Lemma getSection4ChecksumLength_cases sf :
  getSection4ChecksumLength sf = 0xF08 \/ getSection4ChecksumLength sf = 0xEE8.
Proof. unfold getSection4ChecksumLength. case_decide; [left | right]; reflexivity. Qed.

(** X5. Injection recomputes the gift-card checksum over the section-4
    length, while slot validation sums the first [0xF80] bytes of every
    section.  If the bytes between the two lengths are zero, the slot
    that was valid before the injection is valid after it, and
    [validateChecksums] accepts the new save. *)
Theorem injectWonderCard_keeps_slot_valid (sf : SaveFile) (wonderCard : WonderCardData)
    (scriptData crcTable rawWonderCardData : list Z) (options : InjectionOptions) :
  loadedSave sf ->
  m_detectedGame sf = Emerald \/ m_detectedGame sf = FireRedLeafGreen ->
  0 <= findWonderCardBlock sf ->
  valid (analyzeSaveSlot (m_bytes sf) (m_activeSaveSlot sf)) = true ->
  (forall o, getSection4ChecksumLength sf <= o < CHECKSUM_DATA_LENGTH_DEFAULT ->
     peek (m_bytes sf) (giftBlockOffsetOf sf + o) = 0) ->
  exists sf' trace,
    injectWonderCard sf wonderCard scriptData crcTable rawWonderCardData options
      = (Success, sf', trace) /\
    valid (analyzeSaveSlot (m_bytes sf') (m_activeSaveSlot sf')) = true /\
    fst (validateChecksums sf') = true.
Proof.
  intros Hloaded Hgame Hblock Hvalid Htail.
  destruct (injectWonderCard_buffer sf wonderCard scriptData crcTable
              rawWonderCardData options Hloaded Hgame Hblock)
    as (bytes' & trace & Heq & Hlen & Hframe & _ & _ & _ & _ & _ & _ & Hsum).
  cbv zeta in Hsum.
  exists (setBytes sf bytes'), trace. split; [exact Heq |].
  pose proof (findWonderCardBlock_range sf Hblock) as Hrange.
  pose proof (loadedSave_setBytes sf bytes' Hloaded Hlen) as Hloaded'.
  pose proof (loadedSave_isLoaded _ Hloaded') as Hl'.
  assert (Hslot : m_activeSaveSlot sf = 0 \/ m_activeSaveSlot sf = 1) by apply Hloaded.
  assert (Hout : forall (j : nat) (o : Z),
            Z.of_nat j = giftBlockOffsetOf sf + o ->
            ~ (0x460 <= o < 0xC94) -> o <> CHECKSUM_OFFSET -> o <> CHECKSUM_OFFSET + 1 ->
            bytes' !! j = m_bytes sf !! j).
  { intros j o Hj H1 H2 H3. apply Hframe. intros Hw.
    apply (injectionWrites_offsets sf _ Hgame) in Hw. lia. }
  assert (Hv : valid (analyzeSaveSlot bytes' (m_activeSaveSlot sf)) = true).
  { apply analyzeSaveSlot_valid. intros section Hsec.
    apply analyzeSaveSlot_valid with (section := section) in Hvalid; [| done].
    unfold sectionChecksumMatches in *.
    destruct (decide (section = findWonderCardBlock sf)) as [-> | Hne].
    - (* the gift-card section *)
      change (sectionDataOf bytes' (m_activeSaveSlot sf) (findWonderCardBlock sf))
        with (advance bytes' (giftBlockOffsetOf sf)).
      rewrite Hsum. apply computeSectionChecksum_zero_tail.
      + destruct (getSection4ChecksumLength_cases sf) as [-> | ->];
          unfold CHECKSUM_DATA_LENGTH_DEFAULT; lia.
      + intros i Hi.
        assert (HB : 0 <= giftBlockOffsetOf sf).
        { unfold giftBlockOffsetOf, SECTION_SIZE, SECTIONS_PER_SAVE in *. lia. }
        assert (Hi' : getSection4ChecksumLength sf <= i < CHECKSUM_DATA_LENGTH_DEFAULT
                      /\ 0xC94 <= i).
        { destruct (getSection4ChecksumLength_cases sf) as [Hc | Hc];
            rewrite Hc in *; unfold CHECKSUM_DATA_LENGTH_DEFAULT in *;
            change (3848 / 4) with 962 in *; change (3816 / 4) with 954 in *; lia. }
        destruct Hi' as [Hi' Hlow].
        rewrite peek_advance by lia.
        rewrite <- (Htail i Hi'). apply peek_of_lookup.
        apply (Hout _ i);
          unfold CHECKSUM_OFFSET, CHECKSUM_DATA_LENGTH_DEFAULT in *; lia.
    - (* every other section is untouched *)
      assert (Hsame : forall i, 0 <= i < 4096 ->
                peek (sectionDataOf bytes' (m_activeSaveSlot sf) section) i =
                peek (sectionDataOf (m_bytes sf) (m_activeSaveSlot sf) section) i).
      { intros i Hi.
        rewrite !peek_sectionDataOf by (unfold SECTIONS_PER_SAVE in *; lia).
        apply peek_of_lookup.
        apply (Hout _ (m_activeSaveSlot sf * 57344 + section * 4096 + i
                       - giftBlockOffsetOf sf));
          unfold giftBlockOffsetOf, SECTION_SIZE, SECTIONS_PER_SAVE,
            CHECKSUM_OFFSET in *; lia. }
      rewrite (computeSectionChecksum_ext
                 (sectionDataOf bytes' (m_activeSaveSlot sf) section)
                 (sectionDataOf (m_bytes sf) (m_activeSaveSlot sf) section)).
      + rewrite Hvalid. symmetry. apply le16_ext; apply Hsame;
          unfold CHECKSUM_OFFSET; lia.
      + unfold CHECKSUM_DATA_LENGTH_DEFAULT. lia.
      + intros i Hi. apply Hsame. unfold CHECKSUM_DATA_LENGTH_DEFAULT in Hi. lia. }
  rewrite setBytes_slot, setBytes_bytes.
  split; [exact Hv |].
  unfold validateChecksums. rewrite Hl'. cbn [negb].
  rewrite !setBytes_slot.
  destruct (Z.ltb_spec (m_activeSaveSlot sf) 0) as [Hneg | _]; [lia |].
  rewrite !setBytes_slot.
  destruct (Z.ltb_spec (m_activeSaveSlot sf) 0) as [Hneg | _]; [lia |].
  cbn [fst]. rewrite setBytes_bytes. exact Hv.
Qed.

(** Witness for X5: the active slot of the sample save is valid, and its
    gift-card section is zero behind the section-4 length. *)
Lemma injectWonderCard_keeps_slot_valid_witness :
  exists sf' trace,
    injectWonderCard sampleSaveFile (parseWonderCard testCard) [] [] testCard
                     defaultInjectionOptions = (Success, sf', trace) /\
    fst (validateChecksums sf') = true.
Proof.
  destruct (injectWonderCard_keeps_slot_valid sampleSaveFile (parseWonderCard testCard)
              [] [] testCard defaultInjectionOptions
              sampleSaveFile_loaded sampleSaveFile_game sampleSaveFile_giftBlock
              sampleSaveFile_valid sampleSaveFile_zero_tail)
    as (sf' & trace & Heq & _ & Hvalid).
  exists sf', trace. split; assumption.
Defined.

(** ** Metadata and trainer ids *)

Lemma icon_of_payload (payload : list Z) :
  length payload = 332%nat ->
  icon (parseWonderCard payload) = u16 (le16 payload 2).
Proof.
  intros Hlen. unfold parseWonderCard. rewrite Hlen.
  change (Z.of_nat 332 <? WONDERCARD_PAYLOAD_SIZE) with false.
  change (Z.of_nat 332 =? WONDERCARD_TOTAL_SIZE) with false.
  reflexivity.
Qed.

(** X6. Injection copies the icon of the injected card into the
    metadata's icon species.  With [clearMetadata] every other byte of
    the 32 metadata bytes and of the 4 bytes in front of them is zero
    afterwards, and with [clearTrainerIds] so are the 40 trainer-id
    bytes; without the option those bytes keep their values. *)
Theorem injectWonderCard_metadata (sf : SaveFile) (wonderCard : WonderCardData)
    (scriptData crcTable rawWonderCardData : list Z) (options : InjectionOptions) :
  loadedSave sf ->
  m_detectedGame sf = Emerald \/ m_detectedGame sf = FireRedLeafGreen ->
  0 <= findWonderCardBlock sf ->
  let B := giftBlockOffsetOf sf in
  let iconAt := metadataOffsetOf sf + WCMETADATA_ICON_OFFSET in
  exists sf' trace,
    injectWonderCard sf wonderCard scriptData crcTable rawWonderCardData options
      = (Success, sf', trace) /\
    u16 (le16 (m_bytes sf') (B + iconAt)) =
      icon (parseWonderCard (injectedPayload wonderCard rawWonderCardData)) /\
    (forall o,
       metadataOffsetOf sf - 4 <= o < metadataOffsetOf sf + WCMETADATA_SIZE ->
       o <> iconAt -> o <> iconAt + 1 ->
       peek (m_bytes sf') (B + o) =
       if clearMetadata options then 0 else peek (m_bytes sf) (B + o)) /\
    (forall o,
       trainerIdsOffsetOf sf <= o < trainerIdsOffsetOf sf + TRAINERIDS_SIZE ->
       peek (m_bytes sf') (B + o) =
       if clearTrainerIds options then 0 else peek (m_bytes sf) (B + o)).
Proof.
  intros Hloaded Hgame Hblock B iconAt.
  destruct (injectWonderCard_buffer sf wonderCard scriptData crcTable
              rawWonderCardData options Hloaded Hgame Hblock)
    as (bytes' & trace & Heq & Hlen & _ & _ & _ & _ & Hicon & Hmeta & Htid & _).
  cbv zeta in Hicon, Hmeta, Htid. fold B in Hicon, Hmeta, Htid.
  destruct Hicon as [Hi0 Hi1].
  exists (setBytes sf bytes'), trace. split; [exact Heq |].
  rewrite setBytes_bytes.
  pose proof (findWonderCardBlock_range sf Hblock) as Hrange.
  assert (HB : 0 <= B).
  { subst B. destruct Hloaded as [_ Hslot].
    unfold giftBlockOffsetOf, SECTION_SIZE, SECTIONS_PER_SAVE in *. lia. }
  assert (Hmo : 4 <= metadataOffsetOf sf /\ 0 <= trainerIdsOffsetOf sf).
  { unfold metadataOffsetOf, trainerIdsOffsetOf.
    destruct (bool_decide _); vm_compute; split; discriminate. }
  split; [| split].
  - rewrite icon_of_payload by apply length_injectedPayload.
    f_equal. unfold le16. subst iconAt.
    rewrite Z.add_assoc.
    rewrite (peek_of_lookup_Some _ _ _ Hi0), (peek_of_lookup_Some _ _ _ Hi1).
    rewrite !u8_small by apply peek_range. reflexivity.
  - intros o Ho Hn1 Hn2.
    pose proof (Hmeta (Z.to_nat (B + o))) as H.
    replace (Z.of_nat (Z.to_nat (B + o)) - B) with o in H by lia.
    specialize (H Ho Hn1 Hn2).
    destruct (clearMetadata options).
    + rewrite (peek_of_lookup_Some _ _ _ H). reflexivity.
    + by apply peek_of_lookup.
  - intros o Ho.
    pose proof (Htid (Z.to_nat (B + o))) as H.
    replace (Z.of_nat (Z.to_nat (B + o)) - B) with o in H by lia.
    specialize (H Ho).
    destruct (clearTrainerIds options).
    + rewrite (peek_of_lookup_Some _ _ _ H). reflexivity.
    + by apply peek_of_lookup.
Qed.

(** Witness for X6. *)
Lemma injectWonderCard_metadata_witness :
  exists sf' trace,
    injectWonderCard sampleSaveFile (parseWonderCard testCard) [] [] testCard
                     defaultInjectionOptions = (Success, sf', trace) /\
    u16 (le16 (m_bytes sf')
              (giftBlockOffsetOf sampleSaveFile
               + (metadataOffsetOf sampleSaveFile + WCMETADATA_ICON_OFFSET))) =
      icon (parseWonderCard (injectedPayload (parseWonderCard testCard) testCard)).
Proof.
  destruct (injectWonderCard_metadata sampleSaveFile (parseWonderCard testCard)
              [] [] testCard defaultInjectionOptions
              sampleSaveFile_loaded sampleSaveFile_game sampleSaveFile_giftBlock)
    as (sf' & trace & Heq & Hicon & _).
  exists sf', trace. split; assumption.
Defined.

(** ** enableMysteryGift and isMysteryGiftEnabled *)

Lemma isMysteryGiftEnabled_flag (sf : SaveFile) :
  loadedSave sf ->
  m_detectedGame sf = Emerald \/ m_detectedGame sf = FireRedLeafGreen ->
  0 <= findSection sf 2 ->
  isMysteryGiftEnabled sf =
  negb (Z.land (peek (m_bytes sf) (section2OffsetOf sf + flagOffsetOf sf))
               (flagBitOf sf) =? 0).
Proof.
  intros Hloaded Hgame Hfound.
  pose proof (loadedSave_isLoaded sf Hloaded) as Hl.
  pose proof (findSection_found sf 2 Hfound) as [Hrange _].
  destruct Hloaded as [Hlen Hslot].
  unfold isMysteryGiftEnabled. rewrite Hl. cbn [negb orb].
  destruct (Z.ltb_spec (m_activeSaveSlot sf) 0) as [Hneg | _]; [lia |].
  assert (Hg : bool_decide (m_detectedGame sf = Unknown)
               || bool_decide (m_detectedGame sf = RubySapphire) = false).
  { destruct Hgame as [-> | ->]; reflexivity. }
  rewrite Hg. cbv zeta.
  destruct (Z.ltb_spec (findSection sf 2) 0) as [Hneg | _]; [lia |].
  fold (section2OffsetOf sf) (flagOffsetOf sf) (flagBitOf sf).
  rewrite peek_advance; [reflexivity | |].
  - unfold section2OffsetOf, SECTION_SIZE, SECTIONS_PER_SAVE in *. lia.
  - destruct (flagOffsetOf_cases sf) as [-> | ->]; lia.
Qed.

(** X7. On a loaded FireRed/LeafGreen or Emerald save that has a
    section 2, [enableMysteryGift] succeeds and [isMysteryGiftEnabled]
    holds afterwards; it wrote nothing exactly when the flag was set
    before.  On any save object whatsoever, if [isMysteryGiftEnabled]
    holds then [enableMysteryGift] succeeds without changing anything. *)
Theorem enableMysteryGift_then_enabled (sf : SaveFile) :
  (loadedSave sf ->
   m_detectedGame sf = Emerald \/ m_detectedGame sf = FireRedLeafGreen ->
   0 <= findSection sf 2 ->
   exists sf' trace,
     enableMysteryGift sf = (Success, sf', trace) /\
     isMysteryGiftEnabled sf' = true /\
     (isMysteryGiftEnabled sf = true <-> trace = [])) /\
  (isMysteryGiftEnabled sf = true -> enableMysteryGift sf = (Success, sf, [])).
Proof.
  split.
  - intros Hloaded Hgame Hfound.
    pose proof (findSection_found sf 2 Hfound) as [Hrange _].
    pose proof Hloaded as [Hlen Hslot].
    pose proof (flagOffsetOf_cases sf) as Hfo.
    pose proof (flagBitOf_cases sf) as Hfb.
    pose proof (isMysteryGiftEnabled_flag sf Hloaded Hgame Hfound) as Hquery.
    set (base := section2OffsetOf sf) in *.
    set (flagAt := base + flagOffsetOf sf) in *.
    set (current := peek (m_bytes sf) flagAt) in *.
    assert (Hbase : 0 <= base /\ base + 4096 <= Z.of_nat (length (m_bytes sf))).
    { subst base. unfold section2OffsetOf, SECTION_SIZE, SECTIONS_PER_SAVE,
        EXPECTED_FILE_SIZE in *. lia. }
    destruct (enableMysteryGift_cases sf Hloaded Hgame Hfound)
      as [[Hset Heq] | [Hclear Heq]]; cbv zeta in Heq;
      fold base in Heq, Hset || fold base in Heq, Hclear;
      fold flagAt in Heq, Hset || fold flagAt in Heq, Hclear;
      fold current in Heq, Hset || fold current in Heq, Hclear.
    + exists sf, []. split; [exact Heq |].
      assert (Hq : isMysteryGiftEnabled sf = true).
      { rewrite Hquery. apply negb_true_iff. by apply Z.eqb_neq. }
      split; [exact Hq | by split].
    + set (flagged := poke (m_bytes sf) flagAt (u8 (Z.lor current (flagBitOf sf)))) in *.
      set (c := computeSectionChecksum (advance flagged base)
                                       (getSectionChecksumLength sf 2)) in *.
      set (final := poke (poke flagged (base + CHECKSUM_OFFSET) (Z.land c 255))
                         (base + CHECKSUM_OFFSET + 1) (Z.land (Z.shiftr c 8) 255)) in *.
      assert (Hlf : length final = length (m_bytes sf)).
      { subst final flagged. by rewrite !length_poke. }
      assert (Hcur : 0 <= Z.lor current (flagBitOf sf) < 256).
      { apply (lor_range _ _ 8); [lia | apply peek_range |].
        destruct Hfb as [-> | ->]; lia. }
      assert (Hflag : peek final flagAt = Z.lor current (flagBitOf sf)).
      { subst final flagged. unfold CHECKSUM_OFFSET.
        rewrite !peek_poke_ne by (subst flagAt; lia).
        rewrite peek_poke_eq by (subst flagAt; lia).
        rewrite !u8_small; [reflexivity | exact Hcur | ].
        rewrite u8_small; exact Hcur. }
      assert (Hloaded' : loadedSave (setBytes sf final))
        by (by apply loadedSave_setBytes).
      assert (Hfind : findSection (setBytes sf final) 2 = findSection sf 2).
      { apply findSection_setBytes; [exact Hloaded | exact Hlf |].
        intros pos k Hpos Hk. subst final flagged.
        rewrite !peek_poke_ne; [reflexivity | | | | | | | | | ];
          subst flagAt base;
          unfold section2OffsetOf, SECTION_SIZE, SECTIONS_PER_SAVE,
            SECTION_ID_OFFSET, CHECKSUM_OFFSET in *; lia. }
      eexists (setBytes sf final), _. split; [exact Heq |]. split.
      * rewrite isMysteryGiftEnabled_flag;
          [| exact Hloaded' | exact Hgame | rewrite Hfind; exact Hfound].
        unfold section2OffsetOf, flagOffsetOf, flagBitOf.
        rewrite Hfind, !setBytes_slot, !setBytes_game, !setBytes_bytes.
        fold (section2OffsetOf sf) (flagOffsetOf sf) (flagBitOf sf).
        fold base. fold flagAt.
        rewrite Hflag, land_lor_same.
        destruct Hfb as [-> | ->]; reflexivity.
      * rewrite Hquery. split; [| discriminate].
        intros Hq. apply negb_true_iff, Z.eqb_neq in Hq. contradiction.
  - intros Hq. unfold isMysteryGiftEnabled in Hq. unfold enableMysteryGift.
    destruct (isLoaded (m_bytes sf)); [| discriminate Hq]. cbn [negb orb] in *.
    destruct (Z.ltb_spec (m_activeSaveSlot sf) 0) as [Hneg | Hslot]; [discriminate Hq |].
    destruct (decide (m_detectedGame sf = Unknown)) as [Hu | Hu].
    { rewrite Hu in Hq. discriminate Hq. }
    destruct (decide (m_detectedGame sf = RubySapphire)) as [Hr | Hr].
    { rewrite Hr in Hq. destruct (bool_decide (RubySapphire = Unknown)); discriminate Hq. }
    rewrite (bool_decide_eq_false_2 _ Hu), (bool_decide_eq_false_2 _ Hr) in Hq.
    cbn [orb] in Hq. cbv zeta in Hq |- *.
    destruct (findSection sf 2 <? 0); [discriminate Hq |].
    cbn [mem_bytes]. rewrite Hq. reflexivity.
Qed.

(** ** Slot validity after enabling Mystery Gift *)

(** Slot validation looks at the first [0xF80] bytes and the stored
    checksum of each section only. *)
Lemma analyzeSaveSlot_valid_ext (b1 b2 : list Z) (slotIndex : Z) :
  (forall section i,
     0 <= section < SECTIONS_PER_SAVE ->
     0 <= i < 0xF80 \/ i = CHECKSUM_OFFSET \/ i = CHECKSUM_OFFSET + 1 ->
     peek (sectionDataOf b1 slotIndex section) i =
     peek (sectionDataOf b2 slotIndex section) i) ->
  valid (analyzeSaveSlot b1 slotIndex) = valid (analyzeSaveSlot b2 slotIndex).
Proof.
  intros Hsame.
  assert (Hiff : valid (analyzeSaveSlot b1 slotIndex) = true <->
                 valid (analyzeSaveSlot b2 slotIndex) = true).
  { rewrite !analyzeSaveSlot_valid. unfold sectionChecksumMatches.
    assert (Heq : forall section, 0 <= section < SECTIONS_PER_SAVE ->
      computeSectionChecksum (sectionDataOf b1 slotIndex section)
                             CHECKSUM_DATA_LENGTH_DEFAULT =
      computeSectionChecksum (sectionDataOf b2 slotIndex section)
                             CHECKSUM_DATA_LENGTH_DEFAULT /\
      le16 (sectionDataOf b1 slotIndex section) CHECKSUM_OFFSET =
      le16 (sectionDataOf b2 slotIndex section) CHECKSUM_OFFSET).
    { intros section Hs. split.
      - apply computeSectionChecksum_ext;
          [unfold CHECKSUM_DATA_LENGTH_DEFAULT; lia |].
        intros i Hi. apply Hsame; [exact Hs | left; exact Hi].
      - apply le16_ext; apply Hsame; auto. }
    split; intros H section Hs; specialize (H section Hs);
      destruct (Heq section Hs) as [Hc Hl]; congruence. }
  destruct (valid (analyzeSaveSlot b1 slotIndex)),
           (valid (analyzeSaveSlot b2 slotIndex)); try reflexivity.
  - symmetry. by apply Hiff.
  - by apply Hiff.
Qed.

(** X8. Enabling Mystery Gift on a save whose active slot validates
    leaves that slot valid: the section-2 checksum is recomputed over
    [0xF80] bytes, the length slot validation uses.  The other slot and
    both save counters are untouched, so [validateChecksums] accepts the
    result and active-slot detection on the new buffer selects the same
    slot as on the old one. *)
Theorem enableMysteryGift_keeps_slot_valid (sf : SaveFile) :
  loadedSave sf ->
  m_detectedGame sf = Emerald \/ m_detectedGame sf = FireRedLeafGreen ->
  0 <= findSection sf 2 ->
  valid (analyzeSaveSlot (m_bytes sf) (m_activeSaveSlot sf)) = true ->
  exists sf' trace,
    enableMysteryGift sf = (Success, sf', trace) /\
    valid (analyzeSaveSlot (m_bytes sf') (m_activeSaveSlot sf')) = true /\
    fst (validateChecksums sf') = true /\
    findActiveSaveSlot (m_bytes sf') = findActiveSaveSlot (m_bytes sf).
Proof.
  intros Hloaded Hgame Hfound Hvalid.
  pose proof (findSection_found sf 2 Hfound) as [Hrange _].
  pose proof Hloaded as [Hlen Hslot].
  pose proof (loadedSave_isLoaded sf Hloaded) as Hl.
  pose proof (flagOffsetOf_cases sf) as Hfo.
  assert (Hvc : forall s, loadedSave s ->
            valid (analyzeSaveSlot (m_bytes s) (m_activeSaveSlot s)) = true ->
            fst (validateChecksums s) = true).
  { intros s Hs Hv. unfold validateChecksums.
    rewrite (loadedSave_isLoaded s Hs). cbn [negb].
    destruct Hs as [_ Hss].
    destruct (Z.ltb_spec (m_activeSaveSlot s) 0) as [Hneg | _]; [lia |].
    destruct (Z.ltb_spec (m_activeSaveSlot s) 0) as [Hneg | _]; [lia |].
    exact Hv. }
  destruct (enableMysteryGift_cases sf Hloaded Hgame Hfound)
    as [[_ Heq] | [_ Heq]]; cbv zeta in Heq.
  { exists sf, []. split; [exact Heq |]. split; [exact Hvalid |].
    split; [by apply Hvc | reflexivity]. }
  set (base := section2OffsetOf sf) in *.
  set (flagAt := base + flagOffsetOf sf) in *.
  set (flagged := poke (m_bytes sf) flagAt _) in *.
  set (c := computeSectionChecksum (advance flagged base)
                                   (getSectionChecksumLength sf 2)) in *.
  set (final := poke (poke flagged (base + CHECKSUM_OFFSET) (Z.land c 255))
                     (base + CHECKSUM_OFFSET + 1) (Z.land (Z.shiftr c 8) 255)) in *.
  assert (Hbase : 0 <= base /\ base + 4096 <= Z.of_nat (length (m_bytes sf))).
  { subst base. unfold section2OffsetOf, SECTION_SIZE, SECTIONS_PER_SAVE,
      EXPECTED_FILE_SIZE in *. lia. }
  assert (Hlf : length final = length (m_bytes sf)).
  { subst final flagged. by rewrite !length_poke. }
  assert (Hloaded' : loadedSave (setBytes sf final)) by (by apply loadedSave_setBytes).
  (* the checksum stored for section 2 is the one validation computes *)
  assert (Hlen2 : 0 <= getSectionChecksumLength sf 2 <= CHECKSUM_OFFSET).
  { unfold getSectionChecksumLength. vm_compute. split; discriminate. }
  assert (Hb' : 0 <= base /\
                base + SECTION_SIZE <= Z.of_nat (length (mem_bytes (mkMem flagged [])))).
  { cbn [mem_bytes]. subst flagged. rewrite length_poke. unfold SECTION_SIZE. lia. }
  destruct (store_checksum_tail (mkMem flagged []) base
              (getSectionChecksumLength sf 2)
              (proj1 Hb') (proj2 Hb') Hlen2) as (Hsame & Hstored & _).
  cbv zeta in Hsame, Hstored. cbn [store mem_bytes] in Hsame, Hstored.
  fold c in Hsame, Hstored. fold final in Hsame, Hstored.
  (* bytes away from the flag and the checksum are as before *)
  assert (Hout : forall i, 0 <= i -> i <> flagAt -> i <> base + CHECKSUM_OFFSET ->
            i <> base + CHECKSUM_OFFSET + 1 -> peek final i = peek (m_bytes sf) i).
  { intros i H0 H1 H2 H3. subst final flagged.
    rewrite !peek_poke_ne by (unfold CHECKSUM_OFFSET in *; subst flagAt; lia).
    reflexivity. }
  assert (Hv : valid (analyzeSaveSlot final (m_activeSaveSlot sf)) = true).
  { apply analyzeSaveSlot_valid. intros section Hsec.
    apply analyzeSaveSlot_valid with (section := section) in Hvalid; [| done].
    unfold sectionChecksumMatches in *.
    destruct (decide (section = findSection sf 2)) as [-> | Hne].
    - change (sectionDataOf final (m_activeSaveSlot sf) (findSection sf 2))
        with (advance final base).
      rewrite Hstored.
      change (getSectionChecksumLength sf 2) with CHECKSUM_DATA_LENGTH_DEFAULT in Hsame.
      rewrite Hsame. reflexivity.
    - assert (Hs : forall i, 0 <= i < 4096 ->
                peek (sectionDataOf final (m_activeSaveSlot sf) section) i =
                peek (sectionDataOf (m_bytes sf) (m_activeSaveSlot sf) section) i).
      { intros i Hi.
        rewrite !peek_sectionDataOf by (unfold SECTIONS_PER_SAVE in *; lia).
        apply Hout; subst flagAt base;
          unfold section2OffsetOf, SECTION_SIZE, SECTIONS_PER_SAVE,
            CHECKSUM_OFFSET in *; lia. }
      rewrite (computeSectionChecksum_ext
                 (sectionDataOf final (m_activeSaveSlot sf) section)
                 (sectionDataOf (m_bytes sf) (m_activeSaveSlot sf) section)).
      + rewrite Hvalid. symmetry. apply le16_ext; apply Hs;
          unfold CHECKSUM_OFFSET; lia.
      + unfold CHECKSUM_DATA_LENGTH_DEFAULT. lia.
      + intros i Hi. apply Hs. unfold CHECKSUM_DATA_LENGTH_DEFAULT in Hi. lia. }
  eexists (setBytes sf final), _. split; [exact Heq |].
  rewrite setBytes_slot, setBytes_bytes.
  split; [exact Hv |]. split.
  { apply Hvc; [exact Hloaded' |]. by rewrite setBytes_slot, setBytes_bytes. }
  (* both slots: same validity, same counter *)
  assert (Hvalids : forall slotIndex, slotIndex = 0 \/ slotIndex = 1 ->
            valid (analyzeSaveSlot final slotIndex) =
            valid (analyzeSaveSlot (m_bytes sf) slotIndex)).
  { intros slotIndex Hs.
    destruct (decide (slotIndex = m_activeSaveSlot sf)) as [-> | Hother].
    - by rewrite Hv, Hvalid.
    - apply analyzeSaveSlot_valid_ext. intros section i Hsec Hi.
      rewrite !peek_sectionDataOf
        by (unfold SECTIONS_PER_SAVE, CHECKSUM_OFFSET in *; lia).
      apply Hout; subst flagAt base;
        unfold section2OffsetOf, SECTION_SIZE, SECTIONS_PER_SAVE,
          CHECKSUM_OFFSET in *; lia. }
  assert (Hcounters : forall slotIndex, slotIndex = 0 \/ slotIndex = 1 ->
            saveIndex (analyzeSaveSlot final slotIndex) =
            saveIndex (analyzeSaveSlot (m_bytes sf) slotIndex)).
  { intros slotIndex Hs. rewrite !analyzeSaveSlot_saveIndex.
    apply le32_ext. intros k Hk.
    rewrite !peek_sectionDataOf by (unfold SAVE_INDEX_OFFSET; lia).
    apply Hout; subst flagAt base;
      unfold section2OffsetOf, SECTION_SIZE, SECTIONS_PER_SAVE, SAVE_INDEX_OFFSET,
        CHECKSUM_OFFSET in *; lia. }
  assert (Hl' : isLoaded final = true) by exact (loadedSave_isLoaded _ Hloaded').
  unfold findActiveSaveSlot.
  rewrite Hl, Hl'. cbn [negb]. cbv zeta.
  rewrite !Hvalids, !Hcounters by lia. reflexivity.
Qed.

(** Witness for X8. *)
Lemma enableMysteryGift_keeps_slot_valid_witness :
  exists sf' trace,
    enableMysteryGift sampleSaveFile = (Success, sf', trace) /\
    fst (validateChecksums sf') = true.
Proof.
  destruct (enableMysteryGift_keeps_slot_valid sampleSaveFile
              sampleSaveFile_loaded sampleSaveFile_game sampleSaveFile_section2
              sampleSaveFile_valid)
    as (sf' & trace & Heq & _ & Hvalid & _).
  exists sf', trace. split; assumption.
Defined.

(** ** Guards and agreement of the extractors *)

(** X9. The gift-card operations share their guards.  On a save object
    that is not loaded, whose game is unknown or Ruby/Sapphire, or whose
    active slot holds no gift-card section, injection fails without
    touching the object and without issuing a store, both byte
    extractors return an empty array with an error message, the parsing
    extractor reports an error, and [hasWonderCard] is false whenever
    the object is not loaded or the section is missing. *)
Theorem giftCard_guards (sf : SaveFile) (wonderCard : WonderCardData)
    (scriptData crcTable rawWonderCardData : list Z) (options : InjectionOptions) :
  isLoaded (m_bytes sf) = false \/ m_detectedGame sf = Unknown \/
  m_detectedGame sf = RubySapphire \/ findWonderCardBlock sf < 0 ->
  (exists msg,
     injectWonderCard sf wonderCard scriptData crcTable rawWonderCardData options
       = (Failure msg, sf, [])) /\
  (exists msg, extractWonderCardRaw sf = ([], Some msg)) /\
  (exists msg, extractScript sf = ([], Some msg)) /\
  (exists msg, extractWonderCard sf = inl msg) /\
  (isLoaded (m_bytes sf) = false \/ findWonderCardBlock sf < 0 ->
   hasWonderCard sf = false).
Proof.
  intros Hguard.
  unfold injectWonderCard, extractWonderCardRaw, extractScript, extractWonderCard,
    hasWonderCard.
  destruct (isLoaded (m_bytes sf)); cbn [negb].
  2: { repeat split; try (eexists; reflexivity). }
  destruct (decide (m_detectedGame sf = Unknown)) as [Hu | Hu].
  { repeat split; try (eexists; reflexivity).
    intros [Hc | Hc]; [discriminate |]. cbv zeta.
    destruct (Z.ltb_spec (findWonderCardBlock sf) 0); [reflexivity | lia]. }
  destruct (decide (m_detectedGame sf = RubySapphire)) as [Hr | Hr].
  { repeat split; try (eexists; reflexivity).
    intros [Hc | Hc]; [discriminate |]. cbv zeta.
    destruct (Z.ltb_spec (findWonderCardBlock sf) 0); [reflexivity | lia]. }
  cbv zeta.
  destruct (Z.ltb_spec (findWonderCardBlock sf) 0) as [Hneg | Hpos].
  { repeat split; try (eexists; reflexivity). }
  destruct Hguard as [Hc | [Hc | [Hc | Hc]]];
    [discriminate | contradiction | contradiction | lia].
Qed.

(** Witness for X9: the object a failed load leaves behind. *)
Lemma giftCard_guards_witness :
  (exists msg, extractWonderCardRaw unloadedSaveFile = ([], Some msg)) /\
  hasWonderCard unloadedSaveFile = false.
Proof.
  assert (Hguard : isLoaded (m_bytes unloadedSaveFile) = false \/
                   m_detectedGame unloadedSaveFile = Unknown \/
                   m_detectedGame unloadedSaveFile = RubySapphire \/
                   findWonderCardBlock unloadedSaveFile < 0)
    by (left; reflexivity).
  destruct (giftCard_guards unloadedSaveFile (parseWonderCard testCard) [] []
              testCard defaultInjectionOptions Hguard)
    as (_ & Hraw & _ & _ & Hhas).
  split; [exact Hraw |]. apply Hhas. left. reflexivity.
Defined.

Lemma parseWonderCard_skips_header (raw : list Z) :
  length raw = 336%nat ->
  parseWonderCard raw = parseWonderCard (drop 4 raw).
Proof.
  intros Hlen.
  assert (Hlen' : length (drop 4 raw) = 332%nat) by (rewrite length_drop; lia).
  unfold parseWonderCard at 2. rewrite Hlen'.
  unfold parseWonderCard. rewrite Hlen. reflexivity.
Qed.

(** X10. On a loaded FireRed/LeafGreen or Emerald save with a gift-card
    section the extractors stay inside the buffer: the raw card has
    exactly 336 bytes and the script 1000, with no error.  The parsed
    card is the parse of the raw card, and [hasWonderCard] holds exactly
    when the first two bytes of the raw card (the stored CRC) are not
    both zero. *)
Theorem extractors_agree (sf : SaveFile) :
  loadedSave sf ->
  m_detectedGame sf = Emerald \/ m_detectedGame sf = FireRedLeafGreen ->
  0 <= findWonderCardBlock sf ->
  exists raw script,
    extractWonderCardRaw sf = (raw, None) /\ length raw = 336%nat /\
    extractScript sf = (script, None) /\ length script = 1000%nat /\
    extractWonderCard sf = inr (parseWonderCard raw) /\
    hasWonderCard sf = negb ((peek raw 0 =? 0) && (peek raw 1 =? 0)).
Proof.
  intros Hloaded Hgame Hblock.
  pose proof (loadedSave_isLoaded sf Hloaded) as Hl.
  pose proof (findWonderCardBlock_range sf Hblock) as Hrange.
  destruct Hloaded as [Hlen Hslot].
  assert (Hu : m_detectedGame sf <> Unknown) by (destruct Hgame; congruence).
  assert (Hr : m_detectedGame sf <> RubySapphire) by (destruct Hgame; congruence).
  unfold extractWonderCardRaw, extractScript, extractWonderCard, hasWonderCard.
  rewrite Hl. cbn [negb].
  destruct (decide (m_detectedGame sf = Unknown)); [contradiction |].
  destruct (decide (m_detectedGame sf = RubySapphire)); [contradiction |].
  cbv zeta.
  destruct (Z.ltb_spec (findWonderCardBlock sf) 0) as [Hneg | _]; [lia |].
  fold (giftBlockOffsetOf sf) (wonderCardOffsetOf sf) (scriptOffsetOf sf).
  assert (HB : 0 <= giftBlockOffsetOf sf /\
               giftBlockOffsetOf sf + 4096 <= Z.of_nat (length (m_bytes sf))).
  { unfold giftBlockOffsetOf, SECTION_SIZE, SECTIONS_PER_SAVE,
      EXPECTED_FILE_SIZE in *. lia. }
  assert (Hw : 0 <= wonderCardOffsetOf sf /\ wonderCardOffsetOf sf + 336 <= 4096).
  { unfold wonderCardOffsetOf. destruct (bool_decide _); vm_compute; split; discriminate. }
  assert (Hs : 0 <= scriptOffsetOf sf /\ scriptOffsetOf sf + 1004 <= 4096).
  { unfold scriptOffsetOf. destruct (bool_decide _); vm_compute; split; discriminate. }
  set (off := giftBlockOffsetOf sf + wonderCardOffsetOf sf).
  assert (Hlraw : length (copyOf (advance (m_bytes sf) off) 336) = 336%nat).
  { rewrite length_copyOf; [reflexivity | subst off; lia ..]. }
  exists (copyOf (advance (m_bytes sf) off) 336),
    (copyOf (advance (m_bytes sf) (giftBlockOffsetOf sf + scriptOffsetOf sf + 4)) 1000).
  split; [reflexivity |]. split; [exact Hlraw |].
  split; [reflexivity |]. split.
  { rewrite length_copyOf; [reflexivity | lia ..]. }
  split.
  - f_equal. rewrite (parseWonderCard_skips_header _ Hlraw).
    f_equal. unfold copyOf, advance.
    change (Z.to_nat 336) with (4 + 332)%nat.
    rewrite <- take_drop_commute, drop_drop.
    change (Z.to_nat 332) with 332%nat.
    do 2 f_equal. subst off. lia.
  - f_equal.
    assert (Hp : forall k, 0 <= k < 336 ->
              peek (copyOf (advance (m_bytes sf) off) 336) k = peek (m_bytes sf) (off + k)).
    { intros k Hk. unfold peek, copyOf, advance.
      rewrite lookup_take_lt by lia. rewrite lookup_drop.
      do 3 f_equal. subst off. lia. }
    rewrite !Hp by lia. rewrite Z.add_0_r.
    pose proof (peek_range (m_bytes sf) off) as H0.
    pose proof (peek_range (m_bytes sf) (off + 1)) as H1.
    rewrite lor_shiftl_add by lia. change (2 ^ 8) with 256.
    rewrite u16_small by lia.
    destruct (Z.eqb_spec (peek (m_bytes sf) off) 0) as [E0 | E0];
      destruct (Z.eqb_spec (peek (m_bytes sf) (off + 1)) 0) as [E1 | E1];
      cbn [andb]; apply Z.eqb_eq || apply Z.eqb_neq; lia.
Qed.

(** Witness for X10. *)
Lemma extractors_agree_witness :
  exists raw,
    extractWonderCardRaw sampleSaveFile = (raw, None) /\
    extractWonderCard sampleSaveFile = inr (parseWonderCard raw).
Proof.
  destruct (extractors_agree sampleSaveFile
              sampleSaveFile_loaded sampleSaveFile_game sampleSaveFile_giftBlock)
    as (raw & script & Hraw & _ & _ & _ & Hcard & _).
  exists raw. split; assumption.
Defined.

(** ** Section lookup and loading *)

(** The position loop over [m, m + n) returns the first position that
    passes the test. *)
Lemma firstPosition_seqZ test (n : nat) : forall m,
  let p := firstPosition test (seqZ m (Z.of_nat n)) in
  (p = -1 /\ forall x, m <= x < m + Z.of_nat n -> test x = false) \/
  (m <= p < m + Z.of_nat n /\ test p = true /\
   forall x, m <= x < p -> test x = false).
Proof.
  induction n as [| n IH]; intros m; cbv zeta.
  - left. split; [reflexivity | intros x Hx; lia].
  - rewrite seqZ_cons by lia. cbn [firstPosition].
    replace (Z.pred (Z.of_nat (S n))) with (Z.of_nat n) by lia.
    destruct (test m) eqn:Hm.
    + right. split; [lia |]. split; [exact Hm | intros x Hx; lia].
    + destruct (IH (Z.succ m)) as [[Hp Hnone] | (Hp & Ht & Hnone)].
      * left. split; [exact Hp |]. intros x Hx.
        destruct (decide (x = m)) as [-> | Hne]; [exact Hm | apply Hnone; lia].
      * right. split; [lia |]. split; [exact Ht |]. intros x Hx.
        destruct (decide (x = m)) as [-> | Hne]; [exact Hm | apply Hnone; lia].
Qed.

(** X11. [findWonderCardBlock] answers -1 on a save that is not loaded
    or has no active slot.  Otherwise it returns the first of the 14
    physical positions of the active slot whose section id has low byte
    4, and -1 exactly when no position has one.  It never looks at the
    high byte of the id, nor at anything but the 14 low id bytes: two
    loaded saves with the same active slot that agree on those bytes
    get the same answer.  So it finds a section whenever
    [findSection 4] does, at the same or an earlier position, and the
    two agree when the high id byte of every section of the active slot
    is zero. *)
Theorem findWonderCardBlock_low_byte (sf : SaveFile) :
  let idAt pos :=
    m_activeSaveSlot sf * (SECTION_SIZE * SECTIONS_PER_SAVE)
    + pos * SECTION_SIZE + SECTION_ID_OFFSET in
  (isLoaded (m_bytes sf) = false \/ m_activeSaveSlot sf < 0 ->
   findWonderCardBlock sf = -1) /\
  (isLoaded (m_bytes sf) = true -> 0 <= m_activeSaveSlot sf ->
   (findWonderCardBlock sf = -1 /\
    forall pos, 0 <= pos < SECTIONS_PER_SAVE ->
      peek (m_bytes sf) (idAt pos) <> WONDERCARD_BLOCK_MARKER) \/
   (0 <= findWonderCardBlock sf < SECTIONS_PER_SAVE /\
    peek (m_bytes sf) (idAt (findWonderCardBlock sf)) = WONDERCARD_BLOCK_MARKER /\
    forall pos, 0 <= pos < findWonderCardBlock sf ->
      peek (m_bytes sf) (idAt pos) <> WONDERCARD_BLOCK_MARKER)) /\
  (forall other : SaveFile,
     isLoaded (m_bytes other) = isLoaded (m_bytes sf) ->
     m_activeSaveSlot other = m_activeSaveSlot sf ->
     (forall pos, 0 <= pos < SECTIONS_PER_SAVE ->
        peek (m_bytes other) (idAt pos) = peek (m_bytes sf) (idAt pos)) ->
     findWonderCardBlock other = findWonderCardBlock sf) /\
  (0 <= findSection sf 4 -> 0 <= findWonderCardBlock sf <= findSection sf 4) /\
  ((forall pos, 0 <= pos < SECTIONS_PER_SAVE -> peek (m_bytes sf) (idAt pos + 1) = 0) ->
   findWonderCardBlock sf = findSection sf 4).
Proof.
  intros idAt.
  assert (Hguard : isLoaded (m_bytes sf) = false \/ m_activeSaveSlot sf < 0 ->
                   negb (isLoaded (m_bytes sf)) || (m_activeSaveSlot sf <? 0) = true).
  { intros [-> | Hneg]; [reflexivity |].
    apply orb_true_iff. right. by apply Z.ltb_lt. }
  assert (Hpass : isLoaded (m_bytes sf) = true -> 0 <= m_activeSaveSlot sf ->
                  negb (isLoaded (m_bytes sf)) || (m_activeSaveSlot sf <? 0) = false).
  { intros -> Hslot. cbn [negb orb]. apply Z.ltb_ge. lia. }
  split; [| split; [| split]].
  - intros Hg. unfold findWonderCardBlock. by rewrite (Hguard Hg).
  - intros Hl Hslot. unfold findWonderCardBlock. rewrite (Hpass Hl Hslot).
    cbv zeta. change SECTIONS_PER_SAVE with (Z.of_nat 14).
    set (test1 := fun section : Z => peek (m_bytes sf) _ =? WONDERCARD_BLOCK_MARKER).
    assert (H1 : forall pos, test1 pos = (peek (m_bytes sf) (idAt pos) =? 4))
      by reflexivity.
    pose proof (firstPosition_seqZ test1 14 0) as F1. cbv zeta in F1.
    set (p1 := firstPosition test1 (seqZ 0 (Z.of_nat 14))) in *.
    destruct F1 as [[Hp Hnone] | (Hp & Ht & Hnone)]; [left | right].
    + split; [exact Hp |]. intros pos Hpos Hc.
      specialize (Hnone pos ltac:(lia)).
      rewrite H1 in Hnone. apply Z.eqb_neq in Hnone. contradiction.
    + split; [lia |]. split.
      * rewrite H1 in Ht. by apply Z.eqb_eq in Ht.
      * intros pos Hpos Hc. specialize (Hnone pos ltac:(lia)).
        rewrite H1 in Hnone. apply Z.eqb_neq in Hnone. contradiction.
  - intros other Hl Hslot Hsame. unfold findWonderCardBlock.
    rewrite Hl, Hslot.
    destruct (negb (isLoaded (m_bytes sf)) || (m_activeSaveSlot sf <? 0));
      [reflexivity |].
    cbv zeta. apply firstPosition_ext.
    intros pos Hpos. apply elem_of_seqZ in Hpos.
    f_equal. apply Hsame. lia.
  - unfold findWonderCardBlock, findSection.
    destruct (negb (isLoaded (m_bytes sf)) || (m_activeSaveSlot sf <? 0)).
    { split; [lia | reflexivity]. }
    cbv zeta.
    change SECTIONS_PER_SAVE with (Z.of_nat 14).
    set (test1 := fun section : Z => peek (m_bytes sf) _ =? WONDERCARD_BLOCK_MARKER).
    set (test2 := fun pos : Z => le16 (m_bytes sf) _ =? 4).
    assert (H1 : forall pos, test1 pos = (peek (m_bytes sf) (idAt pos) =? 4))
      by reflexivity.
    assert (H2 : forall pos, test2 pos = (le16 (m_bytes sf) (idAt pos) =? 4))
      by reflexivity.
    assert (H21 : forall pos, test2 pos = true -> test1 pos = true).
    { intros pos. rewrite H1, H2, le16_value. intros H. apply Z.eqb_eq in H.
      apply Z.eqb_eq.
      pose proof (peek_range (m_bytes sf) (idAt pos)).
      pose proof (peek_range (m_bytes sf) (idAt pos + 1)). lia. }
    pose proof (firstPosition_seqZ test1 14 0) as F1.
    pose proof (firstPosition_seqZ test2 14 0) as F2.
    cbv zeta in F1, F2.
    set (p1 := firstPosition test1 (seqZ 0 (Z.of_nat 14))) in *.
    set (p2 := firstPosition test2 (seqZ 0 (Z.of_nat 14))) in *.
    split.
    + intros Hfound.
      destruct F2 as [[Hp _] | (Hp2 & Ht2 & _)]; [lia |].
      apply H21 in Ht2.
      destruct F1 as [[_ Hnone] | (Hp1 & _ & Hnone)].
      * rewrite Hnone in Ht2 by lia. discriminate.
      * split; [lia |].
        destruct (Z.le_gt_cases p1 p2) as [Hle | Hgt]; [exact Hle |].
        rewrite Hnone in Ht2 by lia. discriminate.
    + intros Hhigh. subst p1 p2. apply firstPosition_ext.
      intros pos Hpos. apply elem_of_seqZ in Hpos.
      rewrite H1, H2, le16_value, Hhigh by (change SECTIONS_PER_SAVE with 14; lia).
      by rewrite Z.add_0_r.
Qed.

(** X12. [loadFromFile] rejects contents of any size other than 131072
    bytes and leaves the object unloaded.  Otherwise it keeps the
    contents unchanged, selects slot 0 or 1 by active-slot detection,
    caches the validity of exactly that slot, and classifies the game
    from the game code and security key found there: code 1 is
    FireRed/LeafGreen; else a security key means Emerald; else code 0
    is Ruby/Sapphire; anything else is unknown. *)
Theorem loadFromFile_cases (contents : list Z) :
  (Z.of_nat (length contents) <> EXPECTED_FILE_SIZE ->
   exists msg,
     loadFromFile contents = (Failure msg, mkSaveFile [] Unknown false (-1))) /\
  (Z.of_nat (length contents) = EXPECTED_FILE_SIZE ->
   exists sf,
     loadFromFile contents = (Success, sf) /\
     m_bytes sf = contents /\
     m_activeSaveSlot sf = findActiveSaveSlot contents /\
     (m_activeSaveSlot sf = 0 \/ m_activeSaveSlot sf = 1) /\
     m_checksumValid sf = valid (analyzeSaveSlot contents (m_activeSaveSlot sf)) /\
     let info := analyzeSaveSlot contents (m_activeSaveSlot sf) in
     m_detectedGame sf =
       if gameCode info =? 1 then FireRedLeafGreen
       else if hasSecurityKey info then Emerald
       else if gameCode info =? 0 then RubySapphire
       else Unknown).
Proof.
  split.
  - intros Hsize. unfold loadFromFile.
    destruct (Z.eqb_spec (Z.of_nat (length contents)) EXPECTED_FILE_SIZE); [lia |].
    cbn [negb]. eexists. reflexivity.
  - intros Hsize.
    pose proof (isLoaded_length contents Hsize) as Hl.
    pose proof (findActiveSaveSlot_loaded contents Hl) as Hslot.
    unfold loadFromFile.
    destruct (Z.eqb_spec (Z.of_nat (length contents)) EXPECTED_FILE_SIZE); [| lia].
    cbn [negb]. unfold detectGameType. cbn [m_bytes]. rewrite Hl. cbn [negb].
    cbv zeta. cbn [m_bytes m_detectedGame m_checksumValid m_activeSaveSlot].
    destruct (Z.ltb_spec (findActiveSaveSlot contents) 0) as [Hneg | _]; [lia |].
    set (info := analyzeSaveSlot contents (findActiveSaveSlot contents)).
    assert (Hafter : forall game,
      (let '(ok, sf0) :=
         validateChecksums (mkSaveFile contents game false (findActiveSaveSlot contents)) in
       (Success,
        mkSaveFile (m_bytes sf0) (m_detectedGame sf0) ok (m_activeSaveSlot sf0))) =
      (Success, mkSaveFile contents game (valid info) (findActiveSaveSlot contents))).
    { intros game. unfold validateChecksums. cbn [m_bytes m_activeSaveSlot].
      rewrite Hl. cbn [negb].
      destruct (Z.ltb_spec (findActiveSaveSlot contents) 0) as [Hneg | _]; [lia |].
      cbn [m_bytes m_activeSaveSlot].
      destruct (Z.ltb_spec (findActiveSaveSlot contents) 0) as [Hneg | _]; [lia |].
      reflexivity. }
    destruct (gameCode info =? 1) eqn:H1.
    { eexists. split; [apply Hafter |]. cbn [m_bytes m_activeSaveSlot m_checksumValid m_detectedGame].
      fold info. rewrite H1. repeat split; done. }
    rewrite andb_true_r.
    destruct (hasSecurityKey info) eqn:Hk.
    { eexists. split; [apply Hafter |]. cbn [m_bytes m_activeSaveSlot m_checksumValid m_detectedGame].
      fold info. rewrite H1, Hk. repeat split; done. }
    destruct (gameCode info =? 0) eqn:H0.
    { eexists. split; [apply Hafter |]. cbn [m_bytes m_activeSaveSlot m_checksumValid m_detectedGame].
      fold info. rewrite H1, Hk, H0. repeat split; done. }
    eexists. split; [apply Hafter |]. cbn [m_bytes m_activeSaveSlot m_checksumValid m_detectedGame].
      fold info. rewrite H1, Hk, H0. repeat split; done.
Qed.

(** ** Text fields for any text *)

Lemma priorityChars_checked :
  forallb (fun c => existsb (Z.eqb c) GEN3_TO_UNICODE) priorityChars = true.
Proof. vm_compute. reflexivity. Qed.

Lemma priorityChars_table c : c ∈ priorityChars -> c ∈ GEN3_TO_UNICODE.
Proof.
  intros Hin.
  pose proof (proj1 (forallb_forall _ _) priorityChars_checked c
                (proj1 (list_elem_of_In _ _) Hin)) as H.
  cbv beta in H. apply existsb_exists in H as (x & Hx & Heq).
  apply Z.eqb_eq in Heq. subst x. by apply list_elem_of_In.
Qed.

Lemma tableScan_miss unicode table : forall i,
  unicode ∉ table -> tableScan table i unicode = 0.
Proof.
  induction table as [| entry rest IH]; intros i Hnot; [reflexivity |].
  cbn [tableScan].
  destruct (Z.eqb_spec entry unicode) as [-> | Hne].
  - exfalso. apply Hnot. left.
  - apply IH. intros Hin. apply Hnot. by right.
Qed.

Lemma unicodeToGen3_miss c : c ∉ GEN3_TO_UNICODE -> unicodeToGen3 c = 0.
Proof.
  intros Hnot.
  assert (Hp : c ∉ priorityChars) by (intros Hin; by apply Hnot, priorityChars_table).
  unfold priorityChars in Hp.
  rewrite !not_elem_of_app in Hp.
  destruct Hp as (Hd & Hu & Hl & Hs).
  rewrite !elem_of_seqZ in Hd, Hu, Hl.
  rewrite !not_elem_of_cons in Hs.
  unfold unicodeToGen3.
  destruct (Z.leb_spec 0x30 c), (Z.leb_spec c 0x39); cbn [andb]; try lia.
  all: destruct (Z.leb_spec 0x41 c), (Z.leb_spec c 0x5A); cbn [andb]; try lia.
  all: destruct (Z.leb_spec 0x61 c), (Z.leb_spec c 0x7A); cbn [andb]; try lia.
  all: repeat match goal with
       | |- context [?x =? ?k] =>
           destruct (Z.eqb_spec x k) as [E | _]; [exfalso; lia |]
       end.
  all: by apply tableScan_miss.
Qed.

Lemma unicodeToGen3_cases c :
  (tableChar c /\ gen3Char (unicodeToGen3 c) = c /\ unicodeToGen3 c <> 0xFF) \/
  (c = 0 /\ unicodeToGen3 c = 0x18) \/
  (c <> 0 /\ (c ∉ GEN3_TO_UNICODE) /\ unicodeToGen3 c = 0x00).
Proof.
  destruct (decide (c = 0)) as [-> | Hnz].
  { right. left. split; reflexivity. }
  destruct (decide (c ∈ GEN3_TO_UNICODE)) as [Hin | Hnot].
  - left. assert (Ht : tableChar c) by (by split).
    split; [exact Ht | by apply tableChar_code].
  - right. right. split; [exact Hnz |]. split; [exact Hnot |].
    by apply unicodeToGen3_miss.
Qed.

Lemma decodeChar_code c :
  decodeChar (unicodeToGen3 c) = fieldChar c /\ unicodeToGen3 c <> 0xFF.
Proof.
  unfold fieldChar.
  destruct (unicodeToGen3_cases c) as [(Ht & Hback & Hterm) | [[-> Hc] | (Hnz & Hnot & Hc)]].
  - split; [| exact Hterm]. destruct Ht as [Hnz Hin].
    destruct (Z.eqb_spec c 0) as [E | _]; [contradiction |].
    rewrite bool_decide_eq_true_2 by exact Hin.
    rewrite decodeChar_entry by (by rewrite Hback). by rewrite Hback.
  - rewrite Hc. split; [reflexivity | discriminate].
  - rewrite Hc. split; [| discriminate].
    destruct (Z.eqb_spec c 0) as [E | _]; [contradiction |].
    by rewrite bool_decide_eq_false_2 by exact Hnot.
Qed.

Lemma decodeList_any_codes (text : QString) (rest : list Z) :
  decodeList ((unicodeToGen3 <$> text) ++ rest) =
  (text ≫= fieldChar) ++ decodeList rest.
Proof.
  induction text as [| c text IH]; [reflexivity |].
  cbn [fmap list_fmap app decodeList mbind list_bind].
  destruct (decodeChar_code c) as [Hd Hterm].
  destruct (Z.eqb_spec (unicodeToGen3 c) 255) as [E | _]; [contradiction |].
  rewrite Hd, IH. by rewrite app_assoc.
Qed.

Lemma fieldChar_table c : c <> 0 -> exists c', fieldChar c = [c'] /\ tableChar c'.
Proof.
  intros Hnz. unfold fieldChar.
  destruct (Z.eqb_spec c 0) as [E | _]; [contradiction |].
  case_bool_decide as Hin.
  - exists c. by split.
  - exists 0x20. split; [reflexivity | apply tableChar_space].
Qed.

(** X13. One trip of any text through a text field of width [n]:
    the text is cut to [n] characters, every character of the table is
    kept, NUL is dropped, any other character becomes a space, and the
    result is padded with spaces; nothing marks where the text ended.
    For a text without NUL the result has exactly [n] characters and a
    second trip returns it unchanged. *)
Theorem roundTrip_any_text (text : QString) (n : nat) :
  roundTrip (Z.of_nat n) text =
    (take n text ≫= fieldChar) ++ replicate (n - length text) 0x20 /\
  (Forall (fun c => c <> 0) text ->
   length (roundTrip (Z.of_nat n) text) = n /\
   roundTrip (Z.of_nat n) (roundTrip (Z.of_nat n) text) = roundTrip (Z.of_nat n) text).
Proof.
  assert (Hone : roundTrip (Z.of_nat n) text =
                 (take n text ≫= fieldChar) ++ replicate (n - length text) 0x20).
  { unfold roundTrip.
    rewrite encodeTextField_fieldBytes.
    rewrite decodeText_spec by (rewrite length_fieldBytes; lia).
    rewrite take_ge by (rewrite length_fieldBytes; lia).
    rewrite fmap_u8_bytes by apply fieldBytes_bytes.
    unfold fieldBytes. rewrite decodeList_any_codes, decodeList_zeros. reflexivity. }
  split; [exact Hone |].
  intros Hnz.
  assert (Hshape : forall t : QString, Forall (fun c => c <> 0) t ->
            Forall tableChar (t ≫= fieldChar) /\ length (t ≫= fieldChar) = length t).
  { induction 1 as [| c t Hc _ [IH1 IH2]]; [by split |].
    cbn [mbind list_bind].
    destruct (fieldChar_table c Hc) as (c' & -> & Ht).
    split; [by constructor |]. cbn [app length]. by rewrite IH2. }
  assert (Htake : Forall (fun c => c <> 0) (take n text)) by (by apply Forall_take).
  destruct (Hshape _ Htake) as [Htab Hlen].
  assert (Hl : length (roundTrip (Z.of_nat n) text) = n).
  { rewrite Hone, length_app, Hlen, length_take, length_replicate. lia. }
  split; [exact Hl |].
  rewrite roundTrip_tableText.
  - rewrite Hl, Nat.sub_diag. cbn [replicate]. rewrite app_nil_r.
    apply take_ge. lia.
  - rewrite Hone. apply Forall_app. split; [exact Htab |].
    apply Forall_replicate, tableChar_space.
Qed.

(** ** Character codes and field bytes *)

(** X14. [unicodeToGen3] always answers with a byte, and never with the
    terminator [0xFF].  For every character of the table other than
    NUL the answer decodes back to that character; every character
    outside the table is answered with [0x00], the code of the space;
    NUL is answered with [0x18], a code the decoder skips. *)
Theorem unicodeToGen3_characterised (c : Z) :
  0 <= unicodeToGen3 c < 255 /\
  (c ∈ GEN3_TO_UNICODE -> c <> 0 -> gen3Char (unicodeToGen3 c) = c) /\
  (c ∉ GEN3_TO_UNICODE -> unicodeToGen3 c = 0x00) /\
  (c = 0 -> unicodeToGen3 c = 0x18 /\ decodeText [unicodeToGen3 c] 1 = []).
Proof.
  pose proof (unicodeToGen3_range c) as Hr.
  destruct (unicodeToGen3_cases c)
    as [(Ht & Hback & Hterm) | [[-> Hc] | (Hnz & Hnot & Hc)]].
  - split; [lia |]. split; [by intros _ _ |]. split.
    + intros Hnot. destruct Ht as [_ Hin]. contradiction.
    + intros ->. destruct Ht as [Hnz _]. contradiction.
  - split; [rewrite Hc; lia |]. split; [intros _ Hnz; contradiction |].
    split; [intros Hnot; by apply unicodeToGen3_miss |].
    intros _. rewrite Hc. split; reflexivity.
  - split; [rewrite Hc; lia |]. split; [intros Hin; contradiction |].
    split; [by intros _ | intros ->; contradiction].
Qed.

Lemma decodeByte_length result byte :
  (length (decodeByte result byte) <= S (length result))%nat.
Proof.
  rewrite decodeByte_app, length_app.
  unfold decodeChar, decodeByte.
  repeat (destruct (_ : bool); cbn [negb length app]; try lia).
Qed.

Lemma decodeByte_nonzero result byte :
  Forall (fun c => c <> 0) result -> Forall (fun c => c <> 0) (decodeByte result byte).
Proof.
  intros H. unfold decodeByte. cbv zeta.
  destruct (Z.eqb_spec (gen3Char byte) 0) as [E | E]; cbn [negb].
  - repeat (destruct (_ : bool); [apply Forall_app; split; [done | by repeat constructor] |]).
    exact H.
  - apply Forall_app. split; [exact H | by repeat constructor].
Qed.

Lemma decodeTextLoop_bounds data : forall n i result,
  Forall (fun c => c <> 0) result ->
  (length (decodeTextLoop data i n result) <= length result + n)%nat /\
  Forall (fun c => c <> 0) (decodeTextLoop data i n result).
Proof.
  induction n as [| n IH]; intros i result Hnz; cbn [decodeTextLoop].
  - split; [lia | exact Hnz].
  - destruct (peek data i =? 255); [split; [lia | exact Hnz] |].
    destruct (IH (i + 1) (decodeByte result (peek data i))
                 (decodeByte_nonzero _ _ Hnz)) as [Hl Hf].
    pose proof (decodeByte_length result (peek data i)).
    split; [lia | exact Hf].
Qed.

Lemma decodeTextLoop_stop data : forall n i result k,
  (k < n)%nat -> peek data (i + Z.of_nat k) = 0xFF ->
  decodeTextLoop data i n result = decodeTextLoop data i k result.
Proof.
  induction n as [| n IH]; intros i result k Hk Hterm; [lia |].
  cbn [decodeTextLoop].
  destruct k as [| k].
  - rewrite Z.add_0_r in Hterm. rewrite Hterm. reflexivity.
  - cbn [decodeTextLoop].
    destruct (peek data i =? 255); [reflexivity |].
    apply IH; [lia |]. rewrite <- Hterm. f_equal. lia.
Qed.

(** X15. [decodeText] yields at most [maxLength] characters, none of
    them NUL, whatever the bytes are; and it stops at a terminator:
    when the byte at index [k] is [0xFF], the result is that of
    decoding the first [k] bytes alone. *)
Theorem decodeText_bounds (data : list Z) (maxLength : Z) :
  (Z.of_nat (length (decodeText data maxLength)) <= Z.max 0 maxLength) /\
  Forall (fun c => c <> 0) (decodeText data maxLength) /\
  (forall k, 0 <= k < maxLength -> peek data k = 0xFF ->
     decodeText data maxLength = decodeText data k).
Proof.
  unfold decodeText.
  destruct (decodeTextLoop_bounds data (Z.to_nat maxLength) 0 [] (Forall_nil_2 _))
    as [Hl Hf].
  split; [cbn [length] in Hl; lia |]. split; [exact Hf |].
  intros k Hk Hterm.
  apply decodeTextLoop_stop; [lia |].
  rewrite Z2Nat.id by lia. exact Hterm.
Qed.

(** X16. [encodeText] changes the [maxLength] bytes of its field and
    nothing else: it writes the codes of the first [maxLength]
    characters, cutting a longer text without any terminator, and
    fills the rest of the field with zero bytes. *)
Theorem encodeText_field_bytes (buf : list Z) (dest : Z) (text : QString) (n : nat) :
  0 <= dest -> (Z.to_nat dest + n <= length buf)%nat ->
  length (encodeText buf dest text (Z.of_nat n)) = length buf /\
  forall j : nat,
    encodeText buf dest text (Z.of_nat n) !! j =
    if decide (Z.to_nat dest <= j < Z.to_nat dest + n)%nat
    then Some (default 0 ((unicodeToGen3 <$> text) !! (j - Z.to_nat dest)%nat))
    else buf !! j.
Proof.
  intros Hdest Hfit. split; [apply length_encodeText |].
  intros j. rewrite encodeText_inserts by done.
  pose proof (length_fieldBytes text n) as Hlf.
  case_decide as Hj.
  - rewrite list_lookup_inserts by (rewrite ?Hlf; lia).
    unfold fieldBytes.
    destruct (decide (j - Z.to_nat dest < length text)%nat) as [Hin | Hout].
    + rewrite lookup_app_l by (rewrite length_fmap, length_take; lia).
      rewrite !list_lookup_fmap, lookup_take_lt by lia.
      destruct (lookup_lt_is_Some_2 text _ Hin) as [c ->]. reflexivity.
    + rewrite lookup_app_r by (rewrite length_fmap, length_take; lia).
      rewrite length_fmap, length_take.
      rewrite lookup_replicate_2 by lia.
      rewrite list_lookup_fmap, (proj2 (lookup_ge_None text _)) by lia. reflexivity.
  - destruct (decide (j < Z.to_nat dest)%nat).
    + by rewrite list_lookup_inserts_lt by lia.
    + by rewrite list_lookup_inserts_ge by (rewrite ?Hlf; lia).
Qed.

(** Witness for X16: "TEST" cut to two characters inside a five-byte
    buffer. *)
Lemma encodeText_field_bytes_witness :
  length (encodeText [9; 9; 9; 9; 9] 1 textTEST (Z.of_nat 2)) = 5%nat.
Proof.
  apply (encodeText_field_bytes [9; 9; 9; 9; 9] 1 textTEST 2); [lia | cbn; lia].
Defined.

(** ** Encoding followed by parsing *)

Lemma inserts_region_keep (l F : list Z) (o a n : nat) :
  (a + n <= o)%nat ->
  take n (drop a (list_inserts o F l)) = take n (drop a l).
Proof.
  intros H. apply list_eq. intros k.
  destruct (decide (k < n)%nat).
  - rewrite !lookup_take_lt, !lookup_drop by lia.
    apply list_lookup_inserts_lt. lia.
  - by rewrite !lookup_take_ge by lia.
Qed.

Lemma inserts_region_set (l F : list Z) (o : nat) :
  (o + length F <= length l)%nat ->
  take (length F) (drop o (list_inserts o F l)) = F.
Proof.
  intros H. apply list_eq. intros k.
  destruct (decide (k < length F)%nat).
  - rewrite lookup_take_lt, lookup_drop by lia.
    rewrite list_lookup_inserts by lia. f_equal. lia.
  - rewrite lookup_take_ge by lia. symmetry. apply lookup_ge_None. lia.
Qed.

Lemma decodeText_field_region (bytes : list Z) (off : Z) (text : QString) :
  0 <= off -> (Z.to_nat off + 40 <= length bytes)%nat ->
  take 40 (drop (Z.to_nat off) bytes) = fieldBytes text 40 ->
  decodeText (advance bytes off) TEXT_FIELD_SIZE = roundTrip 40 text.
Proof.
  intros Hoff Hfit Hreg.
  change TEXT_FIELD_SIZE with (Z.of_nat 40).
  change (roundTrip 40 text) with (roundTrip (Z.of_nat 40) text).
  unfold roundTrip. rewrite encodeTextField_fieldBytes.
  rewrite !decodeText_spec; [| rewrite length_fieldBytes; lia
                             | unfold advance; rewrite length_drop; lia].
  unfold advance. rewrite Hreg.
  rewrite (take_ge (fieldBytes text 40)) by (rewrite length_fieldBytes; lia).
  reflexivity.
Qed.

Lemma bytes16 e :
  Z.land e 255 mod 256 + 256 * (Z.land (Z.shiftr e 8) 255 mod 256) = e mod 65536.
Proof.
  rewrite !land_255, !Z.mod_mod by lia.
  rewrite shiftr_div by lia. change (2 ^ 8) with 256.
  change 65536 with (256 * 256).
  rewrite Z.rem_mul_r by lia. reflexivity.
Qed.

Lemma bytes32 e :
  Z.land e 255 mod 256 + 256 * (Z.land (Z.shiftr e 8) 255 mod 256)
  + 65536 * (Z.land (Z.shiftr e 16) 255 mod 256)
  + 16777216 * (Z.land (Z.shiftr e 24) 255 mod 256) = e mod 4294967296.
Proof.
  rewrite !land_255, !Z.mod_mod by lia.
  rewrite !shiftr_div by lia.
  change (2 ^ 8) with 256. change (2 ^ 16) with 65536. change (2 ^ 24) with 16777216.
  change 4294967296 with (256 * (256 * (256 * 256))).
  rewrite (Z.rem_mul_r e 256) by lia.
  rewrite (Z.rem_mul_r (e / 256) 256) by lia.
  rewrite (Z.rem_mul_r (e / 256 / 256) 256) by lia.
  rewrite !Z.div_div by lia.
  change (256 * 256) with 65536. change (65536 * 256) with 16777216. lia.
Qed.

(** X17. Encoding a card and parsing the result gives the card back
    with every numeric member reduced to the width of its field and
    every text sent once through a 40-byte text field.  The encoded
    payload always has 332 bytes, each of them a byte, and its last two
    bytes are zero. *)
Theorem encode_then_parse (d : WonderCardData) :
  parseWonderCard (encodeWonderCard d) =
    mkWonderCardData
      (eventId d mod 65536) (icon d mod 65536) (count d mod 4294967296)
      (typeColorResend d mod 256) (stampMax d mod 256)
      (roundTrip 40 (title d)) (roundTrip 40 (subtitle d))
      (roundTrip 40 (contentLine1 d)) (roundTrip 40 (contentLine2 d))
      (roundTrip 40 (contentLine3 d)) (roundTrip 40 (contentLine4 d))
      (roundTrip 40 (warningLine1 d)) (roundTrip 40 (warningLine2 d)) /\
  length (encodeWonderCard d) = 332%nat /\
  Forall isByte (encodeWonderCard d) /\
  drop 330 (encodeWonderCard d) = [0; 0].
Proof.
  set (H := poke (poke (poke (poke (poke (poke (poke (poke (poke (poke
              (replicate (Z.to_nat WONDERCARD_PAYLOAD_SIZE) 0)
              WonderCardOffsets.EVENT_ID (Z.land (eventId d) 0xFF))
              (WonderCardOffsets.EVENT_ID + 1) (Z.land (Z.shiftr (eventId d) 8) 0xFF))
              WonderCardOffsets.ICON (Z.land (icon d) 0xFF))
              (WonderCardOffsets.ICON + 1) (Z.land (Z.shiftr (icon d) 8) 0xFF))
              WonderCardOffsets.COUNT (Z.land (count d) 0xFF))
              (WonderCardOffsets.COUNT + 1) (Z.land (Z.shiftr (count d) 8) 0xFF))
              (WonderCardOffsets.COUNT + 2) (Z.land (Z.shiftr (count d) 16) 0xFF))
              (WonderCardOffsets.COUNT + 3) (Z.land (Z.shiftr (count d) 24) 0xFF))
              WonderCardOffsets.TYPE_COLOR_RESEND (u8 (typeColorResend d)))
              WonderCardOffsets.STAMP_MAX (u8 (stampMax d))).
  assert (HlH : length H = 332%nat).
  { subst H. rewrite !length_poke. apply length_replicate. }
  assert (HE : encodeWonderCard d =
    list_inserts 0x122 (fieldBytes (warningLine2 d) 40)
     (list_inserts 0xFA (fieldBytes (warningLine1 d) 40)
      (list_inserts 0xD2 (fieldBytes (contentLine4 d) 40)
       (list_inserts 0xAA (fieldBytes (contentLine3 d) 40)
        (list_inserts 0x82 (fieldBytes (contentLine2 d) 40)
         (list_inserts 0x5A (fieldBytes (contentLine1 d) 40)
          (list_inserts 0x32 (fieldBytes (subtitle d) 40)
           (list_inserts 0x0A (fieldBytes (title d) 40) H)))))))).
  { unfold encodeWonderCard. cbv zeta. fold H.
    unfold WonderCardOffsets.TITLE, WonderCardOffsets.SUBTITLE,
      WonderCardOffsets.CONTENT_LINE_1, WonderCardOffsets.CONTENT_LINE_2,
      WonderCardOffsets.CONTENT_LINE_3, WonderCardOffsets.CONTENT_LINE_4,
      WonderCardOffsets.WARNING_LINE_1, WonderCardOffsets.WARNING_LINE_2.
    do 8 (rewrite encodeText_field
            by (rewrite ?length_encodeText, ?length_inserts, ?HlH; lia)).
    reflexivity. }
  pose proof (length_fieldBytes (title d) 40) as L1.
  pose proof (length_fieldBytes (subtitle d) 40) as L2.
  pose proof (length_fieldBytes (contentLine1 d) 40) as L3.
  pose proof (length_fieldBytes (contentLine2 d) 40) as L4.
  pose proof (length_fieldBytes (contentLine3 d) 40) as L5.
  pose proof (length_fieldBytes (contentLine4 d) 40) as L6.
  pose proof (length_fieldBytes (warningLine1 d) 40) as L7.
  pose proof (length_fieldBytes (warningLine2 d) 40) as L8.
  assert (HlE : length (encodeWonderCard d) = 332%nat).
  { rewrite HE, !length_inserts. exact HlH. }
  (* the region of each text field *)
  assert (Hreg : forall (o : nat) (text : QString) (inner outer : list Z),
            (o + 40 <= length inner)%nat ->
            take 40 (drop o outer) = take 40 (drop o (list_inserts o (fieldBytes text 40) inner)) ->
            take 40 (drop o outer) = fieldBytes text 40).
  { intros o text inner outer Hfit ->.
    pose proof (inserts_region_set inner (fieldBytes text 40) o) as Hs.
    rewrite length_fieldBytes in Hs. apply Hs. lia. }
  assert (F1 : take 40 (drop 0x0A (encodeWonderCard d)) = fieldBytes (title d) 40).
  { apply (Hreg _ _ H); [lia |]. rewrite HE.
    by rewrite !inserts_region_keep by lia. }
  assert (F2 : take 40 (drop 0x32 (encodeWonderCard d)) = fieldBytes (subtitle d) 40).
  { eapply Hreg; [| rewrite HE; rewrite !inserts_region_keep by lia; reflexivity].
    rewrite !length_inserts. lia. }
  assert (F3 : take 40 (drop 0x5A (encodeWonderCard d)) = fieldBytes (contentLine1 d) 40).
  { eapply Hreg; [| rewrite HE; rewrite !inserts_region_keep by lia; reflexivity].
    rewrite !length_inserts. lia. }
  assert (F4 : take 40 (drop 0x82 (encodeWonderCard d)) = fieldBytes (contentLine2 d) 40).
  { eapply Hreg; [| rewrite HE; rewrite !inserts_region_keep by lia; reflexivity].
    rewrite !length_inserts. lia. }
  assert (F5 : take 40 (drop 0xAA (encodeWonderCard d)) = fieldBytes (contentLine3 d) 40).
  { eapply Hreg; [| rewrite HE; rewrite !inserts_region_keep by lia; reflexivity].
    rewrite !length_inserts. lia. }
  assert (F6 : take 40 (drop 0xD2 (encodeWonderCard d)) = fieldBytes (contentLine4 d) 40).
  { eapply Hreg; [| rewrite HE; rewrite !inserts_region_keep by lia; reflexivity].
    rewrite !length_inserts. lia. }
  assert (F7 : take 40 (drop 0xFA (encodeWonderCard d)) = fieldBytes (warningLine1 d) 40).
  { eapply Hreg; [| rewrite HE; rewrite !inserts_region_keep by lia; reflexivity].
    rewrite !length_inserts. lia. }
  assert (F8 : take 40 (drop 0x122 (encodeWonderCard d)) = fieldBytes (warningLine2 d) 40).
  { eapply Hreg; [| rewrite HE; reflexivity].
    rewrite !length_inserts. lia. }
  (* bytes outside the text fields are those of the header buffer *)
  assert (Hhead : forall j : nat, (j < 10 \/ 330 <= j)%nat ->
            encodeWonderCard d !! j = H !! j).
  { intros j Hj. rewrite HE.
    destruct Hj as [Hj | Hj].
    - by rewrite !list_lookup_inserts_lt by lia.
    - by rewrite !list_lookup_inserts_ge by lia. }
  assert (Hpeek : forall j, 0 <= j < 10 -> peek (encodeWonderCard d) j = peek H j).
  { intros j Hj. unfold peek. rewrite Hhead by lia. reflexivity. }
  assert (HbH : Forall isByte H).
  { subst H. unfold poke.
    repeat (apply Forall_insert;
            [| first [ rewrite land_255; apply Z.mod_pos_bound; lia
                     | apply u8_range ] ]).
    apply Forall_replicate. unfold isByte. lia. }
  assert (Hins : forall (l k : list Z) (o : nat),
            Forall isByte l -> Forall isByte k -> Forall isByte (list_inserts o k l)).
  { intros l k o Hl Hk. apply Forall_lookup. intros j x Hx.
    apply list_lookup_inserts_Some in Hx as [[_ Hx] | (_ & _ & Hx)].
    - by eapply (proj1 (Forall_lookup _ _)) in Hx.
    - by eapply (proj1 (Forall_lookup _ _)) in Hx. }
  assert (Hzero : forall j : nat, (10 <= j < 332)%nat -> H !! j = Some 0).
  { intros j Hj. subst H. unfold poke.
    rewrite !list_lookup_insert_ne by (vm_compute; lia).
    apply lookup_replicate_2. vm_compute. lia. }
  split; [| split; [exact HlE | split]].
  - unfold parseWonderCard. rewrite HlE.
    change (Z.of_nat 332 <? WONDERCARD_PAYLOAD_SIZE) with false.
    change (Z.of_nat 332 =? WONDERCARD_TOTAL_SIZE) with false.
    cbv iota zeta.
    unfold WonderCardOffsets.TITLE, WonderCardOffsets.SUBTITLE,
      WonderCardOffsets.CONTENT_LINE_1, WonderCardOffsets.CONTENT_LINE_2,
      WonderCardOffsets.CONTENT_LINE_3, WonderCardOffsets.CONTENT_LINE_4,
      WonderCardOffsets.WARNING_LINE_1, WonderCardOffsets.WARNING_LINE_2,
      WonderCardOffsets.EVENT_ID, WonderCardOffsets.ICON, WonderCardOffsets.COUNT,
      WonderCardOffsets.TYPE_COLOR_RESEND, WonderCardOffsets.STAMP_MAX.
    rewrite (decodeText_field_region _ 0x0A (title d)
               ltac:(lia) ltac:(rewrite HlE; lia) F1).
    rewrite (decodeText_field_region _ 0x32 (subtitle d)
               ltac:(lia) ltac:(rewrite HlE; lia) F2).
    rewrite (decodeText_field_region _ 0x5A (contentLine1 d)
               ltac:(lia) ltac:(rewrite HlE; lia) F3).
    rewrite (decodeText_field_region _ 0x82 (contentLine2 d)
               ltac:(lia) ltac:(rewrite HlE; lia) F4).
    rewrite (decodeText_field_region _ 0xAA (contentLine3 d)
               ltac:(lia) ltac:(rewrite HlE; lia) F5).
    rewrite (decodeText_field_region _ 0xD2 (contentLine4 d)
               ltac:(lia) ltac:(rewrite HlE; lia) F6).
    rewrite (decodeText_field_region _ 0xFA (warningLine1 d)
               ltac:(lia) ltac:(rewrite HlE; lia) F7).
    rewrite (decodeText_field_region _ 0x122 (warningLine2 d)
               ltac:(lia) ltac:(rewrite HlE; lia) F8).
    rewrite le16_value, le16_value, le32_value.
    rewrite !Hpeek by lia.
    subst H.
    unfold WonderCardOffsets.EVENT_ID, WonderCardOffsets.ICON, WonderCardOffsets.COUNT,
      WonderCardOffsets.TYPE_COLOR_RESEND, WonderCardOffsets.STAMP_MAX,
      WONDERCARD_PAYLOAD_SIZE.
    repeat first
      [ rewrite peek_poke_ne by lia
      | rewrite peek_poke_eq by (rewrite ?length_poke, length_replicate; lia) ].
    unfold u8, u16, u32.
    rewrite bytes16, bytes16, bytes32.
    rewrite !Z.mod_mod by lia. reflexivity.
  - rewrite HE. repeat apply Hins; try apply fieldBytes_bytes. exact HbH.
  - apply list_eq. intros j.
    rewrite lookup_drop.
    destruct j as [| [| j]].
    + rewrite Hhead by lia. apply Hzero. lia.
    + rewrite Hhead by lia. apply Hzero. lia.
    + cbn [lookup list_lookup]. apply lookup_ge_None. rewrite HlE. lia.
Qed.

(** ** Colours *)

Lemma lor_mul_join x a m k :
  0 <= k -> 0 <= a < 2 ^ k -> x = m * 2 ^ k -> Z.lor x a = x + a.
Proof.
  intros Hk Ha ->. rewrite Z.lor_comm, <- Z.shiftl_mul_pow2 by lia.
  rewrite lor_shiftl_add by lia. rewrite Z.shiftl_mul_pow2 by lia. lia.
Qed.

Lemma qRgb_value r g b :
  0 <= r < 256 -> 0 <= g < 256 -> 0 <= b < 256 ->
  qRgb r g b = 0xFF000000 + 65536 * r + 256 * g + b.
Proof.
  intros Hr Hg Hb. unfold qRgb.
  rewrite !land_255, !Z.mod_small by lia.
  rewrite !Z.shiftl_mul_pow2 by lia.
  rewrite (lor_mul_join _ (r * 2 ^ 16) 255 24) by lia.
  rewrite (lor_mul_join _ (g * 2 ^ 8) (255 * 2 ^ 8 + r) 16) by lia.
  rewrite (lor_mul_join _ b (255 * 2 ^ 16 + r * 2 ^ 8 + g) 8) by lia.
  lia.
Qed.

(** Scaling of one 5-bit channel to 8 bits: [(c << 3) | ((c << 3) >> 5)]. *)
Lemma channel_scale c :
  0 <= c < 32 ->
  Z.lor (Z.shiftl c 3) (Z.shiftr (Z.shiftl c 3) 5) = 8 * c + c / 4.
Proof.
  intros Hc.
  rewrite Z.shiftl_mul_pow2, shiftr_div by lia.
  replace (c * 2 ^ 3 / 2 ^ 5) with (c / 4)
    by (change (2 ^ 5) with (2 ^ 3 * 4); rewrite Z.mul_comm, Z.div_mul_cancel_l by lia; done).
  rewrite (lor_mul_join _ (c / 4) c 3); [lia | lia | | done].
  split; [apply Z.div_pos; lia | apply Z.div_lt_upper_bound; lia].
Qed.

Lemma land_field c k :
  0 <= k ->
  Z.shiftr (Z.land c (Z.shiftl 0x1F k)) k = (c / 2 ^ k) mod 32.
Proof.
  intros Hk.
  rewrite Z.shiftr_land, Z.shiftr_shiftl_l, Z.sub_diag, Z.shiftl_0_r by lia.
  change 0x1F with (Z.ones 5). rewrite Z.land_ones by lia.
  by rewrite Z.shiftr_div_pow2 by lia.
Qed.

Lemma gbaColorToQRgb_value c :
  let r5 := c mod 32 in
  let g5 := (c / 32) mod 32 in
  let b5 := (c / 1024) mod 32 in
  gbaColorToQRgb c =
    0xFF000000 + 65536 * (8 * r5 + r5 / 4) + 256 * (8 * g5 + g5 / 4)
      + (8 * b5 + b5 / 4).
Proof.
  intros r5 g5 b5. unfold gbaColorToQRgb.
  assert (Hr : Z.land c 0x001F = r5).
  { pose proof (land_field c 0 ltac:(lia)) as H.
    rewrite Z.shiftr_0_r, Z.shiftl_0_r, Z.pow_0_r, Z.div_1_r in H. exact H. }
  assert (Hg : Z.shiftr (Z.land c 0x03E0) 5 = g5) by apply (land_field c 5 ltac:(lia)).
  assert (Hb : Z.shiftr (Z.land c 0x7C00) 10 = b5) by apply (land_field c 10 ltac:(lia)).
  rewrite Hr, Hg, Hb.
  assert (0 <= r5 < 32) by (apply Z.mod_pos_bound; lia).
  assert (0 <= g5 < 32) by (apply Z.mod_pos_bound; lia).
  assert (0 <= b5 < 32) by (apply Z.mod_pos_bound; lia).
  rewrite !channel_scale by lia.
  assert (forall x, 0 <= x < 32 -> 0 <= x / 4 < 8).
  { intros x Hx. split; [apply Z.div_pos; lia | apply Z.div_lt_upper_bound; lia]. }
  pose proof (H2 r5 H). pose proof (H2 g5 H0). pose proof (H2 b5 H1).
  rewrite qRgb_value by lia. lia.
Qed.

(** X18. [gbaColorToQRgb] is opaque, scales each 5-bit channel [c] of the BGR555
    colour to [8 * c + c / 4] (red in bits 16..23, green in bits 8..15, blue in
    bits 0..7), ignores bit 15 of its argument and loses nothing of the
    other fifteen bits. *)
Theorem gbaColorToQRgb_channels (c : Z) :
  let r5 := c mod 32 in
  let g5 := (c / 32) mod 32 in
  let b5 := (c / 1024) mod 32 in
  let q := gbaColorToQRgb c in
  q / 2 ^ 24 = 0xFF /\
  (q / 2 ^ 16) mod 256 = 8 * r5 + r5 / 4 /\
  (q / 2 ^ 8) mod 256 = 8 * g5 + g5 / 4 /\
  q mod 256 = 8 * b5 + b5 / 4 /\
  gbaColorToQRgb (c + 0x8000) = q /\
  (gbaColorToQRgb 0 = 0xFF000000 /\ gbaColorToQRgb 0x7FFF = 0xFFFFFFFF) /\
  forall c', gbaColorToQRgb c' = q -> c' mod 0x8000 = c mod 0x8000.
Proof.
  intros r5 g5 b5 q.
  assert (Hch : forall x, 0 <= x < 32 -> 0 <= 8 * x + x / 4 < 256).
  { intros x Hx.
    assert (0 <= x / 4 < 8)
      by (split; [apply Z.div_pos; lia | apply Z.div_lt_upper_bound; lia]).
    lia. }
  assert (Hinj : forall x y, 0 <= x < 32 -> 0 <= y < 32 ->
                             8 * x + x / 4 = 8 * y + y / 4 -> x = y).
  { intros x y Hx Hy Hxy.
    assert (0 <= x / 4 < 8)
      by (split; [apply Z.div_pos; lia | apply Z.div_lt_upper_bound; lia]).
    assert (0 <= y / 4 < 8)
      by (split; [apply Z.div_pos; lia | apply Z.div_lt_upper_bound; lia]).
    lia. }
  assert (Hq : q = 0xFF000000 + 65536 * (8 * r5 + r5 / 4)
                   + 256 * (8 * g5 + g5 / 4) + (8 * b5 + b5 / 4))
    by apply gbaColorToQRgb_value.
  assert (Hr : 0 <= r5 < 32) by (apply Z.mod_pos_bound; lia).
  assert (Hg : 0 <= g5 < 32) by (apply Z.mod_pos_bound; lia).
  assert (Hb : 0 <= b5 < 32) by (apply Z.mod_pos_bound; lia).
  pose proof (Hch r5 Hr) as HR. pose proof (Hch g5 Hg) as HG.
  pose proof (Hch b5 Hb) as HB.
  set (R := 8 * r5 + r5 / 4) in *. set (G := 8 * g5 + g5 / 4) in *.
  set (B := 8 * b5 + b5 / 4) in *.
  assert (Hsame : forall a b : Z, a mod 0x8000 = b mod 0x8000 ->
            a mod 32 = b mod 32 /\ (a / 32) mod 32 = (b / 32) mod 32 /\
            (a / 1024) mod 32 = (b / 1024) mod 32).
  { intros a b Hab. Z.to_euclidean_division_equations; lia. }
  assert (Hparts : forall a b : Z,
            a mod 32 = b mod 32 -> (a / 32) mod 32 = (b / 32) mod 32 ->
            (a / 1024) mod 32 = (b / 1024) mod 32 ->
            a mod 0x8000 = b mod 0x8000).
  { intros a b H1 H2 H3. Z.to_euclidean_division_equations; lia. }
  split; [| split; [| split; [| split; [| split; [| split]]]]].
  - rewrite Hq. clearbody R G B. Z.to_euclidean_division_equations; lia.
  - rewrite Hq. clearbody R G B. Z.to_euclidean_division_equations; lia.
  - rewrite Hq. clearbody R G B. Z.to_euclidean_division_equations; lia.
  - rewrite Hq. clearbody R G B. Z.to_euclidean_division_equations; lia.
  - unfold q. rewrite !gbaColorToQRgb_value.
    assert (Hm : (c + 0x8000) mod 0x8000 = c mod 0x8000).
    { replace (c + 0x8000) with (c + 1 * 0x8000) by lia. apply Z.mod_add. lia. }
    destruct (Hsame _ _ Hm) as (-> & -> & ->). reflexivity.
  - split; reflexivity.
  - intros c' Hc'. rewrite Hq, gbaColorToQRgb_value in Hc'. cbv zeta in Hc'.
    assert (Hr' : 0 <= c' mod 32 < 32) by (apply Z.mod_pos_bound; lia).
    assert (Hg' : 0 <= (c' / 32) mod 32 < 32) by (apply Z.mod_pos_bound; lia).
    assert (Hb' : 0 <= (c' / 1024) mod 32 < 32) by (apply Z.mod_pos_bound; lia).
    pose proof (Hch _ Hr'). pose proof (Hch _ Hg'). pose proof (Hch _ Hb').
    apply Hparts.
    + apply Hinj; [exact Hr' | exact Hr |].
      change (8 * (c' mod 32) + (c' mod 32) / 4 = R). lia.
    + apply Hinj; [exact Hg' | exact Hg |].
      change (8 * ((c' / 32) mod 32) + ((c' / 32) mod 32) / 4 = G). lia.
    + apply Hinj; [exact Hb' | exact Hb |].
      change (8 * ((c' / 1024) mod 32) + ((c' / 1024) mod 32) / 4 = B). lia.
Qed.

(** ** Reads inside the ROM *)

Lemma byteAt_peek (a : list Z) (i : Z) :
  0 <= i < Z.of_nat (length a) -> byteAt a i = Some (peek a i).
Proof.
  intros Hi. unfold byteAt, peek. case_decide; [| lia].
  destruct (a !! Z.to_nat i) as [x |] eqn:E; [done |].
  apply lookup_ge_None in E. lia.
Qed.

Lemma readByte_value (rom : list Z) (offset : Z) :
  Z.of_nat (length rom) < 4294967296 -> 0 <= offset ->
  readByte rom offset =
    Some (if offset <? Z.of_nat (length rom) then peek rom offset else 0).
Proof.
  intros Hsize Hoff. unfold readByte. rewrite (romSize_small rom Hsize).
  destruct (Z.leb_spec (Z.of_nat (length rom)) offset),
           (Z.ltb_spec offset (Z.of_nat (length rom))); try lia; [done |].
  apply byteAt_peek. lia.
Qed.

Lemma readHalfWord_value (rom : list Z) (offset : Z) :
  Z.of_nat (length rom) < 4294967296 -> 0 <= offset -> offset + 1 < 4294967296 ->
  readHalfWord rom offset =
    Some (if offset + 1 <? Z.of_nat (length rom) then le16 rom offset else 0).
Proof.
  intros Hsize Hoff Hw. unfold readHalfWord.
  rewrite (romSize_small rom Hsize), u32_small by lia.
  destruct (Z.leb_spec (Z.of_nat (length rom)) (offset + 1)),
           (Z.ltb_spec (offset + 1) (Z.of_nat (length rom))); try lia; [done |].
  rewrite !byteAt_peek by lia. cbn.
  fold (le16 rom offset). by rewrite u16_small by apply le16_range.
Qed.

Lemma readWord_value (rom : list Z) (offset : Z) :
  Z.of_nat (length rom) < 4294967296 -> 0 <= offset -> offset + 3 < 4294967296 ->
  readWord rom offset =
    Some (if offset + 3 <? Z.of_nat (length rom) then le32 rom offset else 0).
Proof.
  intros Hsize Hoff Hw. unfold readWord.
  rewrite (romSize_small rom Hsize), !u32_small by lia.
  destruct (Z.leb_spec (Z.of_nat (length rom)) (offset + 3)),
           (Z.ltb_spec (offset + 3) (Z.of_nat (length rom))); try lia; [done |].
  rewrite !byteAt_peek by lia. cbn.
  fold (le32 rom offset). by rewrite u32_small by apply le32_range.
Qed.

Lemma fmap_u8_mid (rom : list Z) (offset : Z) (n : nat) :
  0 <= offset -> offset + Z.of_nat n <= Z.of_nat (length rom) ->
  u8 <$> mid rom offset (Z.of_nat n) =
    (fun k : nat => peek rom (offset + Z.of_nat k)) <$> seq 0 n.
Proof.
  intros Hoff Hfit. unfold mid. apply list_eq. intros i.
  rewrite !list_lookup_fmap, Nat2Z.id.
  destruct (decide (i < n)%nat) as [Hi | Hi].
  - rewrite lookup_take_lt, lookup_drop, lookup_seq_lt by lia. cbn.
    unfold peek. replace (Z.to_nat (offset + Z.of_nat i)) with (Z.to_nat offset + i)%nat by lia.
    destruct (rom !! (Z.to_nat offset + i)%nat) as [x |] eqn:E; [done |].
    apply lookup_ge_None in E. lia.
  - rewrite lookup_take_ge, lookup_seq_ge by lia. done.
Qed.

(** X19. Where the offset arithmetic does not wrap, a read that lies
    inside the ROM is the little-endian value of its bytes, a word is its
    two half-words and a half-word its two bytes; a half-word or word of
    which only the first bytes lie inside the ROM reads as zero. *)
Theorem reads_inside_rom (rom : list Z) (offset : Z) :
  Z.of_nat (length rom) < 4294967296 ->
  0 <= offset -> offset + 4 < 4294967296 ->
  (offset + 3 < Z.of_nat (length rom) ->
     exists b0 b1 b2 b3 h0 h1 w,
       readByte rom offset = Some b0 /\ readByte rom (offset + 1) = Some b1 /\
       readByte rom (offset + 2) = Some b2 /\ readByte rom (offset + 3) = Some b3 /\
       readHalfWord rom offset = Some h0 /\ readHalfWord rom (offset + 2) = Some h1 /\
       readWord rom offset = Some w /\
       h0 = b0 + 256 * b1 /\ h1 = b2 + 256 * b3 /\ w = h0 + 65536 * h1 /\
       u8 <$> readBytes rom offset 4 = [b0; b1; b2; b3]) /\
  (offset < Z.of_nat (length rom) <= offset + 3 ->
     readByte rom offset = Some (peek rom offset) /\
     readWord rom offset = Some 0 /\ readBytes rom offset 4 = []) /\
  (Z.of_nat (length rom) = offset + 1 ->
     readHalfWord rom offset = Some 0).
Proof.
  intros Hsize Hoff Hw. split; [| split].
  - intros Hin.
    exists (peek rom offset), (peek rom (offset + 1)), (peek rom (offset + 2)),
      (peek rom (offset + 3)), (le16 rom offset), (le16 rom (offset + 2)),
      (le32 rom offset).
    rewrite !readByte_value, !readHalfWord_value, readWord_value by lia.
    repeat match goal with
           | |- context [?a <? ?b] => destruct (Z.ltb_spec a b); [| lia]
           end.
    rewrite !le16_value, le32_value.
    replace (offset + 2 + 1) with (offset + 3) by lia.
    repeat split; try lia.
    unfold readBytes. rewrite (romSize_small rom Hsize), u32_small by lia.
    destruct (Z.ltb_spec (Z.of_nat (length rom)) (offset + 4)); [lia |].
    change 4 with (Z.of_nat 4).
    rewrite (fmap_u8_mid rom offset 4) by lia. cbn.
    by rewrite Z.add_0_r.

  - intros Hin. rewrite readByte_value, readWord_value by lia.
    destruct (Z.ltb_spec offset (Z.of_nat (length rom))); [| lia].
    destruct (Z.ltb_spec (offset + 3) (Z.of_nat (length rom))); [lia |].
    repeat split.
    unfold readBytes. rewrite (romSize_small rom Hsize), u32_small by lia.
    destruct (Z.ltb_spec (Z.of_nat (length rom)) (offset + 4)); [done | lia].
  - intros Hin. rewrite readHalfWord_value by lia.
    destruct (Z.ltb_spec (offset + 1) (Z.of_nat (length rom))); [lia | done].
Qed.

(** Witness for X19: the last byte of the sample ROM can be read, the
    half-word that starts there cannot. *)
Lemma reads_inside_rom_witness :
  readHalfWord sampleRom 18 = Some 0.
Proof.
  apply (reads_inside_rom sampleRom 18 sampleRom_size); [lia | lia | reflexivity].
Defined.

(** ** Palettes *)

Lemma fmap_seq_shift {A} (f : nat -> A) (n : nat) :
  f <$> seq 1 n = (fun k => f (S k)) <$> seq 0 n.
Proof. by rewrite <- fmap_S_seq, <- list_fmap_compose. Qed.

Lemma extractPaletteLoop_value (rom : list Z) (offset : Z) :
  Z.of_nat (length rom) < 4294967296 -> 0 <= offset ->
  forall (n : nat) (i : Z) (palette : list Z),
    0 <= i -> offset + 2 * (i + Z.of_nat n) <= 4294967296 ->
    extractPaletteLoop rom offset i n palette =
      Some (palette ++
            ((fun k : nat => gbaColorToQRgb (halfWordAt rom (offset + 2 * (i + Z.of_nat k))))
               <$> seq 0 n)).
Proof.
  intros Hsize Hoff. induction n as [| n IH]; intros i palette Hi Hfit.
  - cbn. by rewrite app_nil_r.
  - cbn [extractPaletteLoop]. rewrite u32_small by lia.
    rewrite readHalfWord_value by lia. cbn [mbind option_bind].
    rewrite IH by lia. f_equal. rewrite <- app_assoc. f_equal.
    cbn [seq fmap list_fmap app]. rewrite fmap_seq_shift.
    fold (halfWordAt rom (offset + i * 2)).
    f_equal; [do 2 f_equal; lia |].
    apply list_fmap_ext. intros _ k _. do 2 f_equal. lia.
Qed.

(** X20. Where the offset arithmetic does not wrap, [extractPalette]
    returns exactly [colorCount] colours; colour [i] is the conversion of
    the little-endian half-word at [offset + 2 * i], and opaque black
    where that half-word does not lie inside the ROM. *)
Theorem extractPalette_colours (rom : list Z) (offset colorCount : Z) :
  Z.of_nat (length rom) < 4294967296 ->
  0 <= offset < 4294967296 -> offset + 2 * colorCount <= 4294967296 ->
  exists palette,
    extractPalette rom offset colorCount = Some palette /\
    length palette = Z.to_nat colorCount /\
    (forall i, 0 <= i < colorCount ->
       palette !! Z.to_nat i =
         Some (gbaColorToQRgb (halfWordAt rom (offset + 2 * i)))) /\
    (forall i, 0 <= i < colorCount ->
       Z.of_nat (length rom) <= offset + 2 * i + 1 ->
       palette !! Z.to_nat i = Some 0xFF000000).
Proof.
  intros Hsize Hoff Hfit. unfold extractPalette.
  rewrite (extractPaletteLoop_value rom offset Hsize (proj1 Hoff)) by lia. eexists. split; [reflexivity |].
  assert (Hentry : forall i, 0 <= i < colorCount ->
    ([] ++ ((fun k : nat => gbaColorToQRgb (halfWordAt rom (offset + 2 * (0 + Z.of_nat k))))
              <$> seq 0 (Z.to_nat colorCount))) !! Z.to_nat i =
    Some (gbaColorToQRgb (halfWordAt rom (offset + 2 * i)))).
  { intros i Hi. cbn [app]. rewrite list_lookup_fmap, lookup_seq_lt by lia. cbn.
    do 3 f_equal. lia. }
  split; [| split].
  - cbn [app]. by rewrite length_fmap, length_seq.
  - exact Hentry.
  - intros i Hi Hout. rewrite Hentry by done. unfold halfWordAt.
    destruct (Z.ltb_spec (offset + 2 * i + 1) (Z.of_nat (length rom))); [lia | done].
Qed.

(** Witness for X20: two colours at offset 16 of the sample ROM, of
    which only the first lies inside it. *)
Lemma extractPalette_colours_witness :
  exists palette,
    extractPalette sampleRom 16 2 = Some palette /\
    palette !! Z.to_nat 1 = Some 0xFF000000.
Proof.
  destruct (extractPalette_colours sampleRom 16 2 sampleRom_size)
    as (palette & Heq & _ & _ & Hblack); [lia | lia |].
  exists palette. split; [exact Heq |].
  apply Hblack; [lia | cbn; lia].
Defined.

(** ** Glyph widths *)

Lemma extractGlyphWidthsLoop_value (rom : list Z) (offset : Z) :
  Z.of_nat (length rom) < 4294967296 ->
  forall (n : nat) (i : Z) (widths : list Z),
    extractGlyphWidthsLoop rom offset i n widths =
      Some (widths ++
            ((fun k : nat => byteOrZero rom (u32 (offset + (i + Z.of_nat k))))
               <$> seq 0 n)).
Proof.
  intros Hsize. induction n as [| n IH]; intros i widths.
  - cbn. by rewrite app_nil_r.
  - cbn [extractGlyphWidthsLoop].
    rewrite readByte_value by (first [done | apply u32_range]).
    cbn [mbind option_bind].
    rewrite IH. f_equal. rewrite <- app_assoc. f_equal.
    cbn [seq fmap list_fmap app]. rewrite fmap_seq_shift.
    fold (byteOrZero rom (u32 (offset + i))).
    f_equal; [do 2 f_equal; lia |].
    apply list_fmap_ext. intros _ k _. do 2 f_equal. lia.
Qed.

Lemma byteOrZero_range rom o : isByte (byteOrZero rom o).
Proof.
  unfold byteOrZero, isByte. destruct (_ <? _); [apply peek_range | lia].
Qed.

Lemma extractGlyphWidths_table (rom : list Z) (offset : Z) :
  Z.of_nat (length rom) < 4294967296 ->
  exists w,
    extractGlyphWidths rom offset GLYPH_WIDTHS_SIZE = Some w /\
    length w = 512%nat /\ Forall isByte w /\
    forall i, 0 <= i < 512 ->
      w !! Z.to_nat i = Some (byteOrZero rom (u32 (offset + i))).
Proof.
  intros Hsize. unfold extractGlyphWidths.
  rewrite extractGlyphWidthsLoop_value by done. eexists. split; [reflexivity |].
  cbn [app]. split; [| split].
  - by rewrite length_fmap, length_seq.
  - apply Forall_fmap, Forall_forall. intros k _. apply byteOrZero_range.
  - intros i Hi. rewrite list_lookup_fmap, lookup_seq_lt
      by (unfold GLYPH_WIDTHS_SIZE; lia).
    cbn. do 3 f_equal. lia.
Qed.

Lemma default_widths :
  length (replicate 512 6) = 512%nat /\ Forall isByte (replicate 512 6).
Proof.
  split; [apply length_replicate |].
  apply Forall_replicate. unfold isByte. lia.
Qed.

(** X21. Both glyph width getters always return a table of exactly 512
    bytes: width 6 throughout when no ROM is loaded, the font has no
    entry or its offset is zero, and otherwise entry [i] is the ROM byte
    at [offset + i] (modulo [2 ^ 32]), or zero past the end of the ROM. *)
Theorem glyph_widths_table (reader : GBAROReader) (fontIndex : Z) :
  Z.of_nat (length (m_romData reader)) < 4294967296 ->
  exists d w,
    getDefaultGlyphWidths reader = Some d /\
    getGlyphWidthsByIndex reader fontIndex = Some w /\
    length d = 512%nat /\ length w = 512%nat /\
    Forall isByte d /\ Forall isByte w /\
    (romIsLoaded reader = false \/ m_glyphWidthsOffset reader = 0 ->
       d = replicate 512 6) /\
    (romIsLoaded reader = false \/
     qmapFind (m_glyphWidthOffsets reader) fontIndex = None \/
     qmapFind (m_glyphWidthOffsets reader) fontIndex = Some 0 ->
       w = replicate 512 6) /\
    (romIsLoaded reader = true -> m_glyphWidthsOffset reader <> 0 ->
       forall i, 0 <= i < 512 ->
         d !! Z.to_nat i =
           Some (byteOrZero (m_romData reader)
                            (u32 (m_glyphWidthsOffset reader + i)))) /\
    (romIsLoaded reader = true ->
       forall offset,
         qmapFind (m_glyphWidthOffsets reader) fontIndex = Some offset ->
         offset <> 0 ->
         forall i, 0 <= i < 512 ->
           w !! Z.to_nat i =
             Some (byteOrZero (m_romData reader) (u32 (offset + i)))).
Proof.
  intros Hsize.
  destruct default_widths as [Hdl Hdb].
  assert (Hd : exists d, getDefaultGlyphWidths reader = Some d /\
            length d = 512%nat /\ Forall isByte d /\
            (romIsLoaded reader = false \/ m_glyphWidthsOffset reader = 0 ->
               d = replicate 512 6) /\
            (romIsLoaded reader = true -> m_glyphWidthsOffset reader <> 0 ->
               forall i, 0 <= i < 512 ->
                 d !! Z.to_nat i =
                   Some (byteOrZero (m_romData reader)
                                    (u32 (m_glyphWidthsOffset reader + i))))).
  { unfold getDefaultGlyphWidths.
    destruct (romIsLoaded reader) eqn:Hl; cbn [negb orb].
    - destruct (Z.eqb_spec (m_glyphWidthsOffset reader) 0) as [H0 | H0].
      + eexists. repeat split; try exact Hdl; try exact Hdb; done.
      + destruct (extractGlyphWidths_table (m_romData reader)
                    (m_glyphWidthsOffset reader) Hsize) as (w & -> & Hwl & Hwb & Hw).
        exists w. repeat split; try done. intros [? | ?]; done.
    - eexists. repeat split; try exact Hdl; try exact Hdb; done. }
  assert (Hw : exists w, getGlyphWidthsByIndex reader fontIndex = Some w /\
            length w = 512%nat /\ Forall isByte w /\
            (romIsLoaded reader = false \/
             qmapFind (m_glyphWidthOffsets reader) fontIndex = None \/
             qmapFind (m_glyphWidthOffsets reader) fontIndex = Some 0 ->
               w = replicate 512 6) /\
            (romIsLoaded reader = true ->
               forall offset,
                 qmapFind (m_glyphWidthOffsets reader) fontIndex = Some offset ->
                 offset <> 0 ->
                 forall i, 0 <= i < 512 ->
                   w !! Z.to_nat i =
                     Some (byteOrZero (m_romData reader) (u32 (offset + i))))).
  { unfold getGlyphWidthsByIndex.
    destruct (romIsLoaded reader) eqn:Hl; cbn [negb].
    - destruct (qmapFind (m_glyphWidthOffsets reader) fontIndex) as [offset |] eqn:Hf.
      + destruct (Z.eqb_spec offset 0) as [H0 | H0].
        * eexists. repeat split; try exact Hdl; try exact Hdb.
          intros _ o [= <-]. done.
        * destruct (extractGlyphWidths_table (m_romData reader) offset Hsize)
            as (w & -> & Hwl & Hwb & Hw).
          exists w. repeat split; try done.
          -- intros [? | [? | [= ?]]]; done.
          -- intros _ o [= <-] _. exact Hw.
      + eexists. repeat split; try exact Hdl; try exact Hdb; done.
    - eexists. repeat split; try exact Hdl; try exact Hdb; done. }
  destruct Hd as (d & Hd & Hdl' & Hdb' & Hd6 & Hdi).
  destruct Hw as (w & Hw & Hwl' & Hwb' & Hw6 & Hwi).
  exists d, w. repeat split; assumption.
Qed.

(** Witness for X21. *)
Lemma glyph_widths_table_witness :
  exists d w,
    getDefaultGlyphWidths sampleReader = Some d /\
    getGlyphWidthsByIndex sampleReader 0 = Some w /\
    length d = 512%nat /\ w = replicate 512 6.
Proof.
  destruct (glyph_widths_table sampleReader 0 sampleRom_size)
    as (d & w & Hd & Hw & Hdl & _ & _ & _ & _ & Hw6 & _).
  exists d, w. repeat split; try assumption.
  apply Hw6. right. left. reflexivity.
Defined.

(** ** Pointers of the Wonder Card table *)

Lemma readPointer_value (data : list Z) (offset : Z) :
  Z.of_nat (length data) < 4294967296 -> 0 <= offset -> offset + 4 < 4294967296 ->
  readPointer data offset = Some (romOffsetAt data offset).
Proof.
  intros Hsize Hoff Hw. unfold readPointer, romOffsetAt.
  rewrite (romSize_small data Hsize), !u32_small by lia.
  destruct (Z.ltb_spec (Z.of_nat (length data)) (offset + 4)),
           (Z.leb_spec (offset + 4) (Z.of_nat (length data))); try lia; [done |].
  rewrite !byteAt_peek by lia. cbn [mbind option_bind andb].
  fold (le32 data offset). rewrite (u32_small (le32 data offset)) by apply le32_range.
  destruct (_ && _) eqn:E; [| done].
  apply andb_prop in E as [E1 E2]. rewrite u32_small by lia. done.
Qed.

Lemma romOffsetAt_range (data : list Z) (offset : Z) :
  0 <= romOffsetAt data offset < 0x02000000.
Proof.
  unfold romOffsetAt. destruct (_ && _) eqn:E; [| lia].
  apply andb_prop in E as [E E2]. apply andb_prop in E as [_ E1]. lia.
Qed.

(** X22. Where the offset arithmetic does not wrap, [loadWonderCardEntry]
    always returns an entry whose three pointers are ROM offsets below
    32 MiB and whose padding is zero: the all-zero entry when no ROM is
    loaded or [index] is outside [0 .. m_wondercardCount - 1], and
    otherwise the addresses stored at the 16-byte table entry, each
    replaced by zero unless its four bytes lie inside the ROM and hold an
    address in [0x08000000 .. 0x09FFFFFF]. *)
Theorem loadWonderCardEntry_pointers (reader : GBAROReader) (index : Z) :
  Z.of_nat (length (m_romData reader)) < 4294967296 ->
  0 <= m_wondercardTable reader ->
  m_wondercardTable reader + 16 * m_wondercardCount reader <= 4294967296 ->
  exists entry,
    loadWonderCardEntry reader index = Some entry /\
    0 <= tilesetPtr entry < 0x02000000 /\
    0 <= tilemapPtr entry < 0x02000000 /\
    0 <= palettePtr entry < 0x02000000 /\
    padding entry = 0 /\
    (romIsLoaded reader = false \/ index < 0 \/ m_wondercardCount reader <= index ->
       entry = mkWonderCardGraphicsEntry 0 0 0 0) /\
    (romIsLoaded reader = true -> 0 <= index < m_wondercardCount reader ->
       let entryOffset := m_wondercardTable reader + 16 * index in
       tilesetPtr entry = romOffsetAt (m_romData reader) entryOffset /\
       tilemapPtr entry = romOffsetAt (m_romData reader) (entryOffset + 4) /\
       palettePtr entry = romOffsetAt (m_romData reader) (entryOffset + 8)).
Proof.
  intros Hsize Htable Hfit. unfold loadWonderCardEntry.
  destruct (romIsLoaded reader) eqn:Hl; cbn [negb orb];
    [| eexists; repeat split; first [lia | done]].
  destruct (Z.ltb_spec index 0); cbn [orb];
    [eexists; repeat split; first [lia | done] |].
  destruct (Z.leb_spec (m_wondercardCount reader) index);
    [eexists; repeat split; first [lia | done] |].
  cbv zeta. rewrite !u32_small by (rewrite ?u32_small by lia; lia).
  rewrite !readPointer_value by lia. cbn [mbind option_bind].
  replace (m_wondercardTable reader + index * 16)
    with (m_wondercardTable reader + 16 * index) by lia.
  eexists. split; [reflexivity |]. cbn [tilesetPtr tilemapPtr palettePtr padding].
  repeat split; try apply romOffsetAt_range.
  intros [? | [? | ?]]; [done | lia | lia].
Qed.

(** Witness for X22: the table entry of the sample ROM. *)
Lemma loadWonderCardEntry_pointers_witness :
  exists entry,
    loadWonderCardEntry sampleReader 0 = Some entry /\ padding entry = 0.
Proof.
  destruct (loadWonderCardEntry_pointers sampleReader 0 sampleRom_size)
    as (entry & Heq & _ & _ & _ & Hpad & _); [cbn; lia | cbn; lia |].
  exists entry. split; assumption.
Defined.

(** ** Tilemaps *)

Lemma land_pow2_testbit (v k : Z) :
  0 <= k -> Z.land v (2 ^ k) = if Z.testbit v k then 2 ^ k else 0.
Proof.
  intros Hk. apply Z.bits_inj'. intros n Hn.
  rewrite Z.land_spec, Z.pow2_bits_eqb by lia.
  destruct (Z.eqb_spec k n) as [-> | Hne].
  - destruct (Z.testbit v n); cbn; [| by rewrite Z.bits_0].
    rewrite Z.pow2_bits_eqb by lia. by rewrite Z.eqb_refl.
  - rewrite andb_false_r.
    destruct (Z.testbit v k); [| by rewrite Z.bits_0].
    rewrite Z.pow2_bits_eqb by lia. symmetry. by apply Z.eqb_neq.
Qed.

Lemma flag_testbit (v k : Z) :
  0 <= k -> negb (Z.land v (2 ^ k) =? 0) = Z.testbit v k.
Proof.
  intros Hk. rewrite land_pow2_testbit by done.
  destruct (Z.testbit v k); [| done].
  assert (0 < 2 ^ k) by (apply Z.pow_pos_nonneg; lia).
  destruct (Z.eqb_spec (2 ^ k) 0); [lia | done].
Qed.

Lemma tilemapEntryOf_fields (v : Z) :
  0 <= v < 65536 ->
  tileIndex (tilemapEntryOf v) = v mod 1024 /\
  paletteIndex (tilemapEntryOf v) = v / 4096 /\
  hFlip (tilemapEntryOf v) = Z.testbit v 10 /\
  vFlip (tilemapEntryOf v) = Z.testbit v 11.
Proof.
  intros Hv. unfold tilemapEntryOf. cbn [tileIndex paletteIndex hFlip vFlip].
  split; [| split; [| split]].
  - change 0x3FF with (Z.ones 10). by rewrite Z.land_ones by lia.
  - change 0xF with (Z.ones 4). rewrite Z.land_ones, shiftr_div by lia.
    change (2 ^ 12) with 4096. change (2 ^ 4) with 16.
    assert (0 <= v / 4096 < 16)
      by (split; [apply Z.div_pos; lia | apply Z.div_lt_upper_bound; lia]).
    rewrite Z.mod_small by lia. apply u8_small. lia.
  - apply (flag_testbit v 10). lia.
  - apply (flag_testbit v 11). lia.
Qed.

Lemma loadTilemapLoop_value (data : list Z) :
  forall (fuel : nat) (i : Z) (tilemap : list TilemapEntry),
    0 <= i <= Z.of_nat (length data) ->
    Z.of_nat (length data) - i <= Z.of_nat fuel ->
    loadTilemapLoop fuel data i tilemap =
      Some (tilemap ++
            ((fun k : nat => tilemapEntryOf (le16 data (i + 2 * Z.of_nat k)))
               <$> seq 0 (Z.to_nat ((Z.of_nat (length data) - i) / 2)))).
Proof.
  induction fuel as [| fuel IH]; intros i tilemap Hi Hfuel.
  - cbn [loadTilemapLoop].
    destruct (Z.ltb_spec (i + 1) (Z.of_nat (length data))); [lia |].
    replace (Z.of_nat (length data) - i) with 0 by lia. cbn. by rewrite app_nil_r.
  - cbn [loadTilemapLoop].
    destruct (Z.ltb_spec (i + 1) (Z.of_nat (length data))) as [Hlt | Hge].
    + rewrite !byteAt_peek by lia. cbn [mbind option_bind].
      fold (le16 data i). rewrite (u16_small (le16 data i)) by apply le16_range.
      destruct (decide (i + 2 <= Z.of_nat (length data))) as [Hin | Hout]; [| lia].
      rewrite IH by lia. f_equal. rewrite <- app_assoc. f_equal.
      replace (Z.to_nat ((Z.of_nat (length data) - i) / 2))
        with (S (Z.to_nat ((Z.of_nat (length data) - (i + 2)) / 2))).
      2:{ replace (Z.of_nat (length data) - i)
            with (1 * 2 + (Z.of_nat (length data) - (i + 2))) by lia.
          rewrite Z.div_add_l by lia.
          assert (0 <= (Z.of_nat (length data) - (i + 2)) / 2)
            by (apply Z.div_pos; lia).
          lia. }
      cbn [seq fmap list_fmap app]. rewrite fmap_seq_shift.
      f_equal; [do 2 f_equal; lia |].
      apply list_fmap_ext. intros _ k _. do 2 f_equal. lia.
    + assert (Hz : (Z.of_nat (length data) - i) / 2 = 0)
        by (apply Z.div_small; lia).
      rewrite Hz. cbn. by rewrite app_nil_r.
Qed.

(** X23. [loadTilemap] turns every complete pair of bytes into one entry
    and ignores an odd last byte.  Entry [i] splits the little-endian
    half-word [v] at [2 * i] without loss: the tile index is its low ten
    bits, the flips are bits 10 and 11 and the palette index its top four
    bits. *)
Theorem loadTilemap_entries (data : list Z) :
  exists tilemap,
    loadTilemap data = Some tilemap /\
    Z.of_nat (length tilemap) = Z.of_nat (length data) / 2 /\
    forall i, 0 <= i < Z.of_nat (length data) / 2 ->
      exists entry,
        tilemap !! Z.to_nat i = Some entry /\
        let v := le16 data (2 * i) in
        tileIndex entry = v mod 1024 /\
        paletteIndex entry = v / 4096 /\
        hFlip entry = Z.testbit v 10 /\
        vFlip entry = Z.testbit v 11 /\
        0 <= tileIndex entry < 1024 /\
        0 <= paletteIndex entry < 16 /\
        tileIndex entry + 1024 * Z.b2z (hFlip entry)
          + 2048 * Z.b2z (vFlip entry) + 4096 * paletteIndex entry = v.
Proof.
  unfold loadTilemap. rewrite loadTilemapLoop_value by lia.
  eexists. split; [reflexivity |]. cbn [app]. rewrite Z.sub_0_r.
  assert (Hn : 0 <= Z.of_nat (length data) / 2) by (apply Z.div_pos; lia).
  split; [rewrite length_fmap, length_seq; lia |].
  intros i Hi. exists (tilemapEntryOf (le16 data (2 * i))). split.
  { rewrite list_lookup_fmap, lookup_seq_lt by lia. cbn. do 3 f_equal. lia. }
  cbv zeta. set (v := le16 data (2 * i)).
  pose proof (le16_range data (2 * i)) as Hv. fold v in Hv.
  destruct (tilemapEntryOf_fields v Hv) as (-> & -> & -> & ->).
  rewrite !Z.testbit_spec' by lia.
  repeat split; try (clearbody v; Z.to_euclidean_division_equations; lia).
Qed.

(** ** The size of decompressed data *)

Lemma copyLoop_bounded (declared copyPos : Z) : forall (n : nat) d j d',
  Z.of_nat (length d) <= declared -> Forall isByte d ->
  copyLoop d copyPos j n declared = Some d' ->
  Z.of_nat (length d') <= declared /\ Forall isByte d'.
Proof.
  induction n as [| n IH]; intros d j d' Hle Hd H; cbn [copyLoop] in H.
  - by injection H as <-.
  - destruct (Z.leb_spec declared (Z.of_nat (length d))); [by injection H as <- |].
    destruct (byteAt d (copyPos + j)) as [b |] eqn:Hb; [| discriminate].
    cbn [mbind option_bind] in H.
    apply byteAt_Some in Hb as (_ & Hb & _).
    apply (IH _ _ _) in H; [done | rewrite length_app; cbn; lia |].
    apply Forall_app. split; [done | by apply Forall_singleton].
Qed.

Lemma processBlocks_bounded (rom : list Z) (declared : Z) :
  forall (n : nat) flags srcPos d srcPos' d',
    Z.of_nat (length d) <= declared -> Forall isByte d ->
    processBlocks rom declared n flags srcPos d = Some (inr (srcPos', d')) ->
    Z.of_nat (length d') <= declared /\ Forall isByte d'.
Proof.
  induction n as [| n IH]; intros flags srcPos d srcPos' d' Hle Hd H;
    cbn [processBlocks] in H.
  - by injection H as _ <-.
  - destruct (Z.leb_spec declared (Z.of_nat (length d))); [by injection H as _ <- |].
    destruct (romSize rom <=? srcPos); [discriminate |].
    destruct (negb (Z.land flags 128 =? 0)).
    + destruct (romSize rom <=? u32 (srcPos + 1)); [discriminate |].
      destruct (byteAt rom srcPos) as [byte1 |]; [| discriminate].
      destruct (byteAt rom (u32 (srcPos + 1))) as [byte2 |]; [| discriminate].
      cbn [mbind option_bind] in H. cbv zeta in H.
      destruct (_ <? 0); [discriminate |].
      destruct (copyLoop d _ 0 _ declared) as [dc |] eqn:Hc; [| discriminate].
      cbn [mbind option_bind] in H.
      apply copyLoop_bounded in Hc as [Hcl Hcb]; [| lia | done].
      by apply (IH _ _ _ _ _ Hcl Hcb) in H.
    + destruct (byteAt rom srcPos) as [b |] eqn:Hb; [| discriminate].
      cbn [mbind option_bind] in H.
      apply byteAt_Some in Hb as (_ & Hb & _).
      apply (IH _ _ _ _ _) in H; [done | rewrite length_app; cbn; lia |].
      apply Forall_app. split; [done | by apply Forall_singleton].
Qed.

Lemma decompressLoop_bounded (rom : list Z) (declared : Z) :
  forall (fuel : nat) srcPos d out,
    Z.of_nat (length d) <= declared -> Forall isByte d ->
    decompressLoop fuel rom declared srcPos d = Some (LZData out) ->
    Z.of_nat (length out) = declared /\ Forall isByte out.
Proof.
  induction fuel as [| fuel IH]; intros srcPos d out Hle Hd H;
    cbn [decompressLoop] in H.
  - destruct (Z.ltb_spec (Z.of_nat (length d)) declared); [discriminate |].
    injection H as <-. split; [lia | done].
  - destruct (Z.ltb_spec (Z.of_nat (length d)) declared);
      [| injection H as <-; split; [lia | done]].
    destruct (romSize rom <=? srcPos); [discriminate |].
    destruct (byteAt rom srcPos) as [flags |]; [| discriminate].
    cbn [mbind option_bind] in H.
    destruct (processBlocks rom declared 8 flags _ d) as [[e | [srcPos' d']] |] eqn:Hp;
      cbn [mbind option_bind] in H; [discriminate | | discriminate].
    apply processBlocks_bounded in Hp as [Hpl Hpb]; [| lia | done].
    by apply (IH _ _ _ Hpl Hpb) in H.
Qed.

Lemma lzDeclaredSize_range (rom : list Z) (offset declared : Z) :
  lzDeclaredSize rom offset = Some declared -> 0 <= declared < 4294967296.
Proof.
  unfold lzDeclaredSize. intros H.
  destruct (readByte rom (u32 (offset + 1))) as [b1 |]; [| discriminate].
  cbn [mbind option_bind] in H.
  destruct (readByte rom (u32 (offset + 2))) as [b2 |]; [| discriminate].
  cbn [mbind option_bind] in H.
  destruct (readByte rom (u32 (offset + 3))) as [b3 |]; [| discriminate].
  cbn [mbind option_bind] in H. injection H as <-. apply u32_range.
Qed.

(** X24. Whatever the bytes of the ROM are, data that [decompressLZ77]
    returns has exactly the length the header declares, between 1 byte and
    1 MiB, the header byte is [0x10] and every element is a byte: a
    malformed stream can only produce an error, never short or oversized
    data. *)
Theorem decompressLZ77_data_size (rom : list Z) (offset : Z) (out : list Z) :
  decompressLZ77 rom offset = Some (LZData out) ->
  readByte rom offset = Some 0x10 /\
  lzDeclaredSize rom offset = Some (Z.of_nat (length out)) /\
  0 < Z.of_nat (length out) <= 0x100000 /\
  Forall isByte out.
Proof.
  unfold decompressLZ77. intros H.
  destruct (romSize rom <? u32 (offset + 4)); [discriminate |].
  destruct (readByte rom offset) as [compressionType |]; [| discriminate].
  cbn [mbind option_bind] in H.
  destruct (Z.eqb_spec compressionType 0x10) as [Hc | ?]; [| discriminate].
  subst compressionType. cbn [negb] in H.
  destruct (lzDeclaredSize rom offset) as [declared |] eqn:Hd; [| discriminate].
  cbn [mbind option_bind] in H.
  apply lzDeclaredSize_range in Hd.
  destruct (Z.eqb_spec declared 0); [discriminate |].
  destruct (Z.ltb_spec 0x100000 declared); [discriminate |].
  cbn [orb] in H.
  apply decompressLoop_bounded in H as [Hlen Hbytes];
    [| cbn; lia | apply Forall_nil_2].
  rewrite Hlen. repeat split; [lia | lia | done].
Qed.

(** Witness for X24: the stream with the overlapping back reference. *)
Lemma decompressLZ77_data_size_witness :
  lzDeclaredSize overlapStream 0 = Some 6.
Proof.
  apply (decompressLZ77_data_size overlapStream 0 (replicate 6 0x41) overlapStream_data).
Defined.

(** ** Names *)

Lemma decodeGen3Loop_spec data : forall n i result,
  0 <= i -> (Z.to_nat i + n <= length data)%nat ->
  decodeGen3Loop data i n result =
  Some (result ++ nameChars (u8 <$> take n (drop (Z.to_nat i) data))).
Proof.
  induction n as [| n IH]; intros i result Hi Hfit.
  - rewrite take_0. cbn. by rewrite app_nil_r.
  - cbn [decodeGen3Loop].
    destruct (data !! Z.to_nat i) as [x |] eqn:Hx;
      [| apply lookup_ge_None in Hx; lia].
    rewrite (drop_S _ _ _ Hx). rewrite firstn_cons.
    cbn [fmap list_fmap nameChars].
    unfold byteAt. case_decide as Hin; [| apply lookup_lt_Some in Hx; lia].
    rewrite Hx. cbn [fmap option_fmap option_map mbind option_bind].
    destruct (u8 x =? 255); [by rewrite app_nil_r |].
    rewrite IH by lia. cbv zeta.
    replace (Z.to_nat (i + 1)) with (S (Z.to_nat i)) by lia.
    case_bool_decide as Hch; cbn [negb].
    + by rewrite Hch.
    + by rewrite <- app_assoc.
Qed.

Lemma length_trimmedStart s : (length (trimmedStart s) <= length s)%nat.
Proof.
  induction s as [| c s IH]; [done |]. cbn [trimmedStart].
  destruct (isSpace c); cbn; lia.
Qed.

Lemma head_trimmedStart s c : head (trimmedStart s) = Some c -> isSpace c = false.
Proof.
  induction s as [| a s IH]; [done |]. cbn [trimmedStart].
  destruct (isSpace a) eqn:E; [done |]. cbn. by intros [= <-].
Qed.

Lemma last_trimmedStart s c : list.last (trimmedStart s) = Some c -> list.last s = Some c.
Proof.
  induction s as [| a s IH]; [done |]. cbn [trimmedStart].
  destruct (isSpace a); [| done].
  intros H. destruct s as [| b s]; [done |]. by apply IH in H.
Qed.

Lemma trimmed_ends s :
  (length (trimmed s) <= length s)%nat /\
  (forall c, head (trimmed s) = Some c -> isSpace c = false) /\
  (forall c, list.last (trimmed s) = Some c -> isSpace c = false).
Proof.
  unfold trimmed. split; [| split].
  - rewrite length_reverse.
    pose proof (length_trimmedStart (reverse (trimmedStart s))) as H.
    rewrite length_reverse in H. pose proof (length_trimmedStart s). lia.
  - intros c. rewrite head_reverse. intros H.
    apply last_trimmedStart in H. rewrite last_reverse in H.
    by apply head_trimmedStart in H.
  - intros c. rewrite last_reverse. apply head_trimmedStart.
Qed.

Lemma trimmedStart_clean s :
  (forall c, head s = Some c -> isSpace c = false) -> trimmedStart s = s.
Proof.
  destruct s as [| a s]; [done |]. intros H. cbn [trimmedStart].
  by rewrite (H a eq_refl).
Qed.

Lemma hashValue_entry (h : list (Z * QString)) (key : Z) (d : QString) :
  hashValue h key d = d \/ (key, hashValue h key d) ∈ h.
Proof.
  induction h as [| [k v] h IH]; [by left |]. cbn [hashValue].
  destruct (Z.eqb_spec k key) as [-> | ?]; [right; apply list_elem_of_here |].
  destruct IH as [-> | IH]; [by left | right; by apply list_elem_of_further].
Qed.

Lemma charset_single :
  Forall (fun kv : Z * QString => length kv.2 = 1%nat) getGen3Charset.
Proof. unfold getGen3Charset. repeat constructor. Qed.

Lemma length_charset_value (byte : Z) :
  (length (hashValue getGen3Charset byte []) <= 1)%nat.
Proof.
  destruct (hashValue_entry getGen3Charset byte []) as [-> | H]; [cbn; lia |].
  pose proof charset_single as Hs. rewrite Forall_forall in Hs.
  apply list_elem_of_In, Hs in H.
  change (length (hashValue getGen3Charset byte []) = 1%nat) in H. lia.
Qed.

Lemma length_nameChars bytes : (length (nameChars bytes) <= length bytes)%nat.
Proof.
  induction bytes as [| b bytes IH]; [done |]. cbn [nameChars].
  destruct (b =? 255); [cbn; lia |].
  rewrite length_app. pose proof (length_charset_value b). cbn [length]. lia.
Qed.

Lemma charset_agrees :
  forallb (fun kv : Z * QString =>
             (kv.1 =? 0xB4) || bool_decide (decodeChar kv.1 = kv.2))
          getGen3Charset = true.
Proof. vm_compute. reflexivity. Qed.

Lemma hashValue_key (h : list (Z * QString)) (key : Z) (d : QString) :
  key ∈ h.*1 -> (key, hashValue h key d) ∈ h.
Proof.
  induction h as [| [k v] h IH]; [by intros ?%elem_of_nil |].
  cbn [hashValue fmap list_fmap fst]. intros Hk.
  destruct (Z.eqb_spec k key) as [-> | Hne]; [apply list_elem_of_here |].
  apply elem_of_cons in Hk as [-> | Hk]; [done |].
  by apply list_elem_of_further, IH.
Qed.

Lemma plainNameByte_decodes (byte : Z) :
  plainNameByte byte = true -> byte <> 0xFF ->
  hashValue getGen3Charset byte [] = decodeChar byte.
Proof.
  unfold plainNameByte. intros H Hne.
  destruct (Z.eqb_spec byte 0xFF); [done |]. cbn [orb] in H.
  apply andb_prop in H as [Hk Hb]. apply bool_decide_eq_true_1 in Hk.
  apply (hashValue_key _ _ []) in Hk.
  pose proof charset_agrees as Ha. rewrite forallb_forall in Ha.
  apply list_elem_of_In, Ha in Hk. cbn [fst snd] in Hk.
  destruct (byte =? 0xB4); [done |]. cbn [orb] in Hk.
  by apply bool_decide_eq_true_1 in Hk.
Qed.

Lemma nameChars_decodeList bytes :
  forallb plainNameByte bytes = true -> nameChars bytes = decodeList bytes.
Proof.
  induction bytes as [| b bytes IH]; [done |]. cbn [forallb nameChars decodeList].
  intros [Hb Hrest]%andb_prop.
  destruct (Z.eqb_spec b 255); [done |].
  by rewrite plainNameByte_decodes, IH.
Qed.

(** X25. [decodeGen3String] never fails. It maps the bytes in front of the
    first [0xFF] through the name alphabet, dropping bytes that are not
    in it, and trims the result: the name is no longer than the data and
    neither starts nor ends with white space. On data made of alphabet
    bytes other than the apostrophe [0xB4] it is the trimmed
    [MysteryGift::decodeText] of the same bytes. *)
Theorem decodeGen3String_spec (data : list Z) :
  exists name,
    decodeGen3String data = Some name /\
    name = trimmed (nameChars (u8 <$> data)) /\
    (length name <= length data)%nat /\
    (forall c, head name = Some c -> isSpace c = false) /\
    (forall c, list.last name = Some c -> isSpace c = false) /\
    trimmed name = name /\
    (forallb plainNameByte (u8 <$> data) = true ->
       name = trimmed (decodeText data (Z.of_nat (length data)))).
Proof.
  unfold decodeGen3String.
  rewrite decodeGen3Loop_spec by (change (Z.to_nat 0) with 0%nat; lia).
  change (Z.to_nat 0) with 0%nat. rewrite drop_0, firstn_all. cbn [app fmap option_fmap option_map].
  eexists. split; [reflexivity |]. split; [reflexivity |].
  destruct (trimmed_ends (nameChars (u8 <$> data))) as (Hlen & Hhead & Hlast).
  split; [| split; [| split; [| split]]].
  - pose proof (length_nameChars (u8 <$> data)) as H.
    rewrite length_fmap in H. lia.
  - exact Hhead.
  - exact Hlast.
  - set (name := trimmed (nameChars (u8 <$> data))) in *.
    unfold trimmed at 1. rewrite (trimmedStart_clean name Hhead).
    rewrite trimmedStart_clean; [apply reverse_involutive |].
    intros c. rewrite head_reverse. apply Hlast.
  - intros Hplain. rewrite nameChars_decodeList by done.
    rewrite decodeText_spec by lia. by rewrite firstn_all.
Qed.
